(* ===== verification/_CoqProject ===== *)
-Q . S2P
Prelude.v
GoStr.v
Float64.v
FloatOrder.v
Schema.v
Intern.v
RecordModel.v
Metrics.v
Watermark.v
Config.v
FastNum.v
Wire.v
Coders.v
Batch.v
BatchCoder.v
Trackers.v
ByteStream.v
Cast.v
Resilience.v
Pipe.v
BatchBuffer.v
SqlSource.v
MongoSource.v
Storage.v
FileSink.v
ParquetSink.v
UrlQuery.v
JsonUtils.v
HttpClient.v
RestSource.v
ApiSink.v
BigQuery.v
Csv.v
Jsonl.v
Connectors.v
Graph.v
SliceWire.v
Prefetch.v
Secrets.v
SqlPool.v
MetricsWriter.v
Main.v
Workers.v
CodecPools.v
Registry.v
