(* ===== verification/Prelude.v ===== *)
(** * OmniBeam: the verification library

    A model of OmniBeam (Go, [src/]), a batch ingestion engine on Apache Beam. A
    manifest describes one source (files, a relational database, MongoDB, a
    paged REST API), a schema and a destination; workers read disjoint parts of the
    source, cast every record to the schema, send what does not cast to a
    dead-letter output, write the rest, count everything, and emit the watermark
    the next incremental run starts from.

    ** Conventions

    Go's integers are [Z] with the wrap-around written out ([i64], [u64], [i32],
    [u32], [u16] of this file); bytes are Coq's [ascii], strings Coq's [string];
    floats are IEEE binary64 with the Standard Library's rounding ([Float64.v]). A
    Go function that can fail returns [result]: a value, an error ([error] keeps
    the wrapped errors of [fmt.Errorf]) or a panic. Maps are [gmap]s, association
    lists where the order or duplicates are visible; what depends on Go's random
    map order is stated for every order. Pointers that may be nil are options.
    Shared objects are threaded as state (the intern pool, the cached record of
    an iterator), and goroutines are step relations over their interleavings.

    What the program only calls is given by classes, with the laws a theorem
    uses as hypotheses: quoting and formatting of floats ([GoQuote],
    [GoFormatFloat]), Unicode case folding, the time parser, regular expressions,
    JSON, the database driver, storage and decoders.

    ** Files and what they model

    - [Prelude.v], [GoStr.v], [Float64.v], [FloatOrder.v]: the language and its
      library (results, machine integers, strings and decimal text, floats and the
      order of their operations). [UrlQuery.v]: the part of [net/url] the program
      uses.
    - [Schema.v]: [internal/domain/schema.go], [validator.go], [defaults.go],
      [errors.go], [audit.go].
    - [Intern.v]: [pkg/intern]. [RecordModel.v]: [internal/domain/record.go].
    - [FastNum.v]: [pkg/fastnum] and [internal/domain/coercion.go].
    - [Metrics.v]: [internal/domain/metrics.go], [internal/beam/core/metrics_combiner.go].
    - [Watermark.v]: [internal/domain/watermark_value.go], [watermark_config.go],
      [cmd/pipeline/watermark_output.go].
    - [Config.v]: [internal/domain/config*.go] and [uri_builder.go].
    - [Wire.v], [Coders.v]: [internal/beam/core/coders_helpers.go], [coders.go].
    - [Batch.v], [BatchCoder.v]: [internal/domain/record_batch.go],
      [internal/beam/core/record_batch_coder.go].
    - [Trackers.v]: the restriction trackers of [internal/beam/streams],
      [internal/beam/partitions] and [internal/beam/paged_api], behind one class.
    - [ByteStream.v]: [internal/beam/streams/byte_stream_sdf.go].
    - [Cast.v]: [internal/beam/core/cast_and_validate.go], [audit_enricher.go],
      [pkg/telemetry/sanitizer.go], and [fused_enrich_and_validate.go] with its own copy of
      the loops of the other two.
    - [Resilience.v]: [pkg/resilience]. [Pipe.v]: the bounded channel between the
      goroutine that reads a slice and its consumer.
    - [BatchBuffer.v]: [internal/beam/core/batch_buffer.go].
    - [SqlSource.v]: [internal/adapters/partitions/sql],
      [internal/beam/partitions/partition_query_sdf.go].
    - [MongoSource.v]: [internal/adapters/partitions/mongo].
    - [Storage.v]: [internal/ports/storage.go] as classes with laws, and
      [internal/adapters/storage], whose local files discharge them.
    - [FileSink.v]: [internal/beam/core/stager.go], [pkg/ioutils/hash_writer.go],
      [stream_pipeline.go], [internal/beam/streams/stream_file_sink.go],
      [internal/beam/core/dlq_sink.go], [audit_sink.go], [metrics_sink.go],
      [internal/adapters/streams/formatters/file_sink.go]; against the classes of
      [Storage.v].
    - [ParquetSink.v]: [internal/beam/streams/parquet_schema.go], [parquet_sink.go].
    - [JsonUtils.v]: [pkg/jsonutils/extractor.go]. [HttpClient.v]: [client.go] and
      [token_bucket.go] of [internal/adapters/paged_api/source], on the retry and
      the circuit breaker of [Resilience.v]. [RestSource.v]: [rest_reader.go] there
      and [internal/beam/paged_api/paged_api_sdf.go], on that client.
    - [ApiSink.v]: [internal/adapters/paged_api/sink] and
      [internal/beam/paged_api/api_sink.go], the latter against a class
      [BatchAPIWriter] that the former implements.
    - [BigQuery.v]: the serializer, the storage-write adapter and the sink of
      BigQuery, against a class of writers; the sink's theorem is about the calls any
      writer receives.
    - [Csv.v], [Jsonl.v]: the formatters and parsers of delimited text and of JSON
      lines in [internal/adapters/streams], with the parts of [encoding/csv] and
      [bufio] they run; the parsers discharge what [ByteStream.v] asks of a decoder.
    - [Connectors.v]: [parsers/registry.go], [formatters/registry.go] and [init.go],
      [codecs], [internal/ports/registry.go] and [cmd/pipeline/registry.go]: which
      source and which sink a configuration builds. [Registry.v]: the same registries
      filled in any order of the [init] functions. [CodecPools.v]: the pools of
      compressors, decompressors and buffers behind [codecs/compression] and
      [formatters/pool.go].
    - [Graph.v]: [internal/beam/core/graph_builder.go], the stages from the records of a
      source to the sinks and the metrics, for any distribution of the elements, and the
      coder of slices. [SliceWire.v]: slices from their discovery over that coder to the
      queries of the workers.
    - [Prefetch.v]: [pkg/ioutils/prefetch_reader.go], the goroutine, the reads and the
      close as one step relation.
    - [Secrets.v]: [internal/adapters/secrets]. [SqlPool.v]:
      [partitions/sql/connection_pool.go], the factories of readers there and in
      [partitions/mongo], [Setup] and [Teardown]: a process as a step relation over its
      pools and clients, resolving URIs with [Secrets.v].
    - [MetricsWriter.v]: [cmd/pipeline/metrics_writer.go] and [error_file.go], over a disk
      whose calls can fail. [Main.v]: [cmd/pipeline/main.go] and the source builders of
      [registry.go]: the manifest, the resolvers, the source, the run, the report, the exit
      status. [Workers.v]: [cmd/pipeline/worker_init.go] and the providers a worker
      rebuilds its functions with.

    A method [T.m] of the code is [m] or [T_m] here, with its receiver as an
    argument and its new state in the result.

    ** What the theorems show

    - Reading: the slices of a relational table, as its workers decode them, and the
      partitions of a collection cover every row and document, with the exceptions
      stated (keys whose float64 moves, NULL keys, boundaries); byte
      ranges read every line of a file once, except lines at interior chunk
      boundaries; pools of trackers process every position once under any
      interleaving of claims and splits; the reader of a slice and its worker
      finish and lose nothing, up to the capacity of the error channel.
    - Records: every element function emits exactly one valid record or one dead
      letter, valid records have the types of their columns, casting is
      idempotent, sensitive values do not reach payloads; batches refine lists of
      rows; the parsers agree with the numbers they read; the fused function and the
      composition of the two it replaces, translated apart, agree.
    - Transport: the binary coders read back what they wrote, return on every
      input and consume a prefix of it.
    - Writing: on any storage with atomic commits, and whatever calls fail, a bundle
      of a file, Parquet, dead-letter or audit sink publishes exactly its records
      or nothing; the direct Parquet encoder agrees with the reference row map on the
      cells a record has; a bundle of the API sink has each batch accepted, or publishes
      its dead letters; a bundle of the BigQuery sink hands every record to its writer
      once, in order, and commits last (the repository's own writer only counts them).
    - Remote calls: whatever the server answers, the HTTP client returns, sends at
      most the configured attempts of the same authorized request, and accepts no
      transient status; the REST source reads, once and in order, every row when the
      server tells the total, and otherwise the pages it is told or the first one.
    - Control: a validated manifest is a fixed point of the defaults and meets the
      program's assumptions; the watermark a run emits is the text of the greatest value
      seen, exact for integers and strings, and the SQL literals of watermarks are
      single tokens of standard SQL; the circuit breaker (which counts failures, not
      consecutive ones), the retry loop and the batch sizer keep their contracts; the
      combiners of metrics do not depend on how a runner bundles and merges.

    - Files as records: what the CSV formatter writes the parser reads back; a file of
      JSON lines, cut in ranges and read by several workers, gives the records of its
      lines, and a worker fails exactly on the lines that are no object.
    - Composition: whatever the distribution, the sink gets the records that cast, every
      other record is one dead letter, and the metrics count both; each type and output
      format of a destination builds the sink of its name, or the dispatcher calls itself
      for ever; registrations commute; a
      trace of calls cannot tell the pooled compressors from fresh ones.
    - Process and workers: the pools of connections of a process are open, shared and
      per database; a worker that is sent a relational source reads the database its
      slices were computed on, and is given the storage, decoder, formatter and
      compressor the submitting process would use; a secret's reference gives the field
      it names; a prefetching reader is the reader below it and always terminates; the
      exit status and the files of the command line tell what happened; the report counts
      what lies in the output directory.

    Where the code does less than it means to, a lemma of the component's file
    exhibits the case.

    ** Bounds and fuel

    Loops over data are structural in the data. The digit loops have the fuel of
    the 20 digits of 64 bits ([digitsFuel_spec] shows it is enough); the decoders
    recurse on the number of remaining elements, which the input bounds; the read
    loop of [ByteStream.v] recurses on the remaining bytes. [DecodeGenericRecord_total]
    and the specifications of the loops state that results are always produced.
    The waits of the rate limiter take fuel, one unit per turn of the loop:
    [waitLoop_total] of [HttpClient.v] shows that some fuel is enough, and theorems
    on the client and on what uses it say that there is a fuel such that it and
    every larger one give the same result.

    ** Not modelled

    The Beam SDK (its runner is any distribution of elements and any tree of merges in
    [Graph.v], a parameter in [Main.v]); the clients of storage, databases, secret managers and
    BigQuery, which are parameters with the laws used; the set-up of OpenTelemetry
    ([internal/adapters/telemetry], [pkg/telemetry/trace_context.go]), spans, counters and
    logs, which no result depends on; the locks around the providers and registries,
    which are set before the harness starts; [pkg/testutils], generators for tests. *)
From stdpp Require Export base gmap strings list list_numbers fin_maps sorting.
From Stdlib Require Export ZArith Lia Ascii.
Open Scope Z_scope.

(** ** Go errors and results

    A Go [error] is either a package-level sentinel ([errors.New]) or a value
    built by [fmt.Errorf], whose [%w] operands are the wrapped errors. A call
    returns normally with a value, returns an error, or panics. *)
Inductive error : Type :=
  | Sentinel (name : string)
  | Errorf (msg : string) (wrapped : list error).

Inductive result (A : Type) : Type :=
  | Ok (a : A)
  | Err (e : error)
  | Panic (msg : string).
Arguments Ok {A} a.
Arguments Err {A} e.
Arguments Panic {A} msg.

(** [errors.Is(e, target)] for a sentinel [target]. *)
Fixpoint errors_Is (target : string) (e : error) : bool :=
  match e with
  | Sentinel n => bool_decide (n = target)
  | Errorf _ ws => existsb (errors_Is target) ws
  end.

#[export] Instance result_ret : MRet result := fun _ a => Ok a.
#[export] Instance result_bind : MBind result := fun _ _ f m =>
  match m with Ok a => f a | Err e => Err e | Panic s => Panic s end.
#[export] Instance result_fmap : FMap result := fun _ _ f m =>
  match m with Ok a => Ok (f a) | Err e => Err e | Panic s => Panic s end.

(** The text [err.Error()] of an error: [Errorf] carries its formatted text. *)
Definition Error (e : error) : string :=
  match e with Sentinel n => n | Errorf msg _ => msg end.

(** [fmt.Errorf("pre%w", err)] around the error of a call. *)
Definition wrapErr {A} (pre : string) (r : result A) : result A :=
  match r with Err e => Err (Errorf (pre +:+ Error e) [e]) | r => r end.

(** [strconv.Quote], the [%q] verb: escaping of a string's unprintable runes is
    left to the standard library. *)
Class GoQuote := Quote : string -> string.

Definition is_Ok {A} (r : result A) : bool :=
  match r with Ok _ => true | _ => false end.

(** ** Machine integers

    Go's fixed-width integers are [Z] with the wrap-around written out:
    [u64 z] is the value of [uint64(z)], [i64 z] the value of [int64(z)].
    [int] is 64 bits wide. *)
Definition uwrap (w : Z) (z : Z) : Z := z mod 2 ^ w.
Definition swrap (w : Z) (z : Z) : Z := (z + 2 ^ (w - 1)) mod 2 ^ w - 2 ^ (w - 1).
Definition u8 := uwrap 8.
Definition u16 := uwrap 16.
Definition u32 := uwrap 32.
Definition u64 := uwrap 64.
Definition i32 := swrap 32.
Definition i64 := swrap 64.

Definition in_u (w z : Z) : Prop := 0 <= z < 2 ^ w.
Definition in_s (w z : Z) : Prop := - 2 ^ (w - 1) <= z < 2 ^ (w - 1).
Abbreviation in_u32 := (in_u 32).
Abbreviation in_u64 := (in_u 64).
Abbreviation in_i32 := (in_s 32).
Abbreviation in_i64 := (in_s 64).

Definition MaxInt64 : Z := 2 ^ 63 - 1.
Definition MaxUint64 : Z := 2 ^ 64 - 1.

(** Go slices and strings have a length that fits in an [int]. *)
Definition zlen {A} (l : list A) : Z := Z.of_nat (length l).

Declare Scope go_scope.
Delimit Scope go_scope with go.
Notation "s =s t" := (String.eqb s t) (at level 70) : go_scope.
Open Scope go_scope.

(** ** Automation *)
Create HintDb words.
Create HintDb gocode.

(** Unfold the width definitions and decide with [lia]. *)
Ltac wunfold :=
  unfold u8, u16, u32, u64, i32, i64, uwrap, swrap, in_u, in_s, MaxInt64, MaxUint64 in *;
  repeat match goal with
  | H : context [2 ^ ?w] |- _ =>
      let v := eval vm_compute in (2 ^ w) in progress change (2 ^ w) with v in H
  | |- context [2 ^ ?w] =>
      let v := eval vm_compute in (2 ^ w) in progress change (2 ^ w) with v
  end.
Ltac wordlia := wunfold; Z.to_euclidean_division_equations; lia.

(** Case analysis on the [String.eqb] tests of a Go [switch]. *)
Ltac eqb_cases :=
  repeat match goal with
  | |- context [String.eqb ?a ?b] => destruct (String.eqb_spec a b); subst
  | H : context [String.eqb ?a ?b] |- _ => destruct (String.eqb_spec a b); subst
  end.

(** Case analysis on the boolean comparisons of [Z]. *)
Ltac zcases :=
  repeat match goal with
  | |- context [Z.ltb ?a ?b] => destruct (Z.ltb_spec a b)
  | |- context [Z.leb ?a ?b] => destruct (Z.leb_spec a b)
  | |- context [Z.eqb ?a ?b] => destruct (Z.eqb_spec a b)
  | H : context [Z.ltb ?a ?b] |- _ => destruct (Z.ltb_spec a b)
  | H : context [Z.leb ?a ?b] |- _ => destruct (Z.leb_spec a b)
  | H : context [Z.eqb ?a ?b] |- _ => destruct (Z.eqb_spec a b)
  end.

(** ** Lemmas on words *)
Lemma uwrap_small w z : in_u w z -> uwrap w z = z.
Proof. intros H. apply Z.mod_small, H. Qed.

Lemma swrap_small w z : 0 < w -> in_s w z -> swrap w z = z.
Proof.
  unfold in_s, swrap. intros Hw H.
  assert (2 ^ w = 2 * 2 ^ (w - 1)) as E.
  { rewrite <- Z.pow_succ_r by lia. f_equal. lia. }
  rewrite Z.mod_small; lia.
Qed.

Lemma uwrap_range w z : 0 <= w -> in_u w (uwrap w z).
Proof. intros Hw. apply Z.mod_pos_bound, Z.pow_pos_nonneg; lia. Qed.

Lemma swrap_range w z : 0 < w -> in_s w (swrap w z).
Proof.
  unfold in_s, swrap. intros Hw.
  assert (2 ^ w = 2 * 2 ^ (w - 1)) as E.
  { rewrite <- Z.pow_succ_r by lia. f_equal. lia. }
  pose proof (Z.mod_pos_bound (z + 2 ^ (w - 1)) (2 ^ w)). lia.
Qed.

Lemma u64_small z : in_u64 z -> u64 z = z.
Proof. apply uwrap_small. Qed.
Lemma i64_small z : in_i64 z -> i64 z = z.
Proof. apply swrap_small. lia. Qed.
Lemma i32_small z : in_i32 z -> i32 z = z.
Proof. apply swrap_small. lia. Qed.
Lemma u32_small z : in_u32 z -> u32 z = z.
Proof. apply uwrap_small. Qed.
Lemma u64_range z : in_u64 (u64 z).
Proof. apply uwrap_range. lia. Qed.
Lemma i64_range z : in_i64 (i64 z).
Proof. apply swrap_range. lia. Qed.
Lemma i32_range z : in_i32 (i32 z).
Proof. apply swrap_range. lia. Qed.
Lemma u32_range z : in_u32 (u32 z).
Proof. apply uwrap_range. lia. Qed.

(** The conversions [int64(uint64(z))] and back lose nothing. *)
Lemma i64_u64 z : i64 (u64 z) = i64 z.
Proof. wordlia. Qed.
Lemma u64_i64 z : u64 (i64 z) = u64 z.
Proof. wordlia. Qed.
Lemma i32_i64 z : i32 (i64 z) = i32 z.
Proof. wordlia. Qed.

#[export] Hint Resolve u64_range i64_range i32_range u32_range : words.
#[export] Hint Rewrite i64_u64 u64_i64 i32_i64 : words.
#[export] Hint Rewrite u64_small i64_small i32_small u32_small using
  (solve [auto with words | wordlia]) : words.
Ltac wsimpl := autorewrite with words.

(** ** Lemmas on results and lists *)
Lemma result_bind_Ok {A B} (m : result A) (f : A -> result B) b :
  m ≫= f = Ok b -> exists a, m = Ok a /\ f a = Ok b.
Proof. destruct m; simpl; eauto; discriminate. Qed.

(** A call that does not panic. *)
Definition noPanic {A} (r : result A) : Prop := forall m, r <> Panic m.
Lemma noPanic_bind {A B} (r : result A) (f : A -> result B) :
  noPanic r -> (forall a, noPanic (f a)) -> noPanic (r ≫= f).
Proof. intros Hr Hf m. destruct r; simpl; [apply Hf|done|]. intros E. by destruct (Hr msg). Qed.
Lemma noPanic_Ok {A} (a : A) : noPanic (Ok a).
Proof. done. Qed.
Lemma noPanic_Err {A} e : noPanic (@Err A e).
Proof. done. Qed.
#[export] Hint Resolve noPanic_bind noPanic_Ok noPanic_Err : gocode.

Lemma zlen_nonneg {A} (l : list A) : 0 <= zlen l.
Proof. unfold zlen. lia. Qed.
Lemma zlen_app {A} (l k : list A) : zlen (l ++ k) = zlen l + zlen k.
Proof. unfold zlen. rewrite length_app. lia. Qed.
Lemma zlen_nil {A} (l : list A) : zlen l = 0 -> l = [].
Proof. unfold zlen. destruct l; simpl; [done|lia]. Qed.
#[export] Hint Resolve zlen_nonneg : words.

Lemma take_app_exact {A} (l k : list A) n : n = length l -> take n (l ++ k) = l.
Proof. intros ->. apply take_app_length. Qed.
Lemma drop_app_exact {A} (l k : list A) n : n = length l -> drop n (l ++ k) = k.
Proof. intros ->. apply drop_app_length. Qed.

(** ** Slices: [l[i]] and [l[i] = v], which panic out of range *)
Definition go_index {A} (l : list A) (i : Z) : result A :=
  if i <? 0 then Panic "index out of range" else
  match l !! Z.to_nat i with Some x => Ok x | None => Panic "index out of range" end.
Definition go_set {A} (l : list A) (i : Z) (v : A) : result (list A) :=
  if (0 <=? i) && (i <? zlen l) then Ok (<[Z.to_nat i := v]> l) else Panic "index out of range".
(** [for k := from; k < from+n; k++ { l[k] = v }] *)
Fixpoint go_fill {A} (n : nat) (from : Z) (v : A) (l : list A) : result (list A) :=
  match n with
  | O => Ok l
  | S n' => l' ← go_set l from v; go_fill n' (from + 1) v l'
  end.

Lemma go_index_Some {A} (l : list A) (n : nat) x : l !! n = Some x -> go_index l (Z.of_nat n) = Ok x.
Proof.
  intros H. unfold go_index. destruct (Z.ltb_spec (Z.of_nat n) 0); [lia|].
  by rewrite Nat2Z.id, H.
Qed.
Lemma go_set_lt {A} (l : list A) (n : nat) v :
  (n < length l)%nat -> go_set l (Z.of_nat n) v = Ok (<[n := v]> l).
Proof.
  intros H. unfold go_set, zlen.
  destruct (Z.leb_spec 0 (Z.of_nat n)); [|lia]. destruct (Z.ltb_spec (Z.of_nat n) (Z.of_nat (length l))); [|lia].
  by rewrite Nat2Z.id.
Qed.
Lemma go_fill_spec {A} (v : A) n k (l : list A) :
  (k + n <= length l)%nat ->
  go_fill n (Z.of_nat k) v l = Ok (take k l ++ replicate n v ++ drop (k + n) l).
Proof.
  revert k l. induction n as [|n IH]; intros k l H; cbn [go_fill].
  { cbn [replicate app]. by rewrite Nat.add_0_r, take_drop. }
  rewrite go_set_lt by lia. cbn [mbind result_bind].
  replace (Z.of_nat k + 1) with (Z.of_nat (S k)) by lia.
  rewrite IH by (rewrite length_insert; lia). f_equal.
  rewrite (take_S_r _ _ v) by (rewrite list_lookup_insert_eq; [done|lia]).
  rewrite take_insert_ge, drop_insert_lt by lia. rewrite <- app_assoc. cbn [app replicate].
  by replace (S k + n)%nat with (k + S n)%nat by lia.
Qed.
Lemma go_fill_all {A} (v : A) (l : list A) : go_fill (length l) 0 v l = Ok (replicate (length l) v).
Proof.
  change 0 with (Z.of_nat 0). rewrite go_fill_spec by lia.
  by rewrite take_0, drop_ge, app_nil_r by lia.
Qed.

Lemma filter_all {A} (P : A -> Prop) `{forall x, Decision (P x)} (l : list A) :
  (forall x, x ∈ l -> P x) -> filter P l = l.
Proof.
  induction l as [|x l IH]; intros Hl; [done|]. rewrite filter_cons, decide_True by (apply Hl; constructor).
  f_equal. apply IH. intros y Hy. apply Hl. by constructor.
Qed.
Lemma filter_none {A} (P : A -> Prop) `{forall x, Decision (P x)} (l : list A) :
  (forall x, x ∈ l -> ~ P x) -> filter P l = [].
Proof.
  induction l as [|x l IH]; intros Hl; [done|]. rewrite filter_cons, decide_False by (apply Hl; constructor).
  apply IH. intros y Hy. apply Hl. by constructor.
Qed.
Lemma filter_iff_in {A} (P Q : A -> Prop) `{forall x, Decision (P x)} `{forall x, Decision (Q x)}
    (l : list A) :
  (forall x, x ∈ l -> P x <-> Q x) -> filter P l = filter Q l.
Proof.
  induction l as [|x l IH]; intros Hl; [done|]. rewrite !filter_cons.
  rewrite IH by (intros y Hy; apply Hl; by constructor).
  pose proof (Hl x (list_elem_of_here _ _)) as Hx.
  destruct (decide (P x)), (decide (Q x)); tauto || done.
Qed.
