(* ===== verification/GoStr.v ===== *)
(** * Go strings and byte slices

    A Go [string] is a Rocq [string] (a sequence of bytes); a [[]byte] is a
    [list ascii]. This file models what the program uses of the packages
    [strings], [strconv] and [encoding/binary]. *)
From S2P Require Import Prelude.

Abbreviation byte := ascii.

(** [byte_val b] is the value of [uint64(b)]; [byte_of z] the value of [byte(z)]. *)
Definition byte_val (b : byte) : Z := Z.of_N (N_of_ascii b).
Definition byte_of (z : Z) : byte := ascii_of_N (Z.to_N (u8 z)).

(** [[]byte(s)] and [string(b)]. *)
Definition bytes (s : string) : list byte := String.list_ascii_of_string s.
Definition str (l : list byte) : string := String.string_of_list_ascii l.

(** [len(s)] *)
Definition slen (s : string) : Z := Z.of_nat (String.length s).

(** ** [strings] *)

(** [strings.TrimSpace] removes the Unicode white space at both ends: the ASCII
    space characters and the UTF-8 encodings of U+0085, U+00A0, U+1680,
    U+2000..U+200A, U+2028, U+2029, U+202F, U+205F and U+3000. *)
Definition space1 (a : byte) : bool :=
  let v := byte_val a in (v =? 32) || ((9 <=? v) && (v <=? 13)).
Definition space2 (a b : byte) : bool :=
  (byte_val a =? 194) && ((byte_val b =? 133) || (byte_val b =? 160)).
Definition space3 (a b c : byte) : bool :=
  let x := byte_val a in let y := byte_val b in let z := byte_val c in
  ((x =? 225) && (y =? 154) && (z =? 128))
  || ((x =? 226) && (y =? 128) && (((128 <=? z) && (z <=? 138)) || (z =? 168) || (z =? 169) || (z =? 175)))
  || ((x =? 226) && (y =? 129) && (z =? 159))
  || ((x =? 227) && (y =? 128) && (z =? 128)).

Fixpoint trimLeft (l : list byte) : list byte :=
  match l with
  | [] => []
  | a :: l1 =>
      if space1 a then trimLeft l1
      else match l1 with
      | [] => l
      | b :: l2 =>
          if space2 a b then trimLeft l2
          else match l2 with
          | [] => l
          | c :: l3 => if space3 a b c then trimLeft l3 else l
          end
      end
  end.

(** The same on a reversed list: the last byte of an encoding comes first. *)
Fixpoint trimRightRev (l : list byte) : list byte :=
  match l with
  | [] => []
  | a :: l1 =>
      if space1 a then trimRightRev l1
      else match l1 with
      | [] => l
      | b :: l2 =>
          if space2 b a then trimRightRev l2
          else match l2 with
          | [] => l
          | c :: l3 => if space3 c b a then trimRightRev l3 else l
          end
      end
  end.

Definition trimSpaceBytes (l : list byte) : list byte :=
  rev (trimRightRev (rev (trimLeft l))).
Definition TrimSpace (s : string) : string := str (trimSpaceBytes (bytes s)).

(** [strings.ToLower] on an ASCII string lowers each letter; on other strings
    it maps [unicode.ToLower] over the runes, which is left to [lowerUnicode]. *)
Class UnicodeLower := lowerUnicode : string -> string.

Definition lowerByte (a : byte) : byte :=
  let v := byte_val a in if (65 <=? v) && (v <=? 90) then byte_of (v + 32) else a.
Definition isASCII (s : string) : bool := forallb (fun a => byte_val a <? 128) (bytes s).
Definition ToLower `{UnicodeLower} (s : string) : string :=
  if isASCII s then str (map lowerByte (bytes s)) else lowerUnicode s.

(** [strings.HasPrefix] and [strings.Contains]. *)
Definition HasPrefix (s p : string) : bool := String.prefix p s.
Fixpoint Contains (s sub : string) : bool :=
  String.prefix sub s || match s with
  | EmptyString => false
  | String _ s' => Contains s' sub
  end.

(** [strings.TrimRight(s, cut)] for a set of ASCII cut bytes. *)
Fixpoint dropWhile (p : byte -> bool) (l : list byte) : list byte :=
  match l with
  | [] => []
  | a :: l' => if p a then dropWhile p l' else l
  end.
Definition TrimRight (s : string) (cut : byte -> bool) : string :=
  str (rev (dropWhile cut (rev (bytes s)))).

(** ** [strconv] *)
Definition isDigit (a : byte) : bool := (48 <=? byte_val a) && (byte_val a <=? 57).
Definition digit (d : Z) : byte := byte_of (48 + d).

(** The decimal digits of [n], most significant first; [fuel] bounds their number. *)
Fixpoint digitsFuel (fuel : nat) (n : Z) (acc : list byte) : list byte :=
  match fuel with
  | O => acc
  | S f =>
      let acc := digit (n mod 10) :: acc in
      if n <? 10 then acc else digitsFuel f (n / 10) acc
  end.

(** [strconv.FormatUint(n, 10)]: 20 digits are enough for 64 bits. *)
Definition FormatUintBytes (n : Z) : list byte := digitsFuel 20 n [].
Definition FormatUint (n : Z) : string := str (FormatUintBytes n).

(** [strconv.FormatInt(n, 10)] and [strconv.Itoa]. *)
Definition FormatIntBytes (n : Z) : list byte :=
  if n <? 0 then "-"%char :: FormatUintBytes (- n) else FormatUintBytes n.
Definition FormatInt (n : Z) : string := str (FormatIntBytes n).

Definition FormatBool (b : bool) : string := if b then "true" else "false".

(** The number a digit string denotes (no bound). *)
Definition digitVal (a : byte) : Z := byte_val a - 48.
Fixpoint decValue (acc : Z) (l : list byte) : Z :=
  match l with
  | [] => acc
  | a :: l' => decValue (acc * 10 + digitVal a) l'
  end.

(** ** [encoding/binary]: fixed-width little- and big-endian numbers *)
Fixpoint putLE (n : nat) (v : Z) : list byte :=
  match n with
  | O => []
  | S n' => byte_of v :: putLE n' (v / 256)
  end.
Fixpoint getLE (l : list byte) : Z :=
  match l with
  | [] => 0
  | b :: l' => byte_val b + 256 * getLE l'
  end.
Definition putBE (n : nat) (v : Z) : list byte := rev (putLE n v).
Definition getBE (l : list byte) : Z := getLE (rev l).

(** ** Lemmas on bytes *)
Lemma byte_val_range b : 0 <= byte_val b < 256.
Proof.
  unfold byte_val. pose proof (N_ascii_bounded b). lia.
Qed.

Lemma byte_val_of z : byte_val (byte_of z) = u8 z.
Proof.
  unfold byte_val, byte_of. pose proof (uwrap_range 8 z ltac:(lia)) as H.
  change (uwrap 8 z) with (u8 z) in H. unfold in_u in H.
  rewrite N_ascii_embedding; [|change (2 ^ 8) with 256 in H; lia].
  rewrite Z2N.id; lia.
Qed.

Lemma byte_of_val b : byte_of (byte_val b) = b.
Proof.
  unfold byte_of, byte_val. pose proof (byte_val_range b) as H. unfold byte_val in H.
  unfold u8. rewrite uwrap_small by wordlia.
  rewrite N2Z.id. apply ascii_N_embedding.
Qed.

Lemma byte_val_inj a b : byte_val a = byte_val b -> a = b.
Proof. intros H. rewrite <- (byte_of_val a), H. apply byte_of_val. Qed.

Lemma str_bytes s : str (bytes s) = s.
Proof. apply String.string_of_list_ascii_of_string. Qed.
Lemma bytes_str l : bytes (str l) = l.
Proof. apply String.list_ascii_of_string_of_list_ascii. Qed.

Lemma bytes_app s t : bytes (s +:+ t) = bytes s ++ bytes t.
Proof. induction s; simpl; [done|]. unfold bytes in *. simpl. by rewrite IHs. Qed.
Lemma zlen_bytes s : zlen (bytes s) = slen s.
Proof. unfold zlen, slen, bytes. f_equal. induction s; simpl; auto. Qed.
Lemma slen_nonneg s : 0 <= slen s.
Proof. unfold slen. lia. Qed.

#[export] Hint Rewrite byte_val_of byte_of_val str_bytes bytes_str : gocode.
#[export] Hint Resolve slen_nonneg byte_val_range : gocode.

Lemma isDigit_digit d : 0 <= d < 10 -> isDigit (digit d) = true /\ digitVal (digit d) = d.
Proof.
  intros H. unfold isDigit, digitVal, digit. rewrite byte_val_of.
  unfold u8. rewrite uwrap_small by wordlia. split; [|lia].
  apply andb_true_intro. split; apply Z.leb_le; lia.
Qed.

Lemma isDigit_val a : isDigit a = true -> 0 <= digitVal a < 10.
Proof.
  unfold isDigit, digitVal. intros [H1 H2]%andb_prop.
  apply Z.leb_le in H1, H2. lia.
Qed.

Lemma decValue_app acc l k : decValue acc (l ++ k) = decValue (decValue acc l) k.
Proof. revert acc. induction l; simpl; auto. Qed.

Lemma decValue_shift acc l : decValue acc l = acc * 10 ^ zlen l + decValue 0 l.
Proof.
  revert acc. induction l as [|a l IH]; intros acc; cbn [decValue].
  - unfold zlen. simpl. lia.
  - rewrite (IH (acc * 10 + _)), (IH (0 * 10 + _)).
    replace (zlen (a :: l)) with (Z.succ (zlen l)) by (unfold zlen; simpl; lia).
    rewrite Z.pow_succ_r by apply zlen_nonneg. lia.
Qed.

Lemma decValue_nonneg acc l :
  0 <= acc -> forallb isDigit l = true -> 0 <= decValue acc l.
Proof.
  revert acc. induction l as [|a l IH]; intros acc H0; simpl; [done|].
  intros [Ha Hl]%andb_prop. apply IH; [|done]. apply isDigit_val in Ha. lia.
Qed.

(** [digitsFuel] writes the decimal digits of its argument. *)
Lemma digitsFuel_spec fuel n acc :
  (0 < fuel)%nat -> 0 <= n < 10 ^ Z.of_nat fuel ->
  exists ds, digitsFuel fuel n acc = ds ++ acc /\ forallb isDigit ds = true
    /\ decValue 0 ds = n /\ (0 < length ds)%nat.
Proof.
  revert n acc. induction fuel as [|f IH]; intros n acc Hf H; [lia|].
  cbn [digitsFuel].
  pose proof (Z.mod_pos_bound n 10 ltac:(lia)) as Hm.
  destruct (isDigit_digit (n mod 10) Hm) as [Hd Hv].
  destruct (Z.ltb_spec n 10) as [Hn|Hn].
  { exists [digit (n mod 10)]. simpl. rewrite Hd. repeat split; auto.
    rewrite Hv, Z.mod_small; lia. }
  destruct (IH (n / 10) (digit (n mod 10) :: acc)) as (ds & E & Hds & Hval & Hlen).
  { destruct f; [simpl in H|]; lia. }
  { rewrite Nat2Z.inj_succ, Z.pow_succ_r in H by lia.
    split; [apply Z.div_pos|apply Z.div_lt_upper_bound]; lia. }
  exists (ds ++ [digit (n mod 10)]). rewrite E, <- app_assoc.
  rewrite forallb_app, decValue_app, Hval, length_app. simpl. rewrite Hd, Hds, Hv.
  repeat split; auto; [|lia]. pose proof (Z.div_mod n 10). lia.
Qed.

Lemma FormatUintBytes_spec n :
  in_u64 n -> forallb isDigit (FormatUintBytes n) = true
    /\ decValue 0 (FormatUintBytes n) = n /\ FormatUintBytes n <> [].
Proof.
  intros H. destruct (digitsFuel_spec 20 n []) as (ds & E & Hd & Hv & Hl); [lia| |].
  { wunfold. change (10 ^ Z.of_nat 20) with 100000000000000000000. lia. }
  unfold FormatUintBytes. rewrite E, app_nil_r. repeat split; auto.
  intros ->. simpl in Hl. lia.
Qed.

Lemma length_putLE n v : length (putLE n v) = n.
Proof. revert v. induction n; simpl; auto. Qed.

Lemma getLE_putLE n v : getLE (putLE n v) = v mod 256 ^ Z.of_nat n.
Proof.
  revert v. induction n as [|n IH]; intros v; cbn [putLE getLE].
  { change (256 ^ Z.of_nat 0) with 1. rewrite Z.mod_1_r. done. }
  rewrite IH, byte_val_of. unfold u8, uwrap. change (2 ^ 8) with 256.
  rewrite Nat2Z.inj_succ, Z.pow_succ_r by lia.
  rewrite Z.rem_mul_r by lia. done.
Qed.

Lemma length_putBE n v : length (putBE n v) = n.
Proof. unfold putBE. rewrite length_rev. apply length_putLE. Qed.
Lemma getBE_putBE n v : getBE (putBE n v) = v mod 256 ^ Z.of_nat n.
Proof. unfold getBE, putBE. rewrite rev_involutive. apply getLE_putLE. Qed.

(** ** [TrimSpace] leaves printable ASCII alone *)
Definition plain (a : byte) : bool := (33 <=? byte_val a) && (byte_val a <? 127).

Lemma plain_not_space a : plain a = true ->
  space1 a = false /\ (forall b, space2 a b = false /\ space2 b a = false)
  /\ (forall b c, space3 a b c = false /\ space3 b c a = false).
Proof.
  unfold plain, space1, space2, space3. intros [H1 H2]%andb_prop.
  apply Z.leb_le in H1. apply Z.ltb_lt in H2.
  repeat split; intros; repeat match goal with
  | |- context [Z.eqb ?x ?y] => destruct (Z.eqb_spec x y); try lia
  | |- context [Z.leb ?x ?y] => destruct (Z.leb_spec x y); try lia
  end; simpl; rewrite ?andb_false_r; done.
Qed.

Lemma trimLeft_plain a l : plain a = true -> trimLeft (a :: l) = a :: l.
Proof.
  intros (H1 & H2 & H3)%plain_not_space. simpl. rewrite H1.
  destruct l as [|b [|c l]]; [done| |]; rewrite (proj1 (H2 b)); [done|].
  by rewrite (proj1 (H3 b c)).
Qed.
Lemma trimRightRev_plain a l : plain a = true -> trimRightRev (a :: l) = a :: l.
Proof.
  intros (H1 & H2 & H3)%plain_not_space. simpl. rewrite H1.
  destruct l as [|b [|c l]]; [done| |]; rewrite (proj2 (H2 b)); [done|].
  by rewrite (proj2 (H3 c b)).
Qed.

Lemma trimSpaceBytes_plain l : forallb plain l = true -> trimSpaceBytes l = l.
Proof.
  intros H. unfold trimSpaceBytes.
  assert (trimLeft l = l) as ->.
  { destruct l as [|a l]; [done|]. simpl in H. apply andb_prop in H as [Ha _].
    by apply trimLeft_plain. }
  destruct (rev l) as [|a r] eqn:E.
  { simpl. rewrite <- (rev_involutive l), E. done. }
  rewrite trimRightRev_plain; [by rewrite <- E, rev_involutive|].
  rewrite forallb_forall in H. apply H, in_rev. rewrite E. by left.
Qed.

(** [strings.TrimSpace] is idempotent: a trimmed text has no space at either end. *)
Lemma trimLeft_length l : (length (trimLeft l) <= length l)%nat.
Proof.
  remember (length l) as n eqn:E. revert l E.
  induction n as [n IH] using lt_wf_ind. intros [|a [|b [|c l]]] ->; simpl in *.
  - done.
  - destruct (space1 a); simpl; lia.
  - destruct (space1 a); [destruct (space1 b); simpl; lia|].
    destruct (space2 a b); simpl; lia.
  - destruct (space1 a).
    { pose proof (IH (S (S (length l))) ltac:(lia) (b :: c :: l) eq_refl). simpl in *. lia. }
    destruct (space2 a b).
    { pose proof (IH (S (length l)) ltac:(lia) (c :: l) eq_refl). simpl in *. lia. }
    destruct (space3 a b c); [|simpl; lia].
    pose proof (IH (length l) ltac:(lia) l eq_refl). lia.
Qed.
Lemma trimLeft_shorter a l : trimLeft (a :: l) = a :: l ->
  space1 a = false /\ (forall b k, l = b :: k -> space2 a b = false)
  /\ (forall b c k, l = b :: c :: k -> space3 a b c = false).
Proof.
  intros H. assert (forall k, (length k < length (a :: l))%nat -> trimLeft k <> a :: l) as Hn.
  { intros k Hk E. pose proof (trimLeft_length k) as Hl. rewrite E in Hl. simpl in *. lia. }
  cbn [trimLeft] in H. destruct (space1 a); [by destruct (Hn l); [simpl; lia|]|].
  split; [done|]. split.
  - intros b k ->. destruct (space2 a b); [by destruct (Hn k); [simpl; lia|]|done].
  - intros b c k ->. destruct (space2 a b); [by destruct (Hn (c :: k)); [simpl; lia|]|].
    destruct (space3 a b c); [by destruct (Hn k); [simpl; lia|]|done].
Qed.
Lemma trimLeft_prefix p q : trimLeft (p ++ q) = p ++ q -> trimLeft p = p.
Proof.
  destruct p as [|a p]; [done|]. intros (H1 & H2 & H3)%trimLeft_shorter. cbn [trimLeft].
  rewrite H1. destruct p as [|b p]; [done|]. rewrite (H2 b (p ++ q)) by done.
  destruct p as [|c p]; [done|]. by rewrite (H3 b c (p ++ q)).
Qed.
Lemma trimLeft_idem l : trimLeft (trimLeft l) = trimLeft l.
Proof.
  remember (length l) as n eqn:E. revert l E.
  induction n as [n IH] using lt_wf_ind. intros [|a [|b [|c l]]] ->; simpl in *.
  - done.
  - destruct (space1 a) eqn:E; simpl; [done|by rewrite E].
  - destruct (space1 a) eqn:E; [by apply (IH 1%nat ltac:(lia) [b])|].
    destruct (space2 a b) eqn:E2; simpl; [done|by rewrite E, E2].
  - destruct (space1 a) eqn:E; [by apply (IH (S (S (length l))) ltac:(lia) (b :: c :: l))|].
    destruct (space2 a b) eqn:E2; [by apply (IH (S (length l)) ltac:(lia) (c :: l))|].
    destruct (space3 a b c) eqn:E3; [by apply (IH (length l) ltac:(lia) l)|].
    simpl. by rewrite E, E2, E3.
Qed.
(** The same from the right: both are instances of one fact by reversal of the tests. *)
Lemma trimRightRev_idem l : trimRightRev (trimRightRev l) = trimRightRev l.
Proof.
  remember (length l) as n eqn:E. revert l E.
  induction n as [n IH] using lt_wf_ind. intros [|a [|b [|c l]]] ->; simpl in *.
  - done.
  - destruct (space1 a) eqn:E; simpl; [done|by rewrite E].
  - destruct (space1 a) eqn:E; [by apply (IH 1%nat ltac:(lia) [b])|].
    destruct (space2 b a) eqn:E2; simpl; [done|by rewrite E, E2].
  - destruct (space1 a) eqn:E; [by apply (IH (S (S (length l))) ltac:(lia) (b :: c :: l))|].
    destruct (space2 b a) eqn:E2; [by apply (IH (S (length l)) ltac:(lia) (c :: l))|].
    destruct (space3 c b a) eqn:E3; [by apply (IH (length l) ltac:(lia) l)|].
    simpl. by rewrite E, E2, E3.
Qed.
Lemma trimRightRev_suffix l : exists k, l = k ++ trimRightRev l.
Proof.
  remember (length l) as n eqn:E. revert l E.
  induction n as [n IH] using lt_wf_ind. intros [|a [|b [|c l]]] ->; simpl in *.
  - by exists [].
  - destruct (space1 a); [by exists [a]|by exists []].
  - destruct (space1 a).
    { destruct (IH 1%nat ltac:(lia) [b] eq_refl) as [k Hk]. exists (a :: k). by rewrite Hk at 1. }
    destruct (space2 b a); [by exists [a; b]|by exists []].
  - destruct (space1 a).
    { destruct (IH (S (S (length l))) ltac:(lia) (b :: c :: l) eq_refl) as [k Hk].
      exists (a :: k). by rewrite Hk at 1. }
    destruct (space2 b a).
    { destruct (IH (S (length l)) ltac:(lia) (c :: l) eq_refl) as [k Hk].
      exists (a :: b :: k). by rewrite Hk at 1. }
    destruct (space3 c b a); [|by exists []].
    destruct (IH (length l) ltac:(lia) l eq_refl) as [k Hk]. exists (a :: b :: c :: k).
    by rewrite Hk at 1.
Qed.
Lemma TrimSpace_idem s : TrimSpace (TrimSpace s) = TrimSpace s.
Proof.
  unfold TrimSpace. rewrite bytes_str. f_equal. unfold trimSpaceBytes at 1.
  set (m := trimLeft (bytes s)). assert (trimLeft (trimSpaceBytes (bytes s)) = trimSpaceBytes (bytes s)) as ->.
  { unfold trimSpaceBytes. fold m. destruct (trimRightRev_suffix (rev m)) as [k Hk].
    apply (trimLeft_prefix _ (rev k)). rewrite <- rev_app_distr, <- Hk, rev_involutive.
    apply trimLeft_idem. }
  unfold trimSpaceBytes. by rewrite rev_involutive, trimRightRev_idem.
Qed.

Lemma isDigit_plain a : isDigit a = true -> plain a = true.
Proof.
  unfold isDigit, plain. intros [H1 H2]%andb_prop. apply Z.leb_le in H1, H2.
  apply andb_true_intro. split; [apply Z.leb_le|apply Z.ltb_lt]; lia.
Qed.
Lemma digits_plain l : forallb isDigit l = true -> forallb plain l = true.
Proof.
  rewrite !forallb_forall. intros H x Hx. by apply isDigit_plain, H.
Qed.

Lemma isDigit_not_sign a : isDigit a = true ->
  a <> "-"%char /\ a <> "+"%char /\ a <> "."%char.
Proof. intros H. repeat split; intros ->; discriminate H. Qed.

Lemma zlen_eqb_nil {A} (l : list A) : l <> [] -> (zlen l =? 0) = false.
Proof. intros H. apply Z.eqb_neq. intros E. by apply H, zlen_nil. Qed.

(** ** Lemmas on trimming and lowering ASCII text *)
Definition asciiByte (a : byte) : bool := byte_val a <? 128.

Lemma dropWhile_head p l : match dropWhile p l with a :: _ => p a = false | [] => True end.
Proof. induction l as [|a l IH]; [done|]. simpl. destruct (p a) eqn:E; [done|by rewrite E]. Qed.
Lemma dropWhile_fix p l :
  match l with a :: _ => p a = false | [] => True end -> dropWhile p l = l.
Proof. destruct l as [|a l]; [done|]. simpl. by intros ->. Qed.
Lemma dropWhile_idem p l : dropWhile p (dropWhile p l) = dropWhile p l.
Proof. apply dropWhile_fix, dropWhile_head. Qed.
Lemma dropWhile_map p f l : (forall a, p (f a) = p a) -> dropWhile p (map f l) = map f (dropWhile p l).
Proof. intros H. induction l as [|a l IH]; [done|]. simpl. rewrite H. by destruct (p a). Qed.
Lemma dropWhile_suffix p l : exists k, l = k ++ dropWhile p l.
Proof.
  induction l as [|a l [k IH]]; [by exists []|]. simpl. destruct (p a); [|by exists []].
  exists (a :: k). simpl. by rewrite <- IH.
Qed.
Lemma forallb_dropWhile q p l : forallb q l = true -> forallb q (dropWhile p l) = true.
Proof.
  intros H. destruct (dropWhile_suffix p l) as [k E]. rewrite E, forallb_app in H.
  by apply andb_prop in H as [_ ?].
Qed.
Lemma forallb_rev {A} (q : A -> bool) l : forallb q (rev l) = forallb q l.
Proof.
  induction l as [|a l IH]; [done|]. simpl. rewrite forallb_app, IH. simpl.
  rewrite andb_true_r. apply andb_comm.
Qed.

(** Dropping at both ends. *)
Definition trim1 (p : byte -> bool) (l : list byte) : list byte :=
  rev (dropWhile p (rev (dropWhile p l))).
Lemma trim1_idem p l : trim1 p (trim1 p l) = trim1 p l.
Proof.
  unfold trim1. set (m := dropWhile p l).
  assert (dropWhile p (rev (dropWhile p (rev m))) = rev (dropWhile p (rev m))) as ->.
  { apply dropWhile_fix. destruct (dropWhile_suffix p (rev m)) as [k E].
    apply (f_equal (@rev _)) in E. rewrite rev_involutive, rev_app_distr in E.
    destruct (rev (dropWhile p (rev m))) as [|a r] eqn:Er; [done|].
    pose proof (dropWhile_head p l) as Hh. fold m in Hh. rewrite E in Hh. by simpl in Hh. }
  by rewrite rev_involutive, dropWhile_idem.
Qed.
Lemma trim1_map p f l : (forall a, p (f a) = p a) -> trim1 p (map f l) = map f (trim1 p l).
Proof.
  intros H. unfold trim1. rewrite dropWhile_map by done. rewrite <- map_rev, dropWhile_map by done.
  by rewrite map_rev.
Qed.
Lemma forallb_trim1 q p l : forallb q l = true -> forallb q (trim1 p l) = true.
Proof. intros H. unfold trim1. rewrite forallb_rev. apply forallb_dropWhile. rewrite forallb_rev. by apply forallb_dropWhile. Qed.

Lemma space2_ascii a b : asciiByte a = true -> space2 a b = false.
Proof. unfold asciiByte, space2. intros. zcases; simpl in *; try done; lia. Qed.
Lemma space3_ascii a b c : asciiByte a = true -> space3 a b c = false.
Proof. unfold asciiByte, space3. intros. cbv zeta. zcases; simpl in *; try done; lia. Qed.

Lemma trimLeft_ascii l : forallb asciiByte l = true -> trimLeft l = dropWhile space1 l.
Proof.
  induction l as [|a l IH]; [done|]. simpl. intros [Ha Hl]%andb_prop. rewrite (IH Hl).
  destruct (space1 a); [done|]. destruct l as [|b l]; [done|]. rewrite space2_ascii by done.
  destruct l as [|c l]; [done|]. by rewrite space3_ascii.
Qed.
Lemma trimRightRev_ascii l : forallb asciiByte l = true -> trimRightRev l = dropWhile space1 l.
Proof.
  induction l as [|a l IH]; [done|]. simpl. intros [Ha Hl]%andb_prop. rewrite (IH Hl).
  destruct (space1 a); [done|]. destruct l as [|b l]; [done|]. simpl in Hl.
  apply andb_prop in Hl as [Hb Hl]. rewrite space2_ascii by done.
  destruct l as [|c l]; [done|]. simpl in Hl. apply andb_prop in Hl as [Hc Hl].
  by rewrite space3_ascii.
Qed.
Lemma trimSpaceBytes_ascii l : forallb asciiByte l = true -> trimSpaceBytes l = trim1 space1 l.
Proof.
  intros H. unfold trimSpaceBytes, trim1. rewrite trimLeft_ascii by done.
  rewrite trimRightRev_ascii; [done|]. rewrite forallb_rev. by apply forallb_dropWhile.
Qed.

Lemma lowerByte_cases a :
  lowerByte a = a \/ (65 <= byte_val a <= 90 /\ byte_val (lowerByte a) = byte_val a + 32).
Proof.
  unfold lowerByte. cbv zeta. destruct (_ && _) eqn:E; [|by left]. right.
  apply andb_prop in E as [E1 E2]. rewrite byte_val_of. split; [lia|].
  unfold u8, uwrap. rewrite Z.mod_small; lia.
Qed.
Lemma lowerByte_idem a : lowerByte (lowerByte a) = lowerByte a.
Proof.
  destruct (lowerByte_cases a) as [E|[H1 H2]]; [by rewrite !E|]. unfold lowerByte at 1. cbv zeta.
  rewrite H2. by destruct (Z.leb_spec 65 (byte_val a + 32)), (Z.leb_spec (byte_val a + 32) 90); try lia.
Qed.
Lemma lowerByte_space a : space1 (lowerByte a) = space1 a.
Proof.
  destruct (lowerByte_cases a) as [->|[H1 H2]]; [done|]. unfold space1. cbv zeta. rewrite H2.
  zcases; simpl; try done; lia.
Qed.
Lemma lowerByte_ascii a : asciiByte a = true -> asciiByte (lowerByte a) = true.
Proof.
  destruct (lowerByte_cases a) as [->|[H1 H2]]; [done|]. unfold asciiByte. rewrite H2. lia.
Qed.

(** [strings.ToLower(strings.TrimSpace(s))] of ASCII text is a normal form. *)
Lemma lowerTrim_bytes `{UnicodeLower} s :
  isASCII s = true -> bytes (ToLower (TrimSpace s)) = map lowerByte (trim1 space1 (bytes s)).
Proof.
  intros Hs. unfold ToLower, TrimSpace. unfold isASCII in *. fold asciiByte in *.
  rewrite trimSpaceBytes_ascii by done. rewrite bytes_str. rewrite (forallb_trim1 _ _ _ Hs).
  by rewrite !bytes_str.
Qed.
Lemma lowerTrim_idem `{UnicodeLower} s :
  isASCII s = true ->
  ToLower (TrimSpace (ToLower (TrimSpace s))) = ToLower (TrimSpace s)
  /\ isASCII (ToLower (TrimSpace s)) = true.
Proof.
  intros Hs. assert (isASCII (ToLower (TrimSpace s)) = true) as Ha.
  { unfold isASCII in *. rewrite lowerTrim_bytes by done.
    rewrite forallb_forall. intros b (a & <- & Ha)%in_map_iff.
    assert (forallb asciiByte (trim1 space1 (bytes s)) = true) as Ht by by apply forallb_trim1.
    rewrite forallb_forall in Ht. apply lowerByte_ascii, Ht, Ha. }
  split; [|done]. rewrite <- (str_bytes (ToLower (TrimSpace (ToLower _)))).
  rewrite <- (str_bytes (ToLower (TrimSpace s))) at 2. f_equal.
  rewrite lowerTrim_bytes by done. rewrite lowerTrim_bytes by done.
  rewrite trim1_map by apply lowerByte_space. rewrite trim1_idem, map_map.
  apply map_ext. apply lowerByte_idem.
Qed.
