(* ===== verification/Float64.v ===== *)
(** * Go's [float64]

    IEEE 754 binary64 numbers as Stdlib's executable [spec_float] at precision
    53 and maximal exponent 1024: rounding to nearest even, as the language
    specification requires. Conversions to and from the bit patterns
    ([math.Float64bits], [math.Float64frombits]) and the integers, and
    [math.Round]. *)
From S2P Require Import Prelude.
From Stdlib Require Import SpecFloat.

Abbreviation float64 := spec_float.

Definition fadd : float64 -> float64 -> float64 := SFadd 53 1024.
Definition fmul : float64 -> float64 -> float64 := SFmul 53 1024.
Definition fdiv : float64 -> float64 -> float64 := SFdiv 53 1024.
Definition fsub : float64 -> float64 -> float64 := SFsub 53 1024.
Definition fneg : float64 -> float64 := SFopp.
Definition flt : float64 -> float64 -> bool := SFltb.
Definition fle : float64 -> float64 -> bool := SFleb.

(** [float64(n)] for an integer [n]. *)
Definition of_int (n : Z) : float64 := binary_normalize 53 1024 n 0 false.

(** [math.Float64frombits(u)]. *)
Definition frombits (u : Z) : float64 :=
  let s := Z.testbit u 63 in
  let e := Z.land (Z.shiftr u 52) 2047 in
  let m := Z.land u (2 ^ 52 - 1) in
  if e =? 0 then
    match m with Zpos p => S754_finite s p (-1074) | _ => S754_zero s end
  else if e =? 2047 then
    match m with Zpos _ => S754_nan | _ => S754_infinity s end
  else match m + 2 ^ 52 with Zpos p => S754_finite s p (e - 1075) | _ => S754_nan end.

(** [math.Float64bits(f)]; NaN has the pattern of [math.NaN()]. *)
Definition bits (f : float64) : Z :=
  let sb (s : bool) := if s then 2 ^ 63 else 0 in
  match f with
  | S754_zero s => sb s
  | S754_infinity s => sb s + Z.shiftl 2047 52
  | S754_nan => Z.shiftl 2047 52 + 2 ^ 51 + 1
  | S754_finite s m e =>
      if Zpos m <? 2 ^ 52 then sb s + Zpos m
      else sb s + Z.shiftl (e + 1075) 52 + (Zpos m - 2 ^ 52)
  end.

(** The integer part towards zero of a finite number. *)
Definition trunc (f : float64) : option Z :=
  match f with
  | S754_zero _ => Some 0
  | S754_finite s m e =>
      let v := if 0 <=? e then Zpos m * 2 ^ e else Zpos m / 2 ^ (- e) in
      Some (if s then - v else v)
  | _ => None
  end.

(** The value of [math.Round(f)]: nearest integer, halves away from zero. *)
Definition round (f : float64) : option Z :=
  match f with
  | S754_zero _ => Some 0
  | S754_finite s m e =>
      let v := if 0 <=? e then Zpos m * 2 ^ e
               else (2 * Zpos m + 2 ^ (- e)) / (2 * 2 ^ (- e)) in
      Some (if s then - v else v)
  | _ => None
  end.

(** Converting a float to [int64] when the value does not fit is
    implementation-specific in Go: [cvtUndef] is the result the platform gives. *)
Class FloatCvt := cvtUndef : float64 -> Z.

Definition fits64 (z : Z) : bool := (- 2 ^ 63 <=? z) && (z <? 2 ^ 63).
Definition to_int64 `{FloatCvt} (v : option Z) (f : float64) : Z :=
  match v with
  | Some z => if fits64 z then z else i64 (cvtUndef f)
  | None => i64 (cvtUndef f)
  end.

(** [int64(f)] and [int64(math.Round(f))]. *)
Definition int64_trunc `{FloatCvt} (f : float64) : Z := to_int64 (trunc f) f.
Definition int64_round `{FloatCvt} (f : float64) : Z := to_int64 (round f) f.

(** Whether a bit pattern is a NaN. *)
Definition is_nan_bits (u : Z) : bool :=
  (Z.land (Z.shiftr u 52) 2047 =? 2047) && negb (Z.land u (2 ^ 52 - 1) =? 0).

(** ** Lemmas *)
Lemma to_int64_range `{FloatCvt} v f : in_i64 (to_int64 v f).
Proof.
  unfold to_int64. destruct v as [z|]; [|apply i64_range].
  destruct (fits64 z) eqn:E; [|apply i64_range].
  unfold fits64 in E. apply andb_prop in E as [E1 E2].
  apply Z.leb_le in E1. apply Z.ltb_lt in E2. unfold in_s. simpl (64 - 1). lia.
Qed.

Lemma bits_fields u :
  in_u64 u ->
  u = (if Z.testbit u 63 then 2 ^ 63 else 0)
      + Z.land (Z.shiftr u 52) 2047 * 2 ^ 52 + Z.land u (2 ^ 52 - 1).
Proof.
  intros H. change 2047 with (Z.ones 11). change (2 ^ 52 - 1) with (Z.ones 52).
  rewrite !Z.land_ones, Z.shiftr_div_pow2 by lia.
  assert (Z.testbit u 63 = (2 ^ 63 <=? u)) as ->.
  { rewrite Z.testbit_eqb by lia. unfold in_u in H.
    destruct (Z.leb_spec (2 ^ 63) u);
      [apply Z.eqb_eq|apply Z.eqb_neq]; wunfold; Z.to_euclidean_division_equations; lia. }
  destruct (Z.leb_spec (2 ^ 63) u); wunfold; Z.to_euclidean_division_equations; lia.
Qed.

Lemma land_ones_range u n : 0 <= n -> 0 <= Z.land u (Z.ones n) < 2 ^ n.
Proof. intros. rewrite Z.land_ones by lia. apply Z.mod_pos_bound. lia. Qed.

(** Reading a bit pattern and writing it back is the identity outside the NaNs. *)
Lemma bits_frombits u : in_u64 u -> is_nan_bits u = false -> bits (frombits u) = u.
Proof.
  intros H Hn. pose proof (bits_fields u H) as E.
  unfold is_nan_bits in Hn. unfold frombits.
  pose proof (land_ones_range (Z.shiftr u 52) 11 ltac:(lia)) as He.
  pose proof (land_ones_range u 52 ltac:(lia)) as Hm.
  change (Z.ones 11) with 2047 in He. change (Z.ones 52) with (2 ^ 52 - 1) in Hm.
  set (e := Z.land (Z.shiftr u 52) 2047) in *.
  set (m := Z.land u (2 ^ 52 - 1)) in *.
  destruct (Z.eqb_spec e 0) as [e0|e0].
  { destruct m as [|p|p] eqn:Em; [unfold bits; lia| |lia].
    unfold bits. destruct (Z.ltb_spec (Zpos p) (2 ^ 52)); lia. }
  destruct (Z.eqb_spec e 2047) as [e7|e7].
  { destruct m as [|p|p] eqn:Em; [|discriminate|lia].
    unfold bits. change (Z.shiftl 2047 52) with (2047 * 2 ^ 52). lia. }
  destruct (m + 2 ^ 52) as [|p|p] eqn:Ep; [lia| |lia].
  unfold bits. rewrite Z.shiftl_mul_pow2 by lia.
  destruct (Z.ltb_spec (Zpos p) (2 ^ 52)); lia.
Qed.

Example frombits_one : frombits 4607182418800017408 = of_int 1.
Proof. vm_compute. reflexivity. Qed.
Example round_half : round (fdiv (of_int 5) (of_int 2)) = Some 3.
Proof. vm_compute. reflexivity. Qed.
