(* ===== verification/FloatOrder.v ===== *)
(** * Rounding and order of binary64 numbers

    What the pagination and the rate limiter rely on: the operations of [Float64.v]
    round monotonically. The value of a finite number is an integer number of
    [units], the smallest positive number [2 ^ -1074] being one unit; a number of
    units is representable when it has at most 53 significant bits. *)
From S2P Require Import Prelude Float64.
From Stdlib Require Import SpecFloat.

Abbreviation fexp64 := (fexp 53 1024).

(** ** Digits *)
Lemma digits2_bounds p : 2 ^ (Zpos (digits2_pos p) - 1) <= Zpos p < 2 ^ Zpos (digits2_pos p).
Proof.
  induction p as [p IH|p IH|]; simpl digits2_pos; [| |done];
    rewrite Pos2Z.inj_succ; replace (Z.succ _ - 1) with (Zpos (digits2_pos p) - 1 + 1) by lia;
    rewrite Z.pow_succ_r, Z.pow_add_r by lia; lia.
Qed.
Lemma Zdigits2_bounds m : 0 < m -> 2 ^ (Zdigits2 m - 1) <= m < 2 ^ Zdigits2 m.
Proof. destruct m as [|p|p]; [lia| |lia]. intros _. apply digits2_bounds. Qed.
Lemma Zdigits2_nonneg m : 0 <= m -> 0 <= Zdigits2 m.
Proof. destruct m; simpl; lia. Qed.
Lemma Zdigits2_le m d : 0 <= m < 2 ^ d -> 0 <= d -> Zdigits2 m <= d.
Proof.
  intros Hm Hd. destruct (Z.eq_dec m 0) as [->|]; [done|].
  pose proof (Zdigits2_bounds m ltac:(lia)). destruct (Z.le_gt_cases (Zdigits2 m) d); [done|].
  pose proof (Z.pow_le_mono_r 2 d (Zdigits2 m - 1) ltac:(lia) ltac:(lia)). lia.
Qed.
Lemma Zdigits2_ge m d : 2 ^ d <= m -> 0 <= d -> d + 1 <= Zdigits2 m.
Proof.
  intros Hm Hd. pose proof (Z.pow_pos_nonneg 2 d ltac:(lia) Hd).
  pose proof (Zdigits2_bounds m ltac:(lia)). destruct (Z.le_gt_cases (d + 1) (Zdigits2 m)); [done|].
  pose proof (Z.pow_le_mono_r 2 (Zdigits2 m) d ltac:(lia) ltac:(lia)). lia.
Qed.
Lemma fexp64_eq d : fexp64 d = Z.max (d - 53) (-1074).
Proof. reflexivity. Qed.

#[export] Instance location_eq_dec : EqDecision location.
Proof. intros [|[]] [|[]]; (left; done) || (right; discriminate). Defined.

(** ** Shifting right, and the rounding of the shifted mantissa *)
Definition exactRec (r : shr_record) : Prop := shr_r r = false /\ shr_s r = false.
Lemma shr_1_spec r : 0 <= shr_m r ->
  shr_m (shr_1 r) = shr_m r / 2 /\ (exactRec r -> shr_m r mod 2 = 0 -> exactRec (shr_1 r)).
Proof.
  destruct r as [m a b]. unfold exactRec. cbn [shr_m shr_r shr_s]. intros Hm.
  destruct m as [|p|p]; [|destruct p as [p|p|]|lia]; cbn [shr_1 shr_m shr_r shr_s].
  - split; [done|]. by intros [-> ->].
  - split; [rewrite Pos2Z.inj_xI; Z.to_euclidean_division_equations; lia|].
    rewrite Pos2Z.inj_xI. intros _ Hx. Z.to_euclidean_division_equations; lia.
  - split; [rewrite Pos2Z.inj_xO; Z.to_euclidean_division_equations; lia|]. by intros [-> ->].
  - split; [done|]. done.
Qed.
Lemma iter_pos_nat {A} (f : A -> A) p x : iter_pos f p x = Nat.iter (Pos.to_nat p) f x.
Proof.
  revert x. induction p as [p IH|p IH|]; intros x; simpl iter_pos.
  - rewrite !IH, <- Nat.iter_add, Pos2Nat.inj_xI.
    replace (S (2 * Pos.to_nat p))%nat with (Pos.to_nat p + Pos.to_nat p + 1)%nat by lia.
    by rewrite (Nat.iter_add (_ + _) 1).
  - by rewrite !IH, <- Nat.iter_add, Pos2Nat.inj_xO; replace (2 * Pos.to_nat p)%nat with (Pos.to_nat p + Pos.to_nat p)%nat by lia.
  - done.
Qed.
Lemma shr_iter_spec n r : 0 <= shr_m r ->
  shr_m (Nat.iter n shr_1 r) = shr_m r / 2 ^ Z.of_nat n
  /\ (exactRec r -> shr_m r mod 2 ^ Z.of_nat n = 0 -> exactRec (Nat.iter n shr_1 r)).
Proof.
  intros Hm. induction n as [|n [IH1 IH2]].
  - simpl. rewrite Z.div_1_r. tauto.
  - rewrite Nat.iter_succ. set (r' := Nat.iter n shr_1 r) in *.
    pose proof (Z.pow_pos_nonneg 2 (Z.of_nat n) ltac:(lia) ltac:(lia)) as Hp.
    destruct (shr_1_spec r') as [E1 E2]; [rewrite IH1; apply Z.div_pos; lia|].
    rewrite Nat2Z.inj_succ, Z.pow_succ_r by lia. split.
    + rewrite E1, IH1. rewrite Z.div_div by lia. f_equal. lia.
    + intros He Hz. apply E2.
      * apply IH2; [done|]. apply Z.mod_divide in Hz as [c Hc]; [|lia].
        apply Z.mod_divide; [lia|]. exists (2 * c). lia.
      * rewrite IH1. apply Z.mod_divide in Hz as [c Hc]; [|lia].
        rewrite Hc. replace (c * (2 * 2 ^ Z.of_nat n)) with (c * 2 * 2 ^ Z.of_nat n) by lia.
        rewrite Z.div_mul by lia. by rewrite Z.mod_mul.
Qed.
Lemma shr_spec r e n : 0 <= shr_m r -> 0 <= n ->
  snd (shr r e n) = e + n /\ shr_m (fst (shr r e n)) = shr_m r / 2 ^ n
  /\ (exactRec r -> shr_m r mod 2 ^ n = 0 -> exactRec (fst (shr r e n))).
Proof.
  intros Hm Hn. destruct n as [|p|p]; [|simpl|lia].
  - simpl. rewrite Z.div_1_r, Z.add_0_r. tauto.
  - rewrite iter_pos_nat. destruct (shr_iter_spec (Pos.to_nat p) r Hm) as [E1 E2].
    rewrite positive_nat_Z in E1, E2. tauto.
Qed.
Lemma loc_exact r : exactRec r -> loc_of_shr_record r = loc_Exact.
Proof. destruct r. unfold exactRec. simpl. by intros [-> ->]. Qed.
Lemma record_of_loc m l : shr_m (shr_record_of_loc m l) = m
  /\ (l = loc_Exact -> exactRec (shr_record_of_loc m l)).
Proof. destruct l as [|[]]; unfold exactRec; simpl; split; done. Qed.
Lemma nearest_even_spec q l : round_nearest_even q l = q \/ round_nearest_even q l = q + 1 /\ l <> loc_Exact.
Proof. destruct l as [|[]]; simpl; [tauto| |tauto|]; [destruct (Z.even q); [tauto|]|]; right; done. Qed.

(** ** Rounding a mantissa *)
Definition pack (s : bool) (m e : Z) : float64 :=
  match m with
  | Z0 => S754_zero s
  | Zpos p => if e <=? 971 then S754_finite s p e else S754_infinity s
  | Zneg _ => S754_nan
  end.

(** The rounded mantissa is one of the two neighbours on the grid of the result. *)
Record roundsTo (mx ex : Z) (l : location) (m e : Z) : Prop := {
  rt_m : 0 <= m < 2 ^ 53;
  rt_e : -1074 <= e;
  rt_normal : e = -1074 \/ 2 ^ 52 <= m;
  rt_grid : let g := fexp64 (Zdigits2 mx + ex) in let q := mx / 2 ^ (g - ex) in
    exists q', (q' = q \/ q' = q + 1 /\ ~ (l = loc_Exact /\ mx mod 2 ^ (g - ex) = 0))
    /\ ((e = g /\ m = q') \/ (e = g + 1 /\ q' = 2 ^ 53 /\ m = 2 ^ 52)) }.

Lemma grid_quotient mx ex : 0 < mx -> ex <= fexp64 (Zdigits2 mx + ex) ->
  let g := fexp64 (Zdigits2 mx + ex) in let q := mx / 2 ^ (g - ex) in
  0 <= q < 2 ^ 53 /\ (g = -1074 \/ 2 ^ 52 <= q).
Proof.
  intros Hm He. cbv zeta. set (g := fexp64 (Zdigits2 mx + ex)) in *.
  pose proof (Zdigits2_bounds mx Hm) as [Hl Hu]. pose proof (Zdigits2_nonneg mx ltac:(lia)) as Hd.
  pose proof (Z.pow_pos_nonneg 2 (g - ex) ltac:(lia) ltac:(lia)) as Hp.
  assert (g = Z.max (Zdigits2 mx + ex - 53) (-1074)) as Eg by apply fexp64_eq.
  split_and!.
  - apply Z.div_pos; lia.
  - apply Z.div_lt_upper_bound; [lia|]. rewrite <- Z.pow_add_r by lia.
    eapply Z.lt_le_trans; [exact Hu|]. apply Z.pow_le_mono_r; lia.
  - destruct (Z.eq_dec g (-1074)); [by left|]. right. apply Z.div_le_lower_bound; [lia|].
    rewrite <- Z.pow_add_r by lia. etransitivity; [|exact Hl]. apply Z.pow_le_mono_r; lia.
Qed.

Lemma round_aux_spec s mx ex l : 0 < mx -> ex <= fexp64 (Zdigits2 mx + ex) ->
  exists m e, binary_round_aux 53 1024 s mx ex l = pack s m e /\ roundsTo mx ex l m e.
Proof.
  intros Hm He. unfold binary_round_aux, shr_fexp.
  destruct (record_of_loc mx l) as [Em Ee]. set (g := fexp64 (Zdigits2 mx + ex)) in *.
  destruct (shr_spec (shr_record_of_loc mx l) ex (g - ex)) as (E1 & E2 & E3); [rewrite Em; lia|lia|].
  destruct (shr _ _ _) as [r1 e1]. simpl in E1, E2, E3. rewrite Em in E2, E3.
  replace (ex + (g - ex)) with g in E1 by lia. subst e1. rewrite E2.
  destruct (grid_quotient mx ex Hm He) as [Hq Hn]. fold g in Hq, Hn. set (q := mx / 2 ^ (g - ex)) in *.
  set (q' := round_nearest_even q (loc_of_shr_record r1)).
  assert (q' = q \/ q' = q + 1 /\ ~ (l = loc_Exact /\ mx mod 2 ^ (g - ex) = 0)) as Hq'.
  { destruct (nearest_even_spec q (loc_of_shr_record r1)) as [?|[? Hne]]; [by left|]. right.
    split; [done|]. intros [El Ez]. by apply Hne, loc_exact, E3; [apply Ee|]. }
  assert (-1074 <= g) as Hg by (unfold g; rewrite fexp64_eq; lia).
  destruct (Z.eq_dec q' (2 ^ 53)) as [Eq|Eq].
  - assert (fexp64 (Zdigits2 q' + g) - g = 1) as En.
    { rewrite Eq, fexp64_eq. change (Zdigits2 (2 ^ 53)) with 54. lia. }
    rewrite En, Eq. simpl.
    exists (2 ^ 52), (g + 1). split; [reflexivity|].
    split; [lia|lia|lia|]. exists q'. split; [exact Hq'|]. right. done.
  - assert (0 <= q' < 2 ^ 53) as Hb by lia.
    assert (fexp64 (Zdigits2 q' + g) - g <= 0) as Hle.
    { pose proof (Zdigits2_le q' 53 Hb ltac:(lia)). rewrite fexp64_eq. lia. }
    assert (forall n, n <= 0 -> shr (shr_record_of_loc q' loc_Exact) g n = (shr_record_of_loc q' loc_Exact, g)) as Es.
    { intros [|p|p] ?; [done|lia|done]. }
    rewrite (Es _ Hle). simpl. exists q', g. split; [done|].
    split; [lia|lia|lia|]. exists q'. split; [exact Hq'|]. by left.
Qed.

(** ** Values in units of [2 ^ -1074] *)
Definition unitsOf (f : float64) : option Z :=
  match f with
  | S754_zero _ => Some 0
  | S754_finite s m e => Some (if s then - (Zpos m * 2 ^ (e + 1074)) else Zpos m * 2 ^ (e + 1074))
  | _ => None
  end.
(** At least [r] units, infinity included; and finite with at most [r] units. *)
Definition geUnits (f : float64) (r : Z) : Prop :=
  f = S754_infinity false \/ exists u, unitsOf f = Some u /\ r <= u.
Definition leUnits (f : float64) (r : Z) : Prop := exists u, unitsOf f = Some u /\ u <= r.

(** The numbers the operations return: mantissas are normalised. *)
Definition validF (f : float64) : Prop :=
  match f with
  | S754_finite _ m e => Zpos m < 2 ^ 53 /\ -1074 <= e <= 971 /\ (e = -1074 \/ 2 ^ 52 <= Zpos m)
  | _ => True
  end.
Definition representable (r : Z) : Prop := exists k j, 0 <= k < 2 ^ 53 /\ 0 <= j /\ r = k * 2 ^ j.

Lemma representable_grid r t : representable r -> 0 <= t -> (exists c, r = c * 2 ^ t) \/ r < 2 ^ (52 + t).
Proof.
  intros (k & j & Hk & Hj & ->) Ht. destruct (Z.le_gt_cases t j).
  - left. exists (k * 2 ^ (j - t)). rewrite <- Z.mul_assoc, <- Z.pow_add_r by lia. do 2 f_equal. lia.
  - right. assert (2 ^ 53 * 2 ^ j <= 2 ^ (52 + t)) by (rewrite <- Z.pow_add_r by lia; apply Z.pow_le_mono_r; lia).
    pose proof (Z.pow_pos_nonneg 2 j ltac:(lia) Hj). nia.
Qed.
Lemma representable_int n j : 0 <= n < 2 ^ 53 -> 0 <= j -> representable (n * 2 ^ j).
Proof. intros. by exists n, j. Qed.

Lemma pack_valid s m e : 0 <= m < 2 ^ 53 -> -1074 <= e -> e = -1074 \/ 2 ^ 52 <= m -> validF (pack s m e).
Proof. intros. destruct m as [|p|p]; simpl; [done| |lia]. destruct (Z.leb_spec e 971); simpl; [lia|done]. Qed.
Lemma pack_ge m e r : 0 <= m -> -1074 <= e -> r <= m * 2 ^ (e + 1074) -> geUnits (pack false m e) r.
Proof.
  intros Hm He Hr. destruct m as [|p|p]; simpl; [right; by exists 0| |lia].
  destruct (Z.leb_spec e 971); [right|by left]. eexists. split; [reflexivity|]. done.
Qed.
Lemma pack_le m e r : 0 <= m -> -1074 <= e -> e = -1074 \/ 2 ^ 52 <= m ->
  m * 2 ^ (e + 1074) <= r -> r < 2 ^ 2098 -> leUnits (pack false m e) r.
Proof.
  intros Hm He Hn Hr Hb. destruct m as [|p|p]; simpl; [by exists 0| |lia].
  destruct (Z.leb_spec e 971); [by eexists|]. destruct Hn as [->|Hn]; [lia|].
  assert (2 ^ 2098 <= Zpos p * 2 ^ (e + 1074)); [|lia].
  assert (2 ^ 2098 <= 2 ^ 52 * 2 ^ (e + 1074)) by (rewrite <- Z.pow_add_r by lia; apply Z.pow_le_mono_r; lia).
  pose proof (Z.pow_pos_nonneg 2 (e + 1074) ltac:(lia) ltac:(lia)). nia.
Qed.

(** ** Rounding is monotone

    [g] is an exponent below the mantissa's and the unit's; the exact value is
    [mx * 2 ^ ex], or between it and its successor when [l] is not exact. *)
Section Round.
Context (mx ex g : Z) (l : location).
Context (Hmx : 0 < mx) (Hex : ex <= fexp64 (Zdigits2 mx + ex)) (Hgx : g <= ex) (Hgu : g <= -1074).
#[local] Definition grid : Z := fexp64 (Zdigits2 mx + ex).

Lemma grid_step : -1074 <= grid /\ mx / 2 ^ (grid - ex) = (mx * 2 ^ (ex - g)) / 2 ^ (grid - g)
  /\ 2 ^ (grid - g) = 2 ^ (grid + 1074) * 2 ^ (-1074 - g) /\ 0 < 2 ^ (grid - g)
  /\ (mx mod 2 ^ (grid - ex) = 0 <-> (mx * 2 ^ (ex - g)) mod 2 ^ (grid - g) = 0).
Proof.
  assert (-1074 <= grid) by (unfold grid; rewrite fexp64_eq; lia). fold grid in Hex.
  assert (2 ^ (grid - g) = 2 ^ (grid - ex) * 2 ^ (ex - g)) as E by (rewrite <- Z.pow_add_r by lia; f_equal; lia).
  pose proof (Z.pow_pos_nonneg 2 (ex - g) ltac:(lia) ltac:(lia)).
  pose proof (Z.pow_pos_nonneg 2 (grid - ex) ltac:(lia) ltac:(lia)).
  split_and!; [done| | |lia|].
  - by rewrite E, Z.div_mul_cancel_r by lia.
  - rewrite <- Z.pow_add_r by lia. f_equal. lia.
  - rewrite E, Z.mul_mod_distr_r by lia. split; [intros ->; lia|nia].
Qed.

Lemma grid_cases r : representable r ->
  (exists c, r = c * 2 ^ (grid + 1074)) \/ r < 2 ^ (52 + (grid + 1074)) /\ grid <> -1074.
Proof.
  intros Hr. destruct grid_step as [Hg _]. destruct (Z.eq_dec grid (-1074)) as [Ez|Ez].
  - left. exists r. rewrite Ez. change (2 ^ (-1074 + 1074)) with 1. lia.
  - destruct (representable_grid r (grid + 1074) Hr ltac:(lia)); [by left|right; done].
Qed.

Lemma round_valid s : validF (binary_round_aux 53 1024 s mx ex l).
Proof. destruct (round_aux_spec s mx ex l Hmx Hex) as (m & e & -> & [? ? ? _]). by apply pack_valid. Qed.

Lemma round_ge r : representable r -> r * 2 ^ (-1074 - g) < (mx + 1) * 2 ^ (ex - g) ->
  geUnits (binary_round_aux 53 1024 false mx ex l) r.
Proof.
  intros Hr Hle. destruct (round_aux_spec false mx ex l Hmx Hex) as (m & e & -> & [Hm He Hn Hg]).
  destruct (grid_quotient mx ex Hmx Hex) as [Hq Hqn]. fold grid in Hg, Hq, Hqn.
  destruct grid_step as (Hg0 & Eq & ET & HT & _). destruct Hg as (q' & Hq' & Hme). rewrite Eq in *.
  apply pack_ge; [lia|lia|].
  assert (m * 2 ^ (e + 1074) = q' * 2 ^ (grid + 1074)) as ->.
  { destruct Hme as [[-> ->]|(-> & -> & ->)]; [done|].
    rewrite <- !Z.pow_add_r by lia. f_equal. lia. }
  set (q := (mx * 2 ^ (ex - g)) / 2 ^ (grid - g)) in *.
  pose proof (Z.pow_pos_nonneg 2 (grid + 1074) ltac:(lia) ltac:(lia)).
  destruct (grid_cases r Hr) as [[c ->]|[Hsmall Hne]].
  - assert (c <= q); [|nia]. apply Z.div_le_lower_bound; [done|].
    rewrite <- Z.mul_assoc, <- ET in Hle.
    assert (2 ^ (grid - g) = 2 ^ (grid - ex) * 2 ^ (ex - g)) as E2.
    { rewrite <- Z.pow_add_r by (unfold grid in *; lia). f_equal. lia. }
    rewrite E2 in Hle |- *. rewrite Z.mul_assoc in Hle. apply Z.mul_lt_mono_pos_r in Hle.
    + rewrite (Z.mul_comm _ c), Z.mul_assoc. apply Z.mul_le_mono_nonneg_r; lia.
    + apply Z.pow_pos_nonneg; lia.
  - destruct Hqn as [?|Hqn]; [done|]. rewrite Z.pow_add_r in Hsmall by lia. nia.
Qed.

Lemma round_le r : representable r -> r < 2 ^ 2098 -> mx * 2 ^ (ex - g) <= r * 2 ^ (-1074 - g) ->
  (l <> loc_Exact -> mx * 2 ^ (ex - g) < r * 2 ^ (-1074 - g)) ->
  leUnits (binary_round_aux 53 1024 false mx ex l) r.
Proof.
  intros Hr Hb Hle Hlt. destruct (round_aux_spec false mx ex l Hmx Hex) as (m & e & -> & [Hm He Hn Hg]).
  destruct (grid_quotient mx ex Hmx Hex) as [Hq Hqn]. fold grid in Hg, Hq, Hqn.
  destruct grid_step as (Hg0 & Eq & ET & HT & Emod). destruct Hg as (q' & Hq' & Hme). rewrite Eq in *.
  rewrite Emod in Hq'. apply pack_le; [lia|lia|lia| |done].
  assert (m * 2 ^ (e + 1074) = q' * 2 ^ (grid + 1074)) as ->.
  { destruct Hme as [[-> ->]|(-> & -> & ->)]; [done|].
    rewrite <- !Z.pow_add_r by lia. f_equal. lia. }
  set (X := mx * 2 ^ (ex - g)) in *. set (q := X / 2 ^ (grid - g)) in *.
  pose proof (Z.div_mod X (2 ^ (grid - g)) ltac:(lia)) as Ed. fold q in Ed.
  pose proof (Z.mod_pos_bound X (2 ^ (grid - g)) HT) as Hmod.
  pose proof (Z.pow_pos_nonneg 2 (grid + 1074) ltac:(lia) ltac:(lia)).
  destruct (grid_cases r Hr) as [[c ->]|[Hsmall Hne]].
  - rewrite <- Z.mul_assoc, <- ET in Hle, Hlt. apply Z.mul_le_mono_nonneg_r; [lia|].
    destruct Hq' as [->|[-> Hnex]]; [nia|].
    assert (X < c * 2 ^ (grid - g)); [|nia].
    destruct (decide (l = loc_Exact)) as [El|El]; [|by apply Hlt].
    destruct (Z.eq_dec X (c * 2 ^ (grid - g))) as [Ex|]; [|lia].
    exfalso. apply Hnex. split; [done|]. rewrite Ex. apply Z.mod_mul. lia.
  - destruct Hqn as [?|Hqn]; [done|].
    exfalso. assert (2 ^ 52 * 2 ^ (grid - g) <= X).
    { rewrite Ed. transitivity (2 ^ (grid - g) * q); [|lia]. rewrite Z.mul_comm. apply Z.mul_le_mono_nonneg_l; lia. }
    assert (r * 2 ^ (-1074 - g) < 2 ^ 52 * 2 ^ (grid - g)); [|lia].
    rewrite ET, Z.mul_assoc. apply Z.mul_lt_mono_pos_r; [apply Z.pow_pos_nonneg; lia|].
    by rewrite <- Z.pow_add_r by lia.
Qed.
End Round.

(** ** The operations on non-negative numbers *)
Definition isF (f : float64) (u : Z) : Prop := validF f /\ unitsOf f = Some u /\ 0 <= u.
Lemma isF_inv f u : isF f u ->
  (exists s, f = S754_zero s /\ u = 0)
  \/ exists m e, f = S754_finite false m e /\ u = Zpos m * 2 ^ (e + 1074)
     /\ Zpos m < 2 ^ 53 /\ -1074 <= e <= 971 /\ (e = -1074 \/ 2 ^ 52 <= Zpos m).
Proof.
  intros (Hv & Hu & Hn). destruct f as [s|s| |s m e]; simpl in *; try discriminate.
  - left. exists s. split; congruence.
  - right. exists m, e. destruct s; simplify_eq; [|done].
    pose proof (Z.pow_pos_nonneg 2 (e + 1074) ltac:(lia) ltac:(lia)). lia.
Qed.
Lemma leUnits_geUnits f r : validF f -> geUnits f r -> leUnits f r -> 0 <= r -> isF f r.
Proof.
  intros Hv [->|(u & E & ?)] (u' & E' & ?) ?; [discriminate|]. assert (u = r) as -> by (simplify_eq; lia). done.
Qed.

Lemma Pos_iter_xO m d : Zpos (Pos.iter xO m d) = Zpos m * 2 ^ Zpos d.
Proof.
  rewrite Pos2Nat.inj_iter. revert m. rewrite <- (positive_nat_Z d).
  induction (Pos.to_nat d) as [|n IH]; intros m; simpl nat_rect; [simpl; lia|].
  rewrite Pos2Z.inj_xO, IH, Nat2Z.inj_succ, Z.pow_succ_r by lia. lia.
Qed.
Lemma digits2_iter m d : Zpos (digits2_pos (Pos.iter xO m d)) = Zpos (digits2_pos m) + Zpos d.
Proof.
  rewrite Pos2Nat.inj_iter. rewrite <- (positive_nat_Z d).
  induction (Pos.to_nat d) as [|n IH]; simpl nat_rect; [lia|].
  simpl digits2_pos. rewrite Pos2Z.inj_succ, IH. lia.
Qed.
Lemma shl_align_spec p ex ex' :
  let '(q, e) := shl_align p ex ex' in
  Zpos q = Zpos p * 2 ^ (ex - e) /\ e = Z.min ex ex'
  /\ Zpos (digits2_pos q) + e = Zpos (digits2_pos p) + ex.
Proof.
  unfold shl_align. destruct (ex' - ex) as [|d|d] eqn:E.
  1,2: rewrite Z.sub_diag; split_and!; lia.
  split_and!; [|lia|rewrite digits2_iter; lia]. rewrite Pos_iter_xO. do 2 f_equal. lia.
Qed.

Section BinaryRound.
Context (p : positive) (ex g : Z) (Hgx : g <= ex) (Hgu : g <= -1074).
#[local] Lemma aligned :
  exists q e, shl_align p ex (fexp64 (Zpos (digits2_pos p) + ex)) = (q, e)
  /\ e <= fexp64 (Zdigits2 (Zpos q) + e) /\ Zpos q = Zpos p * 2 ^ (ex - e)
  /\ e <= ex.
Proof.
  pose proof (shl_align_spec p ex (fexp64 (Zpos (digits2_pos p) + ex))) as K.
  destruct (shl_align _ _ _) as [q e]. destruct K as (K1 & K2 & K3). exists q, e.
  split_and!; [done| |done|lia]. simpl Zdigits2. rewrite K3, K2. lia.
Qed.
#[local] Lemma scaled q e h : h <= e -> h <= g -> e <= ex -> Zpos q = Zpos p * 2 ^ (ex - e) ->
  Zpos q * 2 ^ (e - h) = Zpos p * 2 ^ (ex - g) * 2 ^ (g - h).
Proof.
  intros ? ? ? ->. rewrite <- !Z.mul_assoc, <- !Z.pow_add_r by lia. do 2 f_equal. lia.
Qed.
#[local] Lemma scaled_r r h : h <= g -> r * 2 ^ (-1074 - h) = r * 2 ^ (-1074 - g) * 2 ^ (g - h).
Proof. intros. rewrite <- !Z.mul_assoc, <- !Z.pow_add_r by lia. do 2 f_equal. lia. Qed.

Lemma binary_round_valid s : validF (binary_round 53 1024 s p ex).
Proof.
  destruct aligned as (q & e & E & He & _). unfold binary_round. rewrite E. by apply round_valid.
Qed.
Lemma binary_round_ge r : representable r -> r * 2 ^ (-1074 - g) <= Zpos p * 2 ^ (ex - g) ->
  geUnits (binary_round 53 1024 false p ex) r.
Proof.
  intros Hr Hle. destruct aligned as (q & e & E & He & Hq & Hee). unfold binary_round. rewrite E.
  apply (round_ge (Zpos q) e (Z.min g e)); [done..|lia|lia|done|].
  rewrite Z.mul_add_distr_r, (scaled q e), scaled_r by lia.
  pose proof (Z.pow_pos_nonneg 2 (e - Z.min g e) ltac:(lia) ltac:(lia)).
  enough (r * 2 ^ (-1074 - g) * 2 ^ (g - Z.min g e) <= Zpos p * 2 ^ (ex - g) * 2 ^ (g - Z.min g e)) by lia.
  apply Z.mul_le_mono_nonneg_r; [lia|done].
Qed.
Lemma binary_round_le r : representable r -> r < 2 ^ 2098 -> Zpos p * 2 ^ (ex - g) <= r * 2 ^ (-1074 - g) ->
  leUnits (binary_round 53 1024 false p ex) r.
Proof.
  intros Hr Hb Hle. destruct aligned as (q & e & E & He & Hq & Hee). unfold binary_round. rewrite E.
  apply (round_le (Zpos q) e (Z.min g e)); [done..|lia|lia|done|done| |done].
  rewrite (scaled q e), scaled_r by lia. apply Z.mul_le_mono_nonneg_r; [lia|done].
Qed.
End BinaryRound.

(** [float64(n)] is exact. *)
Lemma of_int_isF n : 0 <= n < 2 ^ 53 -> isF (of_int n) (n * 2 ^ 1074).
Proof.
  intros Hn. destruct n as [|p|p]; [by split| |lia]. unfold of_int, binary_normalize.
  assert (forall x, x * 2 ^ (-1074 - -1074) = x) as E1 by (intros; change (2 ^ (-1074 - -1074)) with 1; lia).
  assert (0 <= Zpos p * 2 ^ 1074) by (apply Z.mul_nonneg_nonneg; [lia|apply Z.pow_nonneg; lia]).
  apply leUnits_geUnits; [apply (binary_round_valid p 0)| | |done].
  - apply (binary_round_ge p 0 (-1074)); [done..|by apply representable_int|by rewrite E1].
  - apply (binary_round_le p 0 (-1074)); [done..|by apply representable_int| |by rewrite E1].
    apply Z.lt_le_trans with (2 ^ 53 * 2 ^ 1074).
    { apply Z.mul_lt_mono_pos_r; [apply Z.pow_pos_nonneg; lia|lia]. }
    rewrite <- Z.pow_add_r by lia. apply Z.pow_le_mono_r; lia.
Qed.

(** Multiplying both sides by a power of two. *)
Lemma pow_shift a b c k k' : 0 <= a -> 0 <= b -> 0 <= a + c -> 0 <= b + c ->
  (k * 2 ^ a <= k' * 2 ^ b <-> k * 2 ^ (a + c) <= k' * 2 ^ (b + c))
  /\ (k * 2 ^ a < k' * 2 ^ b <-> k * 2 ^ (a + c) < k' * 2 ^ (b + c)).
Proof.
  intros. destruct (Z.le_gt_cases 0 c).
  - rewrite !Z.pow_add_r, !Z.mul_assoc by lia. pose proof (Z.pow_pos_nonneg 2 c ltac:(lia) ltac:(lia)).
    split; [apply Z.mul_le_mono_pos_r|apply Z.mul_lt_mono_pos_r]; done.
  - replace (2 ^ a) with (2 ^ (a + c) * 2 ^ (- c)) by (rewrite <- Z.pow_add_r by lia; f_equal; lia).
    replace (2 ^ b) with (2 ^ (b + c) * 2 ^ (- c)) by (rewrite <- Z.pow_add_r by lia; f_equal; lia).
    rewrite !Z.mul_assoc. pose proof (Z.pow_pos_nonneg 2 (- c) ltac:(lia) ltac:(lia)).
    split; symmetry; [apply Z.mul_le_mono_pos_r|apply Z.mul_lt_mono_pos_r]; done.
Qed.

Lemma fadd_spec x y ux uy : isF x ux -> isF y uy ->
  validF (fadd x y)
  /\ (forall r, representable r -> r <= ux + uy -> geUnits (fadd x y) r)
  /\ (forall r, representable r -> r < 2 ^ 2098 -> ux + uy <= r -> leUnits (fadd x y) r).
Proof.
  intros Hx Hy. pose proof Hx as Hx'. pose proof Hy as Hy'.
  apply isF_inv in Hx' as [(sx & -> & ->)|(mx & ex & -> & -> & ? & ? & ?)];
    apply isF_inv in Hy' as [(sy & -> & ->)|(my & ey & -> & -> & ? & ? & ?)]; unfold fadd, SFadd.
  - destruct sx, sy; (split; [done|]); (split; intros; [right|]; by exists 0).
  - split; [apply Hy|]. split; intros; [right|]; (eexists; split; [reflexivity|lia]).
  - split; [apply Hx|]. split; intros; [right|]; (eexists; split; [reflexivity|lia]).
  - set (ez := Z.min ex ey). unfold cond_Zopp.
    pose proof (shl_align_spec mx ex ez) as Kx. pose proof (shl_align_spec my ey ez) as Ky.
    destruct (shl_align mx ex ez) as [qx zx], (shl_align my ey ez) as [qy zy]. simpl fst.
    destruct Kx as (Ex & -> & _), Ky as (Ey & -> & _).
    replace (Z.min ex ez) with ez in Ex by lia. replace (Z.min ey ez) with ez in Ey by lia.
    simpl (binary_normalize _ _ _ _ _).
    assert (Zpos (qx + qy) * 2 ^ (ez - -1074) = Zpos mx * 2 ^ (ex + 1074) + Zpos my * 2 ^ (ey + 1074)) as E.
    { rewrite Pos2Z.inj_add, Ex, Ey, Z.mul_add_distr_r, <- !Z.mul_assoc, <- !Z.pow_add_r by lia.
      do 2 f_equal; f_equal; lia. }
    split; [apply binary_round_valid|]. split; intros r Hr.
    + intros Hle. apply (binary_round_ge _ _ (-1074)); [lia|lia|done|].
      change (-1074 - -1074) with 0. lia.
    + intros Hb Hle. apply (binary_round_le _ _ (-1074)); [lia|lia|done|done|].
      change (-1074 - -1074) with 0. lia.
Qed.

Lemma digits_mul a b : 0 < a -> 0 < b -> Zdigits2 a + Zdigits2 b - 1 <= Zdigits2 (a * b).
Proof.
  intros Ha Hb. pose proof (Zdigits2_bounds a Ha) as [? _]. pose proof (Zdigits2_bounds b Hb) as [? _].
  pose proof (Zdigits2_ge a 0 ltac:(lia) ltac:(lia)). pose proof (Zdigits2_ge b 0 ltac:(lia) ltac:(lia)).
  replace (Zdigits2 a + Zdigits2 b - 1) with ((Zdigits2 a - 1 + (Zdigits2 b - 1)) + 1) by lia.
  apply Zdigits2_ge; [|lia]. rewrite Z.pow_add_r by lia. apply Z.mul_le_mono_nonneg; try done;
    apply Z.pow_nonneg; lia.
Qed.

Lemma fmul_spec x y ux uy : isF x ux -> isF y uy ->
  validF (fmul x y)
  /\ (forall r, representable r -> r * 2 ^ 1074 <= ux * uy -> geUnits (fmul x y) r).
Proof.
  intros Hx Hy.
  apply isF_inv in Hx as [(sx & -> & ->)|(mx & ex & -> & -> & Hmx & Hex & Hnx)];
    apply isF_inv in Hy as [(sy & -> & ->)|(my & ey & -> & -> & Hmy & Hey & Hny)]; unfold fmul, SFmul.
  1-3: split; [done|]; intros r _ Hr; right; exists 0; (split; [done|]); pose proof (Z.pow_pos_nonneg 2 1074 ltac:(lia) ltac:(lia)); nia.
  assert (ex + ey <= fexp64 (Zdigits2 (Zpos (mx * my)) + (ex + ey))) as He.
  { rewrite fexp64_eq. pose proof (digits_mul (Zpos mx) (Zpos my) ltac:(lia) ltac:(lia)) as Hd.
    rewrite <- Pos2Z.inj_mul in Hd.
    assert (0 < Zdigits2 (Zpos mx) /\ 0 < Zdigits2 (Zpos my)) as [? ?] by (simpl; lia).
    assert (forall m, 2 ^ 52 <= m -> 53 <= Zdigits2 m) as H53 by (intros m ?; apply (Zdigits2_ge m 52); lia).
    destruct Hnx as [->|Hnx]; [|specialize (H53 _ Hnx); lia].
    destruct Hny as [->|Hny]; [lia|specialize (H53 _ Hny); lia]. }
  split; [by apply round_valid|]. intros r Hr Hle.
  apply (round_ge _ _ (-2148)); [lia|done|lia|lia|done|].
  replace (-1074 - -2148) with 1074 by lia. rewrite Z.mul_add_distr_r.
  pose proof (Z.pow_pos_nonneg 2 (ex + ey - -2148) ltac:(lia) ltac:(lia)).
  enough (Zpos (mx * my) * 2 ^ (ex + ey - -2148) = Zpos mx * 2 ^ (ex + 1074) * (Zpos my * 2 ^ (ey + 1074))) by lia.
  replace (ex + ey - -2148) with (ex + 1074 + (ey + 1074)) by lia. rewrite Z.pow_add_r by lia. lia.
Qed.

(** The quotient of two mantissas, before rounding. *)
Lemma div_core_spec m1 e1 m2 e2 : 0 < m1 -> 0 < m2 ->
  let '(q, e, l) := SFdiv_core_binary 53 1024 m1 e1 m2 e2 in
  let D := Zdigits2 m1 + e1 - (Zdigits2 m2 + e2) in
  exists m, m = m1 * 2 ^ (e1 - e2 - e) /\ e <= e1 - e2 /\ e <= fexp64 D /\ q = m / m2
  /\ (l <> loc_Exact -> q * m2 < m).
Proof.
  intros H1 H2. unfold SFdiv_core_binary. cbv zeta.
  set (D := Zdigits2 m1 + e1 - (Zdigits2 m2 + e2)). set (e := Z.min (fexp64 D) (e1 - e2)).
  assert (0 <= e1 - e2 - e) as Hs by lia.
  set (m := match e1 - e2 - e with Z0 => m1 | Zpos _ => Z.shiftl m1 (e1 - e2 - e) | Zneg _ => 0 end).
  assert (m = m1 * 2 ^ (e1 - e2 - e)) as Em.
  { unfold m. destruct (e1 - e2 - e) as [|p|p] eqn:E; [lia|by rewrite Z.shiftl_mul_pow2|lia]. }
  pose proof (Z_div_mod m m2 ltac:(lia)) as K. destruct (Z.div_eucl m m2) as [q r] eqn:Eq.
  exists m. assert (q = m / m2) as -> by (apply (Z.div_unique m m2 q r); lia).
  split_and!; [done|lia|lia|done|]. intros Hl. destruct (Z.eq_dec r 0) as [->|]; [|lia].
  exfalso. apply Hl. unfold new_location, new_location_even, new_location_odd. by destruct (Z.even m2).
Qed.

Lemma fdiv_spec x y ux uy : isF x ux -> isF y uy -> 0 < uy -> uy <= ux * 2 ^ 1074 ->
  validF (fdiv x y)
  /\ (forall r, representable r -> r * uy <= ux * 2 ^ 1074 -> geUnits (fdiv x y) r)
  /\ (forall r, representable r -> r < 2 ^ 2098 -> ux * 2 ^ 1074 <= r * uy -> leUnits (fdiv x y) r).
Proof.
  intros Hx Hy Hpos Hunit.
  apply isF_inv in Hx as [(sx & -> & ->)|(m1 & e1 & -> & -> & Hm1 & He1 & _)]; [lia|].
  apply isF_inv in Hy as [(sy & -> & ->)|(m2 & e2 & -> & -> & Hm2 & He2 & _)]; [lia|].
  unfold fdiv, SFdiv. clear Hpos.
  pose proof (div_core_spec (Zpos m1) e1 (Zpos m2) e2 ltac:(lia) ltac:(lia)) as K.
  destruct (SFdiv_core_binary _ _ _ _ _ _) as [[q e] l]. cbv zeta in K.
  set (D := Zdigits2 (Zpos m1) + e1 - (Zdigits2 (Zpos m2) + e2)) in K.
  destruct K as (m & Em & Hee & HeD & Eq & Hl).
  pose proof (Zdigits2_bounds (Zpos m1) ltac:(lia)) as [L1 U1].
  pose proof (Zdigits2_bounds (Zpos m2) ltac:(lia)) as [L2 U2].
  set (d1 := Zdigits2 (Zpos m1)) in *. set (d2 := Zdigits2 (Zpos m2)) in *.
  assert (0 < d1 /\ 0 < d2) as [Hd1 Hd2] by (unfold d1, d2; simpl; lia).
  (* the quotient has the digits that the grid promises *)
  assert (0 <= D - 1 - e -> 2 ^ (D - 1 - e) <= q) as Hq.
  { intros Hge. rewrite Eq. apply Z.div_le_lower_bound; [lia|].
    transitivity (2 ^ d2 * 2 ^ (D - 1 - e)); [apply Z.mul_le_mono_nonneg_r; [apply Z.pow_nonneg|]; lia|].
    rewrite <- Z.pow_add_r by lia. rewrite Em.
    replace (d2 + (D - 1 - e)) with (d1 - 1 + (e1 - e2 - e)) by lia.
    rewrite Z.pow_add_r by lia. apply Z.mul_le_mono_nonneg_r; [apply Z.pow_nonneg; lia|lia]. }
  rewrite fexp64_eq in HeD.
  assert (0 < q) as Hq0.
  { destruct (Z.le_gt_cases e (D - 53)) as [?|?].
    - pose proof (Z.pow_pos_nonneg 2 (D - 1 - e) ltac:(lia) ltac:(lia)). specialize (Hq ltac:(lia)). lia.
    - assert (Zpos m2 <= m); [|rewrite Eq; assert (1 <= m / Zpos m2) by (apply Z.div_le_lower_bound; lia); lia].
      rewrite <- Z.mul_assoc, <- Z.pow_add_r in Hunit by lia.
      rewrite Em. assert (0 < 2 ^ (e2 + 1074)) by (apply Z.pow_pos_nonneg; lia).
      apply Z.mul_le_mono_pos_r with (2 ^ (e2 + 1074)); [done|]. etransitivity; [exact Hunit|].
      rewrite <- Z.mul_assoc, <- Z.pow_add_r by lia. apply Z.mul_le_mono_nonneg_l; [lia|].
      apply Z.pow_le_mono_r; lia. }
  assert (e <= fexp64 (Zdigits2 q + e)) as Hex.
  { rewrite fexp64_eq. destruct (Z.le_gt_cases e (-1074)); [lia|].
    pose proof (Zdigits2_ge q (D - 1 - e) (Hq ltac:(lia)) ltac:(lia)). lia. }
  set (g := Z.min e (-1074)).
  (* comparing the quotient with a number of units *)
  assert (forall r, (Zpos m1 * 2 ^ (e1 + 1074) * 2 ^ 1074 <= r * (Zpos m2 * 2 ^ (e2 + 1074))
            <-> m * 2 ^ (e - g) <= r * Zpos m2 * 2 ^ (-1074 - g))
          /\ (r * (Zpos m2 * 2 ^ (e2 + 1074)) <= Zpos m1 * 2 ^ (e1 + 1074) * 2 ^ 1074
            <-> r * Zpos m2 * 2 ^ (-1074 - g) <= m * 2 ^ (e - g))) as Hcmp.
  { intros r. rewrite <- (Z.mul_assoc (Zpos m1)), <- Z.pow_add_r, Z.mul_assoc by lia.
    rewrite Em, <- (Z.mul_assoc (Zpos m1)), <- Z.pow_add_r by lia.
    set (c := - (e2 + 1074) - 1074 - g).
    replace (e1 - e2 - e + (e - g)) with (e1 + 1074 + 1074 + c) by lia.
    replace (-1074 - g) with (e2 + 1074 + c) by lia. split.
    - apply pow_shift; lia.
    - apply pow_shift; lia. }
  split; [by apply round_valid|]. split; intros r Hr.
  - intros Hle. apply (proj2 (Hcmp r)) in Hle.
    apply (round_ge _ _ g); [done|done|lia|lia|done|].
    apply Z.mul_lt_mono_pos_r with (Zpos m2); [lia|].
    pose proof (Z.mul_succ_div_gt m (Zpos m2) ltac:(lia)) as Hgt. rewrite <- Eq in Hgt.
    pose proof (Z.pow_pos_nonneg 2 (e - g) ltac:(lia) ltac:(lia)) as Hp.
    apply (Z.mul_lt_mono_pos_r _ _ _ Hp) in Hgt. lia.
  - intros Hb Hle. apply (proj1 (Hcmp r)) in Hle.
    pose proof (Z.mul_div_le m (Zpos m2) ltac:(lia)) as Hdl. rewrite <- Eq in Hdl.
    pose proof (Z.pow_pos_nonneg 2 (e - g) ltac:(lia) ltac:(lia)) as Hp.
    apply (round_le _ _ g); [done|done|lia|lia|done|done| |].
    + apply Z.mul_le_mono_pos_r with (Zpos m2); [lia|].
      apply (Z.mul_le_mono_pos_r _ _ _ Hp) in Hdl. lia.
    + intros Hne. specialize (Hl Hne). apply Z.mul_lt_mono_pos_r with (Zpos m2); [lia|].
      apply (Z.mul_lt_mono_pos_r _ _ _ Hp) in Hl. lia.
Qed.

(** ** Comparisons *)
Lemma units_lt m1 e1 m2 e2 : Zpos m1 < 2 ^ 53 -> -1074 <= e1 -> e1 < e2 -> 2 ^ 52 <= Zpos m2 ->
  Zpos m1 * 2 ^ (e1 + 1074) < Zpos m2 * 2 ^ (e2 + 1074).
Proof.
  intros. apply Z.lt_le_trans with (2 ^ 53 * 2 ^ (e1 + 1074)).
  { apply Z.mul_lt_mono_pos_r; [apply Z.pow_pos_nonneg|]; lia. }
  transitivity (2 ^ 52 * 2 ^ (e2 + 1074)).
  { rewrite <- !Z.pow_add_r by lia. apply Z.pow_le_mono_r; lia. }
  apply Z.mul_le_mono_nonneg_r; [apply Z.pow_nonneg|]; lia.
Qed.
Lemma SFcompare_units x y ux uy : isF x ux -> isF y uy -> SFcompare x y = Some (ux ?= uy).
Proof.
  intros Hx Hy. apply isF_inv in Hx as [(sx & -> & ->)|(m1 & e1 & -> & -> & Hm1 & He1 & Hn1)];
    apply isF_inv in Hy as [(sy & -> & ->)|(m2 & e2 & -> & -> & Hm2 & He2 & Hn2)]; cbn [SFcompare].
  - done.
  - f_equal. symmetry. apply Z.compare_lt_iff. apply Z.mul_pos_pos; [lia|apply Z.pow_pos_nonneg; lia].
  - f_equal. symmetry. apply Z.compare_gt_iff. apply Z.mul_pos_pos; [lia|apply Z.pow_pos_nonneg; lia].
  - f_equal. destruct (Z.compare_spec e1 e2) as [->|Hlt|Hgt].
    + change (Pos.compare_cont Eq m1 m2) with (Zpos m1 ?= Zpos m2).
      pose proof (Z.pow_pos_nonneg 2 (e2 + 1074) ltac:(lia) ltac:(lia)).
      destruct (Z.compare_spec (Zpos m1) (Zpos m2)) as [->| |]; symmetry;
        [apply Z.compare_refl|apply Z.compare_lt_iff|apply Z.compare_gt_iff]; nia.
    + symmetry. apply Z.compare_lt_iff. apply units_lt; lia.
    + symmetry. apply Z.compare_gt_iff. apply units_lt; lia.
Qed.
Lemma flt_units x y ux uy : isF x ux -> isF y uy -> flt x y = (ux <? uy).
Proof. intros Hx Hy. unfold flt, SFltb. by rewrite (SFcompare_units x y ux uy). Qed.
Lemma fle_units x y ux uy : isF x ux -> isF y uy -> fle x y = (ux <=? uy).
Proof. intros Hx Hy. unfold fle, SFleb. rewrite (SFcompare_units x y ux uy) by done. by unfold Z.leb; destruct (_ ?= _). Qed.

(** A positive number is determined by its units. *)
Lemma isF_unique x y u : isF x u -> isF y u -> 0 < u -> x = y.
Proof.
  intros Hx Hy Hu. apply isF_inv in Hx as [(? & _ & ->)|(m1 & e1 & -> & E1 & ? & ? & Hn1)]; [lia|].
  apply isF_inv in Hy as [(? & _ & ->)|(m2 & e2 & -> & E2 & ? & ? & Hn2)]; [lia|].
  destruct (Z.lt_trichotomy e1 e2) as [Hlt|[->|Hlt]].
  - pose proof (units_lt m1 e1 m2 e2 ltac:(lia) ltac:(lia) Hlt ltac:(lia)). lia.
  - do 2 f_equal. assert (Zpos m1 = Zpos m2); [|congruence].
    apply Z.mul_reg_r with (2 ^ (e2 + 1074)); [|lia]. pose proof (Z.pow_pos_nonneg 2 (e2 + 1074)). lia.
  - pose proof (units_lt m2 e2 m1 e1 ltac:(lia) ltac:(lia) Hlt ltac:(lia)). lia.
Qed.
(** A result that is at least zero and bounded is a finite number. *)
Lemma geUnits_inv f r : validF f -> geUnits f r -> 0 <= r ->
  f = S754_infinity false \/ exists u, isF f u /\ r <= u.
Proof. intros Hv [->|(u & E & ?)] ?; [by left|]. right. exists u. split; [|done]. split_and!; [done|done|lia]. Qed.
Lemma leUnits_isF f r r' : validF f -> geUnits f r -> leUnits f r' -> 0 <= r ->
  exists u, isF f u /\ r <= u <= r'.
Proof.
  intros Hv Hg (u & E & ?) Hr. destruct (geUnits_inv f r Hv Hg Hr) as [->|(u' & Hu & ?)]; [done|].
  assert (u' = u) as -> by (destruct Hu as (_ & E' & _); congruence). by exists u.
Qed.

Lemma fsub_spec x y ux uy : isF x ux -> isF y uy -> uy < ux ->
  validF (fsub x y)
  /\ (forall r, representable r -> r <= ux - uy -> geUnits (fsub x y) r)
  /\ (forall r, representable r -> r < 2 ^ 2098 -> ux - uy <= r -> leUnits (fsub x y) r).
Proof.
  intros Hx Hy Hlt. pose proof Hx as Hx'. pose proof Hy as (_ & _ & Hy0).
  apply isF_inv in Hx' as [(sx & -> & ->)|(mx & ex & -> & -> & ? & ? & ?)]; [lia|].
  pose proof Hy as Hy'.
  apply isF_inv in Hy' as [(sy & -> & ->)|(my & ey & -> & -> & ? & ? & ?)]; unfold fsub, SFsub.
  - split; [apply Hx|]. split; intros; [right|]; (eexists; split; [reflexivity|lia]).
  - set (ez := Z.min ex ey). unfold cond_Zopp.
    pose proof (shl_align_spec mx ex ez) as Kx. pose proof (shl_align_spec my ey ez) as Ky.
    destruct (shl_align mx ex ez) as [qx zx], (shl_align my ey ez) as [qy zy]. simpl fst.
    destruct Kx as (Ex & -> & _), Ky as (Ey & -> & _).
    replace (Z.min ex ez) with ez in Ex by lia. replace (Z.min ey ez) with ez in Ey by lia.
    assert ((Zpos qx - Zpos qy) * 2 ^ (ez - -1074) = Zpos mx * 2 ^ (ex + 1074) - Zpos my * 2 ^ (ey + 1074)) as E.
    { rewrite Ex, Ey, Z.mul_sub_distr_r, <- !Z.mul_assoc, <- !Z.pow_add_r by lia.
      f_equal; do 2 f_equal; lia. }
    pose proof (Z.pow_pos_nonneg 2 (ez - -1074) ltac:(lia) ltac:(lia)).
    destruct (Zpos qx - Zpos qy) as [|q|q] eqn:Eq; [lia| |nia]. unfold binary_normalize.
    split; [apply binary_round_valid|]. split; intros r Hr.
    + intros Hle. apply (binary_round_ge _ _ (-1074)); [lia|lia|done|].
      change (-1074 - -1074) with 0. lia.
    + intros Hb Hle. apply (binary_round_le _ _ (-1074)); [lia|lia|done|done|].
      change (-1074 - -1074) with 0. lia.
Qed.
(** The difference of integers is exact. *)
Lemma fsub_int n m : 0 <= m < n -> n < 2 ^ 53 -> fsub (of_int n) (of_int m) = of_int (n - m).
Proof.
  intros Hm Hn. pose proof (Z.pow_pos_nonneg 2 1074 ltac:(lia) ltac:(lia)).
  destruct (fsub_spec (of_int n) (of_int m) (n * 2 ^ 1074) (m * 2 ^ 1074)) as (Hv & Hge & Hle);
    [apply of_int_isF; lia|apply of_int_isF; lia|nia|].
  apply (isF_unique _ _ ((n - m) * 2 ^ 1074)); [|apply of_int_isF; lia|nia].
  assert (representable ((n - m) * 2 ^ 1074)) by (apply representable_int; lia).
  apply leUnits_geUnits; [done|apply Hge; [done|lia]| |nia]. apply Hle; [done| |lia].
  apply Z.lt_le_trans with (2 ^ 53 * 2 ^ 1074); [nia|]. rewrite <- Z.pow_add_r by lia. apply Z.pow_le_mono_r; lia.
Qed.

(** ** [math.Ceil]

    The value of [math.Ceil(f)], and the ceiling of a quotient of integers: the
    rounding of the division never crosses an integer while the dividend has at most
    52 bits. *)
Definition ceil (f : float64) : option Z :=
  match f with
  | S754_zero _ => Some 0
  | S754_finite s m e =>
      let v := if s then - Zpos m else Zpos m in
      Some (if 0 <=? e then v * 2 ^ e else - (- v / 2 ^ (- e)))
  | _ => None
  end.

Lemma ceil_units f u c : isF f u -> (c - 1) * 2 ^ 1074 < u <= c * 2 ^ 1074 -> ceil f = Some c.
Proof.
  intros Hf Hc. apply isF_inv in Hf as [(s & -> & ->)|(m & e & -> & -> & Hm & He & _)]; cbn [ceil]; f_equal.
  - pose proof (Z.pow_pos_nonneg 2 1074 ltac:(lia) ltac:(lia)). nia.
  - destruct (Z.leb_spec 0 e).
    + replace (e + 1074) with (1074 + e) in Hc by lia. rewrite Z.pow_add_r in Hc by lia.
      pose proof (Z.pow_pos_nonneg 2 1074 ltac:(lia) ltac:(lia)).
      assert (c - 1 < Zpos m * 2 ^ e <= c); [|lia].
      split; [apply Z.mul_lt_mono_pos_r with (2 ^ 1074)|apply Z.mul_le_mono_pos_r with (2 ^ 1074)]; lia.
    + replace (2 ^ 1074) with (2 ^ (- e) * 2 ^ (e + 1074)) in Hc by (rewrite <- Z.pow_add_r by lia; f_equal; lia).
      pose proof (Z.pow_pos_nonneg 2 (e + 1074) ltac:(lia) ltac:(lia)).
      pose proof (Z.pow_pos_nonneg 2 (- e) ltac:(lia) ltac:(lia)).
      rewrite !Z.mul_assoc, <- Z.mul_lt_mono_pos_r, <- Z.mul_le_mono_pos_r in Hc by done.
      assert (- c = - Zpos m / 2 ^ (- e)) as <-; [|lia].
      apply (Z.div_unique_pos _ _ _ (c * 2 ^ (- e) - Zpos m)); nia.
Qed.

Lemma ceil_div n p : 0 < n <= 2 ^ 52 -> 0 < p < 2 ^ 53 ->
  ceil (fdiv (of_int n) (of_int p)) = Some ((n + p - 1) / p).
Proof.
  intros Hn Hp. pose proof (of_int_isF n ltac:(lia)) as Fn. pose proof (of_int_isF p ltac:(lia)) as Fp.
  set (c := (n + p - 1) / p).
  pose proof (Z.div_mod (n + p - 1) p ltac:(lia)) as Ec. fold c in Ec.
  pose proof (Z.mod_pos_bound (n + p - 1) p ltac:(lia)) as Hr.
  set (U := 2 ^ 1074) in *. assert (0 < U) as HU by (apply Z.pow_pos_nonneg; lia).
  assert (2 ^ 54 <= U) as HU54 by (apply Z.pow_le_mono_r; lia).
  assert ((c - 1) * p < n <= c * p) as [Hlo Hhi] by nia.
  assert (1 <= c <= 2 ^ 52) as Hc by nia.
  destruct (fdiv_spec _ _ _ _ Fn Fp) as (Hv & Hge & Hle); [lia|nia|].
  set (j := Z.log2_up p).
  assert (0 <= j <= 53 /\ p <= 2 ^ j /\ (j = 0 /\ p = 1 \/ 2 ^ (j - 1) < p)) as (Hj & Hpj & Hjp).
  { pose proof (Z.log2_up_nonneg p). assert (j <= 53).
    { replace 53 with (Z.log2_up (2 ^ 53)) by (by rewrite Z.log2_up_pow2). apply Z.log2_up_le_mono. lia. }
    destruct (Z.eq_dec p 1) as [E1|]; [unfold j; rewrite E1; split_and!; [done..|by left]|].
    pose proof (Z.log2_up_spec p ltac:(lia)) as K. fold j in K. replace (Z.pred j) with (j - 1) in K by lia.
    split_and!; lia. }
  set (k := c - 1) in *. set (mant := k * 2 ^ j + 1).
  assert (0 <= mant < 2 ^ 53) as Hmant.
  { unfold mant. pose proof (Z.pow_pos_nonneg 2 j ltac:(lia) ltac:(lia)). split; [nia|].
    destruct (Z.eq_dec j 0) as [Ej|]; [rewrite Ej; change (2 ^ 0) with 1; lia|].
    destruct Hjp as [[Ej _]|Hjp]; [lia|].
    replace (2 ^ j) with (2 * 2 ^ (j - 1)) by (rewrite <- Z.pow_succ_r by lia; f_equal; lia).
    assert (k * 2 ^ (j - 1) <= k * (p - 1)) by (apply Z.mul_le_mono_nonneg_l; lia). nia. }
  assert (U = 2 ^ j * 2 ^ (1074 - j)) as EU by (unfold U; rewrite <- Z.pow_add_r by lia; f_equal; lia).
  pose proof (Z.pow_pos_nonneg 2 (1074 - j) ltac:(lia) ltac:(lia)) as Hs.
  assert (geUnits (fdiv (of_int n) (of_int p)) (mant * 2 ^ (1074 - j))) as [K1|(u & K1 & K2)].
  { apply Hge; [apply representable_int; lia|]. rewrite Z.mul_assoc. apply Z.mul_le_mono_nonneg_r; [lia|].
    transitivity (n * 2 ^ j * 2 ^ (1074 - j)); [|rewrite EU; lia].
    replace (mant * 2 ^ (1074 - j) * p) with (mant * p * 2 ^ (1074 - j)) by lia.
    apply Z.mul_le_mono_nonneg_r; [lia|]. unfold mant. nia. }
  1: destruct (Hle (c * U)) as (u & K & _); [apply representable_int; lia|..].
  all: assert (c * U < 2 ^ 2098) as Hbig by
    (apply Z.le_lt_trans with (2 ^ 52 * U); [apply Z.mul_le_mono_nonneg_r; lia|];
     unfold U; rewrite <- Z.pow_add_r by lia; apply Z.pow_lt_mono_r; lia).
  all: assert (n * U * U <= c * U * (p * U)) as Hmul by
    (replace (c * U * (p * U)) with (c * p * (U * U)) by lia; rewrite <- Z.mul_assoc; apply Z.mul_le_mono_nonneg_r; nia).
  1,2: done.
  - rewrite K1 in K. discriminate.
  - destruct (Hle (c * U)) as (u' & K3 & K4); [apply representable_int; lia|done|done|].
    assert (u' = u) as -> by congruence.
    apply (ceil_units _ u); [split_and!; [done|done|nia]|]. fold U. fold k. split; [|done].
    rewrite EU. unfold mant in K2. nia.
Qed.
