(* ===== verification/Schema.v ===== *)
(** * Schemas, defaults and validators

    Models [internal/domain/schema.go] (the data types, [Field] and [Schema]
    with its name index), the constants and [OrDefault] of
    [internal/domain/defaults.go], the checks of [internal/domain/validator.go],
    the errors of [internal/domain/errors.go] and the audit record of
    [internal/domain/audit.go]. *)
From S2P Require Import Prelude GoStr.

(** ** Constants ([defaults.go]) *)
Definition DefaultChunkSizeBytes : Z := 64 * 1024 * 1024.
Definition DefaultDatabaseBatchSize : Z := 2500.
Definition DefaultAPIPageSize : Z := 100.
Definition DefaultMaxRecordFields : Z := 10000.
Definition DefaultStackMaskBytes : Z := 16.
Definition DefaultMaskPoolBytes : Z := 64.
Definition DefaultRecordBatchCapacity : Z := 5000.
Definition DefaultMinRecordBatchCapacity : Z := 64.
Definition DefaultMaxInternStringLen : Z := 64.
Definition DefaultMaxInternPoolSize : Z := 16384.
Definition DefaultBigQueryBatchSize : Z := 500.
Definition DefaultAdaptiveMaxBatchFactor : Z := 10.
Definition DefaultDestinationAPIBatchSize : Z := 100.

(** [OrDefault[T comparable](value, fallback T) T]; [zero] is the zero value of [T]. *)
Definition OrDefault {T} `{EqDecision T} (zero value fallback : T) : T :=
  if decide (value = zero) then fallback else value.

(** ** Errors ([errors.go]) *)
Definition ErrTypeCastFailed : error := Sentinel "type cast failed".
Definition ErrNullConstraint : error := Sentinel "non-nullable constraint violation".
Definition ErrSchemaMismatch : error := Sentinel "schema field count mismatch".

(** ** Data types and fields ([schema.go]); a [DataType] is a Go string. *)
Abbreviation DataType := string (only parsing).
Definition TypeString : DataType := "string".
Definition TypeInt64 : DataType := "int64".
Definition TypeFloat64 : DataType := "float64".
Definition TypeBool : DataType := "bool".
Definition TypeTimestamp : DataType := "timestamp".
Definition TypeBytes : DataType := "bytes".
Definition TypeDate : DataType := "date".
Definition TypeDecimal : DataType := "decimal".
Definition TypeJSON : DataType := "json".

Record Field := mkField {
  Name : string;
  FType : DataType;
  Nullable : bool;
  FScale : Z;
  OnOverflow : string
}.

(** [nameIdx] is [None] for a nil map. *)
Record Schema := mkSchema {
  Fields : list Field;
  nameIdx : option (gmap string Z)
}.

Definition emptyField : Field := mkField "" "" false 0 "".
Definition schemaOf (fs : list Field) : Schema := mkSchema fs None.

(** [FieldValidationError] with its text. *)
Record FieldValidationError := mkFieldValidationError {
  fe_Field : string;
  fe_Value : string;
  fe_Type : DataType;
  fe_Err : error
}.
Definition FieldValidationError_Error `{GoQuote} (e : FieldValidationError) : string :=
  "field " +:+ Quote (fe_Field e) +:+ " (" +:+ fe_Type e +:+ ") with value "
    +:+ Quote (fe_Value e) +:+ ": " +:+ Error (fe_Err e).
Definition FieldValidationError_Unwrap (e : FieldValidationError) : error := fe_Err e.

(** ** Schema operations *)

(** The loop [for i, f := range s.Fields { s.nameIdx[f.Name] = i }]. *)
Fixpoint indexFrom (i : Z) (fs : list Field) (m : gmap string Z) : gmap string Z :=
  match fs with
  | [] => m
  | f :: fs' => indexFrom (i + 1) fs' (<[Name f := i]> m)
  end.

Definition Index (s : Schema) : Schema :=
  match Fields s with
  | [] => s
  | fs => mkSchema fs (Some (indexFrom 0 fs ∅))
  end.

Definition defaultField (f : Field) : Field :=
  if (FType f =s TypeDecimal) && (OnOverflow f =s "")
  then mkField (Name f) (FType f) (Nullable f) (FScale f) "round"
  else f.
Definition Schema_ApplyDefaults (s : Schema) : Schema :=
  mkSchema (map defaultField (Fields s)) (nameIdx s).

Definition validateField `{GoQuote} (f : Field) : result unit :=
  if TrimSpace (Name f) =s "" then Err (Errorf "field name cannot be empty" [])
  else if FType f =s TypeDecimal then
    if FScale f <? 0 then
      Err (Errorf ("field " +:+ Quote (Name f) +:+ ": scale cannot be negative, got "
                   +:+ FormatInt (FScale f)) [])
    else if negb (OnOverflow f =s "") && negb (OnOverflow f =s "round")
            && negb (OnOverflow f =s "fail") then
      Err (Errorf ("field " +:+ Quote (Name f) +:+ ": unsupported on_overflow "
                   +:+ Quote (OnOverflow f) +:+ " (must be 'round' or 'fail')") [])
    else Ok tt
  else Ok tt.

Fixpoint validateFields `{GoQuote} (fs : list Field) : result unit :=
  match fs with
  | [] => Ok tt
  | f :: fs' => validateField f ≫= fun _ => validateFields fs'
  end.

(** The receiver is a pointer: [None] is a nil schema. *)
Definition Schema_Validate `{GoQuote} (s : option Schema) : result unit :=
  match s with
  | None => Err (Errorf "schema must contain at least one field" [])
  | Some s =>
      match Fields s with
      | [] => Err (Errorf "schema must contain at least one field" [])
      | fs => validateFields fs
      end
  end.

(** The linear search of [FieldByName] for a schema without index. *)
Fixpoint findField (i : Z) (name : string) (fs : list Field) : Field * Z * bool :=
  match fs with
  | [] => (emptyField, -1, false)
  | f :: fs' => if Name f =s name then (f, i, true) else findField (i + 1) name fs'
  end.

(** [s.Fields[idx]] panics when the index is stale. *)
Definition FieldByName (s : option Schema) (name : string) : result (Field * Z * bool) :=
  match s with
  | None => Ok (emptyField, -1, false)
  | Some s =>
      match nameIdx s with
      | Some m =>
          match m !! name with
          | Some idx =>
              match Fields s !! Z.to_nat idx with
              | Some f => Ok (f, idx, true)
              | None => Panic "index out of range"
              end
          | None => Ok (emptyField, -1, false)
          end
      | None => Ok (findField 0 name (Fields s))
      end
  end.

(** ** Validators ([validator.go]), at the integer types the program uses *)
Definition CheckNonNegative (name : string) (val : Z) : result unit :=
  if val <? 0 then Err (Errorf (name +:+ " cannot be negative, got " +:+ FormatInt val) [])
  else Ok tt.
Definition CheckPositive (name : string) (val : Z) : result unit :=
  if val <=? 0 then Err (Errorf (name +:+ " must be strictly positive, got " +:+ FormatInt val) [])
  else Ok tt.
Definition CheckNotEmpty (name val : string) : result unit :=
  if TrimSpace val =s "" then Err (Errorf (name +:+ " is required") []) else Ok tt.

(** The arguments are evaluated before the call; the first error is returned. *)
Fixpoint ValidateAll (errs : list (result unit)) : result unit :=
  match errs with
  | [] => Ok tt
  | Err e :: _ => Err e
  | Panic s :: _ => Panic s
  | Ok _ :: errs' => ValidateAll errs'
  end.

(** ** Quality rules ([config_dlq.go]) *)
Record QualityRule := mkRule {
  rule_Type : string; rule_Column : string; rule_Values : list string; rule_Value : Z }.

(** ** Audit records ([audit.go]); [now] is the instant of [time.Now().UTC()]. *)
Definition SeverityInfo : string := "INFO".
Definition SeverityWarning : string := "WARNING".
Definition SeverityError : string := "ERROR".

Record AuditRecord := mkAuditRecord {
  Timestamp : Z;
  EventType : string;
  Severity : string;
  ColumnName : string;
  RuleName : string;
  Message : string;
  SampleValue : string;
  PipelineID : string;
  RunID : string
}.
Definition NewAuditRecord (now : Z) (eventType severity col rule msg sample : string)
    : AuditRecord :=
  mkAuditRecord now eventType severity col rule msg sample "" "".

(** ** Lemmas *)
Lemma indexFrom_lookup i fs m name :
  NoDup (map Name fs) ->
  indexFrom i fs m !! name =
    match findField i name fs with
    | (_, j, true) => Some j
    | (_, _, false) => m !! name
    end.
Proof.
  revert i m. induction fs as [|f fs IH]; intros i m Hd; simpl; [done|].
  apply NoDup_cons in Hd as [Hf Hd]. rewrite IH by done.
  destruct (String.eqb_spec (Name f) name) as [E|E].
  - subst name. assert (findField (i + 1) (Name f) fs = (emptyField, -1, false)) as ->.
    { clear -Hf. generalize (i + 1). induction fs as [|g fs IH]; intros j; simpl; [done|].
      simpl in Hf. apply not_elem_of_cons in Hf as [H1 H2].
      destruct (String.eqb_spec (Name g) (Name f)); [congruence|auto]. }
    by simplify_map_eq.
  - destruct (findField (i + 1) name fs) as [[g j] [|]]; [done|]. by simplify_map_eq.
Qed.

Lemma findField_found i name fs f j :
  findField i name fs = (f, j, true) ->
  i <= j /\ fs !! Z.to_nat (j - i) = Some f /\ Name f = name.
Proof.
  revert i. induction fs as [|g fs IH]; intros i; simpl; [congruence|].
  destruct (String.eqb_spec (Name g) name) as [E|E]; intros H.
  - injection H as -> ->. rewrite Z.sub_diag. auto with lia.
  - apply IH in H as (H1 & H2 & H3). split; [lia|]. split; [|done].
    replace (Z.to_nat (j - i)) with (S (Z.to_nat (j - (i + 1)))) by lia. done.
Qed.

Lemma findField_missing i name fs f j :
  findField i name fs = (f, j, false) -> f = emptyField /\ j = -1.
Proof.
  revert i. induction fs as [|g fs IH]; intros i; simpl; [by injection 1 as <- <-|].
  destruct (String.eqb_spec (Name g) name); [congruence|]. apply IH.
Qed.

Lemma defaultField_idem f : defaultField (defaultField f) = defaultField f.
Proof.
  unfold defaultField at 2 3. destruct (_ && _) eqn:E; [|unfold defaultField; by rewrite E].
  unfold defaultField. simpl. by rewrite andb_false_r.
Qed.

Lemma validateField_default `{GoQuote} f : validateField (defaultField f) = validateField f.
Proof.
  unfold defaultField, validateField.
  destruct (FType f =s TypeDecimal) eqn:Ed; simpl; [|by rewrite Ed].
  destruct (OnOverflow f =s "") eqn:Eo; simpl; rewrite Ed; [|by rewrite Eo].
  done.
Qed.

(** ** Properties *)

(** With distinct column names, looking a field up through the index built
    by [Index] gives exactly the answer of the linear search, for every name,
    and never goes out of range. *)
Theorem FieldByName_Index (s : Schema) (name : string) :
  NoDup (map Name (Fields s)) -> nameIdx s = None ->
  FieldByName (Some (Index s)) name = FieldByName (Some s) name.
Proof.
  intros Hd Hn. destruct s as [fs m]. simpl in *. subst m. unfold Index. cbn [Fields].
  destruct fs as [|f0 fs0]; [done|]. unfold FieldByName.
  remember (f0 :: fs0) as fs. cbn [nameIdx Fields]. rewrite indexFrom_lookup by done.
  destruct (findField 0 name fs) as [[f j] [|]] eqn:E.
  - apply findField_found in E as (H0 & Hl & _). rewrite Z.sub_0_r in Hl. by rewrite Hl.
  - apply findField_missing in E as [-> ->]. by rewrite lookup_empty.
Qed.

Definition sampleFields : list Field :=
  [mkField "id" TypeInt64 false 0 ""; mkField "amount" TypeDecimal true 2 "fail"].
Lemma FieldByName_Index_witness :
  NoDup (map Name sampleFields)
  /\ FieldByName (Some (Index (schemaOf sampleFields))) "amount"
     = FieldByName (Some (schemaOf sampleFields)) "amount".
Proof.
  split.
  - apply (bool_decide_unpack _). vm_compute. exact I.
  - apply (FieldByName_Index (schemaOf sampleFields) "amount"); [|reflexivity].
    apply (bool_decide_unpack _). vm_compute. exact I.
Defined.

(** With a repeated column name the two paths differ: the index keeps the last
    occurrence, the linear search returns the first. *)
Lemma FieldByName_duplicate :
  let s := schemaOf [mkField "a" TypeInt64 false 0 ""; mkField "a" TypeString true 0 ""] in
  (exists f, FieldByName (Some s) "a" = Ok (f, 0, true))
  /\ (exists f, FieldByName (Some (Index s)) "a" = Ok (f, 1, true)).
Proof. split; eexists; vm_compute; reflexivity. Qed.

(** [ApplyDefaults] is idempotent, leaves every decimal column with a
    rounding mode, keeps all other attributes, and does not change what
    [Validate] answers. *)
Theorem Schema_ApplyDefaults_sound `{GoQuote} (s : Schema) :
  Schema_ApplyDefaults (Schema_ApplyDefaults s) = Schema_ApplyDefaults s
  /\ Forall (fun f => FType f = TypeDecimal -> OnOverflow f <> "")
       (Fields (Schema_ApplyDefaults s))
  /\ map (fun f => (Name f, FType f, Nullable f, FScale f)) (Fields (Schema_ApplyDefaults s))
     = map (fun f => (Name f, FType f, Nullable f, FScale f)) (Fields s)
  /\ Schema_Validate (Some (Schema_ApplyDefaults s)) = Schema_Validate (Some s).
Proof.
  destruct s as [fs m]. unfold Schema_ApplyDefaults. simpl. split; [|split; [|split]].
  - f_equal. rewrite map_map. apply map_ext, defaultField_idem.
  - apply Forall_forall. intros f (g & -> & _)%list_elem_of_fmap. unfold defaultField.
    destruct (_ && _) eqn:E; simpl; [done|].
    intros Hd. rewrite Hd in E. simpl in E. by destruct (String.eqb_spec (OnOverflow g) "").
  - rewrite map_map. apply map_ext. intros f. unfold defaultField. by destruct (_ && _).
  - destruct fs as [|f fs]; [done|]. change (validateFields (map defaultField (f :: fs))
      = validateFields (f :: fs)).
    induction (f :: fs) as [|g gs IH]; [done|].
    cbn [map validateFields]. by rewrite validateField_default, IH.
Qed.
