(* ===== verification/Intern.v ===== *)
(** * String interning

    Models [pkg/intern/intern.go]: the bounded global pool and its two
    operations. The pool is explicit state; a call takes and releases the lock,
    so its two critical sections (the read-locked lookup and the write-locked
    insertion) are two definitions, and [intern_String] is their sequential
    composition. *)
From S2P Require Import Prelude GoStr Schema.

(** [Pool.entries]. *)
Abbreviation Pool := (gmap string string).

Definition emptyPool : Pool := ∅.

(** The read-locked lookup. *)
Definition internLookup (p : Pool) (s : string) : option string := p !! s.

(** The write-locked part: bounded capacity check, second lookup, insertion. *)
Definition internInsert (p : Pool) (s : string) : string * Pool :=
  if DefaultMaxInternPoolSize <=? Z.of_nat (size p) then (s, p)
  else match p !! s with
  | Some v => (v, p)
  | None => (s, <[s := s]> p)
  end.

(** [String(s)]; [p'] is the pool after the read lock is released, as other
    goroutines may insert between the two critical sections. *)
Definition internStringAt (p p' : Pool) (s : string) : string * Pool :=
  if slen s =? 0 then ("", p)
  else if DefaultMaxInternStringLen <? slen s then (s, p)
  else match internLookup p s with
  | Some v => (v, p)
  | None => internInsert p' s
  end.

Definition intern_String (p : Pool) (s : string) : string * Pool := internStringAt p p s.

(** [Bytes(b)]. *)
Definition intern_Bytes (p : Pool) (b : list byte) : string * Pool :=
  if zlen b =? 0 then ("", p)
  else if DefaultMaxInternStringLen <? zlen b then (str b, p)
  else intern_String p (str b).

(** The pool maps each string to itself, holds only short strings, and is bounded. *)
Record PoolOk (p : Pool) : Prop := {
  pool_canonical : forall k v, p !! k = Some v -> v = k;
  pool_short : forall k v, p !! k = Some v -> 0 < slen k <= DefaultMaxInternStringLen;
  pool_bounded : Z.of_nat (size p) <= DefaultMaxInternPoolSize
}.

Lemma emptyPool_ok : PoolOk emptyPool.
Proof. unfold emptyPool. split; [intros k v H; by rewrite lookup_empty in H..|done]. Qed.
#[export] Hint Resolve emptyPool_ok : gocode.

Lemma slen_zero s : slen s = 0 -> s = "".
Proof. destruct s; simpl; [done|unfold slen; simpl; lia]. Qed.

Lemma internInsert_ok p s :
  PoolOk p -> 0 < slen s <= DefaultMaxInternStringLen ->
  fst (internInsert p s) = s /\ PoolOk (snd (internInsert p s)) /\ p ⊆ snd (internInsert p s).
Proof.
  intros Hp Hs. unfold internInsert.
  destruct (Z.leb_spec DefaultMaxInternPoolSize (Z.of_nat (size p))) as [|Hlt]; [done|].
  destruct (p !! s) as [v|] eqn:E; simpl; [by rewrite (pool_canonical p Hp s v E)|].
  split; [done|]. split; [|by apply insert_subseteq].
  split.
  - intros k v H. destruct (decide (k = s)) as [->|]; simplify_map_eq; [done|].
    by apply (pool_canonical p Hp).
  - intros k v H. destruct (decide (k = s)) as [->|]; simplify_map_eq; [done|].
    by eapply (pool_short p Hp).
  - rewrite map_size_insert_None by done. lia.
Qed.

Lemma internStringAt_ok p p' s :
  PoolOk p -> PoolOk p' ->
  fst (internStringAt p p' s) = s
  /\ (snd (internStringAt p p' s) = p \/ PoolOk (snd (internStringAt p p' s))).
Proof.
  intros Hp Hp'. unfold internStringAt.
  destruct (Z.eqb_spec (slen s) 0) as [H0|H0]; [by rewrite (slen_zero s H0); auto|].
  destruct (Z.ltb_spec DefaultMaxInternStringLen (slen s)); [by auto|].
  unfold internLookup. destruct (p !! s) as [v|] eqn:E.
  - simpl. rewrite (pool_canonical p Hp s v E). auto.
  - pose proof (slen_nonneg s).
    destruct (internInsert_ok p' s Hp') as (Hf & Hk & _); [lia|]. auto.
Qed.

Lemma intern_String_ok p s :
  PoolOk p -> exists p', intern_String p s = (s, p') /\ PoolOk p'.
Proof.
  intros Hp. unfold intern_String.
  destruct (internStringAt_ok p p s Hp Hp) as [H1 H2].
  destruct (internStringAt p p s) as [s' p']. simpl in *. subst s'.
  exists p'. destruct H2 as [->|]; auto.
Qed.

(** ** Properties *)

(** Interning is transparent and bounded: whatever other goroutines inserted
    between the two critical sections, [String] returns a string equal to its
    argument, and the pool it leaves still maps every string to itself, holds
    only strings of at most 64 bytes and has at most 16384 entries. *)
Theorem intern_String_transparent (p p' : Pool) (s : string) :
  PoolOk p -> PoolOk p' ->
  fst (internStringAt p p' s) = s /\ PoolOk (snd (internStringAt p p' s))
  /\ (forall b, fst (intern_Bytes p b) = str b).
Proof.
  intros Hp Hp'. destruct (internStringAt_ok p p' s Hp Hp') as [H1 H2].
  split; [done|]. split; [destruct H2 as [->|]; auto|].
  intros b. unfold intern_Bytes.
  destruct (Z.eqb_spec (zlen b) 0) as [H0|]; [by rewrite (zlen_nil b H0)|].
  destruct (_ <? _); [done|].
  by destruct (intern_String_ok p (str b) Hp) as (p'' & -> & _).
Qed.

Lemma intern_String_transparent_witness :
  fst (internStringAt ∅ ∅ "customer") = "customer"
  /\ snd (internStringAt ∅ ∅ "customer") !! "customer" = Some "customer".
Proof.
  split; [|reflexivity].
  exact (proj1 (intern_String_transparent ∅ ∅ "customer" emptyPool_ok emptyPool_ok)).
Defined.
