(* ===== verification/RecordModel.v ===== *)
(** * Records

    Models [internal/domain/record.go]: [FieldValue] with its accessors and
    renderings, [FormatDecimal], [GenericRecord] with its setters and [ToMap],
    and [DeadLetterRecord]. *)
From S2P Require Import Prelude GoStr Float64 Schema Intern.

(** [NumVal] is a [uint64], [Scale] an [int32]; [Type] a [DataType]. *)
Record FieldValue := mkFieldValue {
  Type_ : DataType;
  IsNull : bool;
  Scale : Z;
  NumVal : Z;
  StrVal : string
}.
Definition zeroFieldValue : FieldValue := mkFieldValue "" false 0 0 "".
#[export] Instance FieldValue_eq_dec : EqDecision FieldValue.
Proof. solve_decision. Defined.

(** The ranges of the Go types of the fields. *)
Definition FieldValue_ok (f : FieldValue) : Prop := in_i32 (Scale f) /\ in_u64 (NumVal f).

(** ** Accessors. Instants are nanoseconds since the Unix epoch, in UTC. *)
Definition Int64Val (f : FieldValue) : Z := i64 (NumVal f).
Definition Float64Val (f : FieldValue) : float64 := frombits (NumVal f).
Definition BoolVal (f : FieldValue) : bool := NumVal f =? 1.
Definition TimeVal (f : FieldValue) : Z := i64 (NumVal f).
Definition StringVal (f : FieldValue) : string := StrVal f.
Definition BytesVal (f : FieldValue) : list byte := bytes (StrVal f).
Definition DecimalVal (f : FieldValue) : Z * Z := (i64 (NumVal f), Scale f).

(** ** Standard-library renderings

    [strconv.FormatFloat(f, 'f', -1, 64)] (shortest decimal) and [json.Marshal]
    of strings and byte slices are left to the standard library. *)
Class GoFormatFloat := formatFloat : float64 -> string.
Class GoJSON := { jsonString : string -> string; jsonBytes : list byte -> string }.

(** [t.Format(time.RFC3339)] of a UTC instant: the proleptic Gregorian date of
    the day count, then the time of day. An [int64] of nanoseconds stays within
    the years 1677 to 2262, so years have four digits. *)
Definition civil (days : Z) : Z * Z * Z :=
  let z := days + 719468 in
  let era := z / 146097 in
  let doe := z - era * 146097 in
  let yoe := (doe - doe / 1460 + doe / 36524 - doe / 146096) / 365 in
  let doy := doe - (365 * yoe + yoe / 4 - yoe / 100) in
  let mp := (5 * doy + 2) / 153 in
  let d := doy - (153 * mp + 2) / 5 + 1 in
  let m := if mp <? 10 then mp + 3 else mp - 9 in
  (yoe + era * 400 + (if m <=? 2 then 1 else 0), m, d).

Definition pad2 (n : Z) : string := str [digit (n / 10 mod 10); digit (n mod 10)].
Definition pad4 (n : Z) : string := pad2 (n / 100) +:+ pad2 (n mod 100).
Definition formatRFC3339 (ns : Z) : string :=
  let secs := ns / 1000000000 in
  let '(y, m, d) := civil (secs / 86400) in
  let t := secs mod 86400 in
  pad4 y +:+ "-" +:+ pad2 m +:+ "-" +:+ pad2 d +:+ "T" +:+ pad2 (t / 3600) +:+ ":"
    +:+ pad2 (t / 60 mod 60) +:+ ":" +:+ pad2 (t mod 60) +:+ "Z".

Example formatRFC3339_ex : formatRFC3339 1700000000123456789 = "2023-11-14T22:13:20Z".
Proof. vm_compute. reflexivity. Qed.
Example formatRFC3339_neg : formatRFC3339 (-1) = "1969-12-31T23:59:59Z".
Proof. vm_compute. reflexivity. Qed.

(** ** [FormatDecimal(mantissa int64, scale int32)] *)
Definition FormatDecimalBytes (mantissa scale : Z) : list byte :=
  if scale <=? 0 then FormatIntBytes mantissa
  else
    let neg := mantissa <? 0 in
    let uval := if neg then u64 (i64 (0 - mantissa)) else u64 mantissa in
    let s := FormatUintBytes uval in
    let n := length s in
    let k := Z.to_nat scale in
    (if neg then ["-"%char] else [])
    ++ (if zlen s <=? scale
        then "0"%char :: "."%char :: replicate (k - n) "0"%char ++ s
        else take (n - k) s ++ ["."%char] ++ drop (n - k) s).
Definition FormatDecimal (mantissa scale : Z) : string := str (FormatDecimalBytes mantissa scale).

Example FormatDecimal_ex1 : FormatDecimal (-12345) 2 = "-123.45".
Proof. reflexivity. Qed.
Example FormatDecimal_ex2 : FormatDecimal 5 3 = "0.005".
Proof. reflexivity. Qed.

(** ** [FieldValue.String], [Interface] and [WriteJSON] *)
Definition FieldValue_String `{GoFormatFloat} (f : FieldValue) : string :=
  if IsNull f then ""
  else if Type_ f =s TypeString then StrVal f
  else if Type_ f =s TypeInt64 then FormatInt (Int64Val f)
  else if Type_ f =s TypeFloat64 then formatFloat (Float64Val f)
  else if Type_ f =s TypeBool then FormatBool (BoolVal f)
  else if Type_ f =s TypeTimestamp then formatRFC3339 (TimeVal f)
  else if Type_ f =s TypeBytes then StrVal f
  else if Type_ f =s TypeDecimal then FormatDecimal (Int64Val f) (Scale f)
  else StrVal f.

(** The dynamic values [Interface] returns. *)
Inductive any : Type :=
  | ANil
  | AString (s : string)
  | AInt64 (n : Z)
  | AFloat64 (x : float64)
  | ABool (b : bool)
  | ATime (ns : Z)
  | ABytes (b : list byte).

Definition Interface (f : FieldValue) : any :=
  if IsNull f then ANil
  else if Type_ f =s TypeString then AString (StrVal f)
  else if Type_ f =s TypeInt64 then AInt64 (Int64Val f)
  else if Type_ f =s TypeFloat64 then AFloat64 (Float64Val f)
  else if Type_ f =s TypeBool then ABool (BoolVal f)
  else if Type_ f =s TypeTimestamp then ATime (TimeVal f)
  else if Type_ f =s TypeBytes then ABytes (bytes (StrVal f))
  else if Type_ f =s TypeDecimal then AString (FormatDecimal (Int64Val f) (Scale f))
  else AString (StrVal f).

(** [WriteJSON] appends to a buffer. *)
Definition WriteJSON `{GoFormatFloat, GoJSON} (f : FieldValue) (buf : string) : string :=
  buf +:+
  (if IsNull f then "null"
   else if Type_ f =s TypeString then jsonString (StrVal f)
   else if Type_ f =s TypeInt64 then FormatInt (Int64Val f)
   else if Type_ f =s TypeFloat64 then formatFloat (Float64Val f)
   else if Type_ f =s TypeBool then FormatBool (BoolVal f)
   else if Type_ f =s TypeTimestamp then
     str ["034"%char] +:+ formatRFC3339 (TimeVal f) +:+ str ["034"%char]
   else if Type_ f =s TypeBytes then jsonBytes (bytes (StrVal f))
   else if Type_ f =s TypeDecimal then FormatDecimal (Int64Val f) (Scale f)
   else jsonString (StrVal f)).

(** ** Records *)
Record GenericRecord := mkGenericRecord {
  SchemaID : string;
  Values : list FieldValue;
  AuditFields : gmap string string
}.

Record DeadLetterRecord := mkDeadLetterRecord {
  RawPayload : string;
  ErrorMessage : string;
  FailedColumn : string;
  SourceFile : string;
  FailedAt : Z
}.

Definition NewGenericRecord (schemaID : string) (numFields : nat) : GenericRecord :=
  mkGenericRecord schemaID (replicate numFields zeroFieldValue) ∅.

(** [Get] returns a pointer into [Values], or nil. *)
Definition Get (r : GenericRecord) (idx : Z) : option FieldValue :=
  if (idx <? 0) || (zlen (Values r) <=? idx) then None else Values r !! Z.to_nat idx.

(** [r.Values[idx] = v], which panics out of range. *)
Definition setValue (r : GenericRecord) (idx : Z) (v : FieldValue) : result GenericRecord :=
  if (0 <=? idx) && (idx <? zlen (Values r))
  then Ok (mkGenericRecord (SchemaID r) (<[Z.to_nat idx := v]> (Values r)) (AuditFields r))
  else Panic "index out of range".

Definition nullValue (t : DataType) : FieldValue := mkFieldValue t true 0 0 "".
Definition stringValue (s : string) : FieldValue := mkFieldValue TypeString false 0 0 s.
Definition int64Value (n : Z) : FieldValue := mkFieldValue TypeInt64 false 0 (u64 n) "".
Definition float64Value (x : float64) : FieldValue := mkFieldValue TypeFloat64 false 0 (bits x) "".
Definition boolValue (b : bool) : FieldValue :=
  mkFieldValue TypeBool false 0 (if b then 1 else 0) "".
Definition timestampValue (ns : Z) : FieldValue := mkFieldValue TypeTimestamp false 0 (u64 ns) "".
Definition bytesValue (b : list byte) : FieldValue := mkFieldValue TypeBytes false 0 0 (str b).
Definition decimalValue (m s : Z) : FieldValue := mkFieldValue TypeDecimal false s (u64 m) "".

Definition SetNull (r : GenericRecord) (idx : Z) (t : DataType) := setValue r idx (nullValue t).
(** [SetString] interns the value, so it also updates the pool. *)
Definition SetString (p : Pool) (r : GenericRecord) (idx : Z) (val : string)
    : result GenericRecord * Pool :=
  let '(v, p') := intern_String p val in (setValue r idx (stringValue v), p').
Definition SetInt64 (r : GenericRecord) (idx val : Z) := setValue r idx (int64Value val).
Definition SetFloat64 (r : GenericRecord) (idx : Z) (val : float64) :=
  setValue r idx (float64Value val).
Definition SetBool (r : GenericRecord) (idx : Z) (val : bool) := setValue r idx (boolValue val).
Definition SetTimestamp (r : GenericRecord) (idx ns : Z) := setValue r idx (timestampValue ns).
Definition SetBytes (r : GenericRecord) (idx : Z) (val : list byte) :=
  setValue r idx (bytesValue val).
Definition SetDecimal (r : GenericRecord) (idx mantissa scale : Z) :=
  setValue r idx (decimalValue mantissa scale).

(** [ToMap]: nil receiver or schema gives a nil map. *)
Fixpoint toMapFrom (r : GenericRecord) (i : Z) (fs : list Field) (m : gmap string any)
    : gmap string any :=
  match fs with
  | [] => m
  | f :: fs' =>
      let v := match Get r i with
               | None => ANil
               | Some val => if IsNull val then ANil else Interface val
               end in
      toMapFrom r (i + 1) fs' (<[Name f := v]> m)
  end.
Definition ToMap (r : option GenericRecord) (schema : option Schema) : option (gmap string any) :=
  match r, schema with
  | Some r, Some s => Some (toMapFrom r 0 (Fields s) ∅)
  | _, _ => None
  end.

(** ** Lemmas *)
Lemma setValue_inv r idx v r' :
  setValue r idx v = Ok r' ->
  0 <= idx < zlen (Values r) /\ Values r' = <[Z.to_nat idx := v]> (Values r)
  /\ SchemaID r' = SchemaID r /\ AuditFields r' = AuditFields r.
Proof.
  unfold setValue. destruct (_ && _) eqn:E; [|discriminate].
  apply andb_prop in E as [E1 E2]. apply Z.leb_le in E1. apply Z.ltb_lt in E2.
  intros [= <-]. auto.
Qed.

Lemma setValue_next sid pre old rest aud v :
  setValue (mkGenericRecord sid (pre ++ old :: rest) aud) (zlen pre) v
  = Ok (mkGenericRecord sid (pre ++ v :: rest) aud).
Proof.
  unfold setValue. cbn [Values SchemaID AuditFields]. rewrite zlen_app, (zlen_app [old] rest : zlen (old :: rest) = _). change (zlen [old]) with 1.
  pose proof (zlen_nonneg pre). pose proof (zlen_nonneg rest).
  rewrite (proj2 (Z.leb_le 0 _)), (proj2 (Z.ltb_lt _ _)) by lia. simpl. do 2 f_equal.
  unfold zlen. rewrite Nat2Z.id. by rewrite insert_app_r_alt, Nat.sub_diag by done.
Qed.

Lemma setValue_in_range r idx v :
  0 <= idx < zlen (Values r) ->
  setValue r idx v
  = Ok (mkGenericRecord (SchemaID r) (<[Z.to_nat idx := v]> (Values r)) (AuditFields r)).
Proof.
  intros [H1 H2]. unfold setValue.
  by rewrite (proj2 (Z.leb_le _ _) H1), (proj2 (Z.ltb_lt _ _) H2).
Qed.

Lemma Get_lookup r idx : 0 <= idx -> Get r idx = Values r !! Z.to_nat idx.
Proof.
  intros H. unfold Get. destruct (Z.ltb_spec idx 0); [lia|]. simpl.
  destruct (Z.leb_spec (zlen (Values r)) idx) as [Hl|]; [|done].
  symmetry. apply lookup_ge_None. unfold zlen in Hl. lia.
Qed.

(** Reading a value back through the accessor of its type. *)
Lemma Int64Val_int64Value n : in_i64 n -> Int64Val (int64Value n) = n.
Proof. intros H. unfold Int64Val, int64Value. simpl. rewrite i64_u64. by apply i64_small. Qed.
Lemma DecimalVal_decimalValue m s : in_i64 m -> DecimalVal (decimalValue m s) = (m, s).
Proof. intros H. unfold DecimalVal. simpl. rewrite i64_u64. by rewrite i64_small. Qed.
Lemma TimeVal_timestampValue ns : in_i64 ns -> TimeVal (timestampValue ns) = ns.
Proof. intros H. unfold TimeVal. simpl. rewrite i64_u64. by apply i64_small. Qed.
Lemma BoolVal_boolValue b : BoolVal (boolValue b) = b.
Proof. by destruct b. Qed.
Lemma BytesVal_bytesValue b : BytesVal (bytesValue b) = b.
Proof. apply bytes_str. Qed.

Lemma toMapFrom_other r i fs m name :
  name ∉ map Name fs -> toMapFrom r i fs m !! name = m !! name.
Proof.
  revert i m. induction fs as [|f fs IH]; intros i m H; [done|].
  simpl in *. apply not_elem_of_cons in H as [H1 H2]. rewrite IH by done.
  by rewrite lookup_insert_ne.
Qed.

Lemma toMapFrom_lookup r i fs m j f :
  NoDup (map Name fs) -> 0 <= i -> fs !! j = Some f ->
  toMapFrom r i fs m !! Name f
  = Some (match Values r !! (Z.to_nat i + j)%nat with Some v => Interface v | None => ANil end).
Proof.
  revert i m j. induction fs as [|g fs IH]; intros i m j Hd Hi Hj; [done|].
  simpl in Hd. apply NoDup_cons in Hd as [Hg Hd]. destruct j as [|j]; simpl in Hj.
  - injection Hj as ->. cbn [toMapFrom]. rewrite toMapFrom_other by done. rewrite Nat.add_0_r.
    rewrite Get_lookup by done. simplify_map_eq. f_equal.
    destruct (Values r !! Z.to_nat i) as [v|]; [|done].
    unfold Interface. by destruct (IsNull v).
  - cbn [toMapFrom]. rewrite (IH (i + 1) _ j) by (done || lia).
    by replace (Z.to_nat (i + 1) + j)%nat with (Z.to_nat i + S j)%nat by lia.
Qed.

(** ** Properties *)

(** [ToMap] of a record under a schema with distinct names holds, at each
    field's name, exactly the dynamic value of the record's value at the field's
    position, nil when the value is null or the record is too short, and holds
    nothing at other names. *)
Theorem ToMap_spec (r : GenericRecord) (s : Schema) :
  NoDup (map Name (Fields s)) ->
  exists m, ToMap (Some r) (Some s) = Some m
  /\ (forall j f, Fields s !! j = Some f ->
        m !! Name f = Some (match Values r !! j with Some v => Interface v | None => ANil end))
  /\ (forall name, name ∉ map Name (Fields s) -> m !! name = None).
Proof.
  intros Hd. eexists. split; [reflexivity|]. split.
  - intros j f Hj. apply (toMapFrom_lookup r 0 (Fields s) ∅ j f Hd); [lia|done].
  - intros name Hn. by rewrite toMapFrom_other.
Qed.

Definition sampleRecord : GenericRecord :=
  mkGenericRecord "file" [int64Value 7; decimalValue (-1999) 2] ∅.
Lemma ToMap_spec_witness :
  exists m, ToMap (Some sampleRecord) (Some (schemaOf sampleFields)) = Some m
  /\ m !! "amount" = Some (AString "-19.99").
Proof.
  destruct (ToMap_spec sampleRecord (schemaOf sampleFields)) as (m & E & H & _).
  { apply (bool_decide_unpack _). vm_compute. exact I. }
  exists m. split; [exact E|].
  exact (H 1%nat (mkField "amount" TypeDecimal true 2 "fail") eq_refl).
Defined.
