(* ===== verification/Metrics.v ===== *)
(** * Pipeline metrics

    Models [internal/domain/metrics.go] (the counters, their conservation
    checks, [Snapshot]) and [internal/beam/core/metrics_combiner.go] (the
    per-origin combiner and the summary combiner). The counters are updated
    atomically by concurrent goroutines: [RecordWritten] is two atomic
    instructions, so its interleavings are a step relation ([wstep]). *)
From S2P Require Import Prelude GoStr Float64 Schema Intern RecordModel.

(** ** Data ([metrics.go]) *)
Record OriginMetric := mkOriginMetric { TotalRead : Z; Valid : Z; DLQ : Z }.
Definition zeroOriginMetric : OriginMetric := mkOriginMetric 0 0 0.
#[export] Instance OriginMetric_eq_dec : EqDecision OriginMetric.
Proof. solve_decision. Defined.

Record SinkMetrics := mkSinkMetrics {
  sm_RowsWritten : Z; sm_BytesWritten : Z; sm_FilesWritten : Z; sm_Checksum : string
}.

(** [WatermarkOutput] of [watermark_config.go]; [Value] is a string pointer. *)
Record WatermarkOutput := mkWatermarkOutput {
  wo_Column : string; wo_Type : string; wo_Value : option string
}.

(** A nil map is [None]; the mutex only serialises the map accesses. *)
Record PipelineMetrics := mkPipelineMetrics {
  pm_PipelineID : string;
  pm_RunID : string;
  TotalRecordsRead : Z;
  RowCount : Z;
  RowsWritten : Z;
  DeadLetterCount : Z;
  BytesWritten : Z;
  FilesWritten : Z;
  APICallsMade : Z;
  Checksum : string;
  ExecutionDurationMs : Z;
  RecordsPerSecond : float64;
  ThroughputMBPerSecond : float64;
  Watermark : option WatermarkOutput;
  OriginMetrics : option (gmap string OriginMetric);
  ColumnNullCounts : option (gmap string Z);
  InvalidValueCounts : option (gmap string Z);
  CustomMetrics : option (gmap string any)
}.

Definition f0 : float64 := SpecFloat.S754_zero false.
Definition mapOf {V} (m : option (gmap string V)) : gmap string V := default ∅ m.

Definition NewPipelineMetrics (pipelineID runID : string) : PipelineMetrics :=
  mkPipelineMetrics pipelineID runID 0 0 0 0 0 0 0 "" 0 f0 f0 None
    (Some ∅) (Some ∅) (Some ∅) (Some ∅).

(** Replacing one counter. *)
Definition set_TotalRecordsRead (m : PipelineMetrics) (v : Z) : PipelineMetrics :=
  let 'mkPipelineMetrics a b c d e f g h i j k l n o p q r s := m in
  mkPipelineMetrics a b v d e f g h i j k l n o p q r s.
Definition set_RowCount (m : PipelineMetrics) (v : Z) : PipelineMetrics :=
  let 'mkPipelineMetrics a b c d e f g h i j k l n o p q r s := m in
  mkPipelineMetrics a b c v e f g h i j k l n o p q r s.
Definition set_RowsWritten (m : PipelineMetrics) (v : Z) : PipelineMetrics :=
  let 'mkPipelineMetrics a b c d e f g h i j k l n o p q r s := m in
  mkPipelineMetrics a b c d v f g h i j k l n o p q r s.
Definition set_DeadLetterCount (m : PipelineMetrics) (v : Z) : PipelineMetrics :=
  let 'mkPipelineMetrics a b c d e f g h i j k l n o p q r s := m in
  mkPipelineMetrics a b c d e v g h i j k l n o p q r s.
Definition set_APICallsMade (m : PipelineMetrics) (v : Z) : PipelineMetrics :=
  let 'mkPipelineMetrics a b c d e f g h i j k l n o p q r s := m in
  mkPipelineMetrics a b c d e f g h v j k l n o p q r s.
Definition set_OriginMetrics (m : PipelineMetrics) (v : gmap string OriginMetric) : PipelineMetrics :=
  let 'mkPipelineMetrics a b c d e f g h i j k l n o p q r s := m in
  mkPipelineMetrics a b c d e f g h i j k l n o (Some v) q r s.
Definition set_ColumnNullCounts (m : PipelineMetrics) (v : gmap string Z) : PipelineMetrics :=
  let 'mkPipelineMetrics a b c d e f g h i j k l n o p q r s := m in
  mkPipelineMetrics a b c d e f g h i j k l n o p (Some v) r s.
Definition set_InvalidValueCounts (m : PipelineMetrics) (v : gmap string Z) : PipelineMetrics :=
  let 'mkPipelineMetrics a b c d e f g h i j k l n o p q r s := m in
  mkPipelineMetrics a b c d e f g h i j k l n o p q (Some v) s.

(** ** Counter operations *)
Definition RecordRead (m : PipelineMetrics) := set_TotalRecordsRead m (i64 (TotalRecordsRead m + 1)).
Definition RecordAPICall (m : PipelineMetrics) := set_APICallsMade m (i64 (APICallsMade m + 1)).
Definition RecordDeadLetter (m : PipelineMetrics) :=
  set_DeadLetterCount m (i64 (DeadLetterCount m + 1)).

(** The two atomic instructions of [RecordWritten]. *)
Definition RecordWritten_add (m : PipelineMetrics) : Z * PipelineMetrics :=
  let newVal := i64 (RowsWritten m + 1) in (newVal, set_RowsWritten m newVal).
Definition RecordWritten_store (m : PipelineMetrics) (newVal : Z) : PipelineMetrics :=
  set_RowCount m newVal.
Definition RecordWritten (m : PipelineMetrics) : PipelineMetrics :=
  let '(newVal, m) := RecordWritten_add m in RecordWritten_store m newVal.

Definition bump (m : gmap string Z) (col : string) : gmap string Z :=
  <[col := i64 (default 0 (m !! col) + 1)]> m.
Definition AddColumnNull (m : PipelineMetrics) (col : string) : PipelineMetrics :=
  match ColumnNullCounts m with
  | Some c => set_ColumnNullCounts m (bump c col)
  | None => m
  end.
Definition AddInvalidValue (m : PipelineMetrics) (col : string) : PipelineMetrics :=
  match InvalidValueCounts m with
  | Some c => set_InvalidValueCounts m (bump c col)
  | None => m
  end.

Definition IsStrictlyConserved (m : PipelineMetrics) : bool :=
  TotalRecordsRead m =? i64 (RowsWritten m + DeadLetterCount m).

Definition originConserved (om : OriginMetric) : bool := TotalRead om =? i64 (Valid om + DLQ om).
Definition IsConservedPerOrigin (m : PipelineMetrics) : bool :=
  forallb (fun kv => originConserved (snd kv)) (map_to_list (mapOf (OriginMetrics m))).

Definition copyWatermark (w : option WatermarkOutput) : option WatermarkOutput :=
  match w with
  | None => None
  | Some w => Some (mkWatermarkOutput (wo_Column w) (wo_Type w)
                      (match wo_Value w with None => None | Some v => Some v end))
  end.

(** A copied map is nil when the original is empty. *)
Definition copyMap {V} (m : option (gmap string V)) : option (gmap string V) :=
  match m with
  | Some c => if 0 <? Z.of_nat (size c) then Some c else None
  | None => None
  end.
Definition Snapshot (m : PipelineMetrics) : PipelineMetrics :=
  mkPipelineMetrics (pm_PipelineID m) (pm_RunID m) (TotalRecordsRead m) (RowCount m)
    (RowsWritten m) (DeadLetterCount m) (BytesWritten m) (FilesWritten m) (APICallsMade m)
    (Checksum m) (ExecutionDurationMs m) (RecordsPerSecond m) (ThroughputMBPerSecond m)
    (copyWatermark (Watermark m)) (copyMap (OriginMetrics m)) (copyMap (ColumnNullCounts m))
    (copyMap (InvalidValueCounts m)) (copyMap (CustomMetrics m)).

(** ** Interleavings of [RecordWritten]

    A configuration is the shared metrics and, for each goroutine, the point
    it has reached: not started, between the two instructions with its
    [newVal], or returned. *)
Inductive wpc := WStart | WAdded (newVal : Z) | WDone.
Definition wconf : Type := PipelineMetrics * list wpc.

Inductive wstep : wconf -> wconf -> Prop :=
  | wstep_add m ts i :
      ts !! i = Some WStart ->
      wstep (m, ts) (snd (RecordWritten_add m), <[i := WAdded (fst (RecordWritten_add m))]> ts)
  | wstep_store m ts i v :
      ts !! i = Some (WAdded v) ->
      wstep (m, ts) (RecordWritten_store m v, <[i := WDone]> ts).

(** ** The per-origin combiner ([metrics_combiner.go]) *)
Module OriginCombiner.
Record OriginAccumulator := mkAcc { a_TotalRead : Z; a_Valid : Z; a_DLQ : Z }.

Definition CreateAccumulator : OriginAccumulator := mkAcc 0 0 0.

Definition AddInput (a : OriginAccumulator) (isDLQ : bool) : OriginAccumulator :=
  if isDLQ then mkAcc (i64 (a_TotalRead a + 1)) (a_Valid a) (i64 (a_DLQ a + 1))
  else mkAcc (i64 (a_TotalRead a + 1)) (i64 (a_Valid a + 1)) (a_DLQ a).

Definition MergeAccumulators (a b : OriginAccumulator) : OriginAccumulator :=
  mkAcc (i64 (a_TotalRead a + a_TotalRead b)) (i64 (a_Valid a + a_Valid b))
    (i64 (a_DLQ a + a_DLQ b)).

Definition ExtractOutput (a : OriginAccumulator) : OriginMetric :=
  mkOriginMetric (a_TotalRead a) (a_Valid a) (a_DLQ a).
End OriginCombiner.

(** ** The summary combiner *)
Record OriginSummary := mkOriginSummary { Origin : string; Metric : OriginMetric }.

Module SummaryCombiner.
Definition CreateAccumulator : PipelineMetrics := NewPipelineMetrics "" "".

Definition AddInput (a : PipelineMetrics) (item : OriginSummary) : PipelineMetrics :=
  let om := match OriginMetrics a with None => ∅ | Some o => o end in
  let a := set_TotalRecordsRead a (i64 (TotalRecordsRead a + TotalRead (Metric item))) in
  let a := set_RowsWritten a (i64 (RowsWritten a + Valid (Metric item))) in
  let a := set_DeadLetterCount a (i64 (DeadLetterCount a + DLQ (Metric item))) in
  set_OriginMetrics a (<[Origin item := Metric item]> om).

(** The second loop overwrites the entries of the first. *)
Definition MergeAccumulators (a b : PipelineMetrics) : PipelineMetrics :=
  let res := NewPipelineMetrics "" "" in
  let res := set_TotalRecordsRead res (i64 (TotalRecordsRead a + TotalRecordsRead b)) in
  let res := set_RowsWritten res (i64 (RowsWritten a + RowsWritten b)) in
  let res := set_DeadLetterCount res (i64 (DeadLetterCount a + DeadLetterCount b)) in
  set_OriginMetrics res (mapOf (OriginMetrics b) ∪ mapOf (OriginMetrics a)).

Definition ExtractOutput (a : PipelineMetrics) : PipelineMetrics := a.
End SummaryCombiner.

(** A runner combines inputs along any tree: a leaf is a bundle folded from a
    fresh accumulator, a node merges two accumulators. *)
Inductive tree (A : Type) : Type :=
  | Bundle (xs : list A)
  | Node (l r : tree A).
Arguments Bundle {A} xs.
Arguments Node {A} l r.

Fixpoint inputs {A} (t : tree A) : list A :=
  match t with Bundle xs => xs | Node l r => inputs l ++ inputs r end.

Section Combine.
Context {A Acc : Type} (create : Acc) (add : Acc -> A -> Acc) (merge : Acc -> Acc -> Acc).
Fixpoint combine (t : tree A) : Acc :=
  match t with
  | Bundle xs => foldl add create xs
  | Node l r => merge (combine l) (combine r)
  end.
End Combine.

(** ** Lemmas *)
Definition count (b : bool) (xs : list bool) : Z := zlen (filter (fun x => x = b) xs).

Lemma count_cons b x xs : count b (x :: xs) = (if bool_decide (x = b) then 1 else 0) + count b xs.
Proof.
  unfold count, zlen. rewrite filter_cons. destruct (decide (x = b)) as [E|E].
  - rewrite bool_decide_true by done. simpl. lia.
  - by rewrite bool_decide_false by done.
Qed.
Lemma count_app b xs ys : count b (xs ++ ys) = count b xs + count b ys.
Proof. unfold count. by rewrite filter_app, zlen_app. Qed.
Lemma count_total xs : count true xs + count false xs = zlen xs.
Proof.
  induction xs as [|[] xs IH]; [done| |]; rewrite !count_cons; simpl;
    unfold zlen in *; simpl length; lia.
Qed.
Lemma i64_add_l a b : i64 (i64 a + b) = i64 (a + b).
Proof. wordlia. Qed.
Lemma i64_add_r a b : i64 (a + i64 b) = i64 (a + b).
Proof. wordlia. Qed.
#[export] Hint Rewrite i64_add_l i64_add_r : words.

Import OriginCombiner.

Lemma AddInput_fold xs t v d :
  foldl AddInput (mkAcc (i64 t) (i64 v) (i64 d)) xs
  = mkAcc (i64 (t + zlen xs)) (i64 (v + count false xs)) (i64 (d + count true xs)).
Proof.
  revert t v d. induction xs as [|x xs IH]; intros t v d; cbn [foldl].
  { unfold zlen, count. simpl. by rewrite !Z.add_0_r. }
  unfold AddInput at 2. cbn [a_TotalRead a_Valid a_DLQ]. rewrite !count_cons.
  replace (zlen (x :: xs)) with (1 + zlen xs) by (unfold zlen; simpl; lia).
  destruct x; rewrite !i64_add_l, IH; simpl; f_equal; f_equal; lia.
Qed.

Lemma combine_origin (t : tree bool) :
  combine CreateAccumulator AddInput MergeAccumulators t
  = mkAcc (i64 (zlen (inputs t))) (i64 (count false (inputs t))) (i64 (count true (inputs t))).
Proof.
  induction t as [xs|l IHl r IHr]; cbn [combine inputs].
  - apply (AddInput_fold xs 0 0 0).
  - rewrite IHl, IHr. unfold MergeAccumulators. cbn [a_TotalRead a_Valid a_DLQ].
    rewrite zlen_app, !count_app. by wsimpl.
Qed.

(** Sums of the metrics of a list of summaries. *)
Definition sumOf (f : OriginMetric -> Z) (xs : list OriginSummary) : Z :=
  foldr (fun x n => f (Metric x) + n) 0 xs.
Lemma sumOf_app f xs ys : sumOf f (xs ++ ys) = sumOf f xs + sumOf f ys.
Proof. induction xs; simpl; lia. Qed.
Lemma sumOf_perm f xs ys : xs ≡ₚ ys -> sumOf f xs = sumOf f ys.
Proof. induction 1; simpl; lia. Qed.

Lemma sum_conserved xs :
  Forall (fun x => originConserved (Metric x) = true) xs ->
  i64 (sumOf TotalRead xs) = i64 (sumOf Valid xs + sumOf DLQ xs).
Proof.
  induction 1 as [|x xs Hx _ IH]; [done|]. unfold originConserved in Hx.
  apply Z.eqb_eq in Hx. simpl. rewrite Hx, i64_add_l.
  rewrite <- (i64_add_r _ (sumOf TotalRead xs)), IH, i64_add_r. f_equal. lia.
Qed.

Definition originMap (xs : list OriginSummary) : gmap string OriginMetric :=
  list_to_map (map (fun x => (Origin x, Metric x)) xs).

(** The accumulator that holds exactly the summaries [xs]. *)
Definition summaryOf (xs : list OriginSummary) (om : gmap string OriginMetric) : PipelineMetrics :=
  mkPipelineMetrics "" "" (i64 (sumOf TotalRead xs)) 0 (i64 (sumOf Valid xs))
    (i64 (sumOf DLQ xs)) 0 0 0 "" 0 f0 f0 None (Some om) (Some ∅) (Some ∅) (Some ∅).

Lemma summary_fold ys xs om :
  foldl SummaryCombiner.AddInput (summaryOf ys om) xs
  = summaryOf (ys ++ xs) (foldl (fun m x => <[Origin x := Metric x]> m) om xs).
Proof.
  revert ys om. induction xs as [|x xs IH]; intros ys om; cbn [foldl].
  { by rewrite app_nil_r. }
  replace (SummaryCombiner.AddInput (summaryOf ys om) x)
    with (summaryOf (ys ++ [x]) (<[Origin x := Metric x]> om)).
  - rewrite IH, <- app_assoc. done.
  - unfold SummaryCombiner.AddInput, summaryOf. simpl. rewrite !sumOf_app. simpl.
    rewrite !Z.add_0_r. by wsimpl.
Qed.

Lemma fold_insert_map xs om :
  NoDup (map Origin xs) ->
  foldl (fun m x => <[Origin x := Metric x]> m) om xs = originMap xs ∪ om.
Proof.
  revert om. induction xs as [|x xs IH]; intros om Hd; cbn [foldl].
  { unfold originMap. simpl. by rewrite (left_id_L ∅ (∪)). }
  simpl in Hd. apply NoDup_cons in Hd as [Hx Hd]. rewrite IH by done.
  unfold originMap. simpl. rewrite <- insert_union_r, insert_union_l; [done|].
  apply not_elem_of_list_to_map_1. rewrite <- list_fmap_compose. exact Hx.
Qed.

Lemma originMap_app xs ys :
  NoDup (map Origin (xs ++ ys)) -> originMap ys ∪ originMap xs = originMap (xs ++ ys).
Proof.
  intros Hd. unfold originMap. rewrite map_app, list_to_map_app. apply map_union_comm.
  apply map_disjoint_spec. intros k a b Ha Hb.
  rewrite map_app in Hd. apply NoDup_app in Hd as (_ & Hd & _).
  apply elem_of_list_to_map_2, list_elem_of_fmap in Ha as (x & [= -> _] & Hx).
  apply elem_of_list_to_map_2, list_elem_of_fmap in Hb as (y & [= E _] & Hy).
  apply (Hd (Origin y)); apply list_elem_of_fmap; eauto.
Qed.

Lemma combine_summary (t : tree OriginSummary) :
  NoDup (map Origin (inputs t)) ->
  combine SummaryCombiner.CreateAccumulator SummaryCombiner.AddInput
    SummaryCombiner.MergeAccumulators t = summaryOf (inputs t) (originMap (inputs t)).
Proof.
  induction t as [xs|l IHl r IHr]; cbn [combine inputs]; intros Hd.
  - change SummaryCombiner.CreateAccumulator with (summaryOf [] ∅).
    rewrite summary_fold, fold_insert_map by done. by rewrite (right_id_L ∅ (∪)).
  - pose proof Hd as Hd'. rewrite map_app in Hd'. apply NoDup_app in Hd' as (Hl & _ & Hr).
    rewrite IHl, IHr by done. unfold SummaryCombiner.MergeAccumulators, summaryOf. simpl.
    rewrite originMap_app, !sumOf_app by done. by wsimpl.
Qed.

(** ** Properties *)

(** Combiner lifting is correct: however the outcomes of an origin are split
    into bundles and merged, the extracted metric counts them all (reading
    [true] as a dead letter), and [TotalRead = Valid + DLQ] holds in [int64]. *)
Theorem OriginCombiner_lifting (t : tree bool) :
  let om := ExtractOutput (combine CreateAccumulator AddInput MergeAccumulators t) in
  om = mkOriginMetric (i64 (zlen (inputs t))) (i64 (count false (inputs t)))
         (i64 (count true (inputs t)))
  /\ originConserved om = true.
Proof.
  cbn zeta. rewrite combine_origin. unfold ExtractOutput. cbn [a_TotalRead a_Valid a_DLQ].
  split; [done|]. unfold originConserved. cbn [TotalRead Valid DLQ].
  apply Z.eqb_eq. rewrite i64_add_l, i64_add_r. f_equal.
  rewrite <- (count_total (inputs t)). lia.
Qed.

(** The summary combiner is independent of bundling and of the order of the
    summaries: for distinct origins, any two merge trees over permutations of
    the same summaries give the same metrics, whose totals are the (wrapped)
    sums and whose per-origin map holds every summary; and if each summary is
    conserved the result is strictly conserved, overall and per origin. *)
Theorem SummaryCombiner_merge (t t' : tree OriginSummary) :
  NoDup (map Origin (inputs t)) -> inputs t ≡ₚ inputs t' ->
  let comb := combine SummaryCombiner.CreateAccumulator SummaryCombiner.AddInput
                SummaryCombiner.MergeAccumulators in
  let m := SummaryCombiner.ExtractOutput (comb t) in
  SummaryCombiner.ExtractOutput (comb t') = m
  /\ TotalRecordsRead m = i64 (sumOf TotalRead (inputs t))
  /\ RowsWritten m = i64 (sumOf Valid (inputs t))
  /\ DeadLetterCount m = i64 (sumOf DLQ (inputs t))
  /\ (forall x, x ∈ inputs t -> mapOf (OriginMetrics m) !! Origin x = Some (Metric x))
  /\ (Forall (fun x => originConserved (Metric x) = true) (inputs t) ->
        IsStrictlyConserved m = true /\ IsConservedPerOrigin m = true).
Proof.
  intros Hd Hp. cbn zeta. unfold SummaryCombiner.ExtractOutput.
  assert (map Origin (inputs t) ≡ₚ map Origin (inputs t')) as Hp' by (by apply fmap_Permutation).
  rewrite !combine_summary by (done || (by rewrite <- Hp')).
  unfold summaryOf. cbn [TotalRecordsRead RowsWritten DeadLetterCount OriginMetrics mapOf].
  repeat split.
  - rewrite !(sumOf_perm _ _ _ Hp). f_equal. f_equal. unfold originMap. symmetry.
    apply list_to_map_proper; [|by apply fmap_Permutation].
    rewrite <- list_fmap_compose. exact Hd.
  - intros x Hx. cbn [default id]. unfold originMap. apply elem_of_list_to_map_1.
    + rewrite <- list_fmap_compose. exact Hd.
    + apply list_elem_of_fmap. eauto.
  - unfold IsStrictlyConserved. cbn [TotalRecordsRead RowsWritten DeadLetterCount].
    apply Z.eqb_eq. rewrite i64_add_l, i64_add_r. by apply sum_conserved.
  - unfold IsConservedPerOrigin. cbn [OriginMetrics]. apply forallb_forall.
    intros [k v] Hin. apply list_elem_of_In, elem_of_map_to_list in Hin.
    cbn [mapOf default id] in Hin. apply elem_of_list_to_map_2 in Hin.
    apply list_elem_of_fmap in Hin as (x & [= -> ->] & Hx).
    rewrite Forall_forall in H. by apply H.
Qed.

Definition sampleSummaries : tree OriginSummary :=
  Node (Bundle [mkOriginSummary "a.csv" (mkOriginMetric 3 2 1)])
       (Bundle [mkOriginSummary "b.csv" (mkOriginMetric 5 5 0)]).
Lemma SummaryCombiner_merge_witness :
  let m := combine SummaryCombiner.CreateAccumulator SummaryCombiner.AddInput
             SummaryCombiner.MergeAccumulators sampleSummaries in
  TotalRecordsRead m = 8 /\ IsStrictlyConserved m = true.
Proof.
  cbn zeta.
  assert (NoDup (map Origin (inputs sampleSummaries))) as Hd.
  { apply (bool_decide_unpack _). vm_compute. exact I. }
  destruct (SummaryCombiner_merge sampleSummaries sampleSummaries Hd (Permutation_refl _))
    as (_ & H1 & _ & _ & _ & H2).
  split; [exact H1|]. apply H2. repeat constructor.
Defined.

(** Two summaries of one origin: the totals add up, the map keeps the last one. *)
Lemma SummaryCombiner_same_origin :
  let m := foldl SummaryCombiner.AddInput SummaryCombiner.CreateAccumulator
    [mkOriginSummary "a" (mkOriginMetric 3 3 0); mkOriginSummary "a" (mkOriginMetric 1 1 0)] in
  TotalRecordsRead m = 4 /\ mapOf (OriginMetrics m) !! "a" = Some (mkOriginMetric 1 1 0).
Proof. vm_compute. auto. Qed.

(** ** Interleavings *)
Definition added (t : wpc) : bool := match t with WStart => false | _ => true end.
Definition returned (t : wpc) : bool := match t with WDone => true | _ => false end.
Definition numAdded (ts : list wpc) : Z := zlen (filter (fun t => added t = true) ts).

Lemma numAdded_insert_same ts i t t' :
  ts !! i = Some t -> added t = added t' -> numAdded (<[i := t']> ts) = numAdded ts.
Proof.
  revert i. induction ts as [|x ts IH]; intros [|i] H E; simpl in H; try discriminate.
  - injection H as ->. unfold numAdded. simpl. rewrite !filter_cons, E.
    destruct (decide (added t' = true)); unfold zlen; simpl; lia.
  - unfold numAdded in *. simpl. rewrite !filter_cons. specialize (IH i H E).
    destruct (decide (added x = true)); unfold zlen in *; simpl; lia.
Qed.
Lemma numAdded_insert_add ts i v :
  ts !! i = Some WStart -> numAdded (<[i := WAdded v]> ts) = numAdded ts + 1.
Proof.
  revert i. induction ts as [|x ts IH]; intros [|i] H; simpl in H; try discriminate.
  - injection H as ->. unfold numAdded, zlen. simpl. rewrite !filter_cons.
    repeat case_decide; simpl in *; try discriminate; lia.
  - unfold numAdded in *. simpl. rewrite !filter_cons. specialize (IH i H).
    destruct (decide (added x = true)); unfold zlen in *; simpl; lia.
Qed.

Lemma wsteps_RowsWritten m ts m' ts' :
  rtc wstep (m, ts) (m', ts') ->
  i64 (RowsWritten m' - numAdded ts') = i64 (RowsWritten m - numAdded ts)
  /\ TotalRecordsRead m' = TotalRecordsRead m /\ DeadLetterCount m' = DeadLetterCount m.
Proof.
  intros H. remember (m, ts) as c. remember (m', ts') as c'. revert m ts m' ts' Heqc Heqc'.
  induction H as [c|c1 c2 c3 Hs _ IH]; intros m ts m' ts' -> E.
  { injection E as -> ->. auto. }
  inversion Hs as [m0 ts0 i Hi|m0 ts0 i v Hi]; subst.
  - destruct (IH _ _ _ _ eq_refl eq_refl) as (H1 & H2 & H3).
    rewrite H1, H2, H3. destruct m. simpl. rewrite numAdded_insert_add by done.
    split; [|done]. unfold Z.sub. rewrite i64_add_l. f_equal. lia.
  - destruct (IH _ _ _ _ eq_refl eq_refl) as (H1 & H2 & H3).
    rewrite H1, H2, H3. destruct m. simpl.
    by rewrite (numAdded_insert_same _ _ (WAdded v) WDone Hi eq_refl).
Qed.

Lemma numAdded_returned ts : Forall (fun t => returned t = true) ts -> numAdded ts = zlen ts.
Proof.
  induction 1 as [|t ts Ht _ IH]; [done|]. unfold numAdded, zlen in *. rewrite filter_cons.
  case_decide as E; [simpl; lia|]. by destruct t.
Qed.
Lemma numAdded_fresh n : numAdded (replicate n WStart) = 0.
Proof. induction n; done. Qed.

(** Every interleaving of [n] concurrent calls of [RecordWritten] that all
    return adds exactly [n] (in [int64]) to [RowsWritten] and touches neither
    of the other two counters, so no written row is lost for the conservation
    check; but [RowCount] need not agree: for two goroutines there is an
    interleaving after which both have returned and [RowCount = 1] while
    [RowsWritten = 2]. *)
Theorem RecordWritten_interleavings :
  (forall (m m' : PipelineMetrics) (n : nat) (ts : list wpc),
     rtc wstep (m, replicate n WStart) (m', ts) -> Forall (fun t => returned t = true) ts ->
     length ts = n ->
     i64 (RowsWritten m') = i64 (RowsWritten m + Z.of_nat n)
     /\ TotalRecordsRead m' = TotalRecordsRead m /\ DeadLetterCount m' = DeadLetterCount m)
  /\ exists m', rtc wstep (NewPipelineMetrics "p" "r", [WStart; WStart]) (m', [WDone; WDone])
       /\ RowsWritten m' = 2 /\ RowCount m' = 1.
Proof.
  split.
  - intros m m' n ts H Hd Hl. apply wsteps_RowsWritten in H as (H1 & H2 & H3).
    rewrite numAdded_returned, numAdded_fresh in H1 by done. split; [|done].
    unfold zlen in H1. rewrite Hl, Z.sub_0_r in H1.
    replace (RowsWritten m') with (RowsWritten m' - Z.of_nat n + Z.of_nat n) by lia.
    by rewrite <- i64_add_l, H1, i64_add_l.
  - eexists. split.
    + eapply rtc_l; [by apply (wstep_add _ _ 0)|]. eapply rtc_l; [by apply (wstep_add _ _ 1)|].
      eapply rtc_l; [by apply (wstep_store _ _ 1 2)|].
      eapply rtc_l; [by apply (wstep_store _ _ 0 1)|]. apply rtc_refl.
    + vm_compute. auto.
Qed.
