(* ===== verification/Watermark.v ===== *)
(** * Incremental watermarks

    Models [internal/domain/watermark_value.go] (typed values: parsing, order,
    text and SQL literal), [internal/domain/watermark_config.go], and
    [cmd/pipeline/watermark_output.go]
    (the watermark a run emits: the maximum of the column written and of the
    incoming value).

    [time.Parse], [strconv.ParseFloat] and the shortest [FormatFloat] are left
    to the standard library; [time.Format] for the layouts used, [strconv.ParseInt]
    and [strings.ReplaceAll] are defined. *)
From S2P Require Import Prelude GoStr Float64 Schema RecordModel Metrics.
From Stdlib Require Import SpecFloat.

(** ** Standard library *)

(** [strconv.ParseInt(s, 10, 64)] and [strconv.Atoi(s)]; [fn] is the name the
    error carries. *)
Definition numError `{GoQuote} {A} (fn s what : string) : result A :=
  Err (Errorf ("strconv." +:+ fn +:+ ": parsing " +:+ Quote s +:+ ": " +:+ what) [Sentinel what]).

Inductive digitsResult := DOk (n : Z) | DSyntax | DRange.
Fixpoint parseUintLoop (acc : Z) (l : list byte) : digitsResult :=
  match l with
  | [] => DOk acc
  | c :: l' =>
      if negb (isDigit c) then DSyntax
      else let n := acc * 10 + digitVal c in
           if MaxUint64 <? n then DRange else parseUintLoop n l'
  end.
Definition ParseInt10 `{GoQuote} (fn s : string) : result Z :=
  let '(neg, ds) := match bytes s with
                    | "+"%char :: l => (false, l)
                    | "-"%char :: l => (true, l)
                    | l => (false, l)
                    end in
  if zlen ds =? 0 then numError fn s "invalid syntax"
  else match parseUintLoop 0 ds with
       | DSyntax => numError fn s "invalid syntax"
       | DRange => numError fn s "value out of range"
       | DOk n =>
           if neg then if 2 ^ 63 <? n then numError fn s "value out of range" else Ok (- n)
           else if 2 ^ 63 <=? n then numError fn s "value out of range" else Ok n
       end.

(** [strings.ReplaceAll(s, old, new)] for a non-empty [old]: left to right,
    without overlaps; [skip] bytes belong to the occurrence just replaced. *)
Fixpoint replaceFrom (old new : string) (skip : nat) (s : string) : string :=
  match s with
  | EmptyString => EmptyString
  | String c s' =>
      match skip with
      | S k => replaceFrom old new k s'
      | O => if String.prefix old s
             then new +:+ replaceFrom old new (String.length old - 1) s'
             else String c (replaceFrom old new 0 s')
      end
  end.
Definition ReplaceAll (s old new : string) : string := replaceFrom old new 0 s.

(** A [time.Time]: an instant (nanoseconds since the Unix epoch) and the offset
    of its location from UTC in seconds. *)
Record GoTime := mkTime { unixNano : Z; zone : Z }.
Class GoTimeParseZ := timeParseZ : string -> string -> result GoTime.
Class GoParseFloat := parseFloat : string -> result float64.

Definition RFC3339Nano : string := "2006-01-02T15:04:05.999999999Z07:00".
Definition RFC3339 : string := "2006-01-02T15:04:05Z07:00".
Definition DateOnly : string := "2006-01-02".

Definition Nanosecond (t : GoTime) : Z := unixNano t mod 1000000000.
Definition localSeconds (t : GoTime) : Z := unixNano t / 1000000000 + zone t.

Definition yearText (y : Z) : string :=
  if y <? 0 then "-" +:+ (if 9999 <? - y then FormatInt (- y) else pad4 (- y))
  else if 9999 <? y then FormatInt y else pad4 y.
(** [t.Format("2006-01-02")] and [t.Format("2006-01-02T15:04:05")]. *)
Definition formatDate (t : GoTime) : string :=
  let '(y, m, d) := civil (localSeconds t / 86400) in
  yearText y +:+ "-" +:+ pad2 m +:+ "-" +:+ pad2 d.
Definition formatSeconds (t : GoTime) : string :=
  let s := localSeconds t mod 86400 in
  formatDate t +:+ "T" +:+ pad2 (s / 3600) +:+ ":" +:+ pad2 (s / 60 mod 60) +:+ ":" +:+ pad2 (s mod 60).
(** The [.999999] element: at most six digits, trailing zeros dropped. *)
Definition formatMicros (t : GoTime) : string :=
  let micros := Nanosecond t / 1000 in
  if micros =? 0 then ""
  else "." +:+ TrimRight (pad2 (micros / 10000) +:+ pad4 (micros mod 10000))
                 (fun b => byte_val b =? 48).
(** The [-07:00] element. *)
Definition formatZone (t : GoTime) : string :=
  let mins := Z.quot (zone t) 60 in
  (if mins <? 0 then "-" else "+") +:+ pad2 (Z.abs mins / 60) +:+ ":" +:+ pad2 (Z.abs mins mod 60).

(** ** [WatermarkType] and [WatermarkValue] *)
Abbreviation WatermarkType := string.
Definition WatermarkTypeInteger : WatermarkType := "integer".
Definition WatermarkTypeFloat : WatermarkType := "float".
Definition WatermarkTypeTimestamp : WatermarkType := "timestamp".
Definition WatermarkTypeDate : WatermarkType := "date".
Definition WatermarkTypeString : WatermarkType := "string".

Definition WatermarkType_Validate `{GoQuote} (t : WatermarkType) : result unit :=
  if (t =s WatermarkTypeInteger) || (t =s WatermarkTypeFloat) || (t =s WatermarkTypeTimestamp)
     || (t =s WatermarkTypeDate) || (t =s WatermarkTypeString)
  then Ok tt
  else Err (Errorf ("unsupported watermark type " +:+ Quote t
              +:+ " (supported: integer, float, timestamp, date, string)") []).

Record WatermarkValue := mkWatermark {
  wType : WatermarkType; intVal : Z; floatVal : float64; timeVal : GoTime; strVal : string }.

(** The zero [time.Time] is the first instant of year 1. *)
Definition zeroTime : GoTime := mkTime (-62135596800000000000) 0.
Definition wmInt (n : Z) := mkWatermark WatermarkTypeInteger n (S754_zero false) zeroTime "".
Definition wmFloat (x : float64) := mkWatermark WatermarkTypeFloat 0 x zeroTime "".
Definition wmTime (t : WatermarkType) (tm : GoTime) := mkWatermark t 0 (S754_zero false) tm "".
Definition wmString (s : string) := mkWatermark WatermarkTypeString 0 (S754_zero false) zeroTime s.

Definition isNaNOrInf (x : float64) : bool :=
  match x with S754_nan | S754_infinity _ => true | _ => false end.

Section Values.
Context `{GoQuote, GoTimeParseZ, GoParseFloat, GoFormatFloat}.

Definition invalidValue {A} (kind raw must : string) (e : error) : result A :=
  Err (Errorf ("invalid " +:+ kind +:+ " watermark " +:+ Quote raw +:+ must +:+ ": " +:+ Error e) [e]).

Definition ParseWatermarkValue (t : WatermarkType) (raw : string) : result WatermarkValue :=
  match WatermarkType_Validate t with
  | Ok _ =>
      let raw := TrimSpace raw in
      if raw =s "" then Err (Errorf "watermark value cannot be empty" [])
      else if t =s WatermarkTypeInteger then
        match ParseInt10 "ParseInt" raw with
        | Ok n => Ok (wmInt n)
        | Err e => invalidValue "integer" raw "" e
        | Panic m => Panic m
        end
      else if t =s WatermarkTypeFloat then
        match parseFloat raw with
        | Ok f =>
            if isNaNOrInf f
            then Err (Errorf ("watermark float " +:+ Quote raw +:+ " cannot be NaN or Inf") [])
            else Ok (wmFloat f)
        | Err e => invalidValue "float" raw "" e
        | Panic m => Panic m
        end
      else if t =s WatermarkTypeTimestamp then
        match timeParseZ RFC3339Nano raw with
        | Ok tm => Ok (wmTime t tm)
        | Err _ =>
            match timeParseZ RFC3339 raw with
            | Ok tm => Ok (wmTime t tm)
            | Err e => invalidValue "timestamp" raw " (must be RFC3339/ISO-8601)" e
            | Panic m => Panic m
            end
        | Panic m => Panic m
        end
      else if t =s WatermarkTypeDate then
        match timeParseZ DateOnly raw with
        | Ok tm => Ok (wmTime t tm)
        | Err e => invalidValue "date" raw " (must be YYYY-MM-DD)" e
        | Panic m => Panic m
        end
      else if t =s WatermarkTypeString then Ok (wmString raw)
      else Err (Errorf ("unsupported watermark type " +:+ Quote t) [])
  | Err e => Err e
  | Panic m => Panic m
  end.

(** Go orders strings by their bytes. *)
Fixpoint bytesLt (a b : list byte) : bool :=
  match a, b with
  | _, [] => false
  | [], _ :: _ => true
  | x :: a', y :: b' =>
      if byte_val x <? byte_val y then true
      else if byte_val y <? byte_val x then false else bytesLt a' b'
  end.
Definition stringLt (a b : string) : bool := bytesLt (bytes a) (bytes b).

Definition threeWay (lt gt : bool) : Z := if lt then -1 else if gt then 1 else 0.
Definition Compare (v other : WatermarkValue) : Z :=
  if wType v =s WatermarkTypeInteger then
    threeWay (intVal v <? intVal other) (intVal other <? intVal v)
  else if wType v =s WatermarkTypeFloat then
    threeWay (flt (floatVal v) (floatVal other)) (flt (floatVal other) (floatVal v))
  else if (wType v =s WatermarkTypeTimestamp) || (wType v =s WatermarkTypeDate) then
    threeWay (unixNano (timeVal v) <? unixNano (timeVal other))
             (unixNano (timeVal other) <? unixNano (timeVal v))
  else threeWay (stringLt (strVal v) (strVal other)) (stringLt (strVal other) (strVal v)).

Definition Watermark_String (v : WatermarkValue) : string :=
  if wType v =s WatermarkTypeInteger then FormatInt (intVal v)
  else if wType v =s WatermarkTypeFloat then formatFloat (floatVal v)
  else if wType v =s WatermarkTypeTimestamp then
    if negb (Nanosecond (timeVal v) =? 0)
    then formatSeconds (timeVal v) +:+ formatMicros (timeVal v) +:+ formatZone (timeVal v)
    else formatSeconds (timeVal v) +:+ formatZone (timeVal v)
  else if wType v =s WatermarkTypeDate then formatDate (timeVal v)
  else strVal v.

Definition SQLLiteral (v : WatermarkValue) : string :=
  if wType v =s WatermarkTypeInteger then FormatInt (intVal v)
  else if wType v =s WatermarkTypeFloat then formatFloat (floatVal v)
  else if (wType v =s WatermarkTypeTimestamp) || (wType v =s WatermarkTypeDate) then
    "'" +:+ Watermark_String v +:+ "'"
  else "'" +:+ ReplaceAll (strVal v) "'" "''" +:+ "'".

(** ** [WatermarkConfig] *)
Record WatermarkConfig := mkWatermarkConfig {
  Column : string; wcType : WatermarkType; Value : option string }.

Definition identStart (a : byte) : bool :=
  let v := byte_val a in
  ((65 <=? v) && (v <=? 90)) || ((97 <=? v) && (v <=? 122)) || (v =? 95).
(** [^[A-Za-z_][A-Za-z0-9_]*$] *)
Definition validColumnIdentifier (s : string) : bool :=
  match bytes s with
  | [] => false
  | a :: l => identStart a && forallb (fun c => identStart c || isDigit c) l
  end.

Definition WatermarkConfig_Validate (w : option WatermarkConfig) : result unit :=
  match w with
  | None => Ok tt
  | Some w =>
      let col := TrimSpace (Column w) in
      if col =s "" then Err (Errorf "watermark column cannot be empty" [])
      else if negb (validColumnIdentifier col) then
        Err (Errorf ("watermark column " +:+ Quote col
               +:+ " contains invalid characters (must match ^[A-Za-z_][A-Za-z0-9_]*$)") [])
      else WatermarkType_Validate (wcType w)
  end.

Definition Incoming (w : option WatermarkConfig) : result (option WatermarkValue) :=
  match w with
  | None => Ok None
  | Some w =>
      match Value w with
      | None => Ok None
      | Some v =>
          if TrimSpace v =s "" then Ok None
          else match ParseWatermarkValue (wcType w) v with
               | Ok val => Ok (Some val)
               | Err e => Err e
               | Panic m => Panic m
               end
      end
  end.

End Values.

(** ** Parquet columns

    The files the sink wrote, as the parquet library presents them: the columns
    with their indices, and per row group one chunk per column, read page by
    page; [Some e] is the error (other than the end of the data) that ends a
    sequence of reads. A value carries its kind and the results of its accessors;
    [ReadValues] hands out the values of a page in order, 128 at a time. *)
Inductive pqKind := PqInt64 | PqInt32 | PqDouble | PqFloat | PqByteArray | PqOther.
#[export] Instance pqKind_eq_dec : EqDecision pqKind.
Proof. solve_decision. Defined.
Record pqValue := mkPqValue {
  pqNull : bool; pqkind : pqKind; pqInt : Z; pqDbl : float64; pqText : string; pqBytes : string }.
Record pqPage := mkPage { pageValues : list pqValue; pageErr : option error }.
Record pqChunk := mkChunk { chunkPages : list pqPage; chunkErr : option error }.
Record pqFile := mkFile {
  pqName : string;
  pqOpen : result unit;
  pqStat : result unit;
  pqHeader : result unit;
  pqColumns : list (string * Z);
  pqRowGroups : list (list pqChunk)
}.

Section Output.
Context `{GoQuote, GoTimeParseZ, GoParseFloat, GoFormatFloat}.

Definition UnixMicro (us : Z) : GoTime := mkTime (us * 1000) 0.

Definition parseParquetValue (v : pqValue) (t : WatermarkType) : result WatermarkValue :=
  if t =s WatermarkTypeInteger then
    ParseWatermarkValue t
      (if bool_decide (pqkind v = PqInt64) || bool_decide (pqkind v = PqInt32)
       then FormatInt (pqInt v) else pqText v)
  else if t =s WatermarkTypeFloat then
    ParseWatermarkValue t
      (if bool_decide (pqkind v = PqDouble) || bool_decide (pqkind v = PqFloat)
       then formatFloat (pqDbl v) else pqText v)
  else if t =s WatermarkTypeTimestamp then
    if bool_decide (pqkind v = PqInt64) then
      let tm := UnixMicro (pqInt v) in
      ParseWatermarkValue t
        (if negb (Nanosecond tm =? 0) then formatSeconds tm +:+ formatMicros tm +:+ formatZone tm
         else formatSeconds tm +:+ formatZone tm)
    else ParseWatermarkValue t (pqBytes v)
  else if t =s WatermarkTypeDate then
    if bool_decide (pqkind v = PqInt64) then
      ParseWatermarkValue t (formatDate (UnixMicro (pqInt v)))
    else ParseWatermarkValue t (pqBytes v)
  else ParseWatermarkValue t (pqBytes v).

Definition ctxErrorf {A} (msg : string) (e : error) : result A :=
  Err (Errorf (msg +:+ ": " +:+ Error e) [e]).

Fixpoint scanValues (file column : string) (t : WatermarkType) (vs : list pqValue)
    (maxVal : option WatermarkValue) : result (option WatermarkValue) :=
  match vs with
  | [] => Ok maxVal
  | v :: vs' =>
      if pqNull v then scanValues file column t vs' maxVal
      else match parseParquetValue v t with
           | Err e => ctxErrorf ("failed parsing column " +:+ Quote column +:+ " in " +:+ Quote file) e
           | Panic m => Panic m
           | Ok parsed =>
               scanValues file column t vs'
                 (match maxVal with
                  | None => Some parsed
                  | Some m => if 0 <? Compare parsed m then Some parsed else maxVal
                  end)
           end
  end.

Fixpoint scanPages (file column : string) (t : WatermarkType) (ps : list pqPage) (endErr : option error)
    (maxVal : option WatermarkValue) : result (option WatermarkValue) :=
  match ps with
  | [] =>
      match endErr with
      | Some e => ctxErrorf ("failed reading page from " +:+ Quote file) e
      | None => Ok maxVal
      end
  | p :: ps' =>
      maxVal ← scanValues file column t (pageValues p) maxVal;
      match pageErr p with
      | Some e => ctxErrorf ("failed reading values from " +:+ Quote file) e
      | None => scanPages file column t ps' endErr maxVal
      end
  end.

Fixpoint scanRowGroups (file column : string) (t : WatermarkType) (colIdx : Z)
    (rgs : list (list pqChunk)) (maxVal : option WatermarkValue) : result (option WatermarkValue) :=
  match rgs with
  | [] => Ok maxVal
  | chunks :: rgs' =>
      match chunks !! Z.to_nat colIdx with
      | None => scanRowGroups file column t colIdx rgs' maxVal
      | Some chunk =>
          maxVal ← scanPages file column t (chunkPages chunk) (chunkErr chunk) maxVal;
          scanRowGroups file column t colIdx rgs' maxVal
      end
  end.

(** The index of the first column of that name; -1 is "not found". *)
Fixpoint columnIndex (column : string) (cols : list (string * Z)) : Z :=
  match cols with
  | [] => -1
  | (n, i) :: cols' => if n =s column then i else columnIndex column cols'
  end.

Definition scanFile (column : string) (t : WatermarkType) (f : pqFile)
    (maxVal : option WatermarkValue) : result (option WatermarkValue) :=
  match pqOpen f, pqStat f, pqHeader f with
  | Err e, _, _ => ctxErrorf ("failed opening parquet file " +:+ Quote (pqName f)) e
  | _, Err e, _ => ctxErrorf ("failed stating parquet file " +:+ Quote (pqName f)) e
  | _, _, Err e => ctxErrorf ("failed reading parquet header " +:+ Quote (pqName f)) e
  | Ok _, Ok _, Ok _ =>
      let colIdx := columnIndex column (pqColumns f) in
      if colIdx =? -1 then
        Err (Errorf ("watermark column " +:+ Quote column +:+ " not found in parquet file "
                     +:+ Quote (pqName f)) [])
      else scanRowGroups (pqName f) column t colIdx (pqRowGroups f) maxVal
  | _, _, _ => Panic "parquet"
  end.

Fixpoint scanFiles (column : string) (t : WatermarkType) (fs : list pqFile)
    (maxVal : option WatermarkValue) : result (option WatermarkValue) :=
  match fs with
  | [] => Ok maxVal
  | f :: fs' => maxVal ← scanFile column t f maxVal; scanFiles column t fs' maxVal
  end.
Definition maxParquetColumn (files : list pqFile) (column : string) (t : WatermarkType) :=
  scanFiles column t files None.

(** ** [resolveWatermarkOutput]

    [db] and [api] are the [Watermark] fields of the sources the configuration
    has ([None]: no such source), the second with [WatermarkIsOffset]; [dir] is
    what reading the output directory gives, each entry with whether it is a
    directory. *)
Definition nonBlank (v : option string) : option string :=
  match v with
  | Some s => if TrimSpace s =s "" then None else Some (TrimSpace s)
  | None => None
  end.

Definition HasSuffix (s suf : string) : bool :=
  (String.length suf <=? String.length s)%nat
  && (String.substring (String.length s - String.length suf) (String.length suf) s =s suf).

Definition parquetFiles (entries : list (bool * pqFile)) : list pqFile :=
  map snd (List.filter (fun en => negb (fst en) && HasSuffix (pqName (snd en)) ".parquet") entries).

Definition selectWatermark (db : option (option WatermarkConfig))
    (api : option (option WatermarkConfig * bool)) : option WatermarkConfig * bool :=
  match db, api with
  | Some (Some w), _ => (Some w, false)
  | _, Some (Some w, off) => (Some w, off)
  | _, _ => (None, false)
  end.

Definition offsetOutput (wm : WatermarkConfig) (totalRead : Z) : result (option WatermarkOutput) :=
  match (match nonBlank (Value wm) with
         | None => Ok 0
         | Some s => match ParseInt10 "Atoi" s with
                     | Err e => ctxErrorf ("invalid incoming offset watermark "
                                  +:+ Quote (default "" (Value wm))) e
                     | r => r
                     end
         end) with
  | Ok start => Ok (Some (mkWatermarkOutput (Column wm) (wcType wm) (Some (FormatInt (i64 (start + totalRead))))))
  | Err e => Err e
  | Panic m => Panic m
  end.

Definition finalVal (wm : WatermarkConfig) (maxVal : WatermarkValue) : WatermarkValue :=
  match Incoming (Some wm) with
  | Ok (Some incoming) => if 0 <? Compare incoming maxVal then incoming else maxVal
  | _ => maxVal
  end.

Definition columnOutput (wm : WatermarkConfig) (dir : result (list (bool * pqFile))) (outDir : string)
    (rowsWritten : Z) : result (option WatermarkOutput) :=
  let keepIncoming := Ok (Some (mkWatermarkOutput (Column wm) (wcType wm) (nonBlank (Value wm)))) in
  if rowsWritten =? 0 then keepIncoming
  else match dir with
  | Err e => ctxErrorf ("reading output dir " +:+ Quote outDir +:+ " for watermark") e
  | Panic m => Panic m
  | Ok entries =>
      maxVal ← maxParquetColumn (parquetFiles entries) (Column wm) (wcType wm);
      match maxVal with
      | None => keepIncoming
      | Some m =>
          Ok (Some (mkWatermarkOutput (Column wm) (wcType wm) (Some (Watermark_String (finalVal wm m)))))
      end
  end.

Definition resolveWatermarkOutput (db : option (option WatermarkConfig))
    (api : option (option WatermarkConfig * bool)) (dir : result (list (bool * pqFile)))
    (outDir : string) (totalRead rowsWritten : Z) : result (option WatermarkOutput) :=
  match selectWatermark db api with
  | (None, _) => Ok None
  | (Some wm, true) => offsetOutput wm totalRead
  | (Some wm, false) => columnOutput wm dir outDir rowsWritten
  end.
End Output.

(** ** Lemmas: the order of watermarks *)
Record wmOk (t : WatermarkType) (v : WatermarkValue) : Prop := {
  wm_type : wType v = t; wm_float : isNaNOrInf (floatVal v) = false }.

(** Floats that are neither NaN nor infinite order by sign, exponent, mantissa. *)
Definition floatKey (x : float64) : Z * Z * Z :=
  match x with
  | S754_finite false m e => (1, e, Zpos m)
  | S754_finite true m e => (-1, -e, Zneg m)
  | _ => (0, 0, 0)
  end.
Definition keyLt (a b : Z * Z * Z) : bool :=
  let '(s1, e1, m1) := a in let '(s2, e2, m2) := b in
  (s1 <? s2) || ((s1 =? s2) && ((e1 <? e2) || ((e1 =? e2) && (m1 <? m2)))).

Lemma flt_key x y :
  isNaNOrInf x = false -> isNaNOrInf y = false -> flt x y = keyLt (floatKey x) (floatKey y).
Proof.
  destruct x as [s|s| |s m e], y as [s'|s'| |s' m' e']; try done; intros _ _.
  - by destruct s'.
  - by destruct s.
  - unfold flt, SFltb. destruct s, s'; try done; simpl.
    + destruct (Z.compare_spec e e'); zcases; try lia; try done;
        pose proof (Pos.compare_spec m m') as Hs; unfold Pos.compare in Hs;
        destruct Hs; try done; lia.
    + destruct (Z.compare_spec e e'); zcases; try lia; try done;
        pose proof (Pos.compare_spec m m') as Hs; unfold Pos.compare in Hs;
        destruct Hs; try done; lia.
Qed.

Lemma keyLt_asym a b : keyLt a b = true -> keyLt b a = false.
Proof.
  destruct a as [[s1 e1] m1], b as [[s2 e2] m2]. unfold keyLt.
  intros; zcases; simpl in *; try done; lia.
Qed.

Lemma keyLt_ntrans a b c : keyLt b a = false -> keyLt c b = false -> keyLt c a = false.
Proof.
  destruct a as [[s1 e1] m1], b as [[s2 e2] m2], c as [[s3 e3] m3]. unfold keyLt.
  intros; zcases; simpl in *; try done; lia.
Qed.

Lemma bytesLt_asym a b : bytesLt a b = true -> bytesLt b a = false.
Proof.
  revert b. induction a as [|x a IH]; intros [|y b]; simpl; try done.
  intros. zcases; try done; try lia. by apply IH.
Qed.

Lemma bytesLt_ntrans a b c :
  bytesLt b a = false -> bytesLt c b = false -> bytesLt c a = false.
Proof.
  revert b c. induction a as [|x a IH]; intros [|y b] [|z c]; simpl; try done.
  intros. zcases; try done; try lia. by apply (IH b).
Qed.

Lemma threeWay_pos (lt gt : bool) : (lt = true -> gt = false) -> (0 <? threeWay lt gt) = gt.
Proof. destruct lt, gt; intros H; try done. by specialize (H eq_refl). Qed.

(** On values of one type, [0 < Compare] is a strict weak order: asymmetric, and
    its complement is transitive. *)
Definition wmGt (v w : WatermarkValue) : bool := 0 <? Compare v w.

Lemma wmGt_order t a b c :
  wmOk t a -> wmOk t b -> wmOk t c ->
  (wmGt a b = true -> wmGt b a = false)
  /\ (wmGt a b = false -> wmGt b c = false -> wmGt a c = false).
Proof.
  intros [Ha Fa] [Hb Fb] [Hc Fc]. unfold wmGt, Compare. rewrite Ha, ?Hb, ?Hc.
  destruct (t =s WatermarkTypeInteger); [|destruct (t =s WatermarkTypeFloat);
    [|destruct ((t =s WatermarkTypeTimestamp) || (t =s WatermarkTypeDate))]].
  - rewrite !threeWay_pos by (intros; zcases; try done; lia). split; intros; zcases; try done; lia.
  - rewrite !flt_key by done.
    rewrite !threeWay_pos by apply keyLt_asym. split; [apply keyLt_asym|].
    intros. by eapply keyLt_ntrans.
  - rewrite !threeWay_pos by (intros; zcases; try done; lia). split; intros; zcases; try done; lia.
  - unfold stringLt. rewrite !threeWay_pos by apply bytesLt_asym.
    split; [apply bytesLt_asym|]. intros. by eapply bytesLt_ntrans.
Qed.

Lemma wmGt_irrefl t a : wmOk t a -> wmGt a a = false.
Proof.
  intros Ha. destruct (wmGt a a) eqn:E; [|done].
  destruct (wmGt_order t a a a Ha Ha Ha) as [H _]. rewrite (H E) in E. discriminate.
Qed.

(** ** Lemmas: the maximum of a column *)
Definition maxStep (m : option WatermarkValue) (p : WatermarkValue) : option WatermarkValue :=
  match m with None => Some p | Some v => if wmGt p v then Some p else Some v end.

Lemma maxStep_spec t m ps :
  Forall (wmOk t) (option_list m ++ ps) ->
  match foldl maxStep m ps with
  | None => m = None /\ ps = []
  | Some v => v ∈ option_list m ++ ps /\ Forall (fun x => wmGt x v = false) (option_list m ++ ps)
  end.
Proof.
  revert m. induction ps as [|p ps IH]; intros m Hok; simpl.
  - rewrite app_nil_r in *. destruct m as [v|]; [|done]. simpl in *.
    rewrite Forall_singleton in Hok. split; [by apply list_elem_of_singleton|].
    apply Forall_singleton. by eapply wmGt_irrefl.
  - assert (Forall (wmOk t) (option_list (maxStep m p) ++ ps)) as Hok'.
    { apply Forall_app in Hok as [Hm [Hp Hps]%Forall_cons]. apply Forall_app. split; [|done].
      destruct m as [v|]; simpl in *; [destruct (wmGt p v)|]; try done; by apply Forall_singleton. }
    specialize (IH _ Hok'). destruct (foldl maxStep (maxStep m p) ps) as [v|].
    2: { destruct IH as [IH _]. destruct m; simpl in IH; [destruct (wmGt p w)|]; discriminate. }
    destruct IH as [Hin Hall]. apply Forall_app in Hall as [Hh Ht].
    apply Forall_app in Hok as [Hm [Hp Hps]%Forall_cons].
    assert (wmOk t v) as Hv by (rewrite Forall_forall in Hok'; by apply Hok').
    destruct m as [w|]; simpl in *.
    2: { rewrite Forall_singleton in Hh. split; [done|]. by apply Forall_cons. }
    rewrite Forall_singleton in Hm.
    destruct (wmGt p w) eqn:E; simpl in *; rewrite Forall_singleton in Hh.
    + split; [set_solver|]. apply Forall_cons. split; [|by apply Forall_cons].
      apply (wmGt_order t w p v Hm Hp Hv); [|done]. by apply (wmGt_order t p w p Hp Hm Hp).
    + split; [set_solver|]. apply Forall_cons. split; [done|]. apply Forall_cons. split; [|done].
      by apply (wmGt_order t p w v Hp Hm Hv).
Qed.

(** The non-null values of a column, in the order they are read. *)
Definition chunkCells (c : pqChunk) : list pqValue := concat (map pageValues (chunkPages c)).
Definition fileCells (column : string) (f : pqFile) : list pqValue :=
  concat (map (fun chunks => match chunks !! Z.to_nat (columnIndex column (pqColumns f)) with
                             | Some c => chunkCells c | None => [] end) (pqRowGroups f)).
Definition columnCells (column : string) (fs : list pqFile) : list pqValue :=
  List.filter (fun v => negb (pqNull v)) (concat (map (fileCells column) fs)).

Section Scan.
Context `{GoQuote, GoTimeParseZ, GoParseFloat, GoFormatFloat}.
Context (t : WatermarkType).

(** [vs] parse to values whose maximum with [m] is [m']. *)
Definition scanned (vs : list pqValue) (m m' : option WatermarkValue) : Prop :=
  exists ps, Forall2 (fun v p => parseParquetValue v t = Ok p)
               (List.filter (fun v => negb (pqNull v)) vs) ps
  /\ m' = foldl maxStep m ps.

Lemma scanned_nil m : scanned [] m m.
Proof. exists []. by split. Qed.

Lemma scanned_app vs vs' m m1 m2 :
  scanned vs m m1 -> scanned vs' m1 m2 -> scanned (vs ++ vs') m m2.
Proof.
  intros (ps & Hp & ->) (ps' & Hp' & ->). exists (ps ++ ps'). rewrite List.filter_app, foldl_app.
  split; [by apply Forall2_app|done].
Qed.

Lemma scanValues_spec file column vs m m' :
  scanValues file column t vs m = Ok m' -> scanned vs m m'.
Proof.
  revert m. induction vs as [|v vs IH]; intros m; simpl.
  - intros [= <-]. apply scanned_nil.
  - unfold scanned. simpl. destruct (pqNull v); simpl; [apply IH|].
    destruct (parseParquetValue v t) as [p|e|s] eqn:E; try discriminate.
    intros (ps & Hps & ->)%IH. exists (p :: ps). split; [by constructor|]. simpl.
    destruct m as [w|]; [|done]. unfold maxStep, wmGt. by destruct (0 <? Compare p w).
Qed.

Lemma scanPages_spec file column ps e m m' :
  scanPages file column t ps e m = Ok m' -> scanned (concat (map pageValues ps)) m m'.
Proof.
  revert m. induction ps as [|p ps IH]; intros m; simpl.
  - destruct e; [discriminate|]. intros [= <-]. apply scanned_nil.
  - intros (m1 & Hv & Hp)%result_bind_Ok. destruct (pageErr p); [discriminate|].
    eapply scanned_app; [by eapply scanValues_spec|by apply IH].
Qed.

Lemma scanRowGroups_spec file column i rgs m m' :
  scanRowGroups file column t i rgs m = Ok m' ->
  scanned (concat (map (fun chunks => match chunks !! Z.to_nat i with
                                      | Some c => chunkCells c | None => [] end) rgs)) m m'.
Proof.
  revert m. induction rgs as [|chunks rgs IH]; intros m; simpl.
  - intros [= <-]. apply scanned_nil.
  - destruct (chunks !! Z.to_nat i) as [c|]; [|apply IH].
    intros (m1 & Hv & Hp)%result_bind_Ok.
    eapply scanned_app; [by eapply scanPages_spec|by apply IH].
Qed.

Lemma scanFiles_spec column fs m m' :
  scanFiles column t fs m = Ok m' -> scanned (concat (map (fileCells column) fs)) m m'.
Proof.
  revert m. induction fs as [|f fs IH]; intros m; simpl.
  - intros [= <-]. apply scanned_nil.
  - intros (m1 & Hf & Hp)%result_bind_Ok. eapply scanned_app; [|by apply IH].
    unfold scanFile in Hf. destruct (pqOpen f), (pqStat f), (pqHeader f); try discriminate.
    destruct (_ =? -1); [discriminate|]. by eapply scanRowGroups_spec.
Qed.

Lemma ParseWatermarkValue_ok raw v : ParseWatermarkValue t raw = Ok v -> wmOk t v.
Proof.
  unfold ParseWatermarkValue, invalidValue. intros Hp.
  repeat (case_match; try discriminate); simplify_eq; split; try done;
    by (symmetry; apply String.eqb_eq).
Qed.

Lemma parseParquetValue_ok c v : parseParquetValue c t = Ok v -> wmOk t v.
Proof. unfold parseParquetValue. intros. repeat case_match; by eapply ParseWatermarkValue_ok. Qed.

Lemma Incoming_ok w v : wcType w = t -> Incoming (Some w) = Ok (Some v) -> wmOk t v.
Proof.
  intros Hw Hi. unfold Incoming in Hi. rewrite Hw in Hi. clear Hw. repeat case_match; simplify_eq.
  by eapply ParseWatermarkValue_ok.
Qed.
End Scan.

(** ** Lemmas: integers print and parse *)
Lemma parseUintLoop_spec acc l :
  forallb isDigit l = true -> 0 <= acc -> decValue acc l <= MaxUint64 ->
  parseUintLoop acc l = DOk (decValue acc l).
Proof.
  revert acc. induction l as [|c l IH]; intros acc Hd Ha Hm; [done|]. simpl in *.
  apply andb_prop in Hd as [Hc Hd]. rewrite Hc. simpl.
  pose proof (isDigit_val c Hc).
  assert (acc * 10 + digitVal c <= decValue (acc * 10 + digitVal c) l) as Hle.
  { rewrite decValue_shift. pose proof (decValue_nonneg 0 l ltac:(lia) Hd).
    pose proof (Z.pow_pos_nonneg 10 (zlen l) ltac:(lia) (zlen_nonneg l)). nia. }
  destruct (Z.ltb_spec MaxUint64 (acc * 10 + digitVal c)); [lia|]. apply IH; [done|lia|done].
Qed.

Lemma ParseInt10_FormatInt `{GoQuote} fn n : in_i64 n -> ParseInt10 fn (FormatInt n) = Ok n.
Proof.
  intros Hn. unfold ParseInt10, FormatInt, FormatIntBytes. rewrite bytes_str.
  destruct (FormatUintBytes_spec (Z.abs n)) as (Hd & Hv & Hne); [wordlia|].
  assert (decValue 0 (FormatUintBytes (Z.abs n)) <= MaxUint64) as Hm by (rewrite Hv; wordlia).
  destruct (Z.ltb_spec n 0).
  - rewrite Z.abs_neq in * by lia. rewrite zlen_eqb_nil by done.
    rewrite parseUintLoop_spec, Hv by (done || lia).
    destruct (Z.ltb_spec (2 ^ 63) (- n)); [wordlia|]. f_equal. lia.
  - rewrite Z.abs_eq in * by lia.
    replace (match FormatUintBytes n with
             | "+"%char :: l => (false, l) | "-"%char :: l => (true, l) | l => (false, l) end)
      with (false, FormatUintBytes n).
    { rewrite zlen_eqb_nil by done. rewrite parseUintLoop_spec, Hv by (done || lia).
      destruct (Z.leb_spec (2 ^ 63) n); [wordlia|done]. }
    destruct (FormatUintBytes n) as [|a l]; [done|].
    simpl in Hd. apply andb_prop in Hd as [Ha _].
    by destruct a as [[] [] [] [] [] [] [] []]; try reflexivity; vm_compute in Ha.
Qed.

Lemma parseUintLoop_nonneg acc l n : 0 <= acc -> parseUintLoop acc l = DOk n -> 0 <= n.
Proof.
  revert acc. induction l as [|c l IH]; intros acc Ha; simpl; [by intros [= <-]|].
  destruct (isDigit c) eqn:Hc; simpl; [|discriminate]. pose proof (isDigit_val c Hc).
  destruct (_ <? _); [discriminate|]. apply IH. lia.
Qed.

Lemma ParseInt10_range `{GoQuote} fn s n : ParseInt10 fn s = Ok n -> in_i64 n.
Proof.
  unfold ParseInt10, numError. case_match eqn:E. destruct (zlen l =? 0); [discriminate|].
  destruct (parseUintLoop 0 l) as [m| |] eqn:Em; try discriminate.
  apply parseUintLoop_nonneg in Em; [|lia].
  destruct b; zcases; intros; simplify_eq; wunfold; lia.
Qed.

Lemma FormatInt_trimmed n : in_i64 n -> TrimSpace (FormatInt n) = FormatInt n /\ FormatInt n <> "".
Proof.
  intros Hn. destruct (FormatUintBytes_spec (Z.abs n)) as (Hd & _ & Hne); [wordlia|].
  assert (forallb plain (FormatIntBytes n) = true /\ FormatIntBytes n <> []) as [Hp Hb].
  { unfold FormatIntBytes. destruct (Z.ltb_spec n 0).
    - rewrite Z.abs_neq in Hd by lia. simpl. split; [by apply digits_plain|done].
    - rewrite Z.abs_eq in * by lia. split; [by apply digits_plain|done]. }
  unfold TrimSpace, FormatInt. rewrite bytes_str, trimSpaceBytes_plain by done. split; [done|].
  intros E. apply Hb. rewrite <- (bytes_str (FormatIntBytes n)), E. done.
Qed.

(** An integer watermark reads back from its text. *)
Lemma ParseWatermarkValue_FormatInt `{GoQuote, GoTimeParseZ, GoParseFloat} n :
  in_i64 n -> ParseWatermarkValue WatermarkTypeInteger (FormatInt n) = Ok (wmInt n).
Proof.
  intros Hn. destruct (FormatInt_trimmed n Hn) as [Ht Hne]. unfold ParseWatermarkValue. simpl.
  rewrite Ht. destruct (String.eqb_spec (FormatInt n) ""); [done|]. by rewrite ParseInt10_FormatInt.
Qed.

Lemma ParseWatermarkValue_integer `{GoQuote, GoTimeParseZ, GoParseFloat} raw v :
  ParseWatermarkValue WatermarkTypeInteger raw = Ok v -> exists n, v = wmInt n /\ in_i64 n.
Proof.
  unfold ParseWatermarkValue. simpl. destruct (_ =s ""); [discriminate|].
  destruct (ParseInt10 _ _) as [n| |] eqn:E; try discriminate. intros [= <-].
  eauto using ParseInt10_range.
Qed.

(** Integers and strings read back from their texts. *)
Lemma ParseWatermarkValue_String `{GoQuote, GoTimeParseZ, GoParseFloat, GoFormatFloat} t raw v :
  t = WatermarkTypeInteger \/ t = WatermarkTypeString ->
  ParseWatermarkValue t raw = Ok v -> ParseWatermarkValue t (Watermark_String v) = Ok v.
Proof.
  intros [-> | ->] Hp.
  - destruct (ParseWatermarkValue_integer _ _ Hp) as (n & -> & Hn).
    by apply ParseWatermarkValue_FormatInt.
  - unfold ParseWatermarkValue in *. simpl in *. destruct (TrimSpace raw =s "") eqn:E; [done|].
    injection Hp as <-. simpl. change (Watermark_String (wmString ?x)) with x.
    by rewrite TrimSpace_idem, E.
Qed.

(** Every value comes from a text. *)
Lemma Incoming_parsed `{GoQuote, GoTimeParseZ, GoParseFloat, GoFormatFloat} wm v :
  Incoming (Some wm) = Ok (Some v) -> exists raw, ParseWatermarkValue (wcType wm) raw = Ok v.
Proof. unfold Incoming. intros. repeat case_match; simplify_eq; eauto. Qed.
Lemma parseParquetValue_parsed `{GoQuote, GoTimeParseZ, GoParseFloat, GoFormatFloat} c t v :
  parseParquetValue c t = Ok v -> exists raw, ParseWatermarkValue t raw = Ok v.
Proof. unfold parseParquetValue. intros. repeat case_match; eauto. Qed.

(** Cutting nanoseconds to microseconds, per second. *)
Lemma cut_div n : n / 1000 * 1000 / 1000000000 = n / 1000000000.
Proof.
  change 1000000000 with (1000 * 1000000). rewrite <- (Z.div_div n) by lia.
  rewrite (Z.mul_comm _ 1000). by rewrite Z.div_mul_cancel_l by lia.
Qed.
Lemma cut_mod n : (n / 1000 * 1000) mod 1000000000 = n mod 1000000000 / 1000 * 1000.
Proof.
  rewrite !Z.mod_eq, cut_div by lia. set (q := n / 1000000000).
  replace (n - 1000000000 * q) with (n + (- 1000000 * q) * 1000) by lia.
  rewrite Z.div_add by lia. lia.
Qed.

(** The text of a timestamp depends on its microseconds only. *)
Lemma Watermark_String_micros `{GoFormatFloat} v :
  wType v = WatermarkTypeTimestamp ->
  Watermark_String v = Watermark_String (wmTime WatermarkTypeTimestamp
    (mkTime (unixNano (timeVal v) / 1000 * 1000) (zone (timeVal v)))).
Proof.
  intros Ht. destruct v as [ty n x [ns off] s]. cbn in Ht. subst ty. unfold Watermark_String.
  cbn [wType wmTime timeVal unixNano zone]. simpl.
  set (t1 := mkTime ns off). set (t2 := mkTime (ns / 1000 * 1000) off).
  assert (localSeconds t1 = localSeconds t2) as El.
  { unfold localSeconds, t1, t2. cbn [unixNano zone]. by rewrite cut_div. }
  assert (Nanosecond t1 / 1000 = Nanosecond t2 / 1000 /\ Nanosecond t2 = Nanosecond t1 / 1000 * 1000)
    as [Em En].
  { unfold Nanosecond, t1, t2. cbn [unixNano]. rewrite cut_mod.
    split; [by rewrite Z.div_mul by lia|done]. }
  assert (formatSeconds t1 = formatSeconds t2) as Es by (unfold formatSeconds, formatDate; by rewrite El).
  assert (formatMicros t1 = formatMicros t2) as Ef by (unfold formatMicros; by rewrite Em).
  rewrite Es, Ef. change (formatZone t1) with (formatZone t2).
  destruct (Z.eqb_spec (Nanosecond t1) 0) as [E1|E1], (Z.eqb_spec (Nanosecond t2) 0) as [E2|E2];
    cbn [negb]; try done; [by rewrite E1 in En|].
  assert (formatMicros t2 = "") as ->; [|done]. unfold formatMicros. by rewrite E2.
Qed.

(** ** Lemmas: quoting *)

(** Reading a string literal as standard SQL does, after the opening quote: a
    doubled quote is a quote, a single one ends the literal. *)
Definition quote : byte := "'"%char.
Fixpoint sqlBody (l : list byte) : option (list byte * list byte) :=
  match l with
  | [] => None
  | c :: l' =>
      if bool_decide (c = quote) then
        match l' with
        | d :: l'' =>
            if bool_decide (d = quote)
            then match sqlBody l'' with Some (v, r) => Some (quote :: v, r) | None => None end
            else Some ([], l')
        | [] => Some ([], [])
        end
      else match sqlBody l' with Some (v, r) => Some (c :: v, r) | None => None end
  end.
Definition sqlString (l : list byte) : option (list byte * list byte) :=
  match l with c :: l' => if bool_decide (c = quote) then sqlBody l' else None | [] => None end.

(** MySQL and MariaDB, by default, also read a backslash in a string literal as
    an escape of the next character. *)
Fixpoint mysqlBody (l : list byte) : option (list byte * list byte) :=
  match l with
  | [] => None
  | c :: l' =>
      if bool_decide (c = "\"%char) then
        match l' with
        | d :: l'' => match mysqlBody l'' with Some (v, r) => Some (d :: v, r) | None => None end
        | [] => None
        end
      else if bool_decide (c = quote) then
        match l' with
        | d :: l'' =>
            if bool_decide (d = quote)
            then match mysqlBody l'' with Some (v, r) => Some (quote :: v, r) | None => None end
            else Some ([], l')
        | [] => Some ([], [])
        end
      else match mysqlBody l' with Some (v, r) => Some (c :: v, r) | None => None end
  end.
Definition mysqlString (l : list byte) : option (list byte * list byte) :=
  match l with c :: l' => if bool_decide (c = quote) then mysqlBody l' else None | [] => None end.

Definition noQuoteFirst (l : list byte) : Prop := head l <> Some quote.
Definition noQuote (l : list byte) : Prop := Forall (fun c => c <> quote) l.
Definition noBackslash (l : list byte) : Prop := Forall (fun c => c <> "\"%char) l.

Definition escapeByte (c : byte) : list byte := if bool_decide (c = quote) then [quote; quote] else [c].


Lemma prefix_quote c s : String.prefix "'" (String c s) = bool_decide (c = quote).
Proof.
  cbn [String.prefix]. destruct (ascii_dec "'" c) as [<-|Hc]; [by destruct s|].
  symmetry. apply bool_decide_eq_false_2. unfold quote. congruence.
Qed.

Lemma ReplaceAll_quote s : bytes (ReplaceAll s "'" "''") = concat (map escapeByte (bytes s)).
Proof.
  unfold ReplaceAll. induction s as [|c s IH]; [done|].
  change (bytes (String c s)) with (c :: bytes s). cbn [replaceFrom map concat].
  rewrite prefix_quote. unfold escapeByte at 1. rewrite <- IH.
  destruct (bool_decide (c = quote)); [apply bytes_app|done].
Qed.

Lemma sqlBody_escape v rest :
  noQuoteFirst rest -> sqlBody (concat (map escapeByte v) ++ quote :: rest) = Some (v, rest).
Proof.
  intros Hr. induction v as [|c v IH]; simpl.
  - destruct rest as [|d rest]; [done|]. rewrite bool_decide_eq_false_2; [done|].
    unfold noQuoteFirst in Hr. simpl in Hr. congruence.
  - unfold escapeByte at 1. destruct (decide (c = quote)) as [->|Hc].
    + rewrite bool_decide_eq_true_2 by done. simpl. by rewrite IH.
    + rewrite bool_decide_eq_false_2 by done. simpl.
      rewrite bool_decide_eq_false_2 by done. by rewrite IH.
Qed.

(** Without a backslash the two scanners agree. *)
Lemma mysqlBody_escape v rest :
  noBackslash v -> noQuoteFirst rest ->
  mysqlBody (concat (map escapeByte v) ++ quote :: rest) = Some (v, rest).
Proof.
  intros Hv Hr. induction Hv as [|c v Hc Hv IH]; simpl.
    destruct rest as [|d rest]; [done|]. rewrite bool_decide_eq_false_2; [done|].
    unfold noQuoteFirst in Hr. simpl in Hr. congruence.
  - unfold escapeByte at 1. destruct (decide (c = quote)) as [->|Hq].
    + rewrite bool_decide_eq_true_2 by done. simpl. by rewrite IH.
    + rewrite bool_decide_eq_false_2 by done. cbn [app mysqlBody].
      rewrite !bool_decide_eq_false_2 by done. by rewrite IH.
Qed.

Lemma escape_noQuote v : noQuote v -> concat (map escapeByte v) = v.
Proof.
  induction 1 as [|c v Hc Hv IH]; [done|]. simpl. rewrite IH.
  unfold escapeByte. by rewrite bool_decide_eq_false_2.
Qed.

Lemma sqlString_quoted s rest :
  noQuoteFirst rest ->
  sqlString (bytes ("'" +:+ ReplaceAll s "'" "''" +:+ "'") ++ rest) = Some (bytes s, rest).
Proof.
  intros Hr. rewrite !bytes_app, ReplaceAll_quote. simpl. rewrite <- app_assoc. by apply sqlBody_escape.
Qed.

Lemma mysqlString_quoted s rest :
  noBackslash (bytes s) -> noQuoteFirst rest ->
  mysqlString (bytes ("'" +:+ ReplaceAll s "'" "''" +:+ "'") ++ rest) = Some (bytes s, rest).
Proof.
  intros Hs Hr. rewrite !bytes_app, ReplaceAll_quote. simpl. rewrite <- app_assoc.
  by apply mysqlBody_escape.
Qed.

(** The dates and times the code prints hold no quote. *)
Lemma noQuote_app l k : noQuote l -> noQuote k -> noQuote (l ++ k).
Proof. intros. by apply Forall_app. Qed.
Lemma noQuote_digits l : forallb isDigit l = true -> noQuote l.
Proof.
  intros H. apply List.Forall_forall. intros c Hc E. subst c.
  rewrite forallb_forall in H. by specialize (H _ Hc).
Qed.
Lemma noQuote_pad2 n : noQuote (bytes (pad2 n)).
Proof.
  unfold pad2. rewrite bytes_str. apply noQuote_digits. simpl.
  destruct (isDigit_digit (n / 10 mod 10)) as [-> _]; [apply Z.mod_pos_bound; lia|].
  by destruct (isDigit_digit (n mod 10)) as [-> _]; [apply Z.mod_pos_bound|].
Qed.
Lemma noQuote_digitsFuel fuel n acc : noQuote acc -> noQuote (digitsFuel fuel n acc).
Proof.
  revert n acc. induction fuel as [|f IH]; intros n acc Ha; [done|]. cbn [digitsFuel].
  assert (noQuote (digit (n mod 10) :: acc)) as Hd.
  { apply Forall_cons. split; [|done]. intros E.
    destruct (isDigit_digit (n mod 10)) as [Hx _]; [apply Z.mod_pos_bound; lia|].
    rewrite E in Hx. discriminate. }
  destruct (_ <? _); [done|]. by apply IH.
Qed.
Lemma noQuote_cons c l : c <> quote -> noQuote l -> noQuote (c :: l).
Proof. intros. by apply Forall_cons. Qed.
Lemma noQuote_FormatInt n : noQuote (bytes (FormatInt n)).
Proof.
  unfold FormatInt, FormatIntBytes, FormatUintBytes. rewrite bytes_str.
  destruct (n <? 0); [apply noQuote_cons; [discriminate|]|]; apply noQuote_digitsFuel; constructor.
Qed.
(** Texts concatenated from quote-free pieces and literals. *)
Ltac no_quote :=
  rewrite ?bytes_app;
  repeat (apply noQuote_app || apply noQuote_pad2 || apply noQuote_FormatInt
          || (apply noQuote_cons; [discriminate|]) || apply Forall_nil_2 || auto).
Lemma noQuote_dropWhile p l : noQuote l -> noQuote (dropWhile p l).
Proof.
  induction 1 as [|c l Hc Hl IH]; [constructor|]. simpl. destruct (p c); [done|by apply noQuote_cons].
Qed.
Lemma noQuote_TrimRight s cut : noQuote (bytes s) -> noQuote (bytes (TrimRight s cut)).
Proof.
  intros H. unfold TrimRight. rewrite bytes_str. apply List.Forall_rev, noQuote_dropWhile.
  by apply List.Forall_rev.
Qed.

Lemma noQuote_Watermark_String `{GoFormatFloat} v :
  wType v = WatermarkTypeTimestamp \/ wType v = WatermarkTypeDate ->
  noQuote (bytes (Watermark_String v)).
Proof.
  assert (forall y, noQuote (bytes (yearText y))) as Hy.
  { intros y. unfold yearText, pad4. repeat case_match; no_quote. }
  assert (forall t, noQuote (bytes (formatDate t))) as Hd.
  { intros t. unfold formatDate. destruct (civil _) as [[y m] d]. no_quote. }
  assert (forall t, noQuote (bytes (formatSeconds t))) as Hs by (intros t; unfold formatSeconds; no_quote).
  assert (forall t, noQuote (bytes (formatMicros t))) as Hm.
  { intros t. unfold formatMicros, pad4. destruct (_ =? 0); no_quote.
    apply noQuote_TrimRight. no_quote. }
  assert (forall t, noQuote (bytes (formatZone t))) as Hz.
  { intros t. unfold formatZone. destruct (_ <? 0); no_quote. }
  intros [E|E]; unfold Watermark_String; rewrite E; simpl; [|apply Hd].
  destruct (negb _); no_quote.
Qed.

(** The final value of a run: the greater of the incoming watermark and the
    maximum [w] of the column. *)
Lemma finalVal_spec `{GoQuote, GoTimeParseZ, GoParseFloat} (wm : WatermarkConfig) w
    (cells : list WatermarkValue) :
  w ∈ cells -> wmOk (wcType wm) w ->
  let v := finalVal wm w in
  wmOk (wcType wm) v /\ (v ∈ cells \/ Incoming (Some wm) = Ok (Some v)) /\ wmGt w v = false
  /\ forall inc, Incoming (Some wm) = Ok (Some inc) -> wmGt inc v = false.
Proof.
  intros Hin Hw v. subst v. unfold finalVal. pose proof (wmGt_irrefl _ _ Hw).
  destruct (Incoming (Some wm)) as [[inc|]| |] eqn:Ei; [|split_and!; auto; discriminate..].
  pose proof (Incoming_ok _ wm inc eq_refl Ei) as Hi. fold (wmGt inc w).
  destruct (wmGt inc w) eqn:E; split_and!; auto.
  - by apply (wmGt_order _ inc w inc Hi Hw Hi).
  - intros inc' [= <-]. by eapply wmGt_irrefl.
  - by intros inc' [= <-].
Qed.

(** ** Properties *)

(** C26. The SQL literal of a string, date, timestamp or integer watermark (not of
    a float) cannot break out of its place in a query read by the SQL standard's
    quoting: whatever the configured text, the literal of a string, date or
    timestamp is one string token whose value is the watermark's text, and that
    of an integer is its decimal number. MySQL, which also reads backslashes as
    escapes, reads the same one token when the text holds no backslash (and can
    be left with more than the token when it does: [mysql_literal_breaks_out]). *)
Theorem SQLLiteral_one_token `{GoQuote, GoTimeParseZ, GoParseFloat, GoFormatFloat}
    (t : WatermarkType) (raw : string) (v : WatermarkValue) (rest : list byte) :
  ParseWatermarkValue t raw = Ok v -> t <> WatermarkTypeFloat -> noQuoteFirst rest ->
  if t =s WatermarkTypeInteger
  then noQuote (bytes (SQLLiteral v)) /\ ParseInt10 "ParseInt" (SQLLiteral v) = Ok (intVal v)
  else sqlString (bytes (SQLLiteral v) ++ rest) = Some (bytes (Watermark_String v), rest)
       /\ (noBackslash (bytes (Watermark_String v)) ->
           mysqlString (bytes (SQLLiteral v) ++ rest) = Some (bytes (Watermark_String v), rest)).
Proof.
  intros Hp Hf Hr. pose proof (ParseWatermarkValue_ok t raw v Hp) as [Ht _].
  destruct (String.eqb_spec t WatermarkTypeInteger) as [->|Hi].
  { destruct (ParseWatermarkValue_integer _ _ Hp) as (n & -> & Hn).
    split; [apply noQuote_FormatInt|by apply ParseInt10_FormatInt]. }
  apply String.eqb_neq in Hf, Hi. assert (SQLLiteral v
    = "'" +:+ ReplaceAll (Watermark_String v) "'" "''" +:+ "'") as ->.
  { unfold SQLLiteral. rewrite Ht, Hi, Hf.
    destruct ((t =s WatermarkTypeTimestamp) || (t =s WatermarkTypeDate)) eqn:E.
    - assert (noQuote (bytes (Watermark_String v))) as Hq.
      { apply noQuote_Watermark_String. rewrite Ht.
        apply orb_prop in E as [E|E]; apply String.eqb_eq in E; auto. }
      do 2 f_equal. rewrite <- (str_bytes (ReplaceAll _ _ _)), ReplaceAll_quote.
      by rewrite escape_noQuote, str_bytes.
    - apply orb_false_iff in E as [E1 E2]. unfold Watermark_String.
      by rewrite Ht, Hi, Hf, E1, E2. }
  split; [by apply sqlString_quoted|]. intros Hb. by apply mysqlString_quoted.
Qed.

(** C21. A run that wrote rows emits, for the watermark column, the text of the
    greatest value among the column's cells and the incoming watermark; with no
    cell the incoming text is kept. The text of an integer or of a string reads
    back as exactly that value, so the next run starts from a watermark that is
    no less than this run's. The text of a timestamp is that of the instant cut
    to the microsecond: there the documented non-regression fails by up to 999
    nanoseconds ([timestamp_text_truncated]). *)
Theorem resolveWatermarkOutput_emits_greatest `{GoQuote, GoTimeParseZ, GoParseFloat, GoFormatFloat}
    db api entries outDir totalRead rowsWritten wm out :
  selectWatermark db api = (Some wm, false) -> rowsWritten <> 0 ->
  resolveWatermarkOutput db api (Ok entries) outDir totalRead rowsWritten = Ok (Some out) ->
  wo_Column out = Column wm /\ wo_Type out = wcType wm /\
  exists cells,
    Forall2 (fun c p => parseParquetValue c (wcType wm) = Ok p)
      (columnCells (Column wm) (parquetFiles entries)) cells
    /\ ((cells = [] /\ wo_Value out = nonBlank (Value wm))
        \/ exists v, wo_Value out = Some (Watermark_String v)
           /\ (v ∈ cells \/ Incoming (Some wm) = Ok (Some v))
           /\ Forall (fun x => Compare x v <= 0) cells
           /\ (forall inc, Incoming (Some wm) = Ok (Some inc) -> Compare inc v <= 0)
           /\ (wcType wm = WatermarkTypeInteger \/ wcType wm = WatermarkTypeString ->
               ParseWatermarkValue (wcType wm) (Watermark_String v) = Ok v)
           /\ (wcType wm = WatermarkTypeTimestamp ->
               Watermark_String v = Watermark_String (wmTime WatermarkTypeTimestamp
                 (mkTime (unixNano (timeVal v) / 1000 * 1000) (zone (timeVal v)))))).
Proof.
  intros Hsel Hrows Hres. unfold resolveWatermarkOutput in Hres. rewrite Hsel in Hres.
  unfold columnOutput in Hres. rewrite (proj2 (Z.eqb_neq _ _) Hrows) in Hres.
  apply result_bind_Ok in Hres as (m & Hm & Hout).
  destruct (scanFiles_spec _ _ _ _ _ Hm) as (cells & Hcells & Hmax). fold (columnCells (Column wm) (parquetFiles entries)) in Hcells.
  assert (Forall (wmOk (wcType wm)) cells) as Hok.
  { clear -Hcells. induction Hcells; constructor; eauto using parseParquetValue_ok. }
  pose proof (maxStep_spec _ None cells Hok) as Hspec. rewrite <- Hmax in Hspec. simpl in Hspec.
  destruct m as [w|]; simplify_eq/=; split_and!; try done; exists cells; split; try done.
  2: { left. by destruct Hspec. }
  right. destruct Hspec as [Hin Hall].
  assert (wmOk (wcType wm) w) as Hw by (rewrite Forall_forall in Hok; by apply Hok).
  destruct (finalVal_spec wm w cells Hin Hw) as (Hv & Hfrom & Hwv & Hinc).
  set (v := finalVal wm w) in *.
  exists v. split; [done|]. split; [done|]. split.
  { rewrite Forall_forall in Hall, Hok |- *. intros x Hx.
    assert (wmGt x v = false) as Hg by (apply (wmGt_order (wcType wm) x w v); auto).
    unfold wmGt in Hg. lia. }
  split; [intros inc Hi; specialize (Hinc inc Hi); unfold wmGt in Hinc; lia|].
  assert (exists raw, ParseWatermarkValue (wcType wm) raw = Ok v) as [raw Hraw].
  { destruct Hfrom as [Hc|Hi]; [|by eapply Incoming_parsed].
    apply list_elem_of_lookup in Hc as [i Hi].
    eapply Forall2_lookup_r in Hcells as (c & _ & Hp); [|done]. by eapply parseParquetValue_parsed. }
  split; intros Hty; [|apply Watermark_String_micros; destruct Hv; congruence].
  by eapply ParseWatermarkValue_String.
Qed.

(** ** What the code does not do *)

(** An emitted timestamp keeps microseconds only: the text of an incoming
    watermark with nanoseconds denotes an earlier instant. *)
Lemma timestamp_text_truncated `{GoFormatFloat} :
  Watermark_String (wmTime WatermarkTypeTimestamp (mkTime 1700000000123456789 0))
  = "2023-11-14T22:13:20.123456+00:00"
  /\ Watermark_String (wmTime WatermarkTypeTimestamp (mkTime 999 7200))
     = "1970-01-01T02:00:00+02:00".
Proof. vm_compute. done. Qed.

(** One empty cell in a string column makes the run fail after its rows were
    written. *)
Lemma empty_cell_fails `{GoQuote, GoTimeParseZ, GoParseFloat, GoFormatFloat} :
  let cell := mkPqValue false PqByteArray 0 (S754_zero false) "" "" in
  let file := mkFile "out.parquet" (Ok tt) (Ok tt) (Ok tt) [("name", 0)]
                [[mkChunk [mkPage [cell] None] None]] in
  exists e, resolveWatermarkOutput
    (Some (Some (mkWatermarkConfig "name" WatermarkTypeString None))) None
    (Ok [(false, file)]) "out" 1 1 = Err e.
Proof. eexists. reflexivity. Qed.

(** Under MySQL's backslash escapes ([mysqlBody]) the literal of a string that holds a
    backslash before a quote ends early, and what follows is read as SQL. *)
Lemma mysql_literal_breaks_out `{GoFormatFloat} :
  SQLLiteral (wmString "\' OR 1=1 -- ") = "'\'' OR 1=1 -- '"
  /\ option_map (fun p => (str (fst p), str (snd p)))
       (mysqlBody (tail (bytes (SQLLiteral (wmString "\' OR 1=1 -- ")))))
     = Some ("'", " OR 1=1 -- '").
Proof. vm_compute. done. Qed.

(** ** Witnesses *)
Section Witnesses.
#[local] Instance sampleQuote : GoQuote := fun s => s.
#[local] Instance sampleTime : GoTimeParseZ := fun _ _ => Err (Sentinel "time").
#[local] Instance sampleFloat : GoParseFloat := fun _ => Err (Sentinel "float").
#[local] Instance sampleFormat : GoFormatFloat := fun _ => "0".

Lemma SQLLiteral_one_token_witness :
  sqlString (bytes (SQLLiteral (wmString "O'Brien")) ++ bytes " AND x")
  = Some (bytes "O'Brien", bytes " AND x")
  /\ (noBackslash (bytes "O'Brien") ->
      mysqlString (bytes (SQLLiteral (wmString "O'Brien")) ++ bytes " AND x")
      = Some (bytes "O'Brien", bytes " AND x")).
Proof.
  apply (SQLLiteral_one_token WatermarkTypeString "O'Brien"); [reflexivity|discriminate|discriminate].
Defined.

Definition sampleFile : pqFile :=
  let int n := mkPqValue false PqInt64 n (S754_zero false) "" "" in
  mkFile "out/part-0.parquet" (Ok tt) (Ok tt) (Ok tt) [("other", 0); ("id", 1)]
    [[mkChunk [] None; mkChunk [mkPage [int 9; mkPqValue true PqOther 0 (S754_zero false) "" ""] None;
                                mkPage [int 10] None] None]].
Definition sampleWm (v : string) : WatermarkConfig :=
  mkWatermarkConfig "id" WatermarkTypeInteger (Some v).

Lemma resolveWatermarkOutput_emits_greatest_witness :
  exists out,
    resolveWatermarkOutput (Some (Some (sampleWm " 7 "))) None (Ok [(false, sampleFile)]) "out" 3 3
      = Ok (Some out)
    /\ wo_Value out = Some "10" /\ wo_Column out = "id".
Proof.
  eexists. split; [vm_compute; reflexivity|]. split; [reflexivity|].
  apply (resolveWatermarkOutput_emits_greatest (Some (Some (sampleWm " 7 "))) None [(false, sampleFile)]
           "out" 3 3 (sampleWm " 7 ")); [reflexivity|lia|vm_compute; reflexivity].
Defined.
End Witnesses.
