(* ===== verification/Config.v ===== *)
(** * Pipeline configuration

    Models the configuration records of [internal/domain]: [config.go],
    [config_source.go], [config_database.go], [config_rest.go],
    [config_destination.go], [config_dlq.go], with [ApplyDefaults],
    [Validate] and the queries built from a database source, and
    [uri_builder.go]. A pointer that may be nil is an option. *)
From S2P Require Import Prelude GoStr Float64 Schema RecordModel Watermark.

(** ** [path/filepath] on Unix *)
Fixpoint splitOn (sep : byte) (l : list byte) : list (list byte) :=
  match l with
  | [] => [[]]
  | c :: l' =>
      if bool_decide (c = sep) then [] :: splitOn sep l'
      else match splitOn sep l' with
           | x :: xs => (c :: x) :: xs
           | [] => [[c]]
           end
  end.
Fixpoint joinWith (sep : string) (l : list string) : string :=
  match l with
  | [] => ""
  | [x] => x
  | x :: xs => x +:+ sep +:+ joinWith sep xs
  end.
(** The elements kept by [Clean], last first. *)
Fixpoint cleanElems (rooted : bool) (elems out : list string) : list string :=
  match elems with
  | [] => out
  | e :: es =>
      if (e =s "") || (e =s ".") then cleanElems rooted es out
      else if e =s ".." then
        match out with
        | x :: out' => if x =s ".." then cleanElems rooted es (".." :: out) else cleanElems rooted es out'
        | [] => cleanElems rooted es (if rooted then [] else [".."])
        end
      else cleanElems rooted es (e :: out)
  end.
Definition slash : byte := "/"%char.
Definition Clean (path : string) : string :=
  let rooted := HasPrefix path "/" in
  let body := joinWith "/" (rev (cleanElems rooted (map str (splitOn slash (bytes path))) [])) in
  let res := (if rooted then "/" else "") +:+ body in
  if res =s "" then "." else res.
(** The path up to and including its last slash. *)
Definition uptoSlash (path : string) : string :=
  str (rev (dropWhile (fun c => negb (bool_decide (c = slash))) (rev (bytes path)))).
Definition Dir (path : string) : string := Clean (uptoSlash path).
Definition Join2 (a b : string) : string :=
  if a =s "" then (if b =s "" then "" else Clean b) else Clean (a +:+ "/" +:+ b).
Fixpoint extFrom (rl acc : list byte) : string :=
  match rl with
  | [] => ""
  | c :: rl' =>
      if bool_decide (c = slash) then ""
      else if bool_decide (c = "."%char) then str (c :: acc) else extFrom rl' (c :: acc)
  end.
Definition Ext (path : string) : string := extFrom (rev (bytes path)) [].

Example Clean_ex : map Clean ["a//b/./c/.."; "/../x"; ""; "../a"] = ["a/b"; "/x"; "."; "../a"].
Proof. reflexivity. Qed.
Example Dir_ex : map Dir ["/data/out.parquet"; "out"; "gs://b/x"] = ["/data"; "."; "gs:/b"].
Proof. reflexivity. Qed.
Example Ext_ex : map Ext ["/a.b/c"; "x.tar.gz"; "/a/b.csv"] = [""; ".gz"; ".csv"].
Proof. reflexivity. Qed.

(** ** Defaults *)
Definition DefaultPipelineRunner : string := "direct".
Definition DefaultSourceFormat : string := "csv".
Definition DefaultSourceDelimiter : string := ",".
Definition DefaultSourceQuoteChar : string := str ["034"%char].
Definition DefaultSourceCharset : string := "utf-8".
Definition DefaultSourceCompression : string := "none".
Definition DefaultPoolMaxOpenConns : Z := 4.
Definition DefaultPoolMaxIdleConns : Z := 2.
Definition DefaultPoolConnLifetimeSeconds : Z := 300.
Definition DefaultCircuitBreakerTimeoutMs : Z := 10000.
Definition DefaultCircuitBreakerHalfOpenLimit : Z := 1.
Definition DefaultBackoffMultiplier : float64 := of_int 2.
Definition DefaultAPIMaxPagesLimit : Z := 10000.
Definition DefaultAPIMaxRetries : Z := 3.
Definition DefaultAPIInitialBackoffMs : Z := 500.
Definition DefaultAPIMaxBackoffMs : Z := 10000.
Definition DefaultAPITimeoutMs : Z := 30000.
Definition DefaultAPICircuitBreakerFails : Z := 5.
Definition DefaultAPIRateLimitRPS : float64 := of_int 50.
Definition DefaultDestinationType : string := "file".
Definition DefaultDestinationOutputFormat : string := "parquet".
Definition DefaultDestinationDelimiter : string := ",".
Definition DefaultDestinationLineTerminator : string := str ["010"%char].
Definition DefaultDestinationCharset : string := "utf-8".
Definition DefaultDestinationAPIMethod : string := "POST".
Definition DefaultDestinationAPITimeoutMs : Z := 30000.
Definition DefaultDestinationAPIRateLimit : Z := 50.
Definition DefaultDestinationAPIMaxRetries : Z := 3.

(** [OrDefault] at the types used; a float equal to zero is replaced. *)
Definition orStr (value fallback : string) : string := OrDefault "" value fallback.
Definition orInt (value fallback : Z) : Z := OrDefault 0 value fallback.
Definition feqZero (x : float64) : bool := match x with SpecFloat.S754_zero _ => true | _ => false end.
Definition orFloat (value fallback : float64) : float64 := if feqZero value then fallback else value.

(** [%v] of a [float64] is left to the standard library. *)
Class GoFormatV := formatV : float64 -> string.
Definition CheckNonNegativeF `{GoFormatV} (name : string) (val : float64) : result unit :=
  if flt val (of_int 0) then Err (Errorf (name +:+ " cannot be negative, got " +:+ formatV val) [])
  else Ok tt.

(** ** Sources *)
Record SourceConfig := mkSourceConfig {
  SrcType : string; Path : string; Paths : list string; Format : string; Delimiter : string;
  QuoteChar : string; Multiline : bool; Charset : string; Compression : string;
  ChunkSizeBytes : Z; SrcSchema : Schema; SrcWatermark : option WatermarkConfig }.

Definition trimmedNonBlank (ps : list string) : list string :=
  List.filter (fun p => negb (p =s "")) (map TrimSpace ps).
Definition AllPaths (s : SourceConfig) : list string :=
  match trimmedNonBlank (Paths s) with
  | [] => if negb (TrimSpace (Path s) =s "") then [TrimSpace (Path s)] else []
  | ps => ps
  end.

Definition lowerTrim `{UnicodeLower} (s : string) : string := ToLower (TrimSpace s).
Definition SourceConfig_ApplyDefaults `{UnicodeLower} (s : SourceConfig) : SourceConfig :=
  mkSourceConfig (SrcType s) (Path s) (Paths s)
    (orStr (lowerTrim (Format s)) DefaultSourceFormat)
    (orStr (Delimiter s) DefaultSourceDelimiter)
    (orStr (QuoteChar s) DefaultSourceQuoteChar)
    (Multiline s)
    (orStr (lowerTrim (Charset s)) DefaultSourceCharset)
    (orStr (lowerTrim (Compression s)) DefaultSourceCompression)
    (orInt (ChunkSizeBytes s) DefaultChunkSizeBytes)
    (Schema_ApplyDefaults (SrcSchema s)) (SrcWatermark s).

Record ResilienceConfig := mkResilience {
  MaxRetries : Z; InitialBackoffMs : Z; MaxBackoffMs : Z; BackoffMultiplier : float64;
  RateLimitRPS : float64; TimeoutMs : Z; CircuitBreakerFails : Z; CircuitBreakerTimeoutMs : Z;
  HalfOpenLimit : Z }.
Definition Resilience_ApplyDefaults (r : ResilienceConfig) : ResilienceConfig :=
  mkResilience
    (orInt (MaxRetries r) DefaultAPIMaxRetries)
    (orInt (InitialBackoffMs r) DefaultAPIInitialBackoffMs)
    (orInt (MaxBackoffMs r) DefaultAPIMaxBackoffMs)
    (orFloat (BackoffMultiplier r) DefaultBackoffMultiplier)
    (orFloat (RateLimitRPS r) DefaultAPIRateLimitRPS)
    (orInt (TimeoutMs r) DefaultAPITimeoutMs)
    (orInt (CircuitBreakerFails r) DefaultAPICircuitBreakerFails)
    (orInt (CircuitBreakerTimeoutMs r) DefaultCircuitBreakerTimeoutMs)
    (orInt (HalfOpenLimit r) DefaultCircuitBreakerHalfOpenLimit).
Definition Resilience_Validate `{GoFormatV} (r : ResilienceConfig) : result unit :=
  ValidateAll
    [CheckNonNegative "max_retries" (MaxRetries r);
     CheckNonNegative "initial_backoff_ms" (InitialBackoffMs r);
     CheckNonNegative "max_backoff_ms" (MaxBackoffMs r);
     CheckNonNegativeF "backoff_multiplier" (BackoffMultiplier r);
     CheckNonNegativeF "rate_limit_rps" (RateLimitRPS r);
     CheckNonNegative "timeout_ms" (TimeoutMs r);
     CheckNonNegative "circuit_breaker_fails" (CircuitBreakerFails r);
     CheckNonNegative "circuit_breaker_timeout_ms" (CircuitBreakerTimeoutMs r);
     CheckNonNegative "half_open_limit" (HalfOpenLimit r)].

Record PartitionConfig := mkPartition { PartitionColumn : string; BatchSize : Z; NumPartitions : Z }.
Definition Partition_ApplyDefaults (p : PartitionConfig) : PartitionConfig :=
  mkPartition (PartitionColumn p) (orInt (BatchSize p) DefaultDatabaseBatchSize) (NumPartitions p).
Record PoolConfig := mkPool { MaxOpenConns : Z; MaxIdleConns : Z; ConnMaxLifetime : Z }.
Definition Pool_ApplyDefaults (p : PoolConfig) : PoolConfig :=
  mkPool (orInt (MaxOpenConns p) DefaultPoolMaxOpenConns)
    (orInt (MaxIdleConns p) DefaultPoolMaxIdleConns)
    (orInt (ConnMaxLifetime p) DefaultPoolConnLifetimeSeconds).

Record DatabaseSourceConfig := mkDatabase {
  Driver : string; ConnectionURI : string; Host : string; Port : Z; Database : string;
  Username : string; PasswordRef : string; Query : string; Table : string; QueryFilter : string;
  Columns : list string; FlattenNested : bool; DbPartition : PartitionConfig; DbPool : PoolConfig;
  DbResilience : ResilienceConfig; DbSchema : Schema; DbWatermark : option WatermarkConfig }.

Definition Database_ApplyDefaults (d : DatabaseSourceConfig) : DatabaseSourceConfig :=
  mkDatabase (Driver d) (ConnectionURI d) (Host d) (Port d) (Database d) (Username d) (PasswordRef d)
    (Query d) (Table d) (QueryFilter d) (Columns d) (FlattenNested d)
    (Partition_ApplyDefaults (DbPartition d)) (Pool_ApplyDefaults (DbPool d))
    (Resilience_ApplyDefaults (DbResilience d)) (DbSchema d) (DbWatermark d).

Definition BaseQuery (cfg : DatabaseSourceConfig) : string :=
  if negb (TrimSpace (Query cfg) =s "") then TrimSpace (Query cfg)
  else
    let cols := match Columns cfg with [] => "*" | cs => joinWith ", " cs end in
    if negb (TrimSpace (QueryFilter cfg) =s "")
    then "SELECT " +:+ cols +:+ " FROM " +:+ Table cfg +:+ " WHERE " +:+ QueryFilter cfg
    else "SELECT " +:+ cols +:+ " FROM " +:+ Table cfg.

Definition placeholder : string := ":watermark_value".
Definition EffectiveQuery `{GoQuote, GoTimeParseZ, GoParseFloat, GoFormatFloat}
    (cfg : DatabaseSourceConfig) : result string :=
  let base := BaseQuery cfg in
  let hasPlaceholder := Contains base placeholder in
  match DbWatermark cfg with
  | None =>
      if hasPlaceholder
      then Err (Errorf "query contains :watermark_value placeholder but no watermark configuration was provided" [])
      else Ok base
  | Some wm =>
      _ ← WatermarkConfig_Validate (Some wm);
      inc ← Incoming (Some wm);
      match inc with
      | None =>
          if hasPlaceholder
          then Err (Errorf "query contains :watermark_value placeholder but watermark value is empty or null" [])
          else Ok base
      | Some v =>
          if hasPlaceholder then Ok (ReplaceAll base placeholder (SQLLiteral v))
          else Ok ("SELECT * FROM (" +:+ base +:+ ") AS _wm WHERE " +:+ Column wm +:+ " > " +:+ SQLLiteral v)
      end
  end.

(** Pagination and the API source. *)
Definition PaginationPageNumber : string := "page_number".
Definition PaginationOffsetLimit : string := "offset_limit".
Definition PaginationCursorToken : string := "cursor_token".
Definition PaginationLinkHeader : string := "link_header".

Record APIPaginationConfig := mkPagination {
  PgType : string; PageParam : string; SizeParam : string; PageSize : Z; InitialPage : Z;
  TotalPagesHint : Z; MaxPagesLimit : Z; CursorParam : string; NextCursorPath : string;
  TotalCountPath : string; HasMorePath : string }.
Definition Pagination_ApplyDefaults (p : APIPaginationConfig) : APIPaginationConfig :=
  mkPagination (PgType p)
    (if PageParam p =s "" then (if PgType p =s PaginationOffsetLimit then "offset" else "page")
     else PageParam p)
    (if SizeParam p =s "" then (if PgType p =s PaginationOffsetLimit then "limit" else "size")
     else SizeParam p)
    (orInt (PageSize p) DefaultAPIPageSize)
    (if (InitialPage p =? 0) && (PgType p =s PaginationPageNumber) then 1 else InitialPage p)
    (TotalPagesHint p) (orInt (MaxPagesLimit p) DefaultAPIMaxPagesLimit)
    (CursorParam p) (NextCursorPath p) (TotalCountPath p) (HasMorePath p).

Record APIAuthConfig := mkAuth {
  AuthType : string; TokenRef : string; APIKeyHeader : string; APIKeyQuery : string;
  UsernameRef : string; AuthPasswordRef : string; TokenURL : string; ClientIDRef : string;
  ClientSecretRef : string; Scopes : list string }.

Record APISourceConfig := mkAPISource {
  BaseURL : string; Endpoint : string; HTTPMethod : string; Headers : gmap string string;
  QueryParams : gmap string string; Auth : option APIAuthConfig; Pagination : APIPaginationConfig;
  APIRetry : ResilienceConfig; SkipTLSVerify : bool; RecordsPath : string;
  FieldMapping : gmap string string; APISchema : Schema; APIWatermark : option WatermarkConfig }.

Definition WatermarkIsOffset `{UnicodeLower} (cfg : option APISourceConfig) : bool :=
  match cfg with
  | None => false
  | Some cfg =>
      match APIWatermark cfg with
      | None => false
      | Some w =>
          if negb (PgType (Pagination cfg) =s PaginationOffsetLimit) then false
          else
            let col := lowerTrim (Column w) in
            let param := lowerTrim (PageParam (Pagination cfg)) in
            (col =s "offset") || (negb (param =s "") && (col =s param))
      end
  end.

Definition APISource_ApplyDefaults (a : APISourceConfig) : APISourceConfig :=
  mkAPISource (BaseURL a) (Endpoint a) (orStr (HTTPMethod a) "GET") (Headers a) (QueryParams a) (Auth a)
    (Pagination_ApplyDefaults (Pagination a)) (Resilience_ApplyDefaults (APIRetry a))
    (SkipTLSVerify a) (RecordsPath a) (FieldMapping a) (APISchema a) (APIWatermark a).

(** ** Destinations *)
Record FormatOptions := mkFormatOptions {
  FoDelimiter : string; IncludeHeader : bool; FoCharset : string; LineTerminator : string; QuoteAll : bool }.
Definition FormatOptions_ApplyDefaults (o : FormatOptions) : FormatOptions :=
  mkFormatOptions (orStr (FoDelimiter o) DefaultDestinationDelimiter) (IncludeHeader o)
    (orStr (FoCharset o) DefaultDestinationCharset)
    (orStr (LineTerminator o) DefaultDestinationLineTerminator) (QuoteAll o).

Record EncryptionConfig := mkEncryption { EncType : string; PublicKeyRef : string; KMSKeyRef : string }.
Definition Encryption_ApplyDefaults `{UnicodeLower} (e : EncryptionConfig) : EncryptionConfig :=
  mkEncryption (orStr (lowerTrim (EncType e)) "none") (PublicKeyRef e) (KMSKeyRef e).
Definition Encryption_Validate `{GoQuote} (e : EncryptionConfig) : result unit :=
  if (EncType e =s "none") || (EncType e =s "") then Ok tt
  else if EncType e =s "pgp" then
    if TrimSpace (PublicKeyRef e) =s ""
    then Err (Sentinel "encryption.public_key_ref is required for pgp encryption") else Ok tt
  else if EncType e =s "kms" then
    if TrimSpace (KMSKeyRef e) =s ""
    then Err (Sentinel "encryption.kms_key_ref is required for kms encryption") else Ok tt
  else Err (Errorf ("unsupported encryption type " +:+ Quote (EncType e)
                    +:+ " (supported: none, pgp, kms)") []).

Record APIEndpointConfig := mkEndpoint {
  EpBaseURL : string; CredentialRef : string; EpAuthType : string; EpHeaders : gmap string string }.
Record APISinkOptions := mkAPISink {
  ResourcePath : string; Method : string; SinkBatchSize : Z; BodyEnvelope : string;
  SinkRateLimitRPS : Z; SinkTimeoutMs : Z; SinkMaxRetries : Z }.
Definition APISinkOptions_ApplyDefaults (o : APISinkOptions) : APISinkOptions :=
  mkAPISink (ResourcePath o) (orStr (Method o) DefaultDestinationAPIMethod)
    (orInt (SinkBatchSize o) DefaultDestinationAPIBatchSize) (BodyEnvelope o)
    (orInt (SinkRateLimitRPS o) DefaultDestinationAPIRateLimit)
    (orInt (SinkTimeoutMs o) DefaultDestinationAPITimeoutMs)
    (orInt (SinkMaxRetries o) DefaultDestinationAPIMaxRetries).

Record BigQuerySinkConfig := mkBigQuery {
  ProjectID : string; DatasetID : string; TableID : string; WriteDisposition : string; BqBatchSize : Z }.
(** [Validate] also fills in the write disposition and the batch size; the value
    is the configuration it leaves. *)
Definition BigQuery_Validate `{GoQuote} (c : BigQuerySinkConfig) : result BigQuerySinkConfig :=
  if TrimSpace (DatasetID c) =s "" then Err (Sentinel "bigquery sink requires dataset_id")
  else if TrimSpace (TableID c) =s "" then Err (Sentinel "bigquery sink requires table_id")
  else
    let wd := orStr (WriteDisposition c) "WRITE_APPEND" in
    if (wd =s "WRITE_APPEND") || (wd =s "WRITE_TRUNCATE") || (wd =s "WRITE_EMPTY")
    then Ok (mkBigQuery (ProjectID c) (DatasetID c) (TableID c) wd
               (orInt (BqBatchSize c) DefaultBigQueryBatchSize))
    else Err (Errorf ("invalid write_disposition " +:+ Quote wd
               +:+ " (must be WRITE_APPEND, WRITE_TRUNCATE, or WRITE_EMPTY)") []).

Record DestinationConfig := mkDestination {
  DstType : string; DstFormat : string; OutputFormat : string; OutputPath : string; MetricsDir : string;
  DstCompression : string; Encryption : EncryptionConfig; SingleFile : bool;
  IncludeAuditColumns : bool; DstFormatOptions : FormatOptions; DstEndpoint : APIEndpointConfig;
  APIOptions : APISinkOptions; BigQueryOptions : BigQuerySinkConfig }.
Definition Destination_ApplyDefaults `{UnicodeLower} (d : DestinationConfig) : DestinationConfig :=
  let ty := orStr (lowerTrim (DstType d)) DefaultDestinationType in
  let fmt := if (TrimSpace (OutputFormat d) =s "") && negb (TrimSpace (DstFormat d) =s "")
             then DstFormat d else OutputFormat d in
  mkDestination ty (DstFormat d) (orStr (lowerTrim fmt) ty) (OutputPath d) (MetricsDir d)
    (DstCompression d) (Encryption_ApplyDefaults (Encryption d)) (SingleFile d)
    (IncludeAuditColumns d) (FormatOptions_ApplyDefaults (DstFormatOptions d)) (DstEndpoint d)
    (APISinkOptions_ApplyDefaults (APIOptions d)) (BigQueryOptions d).

Record DLQConfig := mkDLQ { DLQEnabled : bool; QuarantinePath : string; MaxErrorPercentage : float64 }.
Record SecurityConfig := mkSecurity { SensitiveFields : list string }.
Record SecretsConfig := mkSecrets {
  Provider : string; VaultURL : string; VaultToken : string; GCPProjectID : string;
  HostOverride : gmap string string }.

(** ** The pipeline *)
Record PipelineConfig := mkPipeline {
  PipelineID : string; RunID : string; PipelineType : string; Runner : string;
  Secrets : option SecretsConfig; PcSchema : option Schema; Source : SourceConfig;
  DatabaseSource : option DatabaseSourceConfig; APISource : option APISourceConfig;
  Destination : DestinationConfig; DLQ : DLQConfig; QualityRules : list QualityRule;
  Security : SecurityConfig }.

Definition fieldsOf (s : option Schema) : list Field :=
  match s with Some s => Fields s | None => [] end.
Definition GetSchema (c : PipelineConfig) : Schema :=
  match PcSchema c with
  | Some (mkSchema (f :: fs) ix) => mkSchema (f :: fs) ix
  | _ =>
      match option_map DbSchema (DatabaseSource c) with
      | Some (mkSchema (f :: fs) ix) => mkSchema (f :: fs) ix
      | _ =>
          match option_map APISchema (APISource c) with
          | Some (mkSchema (f :: fs) ix) => mkSchema (f :: fs) ix
          | _ => SrcSchema (Source c)
          end
      end
  end.

Definition gsBackslash : string := "gs:" +:+ str ["092"%char].
Definition isGCS (p : string) : bool := HasPrefix p "gs://" || HasPrefix p gsBackslash.
Definition RequiresGCS (c : option PipelineConfig) : bool :=
  match c with
  | None => false
  | Some c =>
      isGCS (Path (Source c)) || existsb isGCS (Paths (Source c))
      || isGCS (OutputPath (Destination c)) || isGCS (QuarantinePath (DLQ c))
  end.

(** A path with an extension is a file: its directory; otherwise the path. *)
Definition dirOrSelf (path : string) : string :=
  if negb (Ext path =s "") then Dir path else path.
Definition GetMetricsOutputDir (c : option PipelineConfig) : string :=
  match c with
  | None => "."
  | Some c =>
      if negb (TrimSpace (MetricsDir (Destination c)) =s "") then TrimSpace (MetricsDir (Destination c))
      else if negb (TrimSpace (OutputPath (Destination c)) =s "")
      then dirOrSelf (TrimSpace (OutputPath (Destination c)))
      else if negb (TrimSpace (QuarantinePath (DLQ c)) =s "")
      then dirOrSelf (TrimSpace (QuarantinePath (DLQ c)))
      else "."
  end.

(** [c.Source.Schema = *c.Schema] shares the slice of fields, so the defaults
    written through the copy are seen in [c.Schema] too. *)
Definition sharesSchema (c : PipelineConfig) : bool :=
  match fieldsOf (PcSchema c), Fields (SrcSchema (Source c)) with
  | _ :: _, [] => true
  | _, _ => false
  end.
Definition withSrcSchema (s : SourceConfig) (sch : Schema) : SourceConfig :=
  mkSourceConfig (SrcType s) (Path s) (Paths s) (Format s) (Delimiter s) (QuoteChar s) (Multiline s)
    (Charset s) (Compression s) (ChunkSizeBytes s) sch (SrcWatermark s).

Definition ApplyDefaults `{UnicodeLower} (c : PipelineConfig) : PipelineConfig :=
  let shared := sharesSchema c in
  let src := match PcSchema c with
             | Some s => if shared then withSrcSchema (Source c) s else Source c
             | None => Source c
             end in
  let dst := Destination_ApplyDefaults (Destination c) in
  let dlq := DLQ c in
  mkPipeline (PipelineID c) (RunID c) (PipelineType c)
    (orStr (Runner c) DefaultPipelineRunner) (Secrets c)
    (if shared then option_map Schema_ApplyDefaults (PcSchema c) else PcSchema c)
    (SourceConfig_ApplyDefaults src)
    (option_map Database_ApplyDefaults (DatabaseSource c))
    (option_map APISource_ApplyDefaults (APISource c))
    dst
    (if (QuarantinePath dlq =s "") && negb (OutputPath dst =s "")
     then mkDLQ (DLQEnabled dlq) (Join2 (Dir (OutputPath dst)) "quarantine") (MaxErrorPercentage dlq)
     else dlq)
    (QualityRules c) (Security c).

Section Validation.
Context `{UnicodeLower, GoQuote, GoTimeParseZ, GoParseFloat, GoFormatV}.

Definition validateSourceConfig (c : PipelineConfig) : result unit :=
  _ ← CheckNonNegative "source.chunk_size_bytes" (ChunkSizeBytes (Source c));
  match DatabaseSource c, APISource c with
  | None, None =>
      if negb (SrcType (Source c) =s "database") && negb (SrcType (Source c) =s "api") then
        match AllPaths (Source c), Fields (SrcSchema (Source c)) with
        | [], _ => Err (Sentinel "source.path or source.paths is required for file pipelines")
        | _, [] => Err (Sentinel "source.schema must define at least one field")
        | _, _ => Ok tt
        end
      else Ok tt
  | _, _ => Ok tt
  end.

Definition blank (s : string) : bool := TrimSpace s =s "".

Definition validateDatabaseConfig (c : PipelineConfig) : result unit :=
  match DatabaseSource c with
  | None => Ok tt
  | Some d =>
      _ ← ValidateAll
        [CheckNonNegative "database_source.partition_config.batch_size" (BatchSize (DbPartition d));
         CheckNonNegative "database_source.pool_config.max_open_conns" (MaxOpenConns (DbPool d));
         CheckNonNegative "database_source.pool_config.max_idle_conns" (MaxIdleConns (DbPool d));
         CheckNotEmpty "database_source.driver" (Driver d)];
      if blank (ConnectionURI d) && blank (Host d)
      then Err (Sentinel "database_source connection_uri or host is required")
      else if blank (Query d) && blank (Table d)
      then Err (Sentinel "database_source table or query is required")
      else match Fields (DbSchema d) with
           | [] => Err (Sentinel "database_source.schema must define at least one field")
           | _ => Ok tt
           end
  end.

Definition validateAPIConfig (c : PipelineConfig) : result unit :=
  match APISource c with
  | None => Ok tt
  | Some a =>
      _ ← ValidateAll
        [CheckNonNegative "api_source.pagination.page_size" (PageSize (Pagination a));
         CheckNonNegative "api_source.pagination.max_pages_limit" (MaxPagesLimit (Pagination a));
         Resilience_Validate (APIRetry a);
         CheckNotEmpty "api_source.base_url" (BaseURL a);
         CheckNotEmpty "api_source.endpoint" (Endpoint a)];
      match Fields (APISchema a) with
      | [] => Err (Sentinel "api_source.schema must define at least one field")
      | _ => Ok tt
      end
  end.

Definition withBigQuery (d : DestinationConfig) (b : BigQuerySinkConfig) : DestinationConfig :=
  mkDestination (DstType d) (DstFormat d) (OutputFormat d) (OutputPath d) (MetricsDir d)
    (DstCompression d) (Encryption d) (SingleFile d) (IncludeAuditColumns d) (DstFormatOptions d)
    (DstEndpoint d) (APIOptions d) b.

(** The value is the destination the validation leaves. *)
Definition validateDestinationConfig (c : PipelineConfig) : result DestinationConfig :=
  let d := Destination c in
  if negb (DstType d =s "rest_api") && negb (DstType d =s "bigquery") && blank (OutputPath d)
  then Err (Sentinel "destination.output_path is required")
  else
    _ ← (if DstType d =s "rest_api" then
           ValidateAll [CheckNotEmpty "destination.endpoint.base_url" (EpBaseURL (DstEndpoint d));
                        CheckNonNegative "destination.api_options.batch_size" (SinkBatchSize (APIOptions d))]
         else Ok tt);
    d' ← (if DstType d =s "bigquery" then
            withBigQuery d <$> wrapErr "destination.bigquery_options: " (BigQuery_Validate (BigQueryOptions d))
          else Ok d);
    _ ← wrapErr "destination.encryption: " (Encryption_Validate (Encryption d'));
    Ok d'.

Definition checkWatermarkTypeCompatibility (wmType : WatermarkType) (fieldType : DataType) : result unit :=
  let mismatch want := Err (Errorf ("watermark type " +:+ want +:+ ", got " +:+ fieldType) []) in
  if wmType =s WatermarkTypeInteger then
    if fieldType =s TypeInt64 then Ok tt else mismatch "integer requires schema int64"
  else if wmType =s WatermarkTypeFloat then
    if fieldType =s TypeFloat64 then Ok tt else mismatch "float requires schema float64"
  else if (wmType =s WatermarkTypeTimestamp) || (wmType =s WatermarkTypeDate) then
    if fieldType =s TypeTimestamp then Ok tt else mismatch (wmType +:+ " requires schema timestamp")
  else if wmType =s WatermarkTypeString then
    if fieldType =s TypeString then Ok tt else mismatch "string requires schema string"
  else Ok tt.

Definition activeWatermark (c : PipelineConfig) : option WatermarkConfig * bool :=
  selectWatermark (option_map DbWatermark (DatabaseSource c))
    (option_map (fun a => (APIWatermark a, WatermarkIsOffset (Some a))) (APISource c)).

Definition validateWatermarkColumn (c : PipelineConfig) (wm : WatermarkConfig) : result unit :=
  match Fields (GetSchema c) with
  | [] => Ok tt
  | fs =>
      match List.find (fun f => Name f =s Column wm) fs with
      | None => Err (Errorf ("watermark column " +:+ Quote (Column wm) +:+ " not found in schema") [])
      | Some f => wrapErr ("watermark column " +:+ Quote (Column wm) +:+ " type incompatible: ")
                    (checkWatermarkTypeCompatibility (wcType wm) (FType f))
      end
  end.

Definition validateWatermark (c : PipelineConfig) : result unit :=
  match SrcWatermark (Source c), DatabaseSource c, APISource c with
  | Some _, None, None => Err (Sentinel "watermark is not supported for file sources")
  | _, _, _ =>
      match activeWatermark c with
      | (None, _) => Ok tt
      | (Some wm, isOffset) =>
          _ ← WatermarkConfig_Validate (Some wm);
          _ ← Incoming (Some wm);
          let d := Destination c in
          let destFormat := lowerTrim (OutputFormat d) in
          if negb (destFormat =s "parquet") then
            Err (Errorf ("incremental watermark requires destination output_format to be parquet, got "
                         +:+ Quote destFormat) [])
          else if negb (EncType (Encryption d) =s "") && negb (ToLower (EncType (Encryption d)) =s "none") then
            Err (Errorf ("incremental watermark is not supported with destination encryption "
                         +:+ Quote (EncType (Encryption d))) [])
          else if (DstType d =s "rest_api") || (DstType d =s "bigquery") then
            Err (Errorf ("incremental watermark is not supported for destination type "
                         +:+ Quote (DstType d)) [])
          else if isGCS (OutputPath d) then
            Err (Sentinel "incremental watermark is currently not supported for gcs destinations")
          else if isOffset then Ok tt else validateWatermarkColumn c wm
      end
  end.

Definition withDestination (c : PipelineConfig) (d : DestinationConfig) : PipelineConfig :=
  mkPipeline (PipelineID c) (RunID c) (PipelineType c) (Runner c) (Secrets c) (PcSchema c) (Source c)
    (DatabaseSource c) (APISource c) d (DLQ c) (QualityRules c) (Security c).

(** The value is the configuration the validation leaves. *)
Definition Validate (c : PipelineConfig) : result PipelineConfig :=
  _ ← ValidateAll [CheckNotEmpty "pipeline_id" (PipelineID c); CheckNotEmpty "run_id" (RunID c)];
  _ ← validateSourceConfig c;
  _ ← validateDatabaseConfig c;
  _ ← validateAPIConfig c;
  d ← validateDestinationConfig c;
  _ ← validateWatermark (withDestination c d);
  Ok (withDestination c d).

Definition NormalizeAndValidate (c : PipelineConfig) : result PipelineConfig := Validate (ApplyDefaults c).

(** [json.Unmarshal] is the standard library's. *)
Definition ParsePipelineConfig (unmarshal : list byte -> result PipelineConfig) (jsonBytes : list byte)
    : result PipelineConfig :=
  c ← wrapErr "invalid config json: " (unmarshal jsonBytes);
  wrapErr "config validation failed: " (NormalizeAndValidate c).
End Validation.

(** ** [BuildOutputURI]; the shard id and the clock are given. *)
Definition TrimPrefix (s p : string) : string :=
  if HasPrefix s p then String.substring (String.length p) (String.length s - String.length p) s else s.
Definition BuildOutputURI `{UnicodeLower} (shardID : string) (now : Z)
    (baseURI ext compression encryption : string) (singleFile : bool) : string :=
  let baseURI := TrimRight baseURI (fun c => bool_decide (c = slash)) in
  if negb (Ext baseURI =s "") then baseURI
  else
    let fullExt := orStr (TrimPrefix (ToLower ext) ".") DefaultDestinationOutputFormat in
    let comp := ToLower compression in
    let fullExt := if comp =s "gzip" then fullExt +:+ ".gz"
                   else if comp =s "zstd" then fullExt +:+ ".zst"
                   else if comp =s "snappy" then fullExt +:+ ".snappy" else fullExt in
    let enc := ToLower encryption in
    let fullExt := if (enc =s "pgp") || (enc =s "gpg") then fullExt +:+ ".pgp"
                   else if enc =s "kms" then fullExt +:+ ".enc" else fullExt in
    if singleFile then baseURI +:+ "/output." +:+ fullExt
    else baseURI +:+ "/shard-" +:+ shardID +:+ "-" +:+ FormatInt now +:+ "." +:+ fullExt.

#[local] Arguments lowerTrim {_} _ : simpl never.
#[local] Arguments orStr _ _ : simpl never.
#[local] Arguments orInt _ _ : simpl never.
#[local] Arguments orFloat _ _ : simpl never.
#[local] Arguments TrimSpace _ : simpl never.

(** ** Lemmas: validators *)
Lemma ValidateAll_Ok l : ValidateAll l = Ok tt -> Forall (fun r => r = Ok tt) l.
Proof. induction l as [|[[]| |] l IH]; simpl; intros; try done; constructor; auto. Qed.
Lemma CheckNonNegative_Ok n v : CheckNonNegative n v = Ok tt -> 0 <= v.
Proof. unfold CheckNonNegative. by zcases. Qed.
Lemma CheckNotEmpty_Ok n s : CheckNotEmpty n s = Ok tt -> blank s = false.
Proof. unfold CheckNotEmpty, blank. by destruct (_ =s _). Qed.
Lemma wrapErr_Ok {A} pre (r : result A) a : wrapErr pre r = Ok a -> r = Ok a.
Proof. by destruct r. Qed.

(** Opens the checks a validation ran, one hypothesis each. *)
Ltac checks H :=
  apply ValidateAll_Ok in H;
  repeat match type of H with
  | Forall _ (_ :: _) => let H' := fresh "Hc" in apply Forall_cons in H as [H' H]
  | Forall _ [] => clear H
  end;
  repeat match goal with
  | K : CheckNonNegative _ _ = Ok tt |- _ => apply CheckNonNegative_Ok in K
  | K : CheckNotEmpty _ _ = Ok tt |- _ => apply CheckNotEmpty_Ok in K
  end.

Lemma orInt_pos v d : 0 < d -> 0 <= orInt v d -> 0 < orInt v d.
Proof. unfold orInt, OrDefault. case_decide; lia. Qed.
Lemma orStr_nonempty s d : d <> "" -> orStr s d <> "".
Proof. unfold orStr, OrDefault. by case_decide. Qed.
Lemma orStr_idem s d : orStr (orStr s d) d = orStr s d.
Proof. unfold orStr, OrDefault. repeat case_decide; congruence. Qed.
Lemma orInt_idem v d : orInt (orInt v d) d = orInt v d.
Proof. unfold orInt, OrDefault. repeat case_decide; congruence. Qed.
Lemma orFloat_idem x d : orFloat (orFloat x d) d = orFloat x d.
Proof. unfold orFloat. destruct (feqZero x) eqn:E; [by destruct (feqZero d)|by rewrite E]. Qed.
#[export] Hint Rewrite orStr_idem orInt_idem orFloat_idem : gocode.

(** ** Lemmas: defaults are a normal form *)
Lemma Schema_ApplyDefaults_idem s :
  Schema_ApplyDefaults (Schema_ApplyDefaults s) = Schema_ApplyDefaults s.
Proof.
  unfold Schema_ApplyDefaults. simpl. f_equal. rewrite map_map. apply map_ext, defaultField_idem.
Qed.
Lemma Resilience_ApplyDefaults_idem r :
  Resilience_ApplyDefaults (Resilience_ApplyDefaults r) = Resilience_ApplyDefaults r.
Proof. unfold Resilience_ApplyDefaults. simpl. by autorewrite with gocode. Qed.
Lemma Database_ApplyDefaults_idem d :
  Database_ApplyDefaults (Database_ApplyDefaults d) = Database_ApplyDefaults d.
Proof.
  unfold Database_ApplyDefaults, Partition_ApplyDefaults, Pool_ApplyDefaults. simpl.
  rewrite Resilience_ApplyDefaults_idem. by autorewrite with gocode.
Qed.
Lemma Pagination_ApplyDefaults_idem p :
  Pagination_ApplyDefaults (Pagination_ApplyDefaults p) = Pagination_ApplyDefaults p.
Proof.
  unfold Pagination_ApplyDefaults. simpl. autorewrite with gocode. f_equal.
  - destruct (PageParam p =s "") eqn:E; [by destruct (PgType p =s PaginationOffsetLimit)|by rewrite E].
  - destruct (SizeParam p =s "") eqn:E; [by destruct (PgType p =s PaginationOffsetLimit)|by rewrite E].
  - destruct ((InitialPage p =? 0) && (PgType p =s PaginationPageNumber)) eqn:E; [done|by rewrite E].
Qed.
Lemma APISource_ApplyDefaults_idem a :
  APISource_ApplyDefaults (APISource_ApplyDefaults a) = APISource_ApplyDefaults a.
Proof.
  unfold APISource_ApplyDefaults. simpl.
  rewrite Resilience_ApplyDefaults_idem, Pagination_ApplyDefaults_idem. by autorewrite with gocode.
Qed.

Lemma lowerTrim_orStr_idem `{UnicodeLower} s d :
  isASCII s = true -> isASCII d = true -> lowerTrim d = d ->
  orStr (lowerTrim (orStr (lowerTrim s) d)) d = orStr (lowerTrim s) d
  /\ isASCII (orStr (lowerTrim s) d) = true /\ lowerTrim (orStr (lowerTrim s) d) = orStr (lowerTrim s) d.
Proof.
  intros Hs Hd Hld. destruct (lowerTrim_idem s Hs) as [Hi Ha]. fold (lowerTrim s) in *.
  fold (lowerTrim (lowerTrim s)) in Hi.
  assert (lowerTrim (orStr (lowerTrim s) d) = orStr (lowerTrim s) d) as E.
  { unfold orStr, OrDefault. by case_decide. }
  rewrite E, orStr_idem. split_and!; auto. unfold orStr, OrDefault. by case_decide.
Qed.

(** The texts [ApplyDefaults] normalises are ASCII. *)
Record asciiConfig (c : PipelineConfig) : Prop := {
  ac_format : isASCII (Format (Source c)) = true;
  ac_charset : isASCII (Charset (Source c)) = true;
  ac_compression : isASCII (Compression (Source c)) = true;
  ac_type : isASCII (DstType (Destination c)) = true;
  ac_dformat : isASCII (DstFormat (Destination c)) = true;
  ac_output : isASCII (OutputFormat (Destination c)) = true;
  ac_encryption : isASCII (EncType (Encryption (Destination c))) = true
}.

Lemma Source_ApplyDefaults_idem `{UnicodeLower} s :
  isASCII (Format s) = true -> isASCII (Charset s) = true -> isASCII (Compression s) = true ->
  SourceConfig_ApplyDefaults (SourceConfig_ApplyDefaults s) = SourceConfig_ApplyDefaults s.
Proof.
  intros H1 H2 H3. unfold SourceConfig_ApplyDefaults. simpl.
  rewrite Schema_ApplyDefaults_idem. autorewrite with gocode.
  by f_equal; apply lowerTrim_orStr_idem.
Qed.

Lemma Destination_ApplyDefaults_idem `{UnicodeLower} d :
  isASCII (DstType d) = true -> isASCII (DstFormat d) = true -> isASCII (OutputFormat d) = true ->
  isASCII (EncType (Encryption d)) = true ->
  Destination_ApplyDefaults (Destination_ApplyDefaults d) = Destination_ApplyDefaults d.
Proof.
  intros H1 H2 H3 H4. unfold Destination_ApplyDefaults, FormatOptions_ApplyDefaults,
    APISinkOptions_ApplyDefaults, Encryption_ApplyDefaults.
  cbn [DstType DstFormat OutputFormat OutputPath MetricsDir DstCompression Encryption SingleFile
       IncludeAuditColumns DstFormatOptions DstEndpoint APIOptions BigQueryOptions EncType
       PublicKeyRef KMSKeyRef FoDelimiter IncludeHeader FoCharset LineTerminator QuoteAll ResourcePath
       Method SinkBatchSize BodyEnvelope SinkRateLimitRPS SinkTimeoutMs SinkMaxRetries].
  autorewrite with gocode.
  destruct (lowerTrim_orStr_idem (DstType d) DefaultDestinationType H1 eq_refl eq_refl) as (T1 & T2 & T3).
  set (ty := orStr (lowerTrim (DstType d)) DefaultDestinationType) in *. rewrite T1.
  set (fmt := if (TrimSpace (OutputFormat d) =s "") && negb (TrimSpace (DstFormat d) =s "")
              then DstFormat d else OutputFormat d).
  assert (isASCII fmt = true) as Hf by (unfold fmt; by destruct (_ && _)).
  destruct (lowerTrim_orStr_idem fmt ty Hf T2 T3) as (F1 & F2 & F3).
  destruct (lowerTrim_orStr_idem (EncType (Encryption d)) "none" H4 eq_refl eq_refl) as (-> & _).
  assert (TrimSpace (orStr (lowerTrim fmt) ty) =s "" = false) as ->.
  { apply String.eqb_neq. intros E. unfold lowerTrim in F3 at 1. rewrite E in F3.
    change (ToLower "") with "" in F3. symmetry in F3. revert F3. apply orStr_nonempty.
    unfold ty. by apply orStr_nonempty. }
  simpl. by rewrite F1.
Qed.

Lemma GetSchema_shared_ne c : sharesSchema c = true -> exists s f fs, PcSchema c = Some s /\ Fields s = f :: fs.
Proof.
  unfold sharesSchema. destruct (PcSchema c) as [s|]; simpl; [|done].
  destruct (Fields s) as [|f fs] eqn:E; [done|]. by exists s, f, fs.
Qed.

(** Applying the defaults once more changes nothing. *)
Lemma ApplyDefaults_idem `{UnicodeLower} c :
  asciiConfig c -> ApplyDefaults (ApplyDefaults c) = ApplyDefaults c.
Proof.
  intros [].
  assert (sharesSchema (ApplyDefaults c) = false) as Hs.
  { unfold sharesSchema at 1, ApplyDefaults, SourceConfig_ApplyDefaults. simpl.
    destruct (PcSchema c) as [s|] eqn:Es; [|by destruct (sharesSchema c)].
    destruct (sharesSchema c) eqn:E; simpl.
    - destruct (GetSchema_shared_ne c E) as (s' & f & fs & E1 & E2). simplify_eq. by rewrite E2.
    - unfold sharesSchema in E. rewrite Es in E. simpl in E. destruct (Fields s); [done|].
      by destruct (Fields (SrcSchema (Source c))). }
  unfold ApplyDefaults at 1. rewrite Hs. unfold ApplyDefaults. simpl. autorewrite with gocode.
  rewrite Destination_ApplyDefaults_idem by done. f_equal.
  - assert (forall sch, SourceConfig_ApplyDefaults (SourceConfig_ApplyDefaults (withSrcSchema (Source c) sch))
      = SourceConfig_ApplyDefaults (withSrcSchema (Source c) sch)) as Hsh
      by (intros; by apply Source_ApplyDefaults_idem).
    destruct (PcSchema c) as [s|]; destruct (sharesSchema c); simpl; auto using Source_ApplyDefaults_idem.
  - destruct (DatabaseSource c); simpl; [|done]. by rewrite Database_ApplyDefaults_idem.
  - destruct (APISource c); simpl; [|done]. by rewrite APISource_ApplyDefaults_idem.
  - destruct ((QuarantinePath (DLQ c) =s "") && negb (OutputPath (Destination c) =s "")) eqn:E; simpl; [|by rewrite E].
    by case_match.
Qed.

(** ** What a validated configuration guarantees *)

(** The watermark types and the column types they may follow. *)
Definition wmCompatible (t : WatermarkType) (ft : DataType) : Prop :=
  (t = WatermarkTypeInteger /\ ft = TypeInt64) \/ (t = WatermarkTypeFloat /\ ft = TypeFloat64)
  \/ (t = WatermarkTypeTimestamp /\ ft = TypeTimestamp) \/ (t = WatermarkTypeDate /\ ft = TypeTimestamp)
  \/ (t = WatermarkTypeString /\ ft = TypeString).

Record databaseOk (d : DatabaseSourceConfig) : Prop := {
  db_batch : 0 < BatchSize (DbPartition d);
  db_conns : 0 < MaxOpenConns (DbPool d) /\ 0 < MaxIdleConns (DbPool d);
  db_driver : blank (Driver d) = false;
  db_where : blank (ConnectionURI d) = false \/ blank (Host d) = false;
  db_what : blank (Query d) = false \/ blank (Table d) = false;
  db_schema : Fields (DbSchema d) <> []
}.
Record apiOk (a : APISourceConfig) : Prop := {
  api_pages : 0 < PageSize (Pagination a) /\ 0 < MaxPagesLimit (Pagination a);
  api_params : PageParam (Pagination a) <> "" /\ SizeParam (Pagination a) <> "";
  api_retry : 0 < MaxRetries (APIRetry a) /\ 0 < TimeoutMs (APIRetry a)
              /\ 0 < CircuitBreakerFails (APIRetry a) /\ 0 < HalfOpenLimit (APIRetry a);
  api_where : blank (BaseURL a) = false /\ blank (Endpoint a) = false;
  api_schema : Fields (APISchema a) <> []
}.
Record watermarkOk `{UnicodeLower, GoTimeParseZ, GoParseFloat, GoQuote}
    (c : PipelineConfig) (wm : WatermarkConfig) (isOffset : bool) : Prop := {
  wm_column : validColumnIdentifier (TrimSpace (Column wm)) = true;
  wm_value : exists v, Incoming (Some wm) = Ok v;
  wm_output : lowerTrim (OutputFormat (Destination c)) = "parquet";
  wm_local : isGCS (OutputPath (Destination c)) = false
             /\ DstType (Destination c) <> "rest_api" /\ DstType (Destination c) <> "bigquery";
  wm_field : isOffset = false -> Fields (GetSchema c) <> [] ->
             exists f, f ∈ Fields (GetSchema c) /\ Name f = Column wm /\ wmCompatible (wcType wm) (FType f)
}.

Section Sound.
Context `{UnicodeLower, GoQuote, GoTimeParseZ, GoParseFloat, GoFormatV}.

Lemma checkWatermarkType_Ok t ft :
  WatermarkType_Validate t = Ok tt -> checkWatermarkTypeCompatibility t ft = Ok tt -> wmCompatible t ft.
Proof.
  unfold WatermarkType_Validate, checkWatermarkTypeCompatibility, wmCompatible. cbv zeta. intros Hv Hc.
  repeat match type of Hc with
  | context [?a =s ?b] => destruct (String.eqb_spec a b); subst; simpl in Hc
  end; simplify_eq; auto 10.
Qed.

Lemma WatermarkConfig_Validate_Ok wm :
  WatermarkConfig_Validate (Some wm) = Ok tt ->
  validColumnIdentifier (TrimSpace (Column wm)) = true /\ WatermarkType_Validate (wcType wm) = Ok tt.
Proof.
  unfold WatermarkConfig_Validate. cbv zeta. destruct (_ =s ""); [done|].
  by destruct (validColumnIdentifier _).
Qed.

Lemma validateWatermark_Ok c wm off :
  validateWatermark c = Ok tt -> activeWatermark c = (Some wm, off) -> watermarkOk c wm off.
Proof.
  intros Hv Ha. unfold validateWatermark in Hv. rewrite Ha in Hv.
  assert (exists v, WatermarkConfig_Validate (Some wm) = Ok tt /\ Incoming (Some wm) = Ok v
    /\ lowerTrim (OutputFormat (Destination c)) =s "parquet" = true
    /\ (DstType (Destination c) =s "rest_api") || (DstType (Destination c) =s "bigquery") = false
    /\ isGCS (OutputPath (Destination c)) = false
    /\ (off = false -> validateWatermarkColumn c wm = Ok tt)) as (v & K1 & K2 & K3 & K4 & K5 & K6).
  { destruct (SrcWatermark (Source c)), (DatabaseSource c), (APISource c); try discriminate;
      apply result_bind_Ok in Hv as ([] & Hw & Hv); apply result_bind_Ok in Hv as (v & Hi & Hv);
      cbv zeta in Hv; exists v;
      (destruct (lowerTrim _ =s "parquet"); [|done]); simpl in Hv;
      (destruct (negb (EncType _ =s "") && _); [done|]);
      (destruct (_ || _); [done|]); (destruct (isGCS _); [done|]); destruct off; by split_and!. }
  destruct (WatermarkConfig_Validate_Ok wm K1) as [K7 K8].
  apply orb_false_iff in K4 as [K4 K4']. apply String.eqb_neq in K4, K4'. apply String.eqb_eq in K3.
  split; eauto. intros Ho Hne. specialize (K6 Ho). unfold validateWatermarkColumn in K6.
  destruct (Fields (GetSchema c)) as [|f0 fs] eqn:Ef; [done|].
  destruct (List.find _ _) as [f|] eqn:Eg; [|done]. apply find_some in Eg as [Hin Hn].
  exists f. split; [by apply list_elem_of_In|]. split; [by apply String.eqb_eq|].
  by apply wrapErr_Ok, checkWatermarkType_Ok in K6.
Qed.
End Sound.

Lemma ApplyDefaults_withBigQuery `{UnicodeLower} c b :
  ApplyDefaults (withDestination c (withBigQuery (Destination c) b))
  = withDestination (ApplyDefaults c) (withBigQuery (Destination (ApplyDefaults c)) b).
Proof. reflexivity. Qed.

Lemma withDestination_same c : withDestination c (Destination c) = c.
Proof. by destruct c. Qed.

Section Stages.
Context `{UnicodeLower, GoQuote, GoTimeParseZ, GoParseFloat, GoFormatV}.

(** What each stage of [Validate] establishes. *)
Lemma Validate_Ok c c' :
  Validate c = Ok c' ->
  blank (PipelineID c) = false /\ blank (RunID c) = false
  /\ validateSourceConfig c = Ok tt /\ validateDatabaseConfig c = Ok tt /\ validateAPIConfig c = Ok tt
  /\ exists d, validateDestinationConfig c = Ok d /\ c' = withDestination c d
     /\ validateWatermark c' = Ok tt.
Proof.
  unfold Validate. intros Hv. apply result_bind_Ok in Hv as ([] & Hid & Hv). checks Hid.
  apply result_bind_Ok in Hv as ([] & Hs & Hv). apply result_bind_Ok in Hv as ([] & Hd & Hv).
  apply result_bind_Ok in Hv as ([] & Ha & Hv). apply result_bind_Ok in Hv as (d & Hdst & Hv).
  apply result_bind_Ok in Hv as ([] & Hw & Hv). simplify_eq.
  split_and!; eauto.
Qed.

Lemma validateDestination_Ok c d :
  validateDestinationConfig c = Ok d ->
  (d = Destination c \/ exists b, d = withBigQuery (Destination c) b /\ DstType (Destination c) = "bigquery"
     /\ BigQuery_Validate (BigQueryOptions (Destination c)) = Ok b)
  /\ Encryption_Validate (Encryption d) = Ok tt
  /\ (DstType d <> "rest_api" -> DstType d <> "bigquery" -> blank (OutputPath d) = false)
  /\ (DstType d = "rest_api" -> blank (EpBaseURL (DstEndpoint d)) = false).
Proof.
  unfold validateDestinationConfig. cbv zeta. intros Hv.
  destruct (negb (DstType (Destination c) =s "rest_api") && negb (DstType (Destination c) =s "bigquery")
            && blank (OutputPath (Destination c))) eqn:Ep; [done|].
  apply result_bind_Ok in Hv as ([] & Hr & Hv). apply result_bind_Ok in Hv as (d' & Hd & Hv).
  apply result_bind_Ok in Hv as ([] & He & Hv). simplify_eq. apply wrapErr_Ok in He.
  assert ((d = Destination c \/ exists b, d = withBigQuery (Destination c) b
     /\ DstType (Destination c) = "bigquery" /\ BigQuery_Validate (BigQueryOptions (Destination c)) = Ok b)
     /\ DstType d = DstType (Destination c) /\ OutputPath d = OutputPath (Destination c)
     /\ DstEndpoint d = DstEndpoint (Destination c)) as (K1 & K2 & K3 & K4).
  { destruct (String.eqb_spec (DstType (Destination c)) "bigquery"); [|simplify_eq; auto].
    destruct (BigQuery_Validate _) as [b| |]; simplify_eq/=. split_and!; eauto. }
  split; [done|]. split; [done|]. rewrite K2, K3, K4. split.
  - intros N1 N2. apply String.eqb_neq in N1, N2. by rewrite N1, N2 in Ep.
  - intros N. rewrite N in Hr. rewrite String.eqb_refl in Hr. checks Hr. done.
Qed.

Lemma validateDatabase_Ok c d :
  validateDatabaseConfig c = Ok tt -> DatabaseSource c = Some (Database_ApplyDefaults d) ->
  databaseOk (Database_ApplyDefaults d).
Proof.
  intros Hv Hd. unfold validateDatabaseConfig in Hv. rewrite Hd in Hv.
  apply result_bind_Ok in Hv as ([] & Hc & Hv). checks Hc.
  destruct (blank (ConnectionURI _) && _) eqn:E1; [done|].
  destruct (blank (Query _) && _) eqn:E2; [done|].
  apply andb_false_iff in E1, E2.
  simpl in *. split; try done.
  - by apply orInt_pos.
  - split; by apply orInt_pos.
  - intros E. simpl in E. by rewrite E in Hv.
Qed.

Lemma validateAPI_Ok c a :
  validateAPIConfig c = Ok tt -> APISource c = Some (APISource_ApplyDefaults a) ->
  apiOk (APISource_ApplyDefaults a).
Proof.
  intros Hv Ha. unfold validateAPIConfig in Hv. rewrite Ha in Hv.
  apply result_bind_Ok in Hv as ([] & Hc & Hv). checks Hc.
  match goal with H : Resilience_Validate _ = Ok tt |- _ => unfold Resilience_Validate in H; checks H end.
  simpl in *. split; simpl.
  - split; by apply orInt_pos.
  - split.
    + destruct (PageParam (Pagination a) =s "") eqn:E; [by destruct (PgType (Pagination a) =s PaginationOffsetLimit)|by apply String.eqb_neq].
    + destruct (SizeParam (Pagination a) =s "") eqn:E; [by destruct (PgType (Pagination a) =s PaginationOffsetLimit)|by apply String.eqb_neq].
  - split_and!; by apply orInt_pos.
  - done.
  - intros E. simpl in E. by rewrite E in Hv.
Qed.
End Stages.

(** C15. A manifest that passes [NormalizeAndValidate] is a normal form of the
    defaults (the composition root applies them again without effect) and meets
    what the rest of the program assumes: non-blank identifiers, positive chunk,
    batch, pool and page sizes, a place and a schema to read, encryption keys,
    and a watermark that parses, follows a schema column of a compatible type
    and goes to a local Parquet destination. *)
Theorem NormalizeAndValidate_sound
    `{UnicodeLower, GoQuote, GoTimeParseZ, GoParseFloat, GoFormatV} (c c' : PipelineConfig) :
  asciiConfig c -> NormalizeAndValidate c = Ok c' ->
  ApplyDefaults c' = c'
  /\ blank (PipelineID c') = false /\ blank (RunID c') = false
  /\ 0 < ChunkSizeBytes (Source c')
  /\ (DatabaseSource c' = None -> APISource c' = None ->
      SrcType (Source c') <> "database" -> SrcType (Source c') <> "api" ->
      AllPaths (Source c') <> [] /\ Fields (SrcSchema (Source c')) <> [])
  /\ (forall d, DatabaseSource c' = Some d -> databaseOk d)
  /\ (forall a, APISource c' = Some a -> apiOk a)
  /\ Encryption_Validate (Encryption (Destination c')) = Ok tt
  /\ (forall wm off, activeWatermark c' = (Some wm, off) -> watermarkOk c' wm off).
Proof.
  intros Ha Hv. apply Validate_Ok in Hv as (Hp & Hr & Hs & Hd & Hapi & d & Hdst & -> & Hw).
  destruct (validateDestination_Ok _ _ Hdst) as (Hcase & He & _).
  split_and!; try done.
  - destruct Hcase as [->|(b & -> & _)].
    + rewrite withDestination_same. by apply ApplyDefaults_idem.
    + rewrite ApplyDefaults_withBigQuery. by rewrite ApplyDefaults_idem.
  - unfold validateSourceConfig in Hs. apply result_bind_Ok in Hs as ([] & Hc & _).
    apply orInt_pos; [done|]. by apply CheckNonNegative_Ok in Hc.
  - intros D A T1 T2. apply String.eqb_neq in T1, T2. unfold validateSourceConfig in Hs.
    apply result_bind_Ok in Hs as ([] & _ & Hs). cbn [withDestination DatabaseSource APISource Source] in *.
    rewrite D, A, T1, T2 in Hs. cbn [negb andb] in Hs.
    by destruct (AllPaths _), (Fields _).
  - intros db Hdb. cbn [withDestination DatabaseSource] in Hdb. pose proof Hdb as Hdb'.
    cbn [ApplyDefaults DatabaseSource] in Hdb. apply fmap_Some in Hdb as (db0 & _ & ->).
    by eapply validateDatabase_Ok.
  - intros a Hsrc. cbn [withDestination APISource] in Hsrc. pose proof Hsrc as Hsrc'.
    cbn [ApplyDefaults APISource] in Hsrc. apply fmap_Some in Hsrc as (a0 & _ & ->).
    by eapply validateAPI_Ok.
  - intros wm off. by apply validateWatermark_Ok.
Qed.

(** Under a validated manifest the query of a database source is well
    defined: its watermark validates and parses; with an incoming value the query
    has every placeholder replaced by the literal, or is wrapped in the
    incremental predicate; without one it is the base query, and the only error is
    a placeholder with nothing to put in its place. *)
Theorem EffectiveQuery_validated
    `{UnicodeLower, GoQuote, GoTimeParseZ, GoParseFloat, GoFormatV, GoFormatFloat}
    (c c' : PipelineConfig) (d : DatabaseSourceConfig) :
  NormalizeAndValidate c = Ok c' -> DatabaseSource c' = Some d ->
  match DbWatermark d ≫= (fun wm => nonBlank (Value wm)) with
  | Some _ =>
      exists wm v, DbWatermark d = Some wm /\ Incoming (Some wm) = Ok (Some v)
      /\ EffectiveQuery d =
         Ok (if Contains (BaseQuery d) placeholder
             then ReplaceAll (BaseQuery d) placeholder (SQLLiteral v)
             else "SELECT * FROM (" +:+ BaseQuery d +:+ ") AS _wm WHERE " +:+ Column wm
                  +:+ " > " +:+ SQLLiteral v)
  | None =>
      if Contains (BaseQuery d) placeholder then exists e, EffectiveQuery d = Err e
      else EffectiveQuery d = Ok (BaseQuery d)
  end.
Proof.
  intros Hv Hd. apply Validate_Ok in Hv as (_ & _ & _ & _ & _ & d' & _ & -> & Hw).
  unfold EffectiveQuery. destruct (DbWatermark d) as [wm|] eqn:Ew; cbn [mbind option_bind].
  2: { destruct (Contains _ _); eauto. }
  assert (activeWatermark (withDestination (ApplyDefaults c) d') = (Some wm, false)) as Ha.
  { unfold activeWatermark. rewrite Hd. simpl. by rewrite Ew. }
  unfold validateWatermark in Hw. rewrite Hd, Ha in Hw.
  assert (WatermarkConfig_Validate (Some wm) = Ok tt /\ exists v, Incoming (Some wm) = Ok v) as [K1 [v K2]].
  { destruct (SrcWatermark _); apply result_bind_Ok in Hw as ([] & ? & Hw);
      apply result_bind_Ok in Hw as (v & ? & _); eauto. }
  rewrite K1, K2. cbn [mbind result_bind]. pose proof K2 as K3. unfold Incoming in K3. unfold nonBlank.
  destruct (Value wm) as [raw|]; [|simplify_eq; destruct (Contains _ _); eauto].
  destruct (TrimSpace raw =s ""); [simplify_eq; destruct (Contains _ _); eauto|].
  destruct (ParseWatermarkValue _ _) as [w| |]; simplify_eq. exists wm, w.
  split; [done|]. split; [exact K2|]. by destruct (Contains _ _).
Qed.

(** ** What the code does not do *)

(** The contract gives [output_format] the default "parquet"; an omitted format
    becomes the destination type, "file", which a watermark then refuses. *)
Lemma output_format_default `{UnicodeLower} d :
  DstType d = "" -> DstFormat d = "" -> OutputFormat d = "" ->
  OutputFormat (Destination_ApplyDefaults d) = "file".
Proof. intros E1 E2 E3. unfold Destination_ApplyDefaults. by rewrite E1, E2, E3. Qed.

(** A negative BigQuery batch size passes validation. *)
Lemma bigquery_negative_batch `{GoQuote} :
  BigQuery_Validate (mkBigQuery "" "ds" "t" "" (-1)) = Ok (mkBigQuery "" "ds" "t" "WRITE_APPEND" (-1)).
Proof. reflexivity. Qed.

(** ** Witnesses *)
Section Witnesses.
#[local] Instance wLower : UnicodeLower := fun s => s.
#[local] Instance wQuote : GoQuote := fun s => s.
#[local] Instance wTime : GoTimeParseZ := fun _ _ => Err (Sentinel "time").
#[local] Instance wFloat : GoParseFloat := fun _ => Err (Sentinel "float").
#[local] Instance wFormatV : GoFormatV := fun _ => "0".
#[local] Instance wFormat : GoFormatFloat := fun _ => "0".

Definition sampleResilience : ResilienceConfig := mkResilience 0 0 0 (of_int 0) (of_int 0) 0 0 0 0.
Definition sampleSchema : Schema := schemaOf [mkField "id" TypeInt64 false 0 ""; mkField "v" TypeDecimal true 2 ""].
Definition sampleDatabase : DatabaseSourceConfig :=
  mkDatabase "postgres" "" "db.local" 5432 "shop" "u" "ref" "" "orders" "" [] false
    (mkPartition "id" 0 0) (mkPool 0 0 0) sampleResilience sampleSchema
    (Some (mkWatermarkConfig "id" WatermarkTypeInteger (Some " 41 "))).
Definition sampleConfig : PipelineConfig :=
  mkPipeline "p" "r" "sql" "" None (Some sampleSchema)
    (mkSourceConfig "" "" [] " CSV" "" "" false "" "" 0 (schemaOf []) None)
    (Some sampleDatabase) None
    (mkDestination "" "" " Parquet" "/data/out.parquet" "" "" (mkEncryption "" "" "") true false
       (mkFormatOptions "" false "" "" false) (mkEndpoint "" "" "" ∅)
       (mkAPISink "" "" 0 "" 0 0 0) (mkBigQuery "" "" "" "" 0))
    (mkDLQ true "" (of_int 0)) [] (mkSecurity []).

Lemma NormalizeAndValidate_sound_witness :
  exists c', NormalizeAndValidate sampleConfig = Ok c' /\ ApplyDefaults c' = c'
  /\ QuarantinePath (DLQ c') = "/data/quarantine" /\ 0 < ChunkSizeBytes (Source c').
Proof.
  eexists. split; [vm_compute; reflexivity|].
  match goal with |- ApplyDefaults ?c = _ /\ _ =>
    destruct (NormalizeAndValidate_sound sampleConfig c) as (K1 & _ & _ & K2 & _) end.
  - split; vm_compute; reflexivity.
  - vm_compute. reflexivity.
  - split; [exact K1|]. split; [vm_compute; reflexivity|exact K2].
Defined.

Lemma EffectiveQuery_validated_witness :
  exists wm v, DbWatermark (Database_ApplyDefaults sampleDatabase) = Some wm
  /\ Incoming (Some wm) = Ok (Some v)
  /\ EffectiveQuery (Database_ApplyDefaults sampleDatabase)
     = Ok ("SELECT * FROM (SELECT * FROM orders) AS _wm WHERE " +:+ Column wm +:+ " > " +:+ SQLLiteral v).
Proof.
  destruct (NormalizeAndValidate sampleConfig) as [c'| |] eqn:E; [|exfalso; vm_compute in E; discriminate..].
  apply (EffectiveQuery_validated sampleConfig c' (Database_ApplyDefaults sampleDatabase) E).
  vm_compute in E. injection E as <-. vm_compute. reflexivity.
Defined.
End Witnesses.
