(* ===== verification/FastNum.v ===== *)
(** * Number parsing and coercion

    Models [pkg/fastnum/fastnum.go] and [internal/domain/coercion.go]: the
    overflow-checked integer parser, the float parser, and the coercions of
    strings to the column types, with the fixed-point decimal loop. *)
From S2P Require Import Prelude GoStr Float64 Schema Intern RecordModel.
From Stdlib Require Import SpecFloat.

Definition ErrInvalidInt : error := Sentinel "fastnum: invalid integer string".
Definition ErrInvalidFloat : error := Sentinel "fastnum: invalid float string".
Definition ErrOverflow : error := Sentinel "fastnum: integer overflow".

(** [extractSign] returns the sign and the rest of the string [s[i:]]. *)
Definition extractSign (l : list byte) : bool * list byte :=
  match l with
  | "-"%char :: l' => (true, l')
  | "+"%char :: l' => (false, l')
  | _ => (false, l)
  end.

Fixpoint parseDigitsUint64 (n : Z) (l : list byte) : result Z :=
  match l with
  | [] => Ok n
  | c :: l' =>
      if negb (isDigit c) then Err ErrInvalidInt
      else
        let digit := digitVal c in
        if (MaxUint64 - digit) / 10 <? n then Err ErrOverflow
        else parseDigitsUint64 (u64 (n * 10 + digit)) l'
  end.

Definition ParseInt64 (s : string) : result Z :=
  let t := trimSpaceBytes (bytes s) in
  if zlen t =? 0 then Err ErrInvalidInt
  else
    let '(neg, ds) := extractSign t in
    if zlen ds =? 0 then Err ErrInvalidInt
    else
      n ← parseDigitsUint64 0 ds;
      if neg : bool then
        if MaxInt64 + 1 <? n then Err ErrOverflow else Ok (i64 (- i64 n))
      else if MaxInt64 <? n then Err ErrOverflow else Ok (i64 n).

(** [0.1] as a [float64]; products and sums round separately (no fused
    multiply-add, as on amd64). *)
Definition f0_1 : float64 := frombits 4591870180066957722.

Fixpoint parseFracDigits (val factor : float64) (hasDigits : bool) (l : list byte)
    : result (float64 * bool) :=
  match l with
  | [] => Ok (val, hasDigits)
  | c :: l' =>
      if negb (isDigit c) then Err ErrInvalidFloat
      else parseFracDigits (fadd val (fmul (of_int (digitVal c)) factor)) (fmul factor f0_1)
             true l'
  end.

Fixpoint parseIntPart (n : Z) (hasDigits : bool) (l : list byte)
    : result (Z * bool * list byte) :=
  match l with
  | [] => Ok (n, hasDigits, [])
  | c :: l' =>
      if Ascii.eqb c "."%char then Ok (n, hasDigits, l)
      else if negb (isDigit c) then Err ErrInvalidFloat
      else parseIntPart (u64 (n * 10 + digitVal c)) true l'
  end.

Definition parseFractional (l : list byte) : result float64 :=
  '(intPart, hasDigits, rest) ← parseIntPart 0 false l;
  '(val, hasDigits) ←
    match rest with
    | [] => Ok (of_int intPart, hasDigits)
    | _ :: fs => parseFracDigits (of_int intPart) f0_1 hasDigits fs
    end;
  if negb hasDigits then Err ErrInvalidFloat else Ok val.

Definition ParseFloat64 (s : string) : result float64 :=
  let t := trimSpaceBytes (bytes s) in
  if zlen t =? 0 then Err ErrInvalidFloat
  else
    let '(neg, ds) := extractSign t in
    if zlen ds =? 0 then Err ErrInvalidFloat
    else val ← parseFractional ds; Ok (if neg : bool then fneg val else val).

(** ** Coercions ([coercion.go]) *)
Definition CoerceInt64Fast (s : string) : result Z :=
  let s := TrimSpace s in
  if s =s "" then Err (Errorf "CoerceInt64Fast: empty string" []) else ParseInt64 s.

Definition CoerceFloat64Fast (s : string) : result float64 :=
  let s := TrimSpace s in
  if s =s "" then Err (Errorf "CoerceFloat64Fast: empty string" []) else ParseFloat64 s.

Definition boolStringMap : gmap string bool :=
  list_to_map [("true", true); ("t", true); ("1", true); ("yes", true); ("y", true);
               ("false", false); ("f", false); ("0", false); ("no", false); ("n", false)].

Definition CoerceBoolFast `{UnicodeLower, GoQuote} (s : string) : result bool :=
  let s := ToLower (TrimSpace s) in
  match boolStringMap !! s with
  | Some b => Ok b
  | None => Err (Errorf ("CoerceBoolFast: cannot parse " +:+ Quote s +:+ " as bool") [])
  end.

(** [time.Parse(layout, s)] followed by [UTC()], as nanoseconds since the epoch. *)
Class GoTimeParse := timeParse : string -> string -> option Z.

Definition timestampFormats : list string :=
  ["2006-01-02T15:04:05.999999999Z07:00"; "2006-01-02T15:04:05Z07:00";
   "2006-01-02 15:04:05"; "2006-01-02"].
Fixpoint tryFormats `{GoTimeParse} (fs : list string) (s : string) : option Z :=
  match fs with
  | [] => None
  | f :: fs' => match timeParse f s with Some t => Some t | None => tryFormats fs' s end
  end.
Definition CoerceTimestampFast `{GoTimeParse, GoQuote} (s : string) : result Z :=
  let trimmed := TrimSpace s in
  if trimmed =s "" then Err (Errorf "CoerceTimestampFast: empty string" [])
  else match tryFormats timestampFormats trimmed with
  | Some t => Ok t
  | None => Err (Errorf ("CoerceTimestampFast: cannot parse " +:+ Quote s) [])
  end.

(** [%q] of a byte: its rune in single quotes, as [strconv.QuoteRune] writes it.
    Of the runes below 256 those from U+0021 to U+007E, the space and those from
    U+00A1 on but U+00AD are printable. *)
Definition hexLower (n : Z) : byte :=
  ascii_of_nat (Z.to_nat (if n <? 10 then 48 + n else 87 + n)).
Definition quoteByte (c : byte) : string :=
  let v := byte_val c in
  let body : list byte :=
    if (v =? 39) || (v =? 92) then ["\"; c]%char
    else if (32 <=? v) && (v <? 127) then [c]
    else if (161 <=? v) && negb (v =? 173) then
      [ascii_of_nat (Z.to_nat (192 + v / 64)); ascii_of_nat (Z.to_nat (128 + v mod 64))]
    else if (7 <=? v) && (v <=? 13) then
      ["\"; nth (Z.to_nat (v - 7)) (bytes "abtnvfr") "?"]%char
    else if (v <? 32) || (v =? 127) then ["\"; "x"; hexLower (v / 16); hexLower (v mod 16)]%char
    else ["\"; "u"; "0"; "0"; hexLower (v / 16); hexLower (v mod 16)]%char in
  str ("'"%char :: body ++ ["'"%char]).

(** The loop state of [CoerceDecimalFast]. *)
Record decState := mkDecState {
  mantissa : Z; seenDot : bool; decDigits : Z; roundUp : bool
}.

Section Decimal.
Context `{GoQuote}.
Variables (s : string) (targetScale : Z) (onOverflow : string).

Definition decStep (c : byte) (st : decState) : result decState :=
  if Ascii.eqb c "."%char then
    if seenDot st
    then Err (Errorf ("invalid decimal " +:+ Quote s +:+ ": multiple decimal points") [])
    else Ok (mkDecState (mantissa st) true (decDigits st) (roundUp st))
  else if negb (isDigit c) then
    Err (Errorf ("invalid decimal " +:+ Quote s +:+ ": unexpected character "
                 +:+ quoteByte c) [])
  else
    let digit := digitVal c in
    if negb (seenDot st) then
      Ok (mkDecState (u64 (u64 (mantissa st * 10) + digit)) false (decDigits st) (roundUp st))
    else if decDigits st <? targetScale then
      Ok (mkDecState (u64 (u64 (mantissa st * 10) + digit)) true (i32 (decDigits st + 1))
            (roundUp st))
    else if decDigits st =? targetScale then
      if onOverflow =s "fail" then
        Err (Errorf ("type cast failed: fractional precision exceeds scale "
                     +:+ FormatInt targetScale +:+ " in " +:+ Quote s) [ErrTypeCastFailed])
      else Ok (mkDecState (mantissa st) true (i32 (decDigits st + 1))
                 ((5 <=? digit) || roundUp st))
    else Ok st.

Fixpoint decLoop (l : list byte) (st : decState) : result decState :=
  match l with
  | [] => Ok st
  | c :: l' => st' ← decStep c st; decLoop l' st'
  end.
End Decimal.

(** [for decDigits < targetScale { mantissa *= 10; decDigits++ }] *)
Fixpoint padLoop (n : nat) (m : Z) : Z :=
  match n with O => m | S n' => padLoop n' (u64 (m * 10)) end.

Definition CoerceDecimalFast `{GoQuote} (s : string) (targetScale : Z) (onOverflow : string)
    : result (Z * Z) :=
  let onOverflow := if onOverflow =s "" then "round" else onOverflow in
  let s := TrimSpace s in
  let l := bytes s in
  if zlen l =? 0 then Ok (0, targetScale)
  else
    let '(neg, ds) := extractSign l in
    if zlen ds =? 0 then Err (Errorf ("invalid decimal " +:+ Quote s +:+ ": empty digits") [])
    else
      st ← decLoop s targetScale onOverflow ds (mkDecState 0 false 0 false);
      let m := padLoop (Z.to_nat (targetScale - decDigits st)) (mantissa st) in
      let m := if roundUp st then u64 (m + 1) else m in
      let res := i64 m in
      Ok ((if neg : bool then i64 (- res) else res), targetScale).

#[local] Instance testQuote : GoQuote := fun s => s.
Example coerce_ex1 : CoerceDecimalFast " -12.345 " 2 "" = Ok (-1235, 2).
Proof. vm_compute. reflexivity. Qed.
Example coerce_ex2 : is_Ok (CoerceDecimalFast "1.230" 2 "fail") = false.
Proof. vm_compute. reflexivity. Qed.
Example quoteByte_ex : map quoteByte ["x"; "'"; "010"; "031"; "133"; "160"; "233"]%char
  = ["'x'"; "'\''"; "'\n'"; "'\x1f'"; "'\u0085'"; "'\u00a0'"; "'é'"].
Proof. vm_compute. reflexivity. Qed.
Example parse_ex1 : ParseInt64 "-9223372036854775808" = Ok (- 2 ^ 63).
Proof. vm_compute. reflexivity. Qed.
Example parse_ex2 : ParseInt64 "9223372036854775808" = Err ErrOverflow.
Proof. vm_compute. reflexivity. Qed.

(** ** Lemmas on the integer parser *)
Definition signVal (neg : bool) (v : Z) : Z := if neg then - v else v.
Definition signBytes (neg : bool) : list byte := if neg then ["-"%char] else [].

Lemma extractSign_digits ds :
  forallb isDigit ds = true -> extractSign ds = (false, ds).
Proof.
  destruct ds as [|a ds]; [done|]. simpl. intros [Ha _]%andb_prop.
  destruct a as [[] [] [] [] [] [] [] []]; try done; discriminate.
Qed.

Lemma extractSign_signed neg ds :
  extractSign ds = (false, ds) -> extractSign (signBytes neg ++ ds) = (neg, ds).
Proof. destruct neg; simpl; auto. Qed.

(** The overflow guard is exact: the loop succeeds exactly when the number fits. *)
Lemma parseDigits_spec n l :
  in_u64 n -> forallb isDigit l = true ->
  parseDigitsUint64 n l =
    if decValue n l <=? MaxUint64 then Ok (decValue n l) else Err ErrOverflow.
Proof.
  revert n. induction l as [|c l IH]; intros n Hn Hl.
  { cbn [parseDigitsUint64 decValue]. destruct (Z.leb_spec n MaxUint64); [done|wordlia]. }
  cbn [forallb] in Hl. apply andb_prop in Hl as [Hc Hl].
  cbn [parseDigitsUint64 decValue]. rewrite Hc. cbn [negb].
  apply isDigit_val in Hc.
  destruct (Z.ltb_spec ((MaxUint64 - digitVal c) / 10) n) as [Hov|Hok].
  - destruct (Z.leb_spec (decValue (n * 10 + digitVal c) l) MaxUint64) as [Hle|]; [|done].
    exfalso. rewrite decValue_shift in Hle.
    pose proof (decValue_nonneg 0 l ltac:(lia) Hl).
    pose proof (Z.pow_pos_nonneg 10 (zlen l) ltac:(lia) (zlen_nonneg l)).
    assert (MaxUint64 < n * 10 + digitVal c) by wordlia. unfold in_u in Hn. nia.
  - assert (in_u64 (n * 10 + digitVal c)) as Hr by wordlia.
    rewrite u64_small by done. by apply IH.
Qed.

Lemma parseDigits_Ok n l v : parseDigitsUint64 n l = Ok v -> forallb isDigit l = true.
Proof.
  revert n. induction l as [|c l IH]; intros n H; [done|].
  cbn [parseDigitsUint64] in H. cbn [forallb].
  destruct (isDigit c); [|discriminate]. cbn [negb] in H.
  destruct (_ <? _); [discriminate|]. by rewrite (IH _ H).
Qed.

Lemma parse_signed (neg : bool) v :
  0 <= v <= MaxUint64 ->
  (if neg then if MaxInt64 + 1 <? v then Err ErrOverflow else Ok (i64 (- i64 v))
   else if MaxInt64 <? v then Err ErrOverflow else Ok (i64 v) : result Z)
  = if fits64 (signVal neg v) then Ok (signVal neg v) else Err ErrOverflow.
Proof.
  intros Hv. unfold fits64, signVal. destruct neg.
  - destruct (Z.ltb_spec (MaxInt64 + 1) v), (Z.leb_spec (- 2 ^ 63) (- v)),
      (Z.ltb_spec (- v) (2 ^ 63)); cbn [andb]; try done; try wordlia.
    f_equal. wordlia.
  - destruct (Z.ltb_spec MaxInt64 v), (Z.leb_spec (- 2 ^ 63) v), (Z.ltb_spec v (2 ^ 63));
      cbn [andb]; try done; try wordlia. f_equal. wordlia.
Qed.

Lemma ParseInt64_digits neg ds s :
  trimSpaceBytes (bytes s) = signBytes neg ++ ds ->
  ds <> [] -> forallb isDigit ds = true ->
  ParseInt64 s = let v := signVal neg (decValue 0 ds) in
                 if fits64 v then Ok v else Err ErrOverflow.
Proof.
  intros E Hne Hd. unfold ParseInt64. rewrite E.
  rewrite zlen_eqb_nil by (destruct neg; done).
  rewrite extractSign_signed by (by apply extractSign_digits).
  rewrite zlen_eqb_nil by done. rewrite parseDigits_spec by (done || wordlia).
  pose proof (decValue_nonneg 0 ds ltac:(lia) Hd) as H0.
  destruct (Z.leb_spec (decValue 0 ds) MaxUint64) as [Hle|Hgt].
  - cbn [mbind result_bind]. by apply parse_signed.
  - cbn [mbind result_bind]. unfold fits64, signVal. destruct neg.
    + destruct (Z.leb_spec (- 2 ^ 63) (- decValue 0 ds)); [wordlia|done].
    + destruct (Z.ltb_spec (decValue 0 ds) (2 ^ 63)); [wordlia|by rewrite andb_false_r].
Qed.

Lemma FormatIntBytes_split n :
  in_i64 n -> exists ds, FormatIntBytes n = signBytes (n <? 0) ++ ds
    /\ forallb isDigit ds = true /\ ds <> [] /\ signVal (n <? 0) (decValue 0 ds) = n.
Proof.
  intros Hn. unfold FormatIntBytes. destruct (Z.ltb_spec n 0) as [Hneg|Hpos].
  - destruct (FormatUintBytes_spec (- n)) as (H1 & H2 & H3); [wordlia|].
    exists (FormatUintBytes (- n)). unfold signVal. repeat split; auto. lia.
  - destruct (FormatUintBytes_spec n) as (H1 & H2 & H3); [wordlia|].
    exists (FormatUintBytes n). auto.
Qed.

Lemma signed_plain neg l : forallb plain l = true -> forallb plain (signBytes neg ++ l) = true.
Proof. intros H. by destruct neg. Qed.

Lemma in_fits64 n : in_i64 n -> fits64 n = true.
Proof.
  intros H. unfold fits64. apply andb_true_intro.
  split; [apply Z.leb_le|apply Z.ltb_lt]; wordlia.
Qed.

(** ** Properties of the integer parser *)

(** The optional sign of a literal. *)
Inductive SignChar := NoSign | Plus | Minus.
Definition signText (sg : SignChar) : list byte :=
  match sg with NoSign => [] | Plus => ["+"%char] | Minus => ["-"%char] end.
Definition signNeg (sg : SignChar) : bool := match sg with Minus => true | _ => false end.

Lemma extractSign_signText sg ds :
  extractSign ds = (false, ds) -> extractSign (signText sg ++ ds) = (signNeg sg, ds).
Proof. by destruct sg. Qed.

(** Every text is a sign followed by the rest [extractSign] returns. *)
Lemma extractSign_inv l neg ds :
  extractSign l = (neg, ds) -> exists sg, l = signText sg ++ ds /\ signNeg sg = neg.
Proof.
  destruct l as [|a l]; [intros [= <- <-]; by exists NoSign|].
  destruct (Ascii.eqb_spec a "+"%char) as [->|H1]; [intros [= <- <-]; by exists Plus|].
  destruct (Ascii.eqb_spec a "-"%char) as [->|H2]; [intros [= <- <-]; by exists Minus|].
  intros E. exists NoSign.
  destruct a as [[] [] [] [] [] [] [] []]; simpl in E; try done; by injection E as <- <-.
Qed.

(** What [ParseInt64] does after the sign, for a non-empty rest. *)
Lemma ParseInt64_signed sg ds s :
  trimSpaceBytes (bytes s) = signText sg ++ ds -> extractSign ds = (false, ds) -> ds <> [] ->
  ParseInt64 s =
    (n ← parseDigitsUint64 0 ds;
     if signNeg sg then if MaxInt64 + 1 <? n then Err ErrOverflow else Ok (i64 (- i64 n))
     else if MaxInt64 <? n then Err ErrOverflow else Ok (i64 n)).
Proof.
  intros E Hs Hne. unfold ParseInt64. rewrite E, extractSign_signText by done.
  by rewrite !zlen_eqb_nil by (by destruct sg, ds).
Qed.

Lemma parseDigits_errors n l :
  (exists v, parseDigitsUint64 n l = Ok v)
  \/ parseDigitsUint64 n l = Err ErrInvalidInt \/ parseDigitsUint64 n l = Err ErrOverflow.
Proof.
  revert n. induction l as [|c l IH]; intros n; cbn [parseDigitsUint64]; [eauto|].
  destruct (negb _); [auto|]. destruct (_ <? _); auto.
Qed.

(** C32. What [ParseInt64] answers, for every string, once the white space around
    it is trimmed: a literal, an optional plus or minus sign before a non-empty
    run of digits, gives its value when that fits in an [int64] and [ErrOverflow]
    when it does not (the guard [n > (MaxUint64-digit)/10] is exact and nothing
    wraps); the empty text and a sign alone give [ErrInvalidInt]; any other text
    is an error, [ErrInvalidInt] or, when its leading digits overflow first,
    [ErrOverflow]. *)
Theorem ParseInt64_correct (s : string) :
  (forall sg ds, trimSpaceBytes (bytes s) = signText sg ++ ds ->
     ds <> [] -> forallb isDigit ds = true ->
     ParseInt64 s = let v := (if signNeg sg then -1 else 1) * decValue 0 ds in
                    if fits64 v then Ok v else Err ErrOverflow)
  /\ (forall sg, trimSpaceBytes (bytes s) = signText sg -> ParseInt64 s = Err ErrInvalidInt)
  /\ ((forall sg ds, trimSpaceBytes (bytes s) = signText sg ++ ds -> forallb isDigit ds = false) ->
     ParseInt64 s = Err ErrInvalidInt \/ ParseInt64 s = Err ErrOverflow).
Proof.
  split; [|split].
  - intros sg ds E Hne Hd.
    rewrite (ParseInt64_signed sg ds s E) by auto using extractSign_digits.
    replace (_ * decValue 0 ds) with (signVal (signNeg sg) (decValue 0 ds))
      by (unfold signVal; destruct (signNeg sg); lia).
    pose proof (decValue_nonneg 0 ds ltac:(lia) Hd).
    rewrite parseDigits_spec by (done || wordlia).
    destruct (Z.leb_spec (decValue 0 ds) MaxUint64); cbn [mbind result_bind].
    + by rewrite parse_signed by lia.
    + unfold fits64, signVal. destruct (signNeg sg).
      * destruct (Z.leb_spec (- 2 ^ 63) (- decValue 0 ds)); [wordlia|done].
      * destruct (Z.ltb_spec (decValue 0 ds) (2 ^ 63)); [wordlia|by rewrite andb_false_r].
  - intros sg E. unfold ParseInt64. rewrite E. by destruct sg.
  - intros Hbad. unfold ParseInt64. destruct (zlen _ =? 0); [auto|].
    destruct (extractSign _) as [neg ds] eqn:Es.
    apply extractSign_inv in Es as (sg & E & _). apply Hbad in E.
    destruct (zlen ds =? 0); [auto|].
    destruct (parseDigits_errors 0 ds) as [[v Hv]|[->| ->]]; [|auto..].
    apply parseDigits_Ok in Hv. congruence.
Qed.

Lemma ParseInt64_correct_witness :
  ParseInt64 " -42 " = Ok (-42) /\ ParseInt64 "+999" = Ok 999
  /\ ParseInt64 "99999999999999999999" = Err ErrOverflow /\ ParseInt64 " + " = Err ErrInvalidInt.
Proof.
  split; [|split; [|split]].
  - by apply (proj1 (ParseInt64_correct " -42 ") Minus (bytes "42")).
  - by apply (proj1 (ParseInt64_correct "+999") Plus (bytes "999")).
  - by apply (proj1 (ParseInt64_correct "99999999999999999999") NoSign
                (bytes "99999999999999999999")).
  - by apply (proj1 (proj2 (ParseInt64_correct " + ")) Plus).
Defined.

(** Parsing inverts printing on the whole [int64] range:
    [CoerceInt64Fast(strconv.FormatInt(n, 10)) = n], the extreme values included. *)
Theorem CoerceInt64_FormatInt (n : Z) :
  in_i64 n -> CoerceInt64Fast (FormatInt n) = Ok n.
Proof.
  intros Hn. destruct (FormatIntBytes_split n Hn) as (ds & E & Hd & Hne & Hv).
  assert (trimSpaceBytes (FormatIntBytes n) = FormatIntBytes n) as Ht.
  { apply trimSpaceBytes_plain. rewrite E. by apply signed_plain, digits_plain. }
  unfold CoerceInt64Fast, TrimSpace, FormatInt. rewrite bytes_str, Ht.
  destruct (String.eqb_spec (str (FormatIntBytes n)) "") as [Ee|_].
  { exfalso. apply (f_equal bytes) in Ee. rewrite bytes_str, E in Ee.
    destruct (n <? 0); [discriminate|]. by destruct ds. }
  rewrite (ParseInt64_digits (n <? 0) ds); [|by rewrite bytes_str, Ht|done..].
  cbn zeta. rewrite Hv, in_fits64 by done. done.
Qed.

Lemma CoerceInt64_FormatInt_witness : CoerceInt64Fast (FormatInt (- 2 ^ 63)) = Ok (- 2 ^ 63).
Proof. apply (CoerceInt64_FormatInt (- 2 ^ 63)). split; vm_compute; congruence. Defined.

(** ** Lemmas on the decimal loop *)

(** The numeral [ip.fp], the dot being optional. *)
Definition dotted (ip : list byte) (fp : option (list byte)) : list byte :=
  ip ++ match fp with None => [] | Some f => "."%char :: f end.
Definition fracOf (fp : option (list byte)) : list byte :=
  match fp with None => [] | Some f => f end.

(** [V / 10^L] rounded to [sc] decimals, halves up: an integer mantissa. *)
Definition roundHalfUp (V L sc : Z) : Z := (2 * V * 10 ^ sc + 10 ^ L) / (2 * 10 ^ L).

Lemma u64_decValue m l : u64 (decValue (u64 m) l) = u64 (decValue m l).
Proof.
  rewrite (decValue_shift (u64 m)), (decValue_shift m). unfold u64, uwrap.
  rewrite <- Z.add_mod_idemp_l, Z.mul_mod_idemp_l, Z.add_mod_idemp_l by lia. done.
Qed.

Lemma u64_step m d : u64 (u64 (m * 10) + d) = u64 (m * 10 + d).
Proof. unfold u64, uwrap. by rewrite Z.add_mod_idemp_l by lia. Qed.

Lemma u64_step' m d : u64 (u64 m * 10 + d) = u64 (m * 10 + d).
Proof.
  unfold u64, uwrap. rewrite <- (Z.add_mod_idemp_l (_ mod _ * _)) by lia.
  by rewrite Z.mul_mod_idemp_l, Z.add_mod_idemp_l by lia.
Qed.

Section DecimalLemmas.
Context `{GoQuote}.
Variables (s : string) (sc : Z) (o : string).

Lemma decLoop_app l k st :
  decLoop s sc o (l ++ k) st = (st' ← decLoop s sc o l st; decLoop s sc o k st').
Proof.
  revert st. induction l as [|c l IH]; intros st; [done|].
  cbn [decLoop app]. destruct (decStep s sc o c st); cbn [mbind result_bind]; auto.
Qed.

Lemma decStep_digit c st :
  isDigit c = true ->
  decStep s sc o c st =
    if negb (seenDot st)
    then Ok (mkDecState (u64 (mantissa st * 10 + digitVal c)) false (decDigits st) (roundUp st))
    else if decDigits st <? sc
    then Ok (mkDecState (u64 (mantissa st * 10 + digitVal c)) true (i32 (decDigits st + 1))
               (roundUp st))
    else if decDigits st =? sc then
      if o =s "fail"
      then Err (Errorf ("type cast failed: fractional precision exceeds scale "
                        +:+ FormatInt sc +:+ " in " +:+ Quote s) [ErrTypeCastFailed])
      else Ok (mkDecState (mantissa st) true (i32 (decDigits st + 1))
                 ((5 <=? digitVal c) || roundUp st))
    else Ok st.
Proof.
  intros Hc. unfold decStep. rewrite Hc.
  destruct (Ascii.eqb_spec c "."%char) as [->|_]; [discriminate|]. simpl negb. cbv iota.
  by rewrite !u64_step.
Qed.

Lemma decStep_dot st :
  seenDot st = false ->
  decStep s sc o "."%char st = Ok (mkDecState (mantissa st) true (decDigits st) (roundUp st)).
Proof. intros E. unfold decStep. rewrite Ascii.eqb_refl. by rewrite E. Qed.

Lemma decLoop_int l m d r :
  forallb isDigit l = true ->
  decLoop s sc o l (mkDecState (u64 m) false d r)
  = Ok (mkDecState (u64 (decValue m l)) false d r).
Proof.
  revert m. induction l as [|c l IH]; intros m Hl; [done|].
  cbn [forallb] in Hl. apply andb_prop in Hl as [Hc Hl]. cbn [decLoop].
  rewrite decStep_digit by done. cbn [negb seenDot mbind result_bind mantissa].
  rewrite IH by done. cbn [decValue]. f_equal. f_equal.
  by rewrite <- u64_decValue, u64_step', u64_decValue.
Qed.

Lemma decLoop_frac l m d r :
  forallb isDigit l = true -> 0 <= d -> d + zlen l <= sc < 2 ^ 31 ->
  decLoop s sc o l (mkDecState (u64 m) true d r)
  = Ok (mkDecState (u64 (decValue m l)) true (d + zlen l) r).
Proof.
  revert m d. induction l as [|c l IH]; intros m d Hl Hd Hsc.
  { unfold zlen. simpl. by rewrite Z.add_0_r. }
  cbn [forallb] in Hl. apply andb_prop in Hl as [Hc Hl]. cbn [decLoop].
  assert (zlen (c :: l) = 1 + zlen l) as E by (unfold zlen; simpl; lia).
  pose proof (zlen_nonneg l). rewrite E in *.
  rewrite decStep_digit by done. cbn [negb seenDot decDigits mantissa roundUp].
  destruct (Z.ltb_spec d sc); [|lia]. cbn [mbind result_bind].
  rewrite (i32_small (d + 1)) by wordlia.
  rewrite u64_step', IH by (done || lia). cbn [decValue]. by rewrite Z.add_assoc.
Qed.

Lemma decLoop_over l m d r :
  forallb isDigit l = true -> sc < d ->
  decLoop s sc o l (mkDecState m true d r) = Ok (mkDecState m true d r).
Proof.
  intros Hl Hd. induction l as [|c l IH]; [done|].
  cbn [forallb] in Hl. apply andb_prop in Hl as [Hc Hl]. cbn [decLoop].
  rewrite decStep_digit by done. cbn [negb seenDot decDigits].
  destruct (Z.ltb_spec d sc); [lia|]. destruct (Z.eqb_spec d sc); [lia|].
  by apply IH.
Qed.

Lemma padLoop_spec n m : padLoop n (u64 m) = u64 (m * 10 ^ Z.of_nat n).
Proof.
  revert m. induction n as [|n IH]; intros m; cbn [padLoop].
  { change (10 ^ Z.of_nat 0) with 1. by rewrite Z.mul_1_r. }
  replace (u64 (u64 m * 10)) with (u64 (m * 10)).
  - rewrite IH, Nat2Z.inj_succ, Z.pow_succ_r by lia. f_equal. ring.
  - unfold u64, uwrap. by rewrite Z.mul_mod_idemp_l by lia.
Qed.
End DecimalLemmas.

(** [CoerceDecimalFast] on a trimmed signed string, as its loop. *)
Lemma CoerceDecimal_core `{GoQuote} s neg ds sc o :
  trimSpaceBytes (bytes s) = signBytes neg ++ ds -> extractSign ds = (false, ds) -> ds <> [] ->
  CoerceDecimalFast s sc o =
    (st ← decLoop (TrimSpace s) sc (if o =s "" then "round" else o) ds (mkDecState 0 false 0 false);
     let m := padLoop (Z.to_nat (sc - decDigits st)) (mantissa st) in
     let m := if roundUp st then u64 (m + 1) else m in
     Ok (i64 (signVal neg m), sc)).
Proof.
  intros E Es Hne. assert (bytes (TrimSpace s) = signBytes neg ++ ds) as Eb.
  { unfold TrimSpace. by rewrite bytes_str. }
  unfold CoerceDecimalFast. rewrite Eb.
  rewrite zlen_eqb_nil by (destruct neg; done).
  rewrite extractSign_signed by done. rewrite zlen_eqb_nil by done.
  destruct (decLoop _ _ _ _ _) as [st| |]; cbn [mbind result_bind]; try done.
  cbn zeta. f_equal. f_equal. destruct neg; [|done]. unfold signVal. wordlia.
Qed.

Lemma extractSign_dotted ip fp :
  forallb isDigit ip = true -> extractSign (dotted ip fp) = (false, dotted ip fp).
Proof.
  destruct ip as [|a ip]; [by destruct fp|]. intros H.
  cbn [forallb] in H. apply andb_prop in H as [Ha _].
  unfold dotted. cbn [app]. destruct a as [[] [] [] [] [] [] [] []]; try done; discriminate.
Qed.

(** The loop over [ip.fp] when the fraction fits in the scale. *)
Lemma decLoop_dotted_room `{GoQuote} s sc o ip fp :
  forallb isDigit ip = true -> forallb isDigit (fracOf fp) = true ->
  (fp = None \/ zlen (fracOf fp) <= sc < 2 ^ 31) ->
  exists b, decLoop s sc o (dotted ip fp) (mkDecState 0 false 0 false)
  = Ok (mkDecState (u64 (decValue 0 (ip ++ fracOf fp))) b (zlen (fracOf fp)) false).
Proof.
  intros Hi Hf Hsc. unfold dotted. rewrite decLoop_app.
  change (mkDecState 0) with (mkDecState (u64 0)). rewrite decLoop_int by done.
  cbn [mbind result_bind]. destruct fp as [fp|]; cbn [fracOf] in *.
  - cbn [decLoop]. rewrite decStep_dot by done.
    cbn [mbind result_bind mantissa decDigits roundUp].
    destruct Hsc as [|Hsc]; [done|]. exists true.
    rewrite decLoop_frac by (done || lia). by rewrite <- decValue_app.
  - exists false. by rewrite app_nil_r.
Qed.

Lemma roundHalfUp_exact V L sc : 0 <= L <= sc -> roundHalfUp V L sc = V * 10 ^ (sc - L).
Proof.
  intros H. unfold roundHalfUp.
  pose proof (Z.pow_pos_nonneg 10 L ltac:(lia) ltac:(lia)).
  replace (10 ^ sc) with (10 ^ (sc - L) * 10 ^ L) by (rewrite <- Z.pow_add_r by lia; f_equal; lia).
  replace (2 * V * (10 ^ (sc - L) * 10 ^ L) + 10 ^ L)
    with (V * 10 ^ (sc - L) * (2 * 10 ^ L) + 10 ^ L) by ring.
  rewrite Z.div_add_l, (Z.div_small (10 ^ L)) by lia. lia.
Qed.

(** Dropping the digits [d b] after [M]: the next digit decides. *)
Lemma roundHalfUp_cut M d B n sc :
  0 <= d < 10 -> 0 <= B < 10 ^ n -> 0 <= n -> 0 <= sc ->
  roundHalfUp ((M * 10 + d) * 10 ^ n + B) (sc + 1 + n) sc = M + (if 5 <=? d then 1 else 0).
Proof.
  intros Hd HB Hn Hsc. unfold roundHalfUp.
  pose proof (Z.pow_pos_nonneg 10 n ltac:(lia) ltac:(lia)) as Hp.
  pose proof (Z.pow_pos_nonneg 10 sc ltac:(lia) ltac:(lia)) as Hq.
  rewrite !Z.pow_add_r by lia. change (10 ^ 1) with 10.
  set (p := 10 ^ n) in *. set (q := 10 ^ sc) in *.
  replace (2 * ((M * 10 + d) * p + B) * q + q * 10 * p)
    with (q * (2 * ((M * 10 + d) * p + B) + 10 * p)) by ring.
  replace (2 * (q * 10 * p)) with (q * (20 * p)) by ring.
  rewrite Z.div_mul_cancel_l by lia. symmetry.
  apply Z.div_unique with (r := 2 * (d * p + B) + 10 * p - (if 5 <=? d then 20 * p else 0)).
  - left. destruct (Z.leb_spec 5 d); nia.
  - destruct (Z.leb_spec 5 d); ring.
Qed.

Lemma decValue_digits_bound l : forallb isDigit l = true -> 0 <= decValue 0 l < 10 ^ zlen l.
Proof.
  induction l as [|a l IH]; intros H; [done|].
  cbn [forallb] in H. apply andb_prop in H as [Ha Hl]. specialize (IH Hl).
  apply isDigit_val in Ha. cbn [decValue]. rewrite decValue_shift.
  replace (zlen (a :: l)) with (Z.succ (zlen l)) by (unfold zlen; simpl; lia).
  rewrite Z.pow_succ_r by apply zlen_nonneg. nia.
Qed.

(** The loop over [ip.fp] when the fraction is longer than the scale: the first
    excess digit decides the rounding, or the whole parse fails. *)
Lemma decLoop_dotted_cut `{GoQuote} s sc o ip a d b :
  forallb isDigit ip = true -> forallb isDigit (a ++ d :: b) = true ->
  zlen a = sc -> sc + 1 < 2 ^ 31 ->
  decLoop s sc o (dotted ip (Some (a ++ d :: b))) (mkDecState 0 false 0 false)
  = if o =s "fail"
    then Err (Errorf ("type cast failed: fractional precision exceeds scale "
                      +:+ FormatInt sc +:+ " in " +:+ Quote s) [ErrTypeCastFailed])
    else Ok (mkDecState (u64 (decValue 0 (ip ++ a))) true (sc + 1) (5 <=? digitVal d)).
Proof.
  intros Hi Hf Hsc Hb. pose proof (zlen_nonneg a).
  rewrite forallb_app in Hf. cbn [forallb] in Hf.
  apply andb_prop in Hf as [Ha Hf]. apply andb_prop in Hf as [Hd Hbb].
  unfold dotted. rewrite decLoop_app. change (mkDecState 0) with (mkDecState (u64 0)).
  rewrite decLoop_int by done. cbn [mbind result_bind decLoop].
  rewrite decStep_dot by done. cbn [mbind result_bind mantissa decDigits roundUp].
  rewrite decLoop_app, decLoop_frac by (done || lia). cbn [mbind result_bind decLoop].
  rewrite decStep_digit by done. cbn [negb seenDot decDigits mantissa roundUp].
  destruct (Z.ltb_spec (0 + zlen a) sc); [lia|].
  destruct (Z.eqb_spec (0 + zlen a) sc); [|lia].
  destruct (o =s "fail"); [done|]. cbn [mbind result_bind].
  rewrite i32_small by wordlia. rewrite decLoop_over by (done || lia).
  rewrite <- decValue_app, orb_false_r. by replace (0 + zlen a + 1) with (sc + 1) by lia.
Qed.

Lemma signVal_u64 neg v : i64 (signVal neg (u64 v)) = i64 (signVal neg v).
Proof. unfold signVal. destruct neg; wordlia. Qed.

Lemma dotted_not_nil ip fp : ip <> [] \/ fp <> None -> dotted ip fp <> [].
Proof. unfold dotted. destruct ip, fp; simpl; intros []; congruence. Qed.

(** Splitting a fraction longer than the scale at its first excess digit. *)
Lemma frac_split (fp : list byte) sc :
  0 <= sc < zlen fp -> exists a d b, fp = a ++ d :: b /\ zlen a = sc.
Proof.
  unfold zlen. intros H.
  destruct (drop (Z.to_nat sc) fp) as [|d b] eqn:E.
  { apply (f_equal length) in E. rewrite length_drop in E. simpl in E. lia. }
  exists (take (Z.to_nat sc) fp), d, b. split; [by rewrite <- E, take_drop|].
  rewrite length_take. lia.
Qed.

(** ** Properties of the decimal coercion *)

(** C33. On a signed numeral [ip.fp], [CoerceDecimalFast] computes the exact
    half-up rounding (away from zero) of the number to [sc] decimals, as a
    mantissa reduced to [int64]; in mode ["fail"] a fraction longer than the
    scale is instead an error that wraps [ErrTypeCastFailed]. *)
Theorem CoerceDecimal_correct `{GoQuote} (s : string) (neg : bool) (ip : list byte)
    (fp : option (list byte)) (sc : Z) (o : string) :
  trimSpaceBytes (bytes s) = signBytes neg ++ dotted ip fp ->
  forallb isDigit ip = true -> forallb isDigit (fracOf fp) = true ->
  ip <> [] \/ fp <> None -> 0 <= sc < 2 ^ 31 - 1 ->
  if (o =s "fail") && (sc <? zlen (fracOf fp)) then
    exists e, CoerceDecimalFast s sc o = Err e /\ errors_Is "type cast failed" e = true
  else
    CoerceDecimalFast s sc o
    = Ok (i64 (signVal neg (roundHalfUp (decValue 0 (ip ++ fracOf fp)) (zlen (fracOf fp)) sc)), sc).
Proof.
  intros E Hi Hf Hne Hsc. pose proof (zlen_nonneg (fracOf fp)) as Hl.
  rewrite (CoerceDecimal_core s neg (dotted ip fp))
    by auto using extractSign_dotted, dotted_not_nil.
  destruct (Z.ltb_spec sc (zlen (fracOf fp))) as [Hlong|Hshort].
  - destruct (frac_split (fracOf fp) sc) as (a & d & b & Ef & Ha); [lia|].
    destruct fp as [fp|]; [|discriminate (f_equal length Ef) || (simpl in Hlong; unfold zlen in *; simpl in *; lia)].
    cbn [fracOf] in *. subst fp. rewrite decLoop_dotted_cut by (done || lia).
    destruct (String.eqb_spec o "fail") as [->|Ho]; cbn [andb].
    { eexists. split; [reflexivity|]. reflexivity. }
    destruct (String.eqb_spec (if o =s "" then "round" else o) "fail") as [Hc|_].
    { revert Hc. destruct (o =s ""); [discriminate|congruence]. }
    cbn [mbind result_bind decDigits mantissa roundUp]. cbn zeta.
    replace (Z.to_nat (sc - (sc + 1))) with O by lia. cbn [padLoop].
    rewrite forallb_app in Hf. cbn [forallb] in Hf.
    apply andb_prop in Hf as [_ Hf]. apply andb_prop in Hf as [Hd Hb].
    assert (zlen (a ++ d :: b) = sc + 1 + zlen b) as Elen
      by (rewrite zlen_app; unfold zlen in *; simpl; lia).
    assert (decValue 0 (ip ++ a ++ d :: b)
            = (decValue 0 (ip ++ a) * 10 + digitVal d) * 10 ^ zlen b + decValue 0 b) as Ev.
    { rewrite app_assoc, decValue_app. cbn [decValue]. apply decValue_shift. }
    rewrite Ev, Elen, roundHalfUp_cut
      by (auto using isDigit_val, decValue_digits_bound, zlen_nonneg; lia).
    do 2 f_equal. destruct (5 <=? digitVal d).
    + rewrite <- (signVal_u64 neg (_ + 1)). unfold signVal. destruct neg; wordlia.
    + rewrite Z.add_0_r. apply signVal_u64.
  - rewrite andb_false_r.
    edestruct (decLoop_dotted_room (TrimSpace s) sc (if o =s "" then "round" else o) ip fp Hi Hf)
      as (bb & ->); [right; lia|].
    cbn [mbind result_bind decDigits mantissa roundUp]. cbn zeta.
    rewrite padLoop_spec, Z2Nat.id by lia. rewrite roundHalfUp_exact by lia.
    do 2 f_equal. apply signVal_u64.
Qed.

Lemma CoerceDecimal_correct_witness :
  CoerceDecimalFast "-19.995" 2 "round" = Ok (-2000, 2)
  /\ exists e, CoerceDecimalFast "-19.995" 2 "fail" = Err e /\ errors_Is "type cast failed" e = true.
Proof.
  split.
  - refine (eq_trans (CoerceDecimal_correct "-19.995" true (bytes "19") (Some (bytes "995")) 2
              "round" _ eq_refl eq_refl (or_introl _) _) _);
      [vm_compute; reflexivity|discriminate|split; vm_compute; congruence|vm_compute; reflexivity].
  - refine (CoerceDecimal_correct "-19.995" true (bytes "19") (Some (bytes "995")) 2
              "fail" _ eq_refl eq_refl (or_introl _) _);
      [vm_compute; reflexivity|discriminate|split; vm_compute; congruence].
Defined.

(** ** Round trip of decimals *)
Lemma decValue_zeros n l : decValue 0 (replicate n "0"%char ++ l) = decValue 0 l.
Proof. induction n; simpl; auto. Qed.
Lemma digits_zeros n : forallb isDigit (replicate n "0"%char) = true.
Proof. induction n; simpl; auto. Qed.
Lemma forallb_take {A} (p : A -> bool) n l : forallb p l = true -> forallb p (take n l) = true.
Proof.
  rewrite <- (take_drop n l) at 1. rewrite forallb_app. by intros [? _]%andb_prop.
Qed.
Lemma forallb_drop {A} (p : A -> bool) n l : forallb p l = true -> forallb p (drop n l) = true.
Proof.
  rewrite <- (take_drop n l) at 1. rewrite forallb_app. by intros [_ ?]%andb_prop.
Qed.

(** The text [FormatDecimal] writes for a positive scale: [scale] fraction
    digits, and the digits together spell the absolute mantissa. *)
Lemma FormatDecimalBytes_split m sc :
  in_i64 m -> 0 < sc ->
  exists ip fp, FormatDecimalBytes m sc = signBytes (m <? 0) ++ dotted ip (Some fp)
    /\ forallb isDigit ip = true /\ forallb isDigit fp = true /\ ip <> []
    /\ zlen fp = sc /\ signVal (m <? 0) (decValue 0 (ip ++ fp)) = m.
Proof.
  intros Hm Hsc. unfold FormatDecimalBytes. destruct (Z.leb_spec sc 0); [lia|]. cbn zeta.
  set (uval := if m <? 0 then u64 (i64 (0 - m)) else u64 m).
  assert (in_u64 uval /\ signVal (m <? 0) uval = m) as [Hu Hs].
  { unfold uval, signVal. destruct (Z.ltb_spec m 0); wordlia. }
  destruct (FormatUintBytes_spec uval Hu) as (Hd & Hv & Hne).
  set (l := FormatUintBytes uval) in *. clearbody l.
  assert (0 < zlen l) as Hl by (destruct l; [done|unfold zlen; simpl; lia]).
  assert (signBytes (m <? 0) = if m <? 0 then ["-"%char] else []) as <- by done.
  destruct (Z.leb_spec (zlen l) sc) as [Hle|Hgt].
  - exists ["0"%char], (replicate (Z.to_nat sc - length l) "0"%char ++ l).
    unfold dotted. simpl app. split; [done|].
    rewrite forallb_app, digits_zeros, Hd. repeat split; auto.
    + unfold zlen in *. rewrite length_app, length_replicate. lia.
    + cbn [app decValue]. change (0 * 10 + digitVal "0") with 0. by rewrite decValue_zeros, Hv.
  - exists (take (length l - Z.to_nat sc) l), (drop (length l - Z.to_nat sc) l).
    unfold dotted. split; [done|].
    rewrite take_drop, Hv, forallb_take, forallb_drop by done. unfold zlen in *.
    repeat split; auto; [|rewrite length_drop; lia].
    intros E. apply (f_equal length) in E. rewrite length_take in E. simpl in E. lia.
Qed.

Lemma dotted_plain ip fp :
  forallb isDigit ip = true -> forallb isDigit (fracOf fp) = true ->
  forallb plain (dotted ip fp) = true.
Proof.
  intros Hi Hf. unfold dotted. rewrite forallb_app, (digits_plain ip Hi).
  destruct fp; [|done]. simpl. by apply digits_plain.
Qed.

(** [CoerceDecimalFast] inverts [FormatDecimal]: for every [int64] mantissa,
    every [int32] scale (negative ones included) and every overflow mode, the
    printed decimal parses back to the same mantissa and scale. *)
Theorem CoerceDecimal_FormatDecimal `{GoQuote} (m sc : Z) (o : string) :
  in_i64 m -> in_i32 sc -> CoerceDecimalFast (FormatDecimal m sc) sc o = Ok (m, sc).
Proof.
  intros Hm Hsc.
  assert (exists ip fp, FormatDecimalBytes m sc = signBytes (m <? 0) ++ dotted ip fp
    /\ forallb isDigit ip = true /\ forallb isDigit (fracOf fp) = true /\ ip <> []
    /\ (fp = None \/ zlen (fracOf fp) <= sc < 2 ^ 31) /\ zlen (fracOf fp) = Z.max 0 sc
    /\ signVal (m <? 0) (decValue 0 (ip ++ fracOf fp)) = m)
    as (ip & fp & E & Hi & Hf & Hne & Hroom & Hlen & Hv).
  { destruct (Z.leb_spec sc 0) as [Hle|Hgt].
    - destruct (FormatIntBytes_split m Hm) as (ds & E & Hd & Hne & Hv).
      exists ds, None. unfold FormatDecimalBytes. destruct (Z.leb_spec sc 0); [|lia].
      unfold dotted, fracOf. rewrite !app_nil_r. repeat split; auto. unfold zlen. simpl. lia.
    - destruct (FormatDecimalBytes_split m sc Hm Hgt) as (ip & fp & E & Hi & Hf & Hne & Hl & Hv).
      exists ip, (Some fp). simpl fracOf. repeat split; auto; [right; wordlia|lia]. }
  rewrite (CoerceDecimal_core _ (m <? 0) (dotted ip fp)).
  - edestruct (decLoop_dotted_room (TrimSpace (FormatDecimal m sc)) sc
                 (if o =s "" then "round" else o) ip fp Hi Hf Hroom) as (bb & ->).
    cbn [mbind result_bind decDigits mantissa roundUp]. cbn zeta.
    rewrite padLoop_spec. replace (Z.of_nat (Z.to_nat (sc - zlen (fracOf fp)))) with 0 by lia.
    rewrite Z.mul_1_r, signVal_u64, Hv, i64_small by done. done.
  - unfold FormatDecimal. rewrite bytes_str, E. apply trimSpaceBytes_plain, signed_plain.
    by apply dotted_plain.
  - by apply extractSign_dotted.
  - apply dotted_not_nil. auto.
Qed.

Lemma CoerceDecimal_FormatDecimal_witness :
  CoerceDecimalFast (FormatDecimal (- 2 ^ 63) 4) 4 "fail" = Ok (- 2 ^ 63, 4).
Proof. apply (CoerceDecimal_FormatDecimal (- 2 ^ 63) 4); split; vm_compute; congruence. Defined.

(** A decimal beyond the [int64] range is not rejected: the mantissa wraps. *)
Lemma CoerceDecimal_wraps : CoerceDecimalFast "18446744073709551617" 0 "fail" = Ok (1, 0).
Proof. vm_compute. reflexivity. Qed.

(** Likewise the integer part of [ParseFloat64]. *)
Lemma ParseFloat64_wraps : ParseFloat64 "18446744073709551617" = Ok (of_int 1).
Proof. vm_compute. reflexivity. Qed.

(** ** The float parser *)
Lemma parseIntPart_spec n h l rest :
  forallb isDigit l = true -> (rest = [] \/ exists r, rest = "."%char :: r) ->
  parseIntPart (u64 n) h (l ++ rest)
  = Ok (u64 (decValue n l), h || negb (zlen l =? 0), rest).
Proof.
  intros Hl Hr. revert n h. induction l as [|c l IH]; intros n h.
  { simpl. rewrite orb_false_r. destruct Hr as [->|(r & ->)]; done. }
  cbn [forallb] in Hl. apply andb_prop in Hl as [Hc Hl]. cbn [parseIntPart app decValue].
  destruct (Ascii.eqb_spec c "."%char) as [->|_]; [discriminate|]. rewrite Hc. cbn [negb].
  rewrite u64_step', IH by done. rewrite (zlen_eqb_nil (c :: l)) by done.
  by rewrite orb_true_r.
Qed.

(** On an optionally signed run of digits denoting [v < 2^64], [ParseFloat64]
    returns the [float64] nearest to [v] (that of Go's own conversion), with the
    sign applied; a trailing dot changes nothing. *)
Theorem ParseFloat64_integer (s : string) (neg : bool) (ds : list byte) (dot : bool) :
  trimSpaceBytes (bytes s) = signBytes neg ++ ds ++ (if dot then ["."%char] else []) ->
  ds <> [] -> forallb isDigit ds = true -> decValue 0 ds <= MaxUint64 ->
  ParseFloat64 s = Ok (if neg then fneg (of_int (decValue 0 ds)) else of_int (decValue 0 ds)).
Proof.
  intros E Hne Hd Hmax. set (tl := if dot then ["."%char] else []) in *.
  pose proof (decValue_nonneg 0 ds ltac:(lia) Hd).
  assert (ds ++ tl <> []) as Hne' by (by destruct ds).
  assert (extractSign (ds ++ tl) = (false, ds ++ tl)) as Hs.
  { replace (ds ++ tl) with (dotted ds (if dot then Some [] else None))
      by (unfold dotted, tl; by destruct dot). by apply extractSign_dotted. }
  unfold ParseFloat64. rewrite E. rewrite zlen_eqb_nil by (destruct neg; done).
  rewrite extractSign_signed by done. rewrite zlen_eqb_nil by done.
  unfold parseFractional. change 0 with (u64 0) at 1.
  rewrite parseIntPart_spec by (done || (unfold tl; destruct dot; eauto)).
  cbn [mbind result_bind]. rewrite u64_small by wordlia.
  rewrite (zlen_eqb_nil ds) by done. unfold tl. by destruct dot.
Qed.

Lemma ParseFloat64_integer_witness :
  ParseFloat64 "-100." = Ok (fneg (of_int 100)) /\ decValue 0 (bytes "100") = 100.
Proof.
  split; [|reflexivity].
  refine (ParseFloat64_integer "-100." true (bytes "100") true _ _ eq_refl _);
    [vm_compute; reflexivity|discriminate|vm_compute; congruence].
Defined.

(** ** The coercions never panic *)
Lemma parseDigits_noPanic n l : noPanic (parseDigitsUint64 n l).
Proof.
  revert n. induction l as [|c l IH]; intros n; cbn [parseDigitsUint64]; [done|].
  destruct (negb _); [done|]. destruct (_ <? _); [done|apply IH].
Qed.
(** Case analysis down to the returns of a coercion. *)
Ltac no_panic :=
  repeat first
    [ assumption | apply noPanic_Ok | apply noPanic_Err | apply parseDigits_noPanic
    | apply noPanic_bind; intros | case_match ].
Lemma CoerceInt64_noPanic s : noPanic (CoerceInt64Fast s).
Proof. unfold CoerceInt64Fast, ParseInt64. no_panic. Qed.
Lemma parseFracDigits_noPanic v f h l : noPanic (parseFracDigits v f h l).
Proof.
  revert v f h. induction l as [|c l IH]; intros v f h; cbn [parseFracDigits]; [done|].
  destruct (negb _); [done|apply IH].
Qed.
Lemma parseIntPart_noPanic n h l : noPanic (parseIntPart n h l).
Proof.
  revert n h. induction l as [|c l IH]; intros n h; cbn [parseIntPart]; [done|].
  destruct (Ascii.eqb _ _); [done|]. destruct (negb _); [done|apply IH].
Qed.
Lemma CoerceFloat64_noPanic s : noPanic (CoerceFloat64Fast s).
Proof.
  unfold CoerceFloat64Fast, ParseFloat64, parseFractional. destruct (_ =s _); [done|].
  no_panic; try apply parseIntPart_noPanic; try apply parseFracDigits_noPanic; no_panic.
Qed.
Lemma decLoop_noPanic `{GoQuote} s sc o l st : noPanic (decLoop s sc o l st).
Proof.
  revert st. induction l as [|c l IH]; intros st; cbn [decLoop]; [done|].
  apply noPanic_bind; [|done]. unfold decStep. no_panic.
Qed.
Lemma CoerceDecimal_noPanic `{GoQuote} s sc o : noPanic (CoerceDecimalFast s sc o).
Proof.
  unfold CoerceDecimalFast. cbv zeta. no_panic; apply decLoop_noPanic.
Qed.
Lemma CoerceBool_noPanic `{UnicodeLower, GoQuote} s : noPanic (CoerceBoolFast s).
Proof. unfold CoerceBoolFast. no_panic. Qed.
Lemma CoerceTimestamp_noPanic `{GoTimeParse, GoQuote} s : noPanic (CoerceTimestampFast s).
Proof. unfold CoerceTimestampFast. no_panic. Qed.
(** A coerced decimal has the target scale. *)
Lemma CoerceDecimal_scale `{GoQuote} s sc o ms : CoerceDecimalFast s sc o = Ok ms -> snd ms = sc.
Proof.
  unfold CoerceDecimalFast. case_match; [by intros [= <-]|]. case_match. case_match; [done|].
  intros (st & _ & E)%result_bind_Ok. by injection E as <-.
Qed.
