(* ===== verification/Wire.v ===== *)
(** * Wire primitives

    The writers and readers the coders use, and the primitives of
    [internal/beam/core/coders_helpers.go] on top of [encoding/binary]:
    varints, length-prefixed byte strings, and the order of map keys. *)
From S2P Require Import Prelude GoStr Float64 Schema.

(** ** [io.Writer]

    A writer is a state with a fallible write; [bytes.Buffer] is the instance
    the Beam adapters use, whose writes append and never fail. *)
Class Writer (W : Type) := w_write : W -> list byte -> result W.
#[export] Instance Buffer : Writer (list byte) := fun w b => Ok (w ++ b).

(** ** [io.Reader] over a finite input: a call returns its result and the rest. *)
Definition reader (A : Type) : Type := list byte -> result A * list byte.
#[export] Instance reader_ret : MRet reader := fun _ a l => (Ok a, l).
#[export] Instance reader_bind : MBind reader := fun _ _ f m l =>
  match m l with
  | (Ok a, l') => f a l'
  | (Err e, l') => (Err e, l')
  | (Panic s, l') => (Panic s, l')
  end.
Definition rfail {A} (e : error) : reader A := fun l => (Err e, l).
Definition rwrap {A} (pre : string) (m : reader A) : reader A := fun l =>
  let '(r, l') := m l in (wrapErr pre r, l').

Definition EOF : error := Sentinel "EOF".
Definition ErrUnexpectedEOF : error := Sentinel "unexpected EOF".
Definition errOverflow : error := Sentinel "binary: varint overflows a 64-bit integer".
Definition ErrNilToken : error := Sentinel "coders: nil token".

Definition readByte : reader byte := fun l =>
  match l with [] => (Err EOF, []) | b :: l' => (Ok b, l') end.

(** [io.ReadFull] of [n] bytes. *)
Definition readFull (n : Z) : reader (list byte) := fun l =>
  if n <=? zlen l then (Ok (take (Z.to_nat n) l), drop (Z.to_nat n) l)
  else match l with
  | [] => (Err EOF, [])
  | _ => (Err ErrUnexpectedEOF, [])
  end.

(** ** Varints *)
Fixpoint putUvarint (fuel : nat) (x : Z) : list byte :=
  match fuel with
  | O => []
  | S f =>
      if x <? 128 then [byte_of x]
      else byte_of (Z.lor (u8 x) 128) :: putUvarint f (Z.shiftr x 7)
  end.

Definition MaxVarintLen64 : nat := 10.

(** [binary.PutVarint]: zig-zag, then base 128. *)
Definition zigzag (x : Z) : Z :=
  let ux := u64 (Z.shiftl (u64 x) 1) in
  if x <? 0 then u64 (Z.lnot ux) else ux.
Definition PutVarint (x : Z) : list byte := putUvarint MaxVarintLen64 (zigzag x).

(** [binary.ReadUvarint], at loop index [i], with [n] iterations left. *)
Fixpoint readUvarintLoop (n : nat) (i x s : Z) : reader Z :=
  match n with
  | O => rfail errOverflow
  | S n' => fun l =>
      match l with
      | [] => (Err (if 0 <? i then ErrUnexpectedEOF else EOF), [])
      | b :: l' =>
          let v := byte_val b in
          if v <? 128 then
            if (i =? 9) && (1 <? v) then (Err errOverflow, l')
            else (Ok (Z.lor x (u64 (Z.shiftl v s))), l')
          else readUvarintLoop n' (i + 1) (Z.lor x (u64 (Z.shiftl (Z.land v 127) s))) (s + 7) l'
      end
  end.
Definition readUvarint : reader Z := readUvarintLoop MaxVarintLen64 0 0 0.

Definition unzigzag (ux : Z) : Z :=
  let x := i64 (Z.shiftr ux 1) in
  if negb (Z.land ux 1 =? 0) then Z.lnot x else x.
Definition readVarint : reader Z := ux ← readUvarint; mret (unzigzag ux).

Section Write.
Context {W : Type} `{Writer W}.
Definition writeVarint (w : W) (v : Z) : result W := w_write w (PutVarint v).
Definition writeBytes (w : W) (b : list byte) : result W :=
  w ← writeVarint w (zlen b); w_write w b.
Definition writeString (w : W) (s : string) : result W := writeBytes w (bytes s).
End Write.

(** ** Length-prefixed bytes *)
Definition readBytes : reader (list byte) :=
  n ← readVarint;
  if n =? -1 then rfail ErrNilToken
  else if (n <? -1) || (DefaultChunkSizeBytes <? n) then
    rfail (Errorf ("coders: invalid byte length " +:+ FormatInt n) [])
  else if n =? 0 then mret []
  else readFull n.
Definition readString : reader string := b ← readBytes; mret (str b).

(** ** Counted loops [for i := int64(0); i < n; i++ { a = body(a) }]

    Every body here consumes input when it succeeds, so [fuel] greater than
    the number of remaining bytes is never exhausted ([readLoop_total]). *)
Fixpoint readLoop {A} (fuel : nat) (n : Z) (body : A -> reader A) (a : A) : reader A :=
  if n <=? 0 then mret a
  else match fuel with
  | O => fun l => (Panic "out of fuel", l)
  | S f => a ← body a; readLoop f (n - 1) body a
  end.
Definition readCount {A} (n : Z) (body : A -> reader A) (a : A) : reader A := fun l =>
  readLoop (S (length l)) n body a l.

(** ** Order of map iteration

    [for k, v := range m] visits the entries in an unspecified order: an
    instance fixes the order one execution sees. [sort.Strings] sorts keys by
    their bytes. *)
Class MapOrder := {
  map_range : forall V, gmap string V -> list (string * V);
  map_range_perm : forall V (m : gmap string V), map_range V m ≡ₚ map_to_list m
}.
Arguments map_range {_ V} m.
Arguments map_range_perm {_ V} m.
#[export] Instance defaultOrder : MapOrder :=
  {| map_range := fun _ m => map_to_list m; map_range_perm := fun _ m => Permutation_refl _ |}.

Fixpoint bytesLe (l k : list byte) : bool :=
  match l, k with
  | [], _ => true
  | _ :: _, [] => false
  | a :: l', b :: k' =>
      if byte_val a <? byte_val b then true
      else if byte_val a =? byte_val b then bytesLe l' k' else false
  end.
Definition strLe (a b : string) : Prop := bytesLe (bytes a) (bytes b) = true.
#[export] Instance strLe_dec : RelDecision strLe.
Proof. intros a b. unfold strLe. apply _. Defined.
Definition sortStrings (l : list string) : list string := merge_sort strLe l.

(** The keys of a map, collected by [range] and sorted. *)
Definition sortedKeys {V} `{MapOrder} (m : gmap string V) : list string :=
  sortStrings (map fst (map_range m)).

(** ** Lemmas *)
Lemma lor_add x b s : 0 <= s -> 0 <= x < 2 ^ s -> Z.lor x (Z.shiftl b s) = x + b * 2 ^ s.
Proof.
  intros Hs Hx. rewrite <- Z.shiftl_mul_pow2 by lia.
  assert (Z.land x (Z.shiftl b s) = 0) as E.
  { apply Z.bits_inj_0. intros i. rewrite Z.land_spec.
    destruct (Z.ltb_spec i s).
    - destruct (Z.leb_spec 0 i); [by rewrite Z.shiftl_spec_low, andb_false_r|].
      by rewrite Z.testbit_neg_r.
    - rewrite <- (Z.mod_small x (2 ^ s)) by done.
      by rewrite Z.mod_pow2_bits_high by lia. }
  rewrite <- Z.lxor_lor by done. symmetry. by apply Z.add_nocarry_lxor.
Qed.

Lemma u8_lor128 x : u8 (Z.lor (u8 x) 128) = x mod 128 + 128.
Proof.
  assert (forall b, 0 <= b < 256 -> u8 (Z.lor b 128) = b mod 128 + 128) as H.
  { intros b Hb. assert (forallb (fun b => u8 (Z.lor b 128) =? b mod 128 + 128)
                           (map Z.of_nat (seq 0 256)) = true) as Hf by (vm_compute; reflexivity).
    rewrite forallb_forall in Hf. apply Z.eqb_eq, Hf, in_map_iff. exists (Z.to_nat b).
    split; [lia|]. apply in_seq. lia. }
  rewrite H by wordlia. wordlia.
Qed.

Lemma readUvarint_put n i x y r :
  Z.of_nat n + i = 10 -> 0 <= i -> (0 < n)%nat ->
  0 <= x < 2 ^ (7 * i) -> 0 <= y -> y * 2 ^ (7 * i) < 2 ^ 64 ->
  readUvarintLoop n i x (7 * i) (putUvarint n y ++ r) = (Ok (x + y * 2 ^ (7 * i)), r).
Proof.
  revert i x y. induction n as [|n IH]; intros i x y Hn Hi H0 Hx Hy Hb; [lia|].
  pose proof (Z.pow_pos_nonneg 2 (7 * i) ltac:(lia) ltac:(lia)) as Hp.
  cbn [putUvarint]. destruct (Z.ltb_spec y 128) as [Hs|Hl].
  - cbn [app readUvarintLoop]. rewrite byte_val_of. unfold u8. rewrite uwrap_small by wordlia.
    destruct (Z.ltb_spec y 128); [|lia].
    assert ((i =? 9) && (1 <? y) = false) as ->.
    { destruct (Z.eqb_spec i 9) as [->|]; [|done]. cbn [andb]. apply Z.ltb_ge.
      change (2 ^ (7 * 9)) with (2 ^ 63) in Hb. change (2 ^ 64) with (2 * 2 ^ 63) in Hb. nia. }
    f_equal. f_equal. rewrite u64_small; [by apply lor_add; lia|].
    rewrite Z.shiftl_mul_pow2 by lia. unfold in_u. nia.
  - cbn [app readUvarintLoop]. rewrite byte_val_of, u8_lor128.
    pose proof (Z.mod_pos_bound y 128 ltac:(lia)) as Hm.
    pose proof (Z.div_mod y 128 ltac:(lia)) as Hd.
    destruct (Z.ltb_spec (y mod 128 + 128) 128); [lia|].
    assert (Z.land (y mod 128 + 128) 127 = y mod 128) as ->.
    { change 127 with (Z.ones 7). rewrite Z.land_ones by lia. change (2 ^ 7) with 128.
      replace (y mod 128 + 128) with (y mod 128 + 1 * 128) by lia.
      by rewrite Z.mod_add, Z.mod_mod by lia. }
    rewrite Z.shiftr_div_pow2 by lia. change (2 ^ 7) with 128.
    rewrite u64_small by (rewrite Z.shiftl_mul_pow2 by lia; unfold in_u; nia).
    rewrite lor_add by lia. replace (7 * i + 7) with (7 * (i + 1)) by lia.
    assert (2 ^ (7 * (i + 1)) = 128 * 2 ^ (7 * i)) as Ep.
    { replace (7 * (i + 1)) with (7 + 7 * i) by lia. rewrite Z.pow_add_r by lia. done. }
    rewrite IH; [f_equal; f_equal; rewrite Ep; nia|lia|lia| |rewrite Ep; nia
      |apply Z.div_pos; lia|rewrite Ep; nia].
    destruct n; [|lia]. exfalso. assert (i = 9) as -> by lia.
    change (2 ^ (7 * 9)) with (2 ^ 63) in Hb. change (2 ^ 64) with (2 * 2 ^ 63) in Hb. nia.
Qed.

Lemma zigzag_spec x : in_i64 x -> zigzag x = if x <? 0 then - 2 * x - 1 else 2 * x.
Proof.
  intros H. unfold zigzag. rewrite Z.shiftl_mul_pow2 by lia. unfold Z.lnot.
  destruct (Z.ltb_spec x 0); wordlia.
Qed.
Lemma zigzag_range x : in_i64 x -> in_u64 (zigzag x).
Proof. intros H. rewrite zigzag_spec by done. destruct (Z.ltb_spec x 0); wordlia. Qed.

Lemma unzigzag_zigzag x : in_i64 x -> unzigzag (zigzag x) = x.
Proof.
  intros H. rewrite zigzag_spec by done. unfold unzigzag, Z.lnot.
  change 1 with (Z.ones 1) at 2. rewrite Z.land_ones, Z.shiftr_div_pow2 by lia.
  destruct (Z.ltb_spec x 0).
  - destruct (Z.eqb_spec ((-2 * x - 1) mod 2 ^ 1) 0); cbn [negb]; wordlia.
  - destruct (Z.eqb_spec ((2 * x) mod 2 ^ 1) 0); cbn [negb]; wordlia.
Qed.

Lemma readVarint_Put x r : in_i64 x -> readVarint (PutVarint x ++ r) = (Ok x, r).
Proof.
  intros H. pose proof (zigzag_range x H) as Hr. unfold in_u in Hr.
  unfold readVarint, readUvarint, PutVarint. unfold mbind, reader_bind.
  pose proof (readUvarint_put MaxVarintLen64 0 0 (zigzag x) r eq_refl) as E.
  change (7 * 0) with 0 in E. rewrite E by (unfold MaxVarintLen64; lia).
  rewrite Z.mul_1_r, Z.add_0_l, unzigzag_zigzag by done. done.
Qed.

Lemma putUvarint_length n x : (0 < n)%nat -> (0 < length (putUvarint n x) <= n)%nat.
Proof.
  revert x. induction n as [|n IH]; intros x H; [lia|]. cbn [putUvarint].
  destruct (x <? 128); [simpl; lia|]. cbn [length].
  destruct n; [simpl; lia|]. specialize (IH (Z.shiftr x 7) ltac:(lia)). lia.
Qed.

(** What the length-prefixed writer puts in a buffer. *)
Definition encBytes (b : list byte) : list byte := PutVarint (zlen b) ++ b.
Definition encString (s : string) : list byte := encBytes (bytes s).
Lemma writeBytes_Buffer w b : writeBytes w b = Ok (w ++ encBytes b).
Proof. unfold writeBytes, encBytes. simpl. unfold w_write, Buffer. by rewrite app_assoc. Qed.
Lemma writeString_Buffer w s : writeString w s = Ok (w ++ encString s).
Proof. apply writeBytes_Buffer. Qed.
Lemma writeVarint_Buffer w v : writeVarint w v = Ok (w ++ PutVarint v).
Proof. done. Qed.

Lemma readFull_exact b r : readFull (zlen b) (b ++ r) = (Ok b, r).
Proof.
  unfold readFull. rewrite zlen_app. pose proof (zlen_nonneg r).
  destruct (Z.leb_spec (zlen b) (zlen b + zlen r)); [|lia].
  unfold zlen. rewrite Nat2Z.id. by rewrite take_app_length, drop_app_length.
Qed.

Lemma readFull1 b r : readFull 1 (b :: r) = (Ok [b], r).
Proof. exact (readFull_exact [b] r). Qed.

(** A byte string the decoder accepts. *)
Definition short (b : list byte) : Prop := zlen b <= DefaultChunkSizeBytes.
Lemma readBytes_enc b r : short b -> readBytes (encBytes b ++ r) = (Ok b, r).
Proof.
  unfold short. intros H. pose proof (zlen_nonneg b). unfold encBytes. rewrite <- app_assoc.
  unfold readBytes. unfold mbind at 1, reader_bind at 1.
  rewrite readVarint_Put by (unfold DefaultChunkSizeBytes in H; wordlia).
  destruct (Z.eqb_spec (zlen b) (-1)); [lia|].
  destruct (Z.ltb_spec (zlen b) (-1)); [lia|].
  destruct (Z.ltb_spec DefaultChunkSizeBytes (zlen b)); [lia|]. cbn [orb].
  destruct (Z.eqb_spec (zlen b) 0) as [E|].
  - apply zlen_nil in E as ->. done.
  - apply readFull_exact.
Qed.
Lemma readString_enc s r : short (bytes s) -> readString (encString s ++ r) = (Ok s, r).
Proof.
  intros H. unfold readString, encString. unfold mbind, reader_bind.
  rewrite readBytes_enc by done. by rewrite str_bytes.
Qed.
Lemma encString_nonempty s : (0 < length (encString s))%nat.
Proof.
  unfold encString, encBytes. rewrite length_app.
  pose proof (putUvarint_length MaxVarintLen64 (zigzag (zlen (bytes s)))).
  unfold PutVarint, MaxVarintLen64 in *. lia.
Qed.

(** ** Reasoning about readers *)
Lemma reader_bind_Ok {A B} (m : reader A) (f : A -> reader B) l a l' :
  m l = (Ok a, l') -> (m ≫= f) l = f a l'.
Proof. intros E. unfold mbind, reader_bind. by rewrite E. Qed.
Lemma reader_bind_inv {A B} (m : reader A) (f : A -> reader B) l b l2 :
  (m ≫= f) l = (Ok b, l2) -> exists a l1, m l = (Ok a, l1) /\ f a l1 = (Ok b, l2).
Proof. unfold mbind, reader_bind. destruct (m l) as [[a| |] l1]; eauto; discriminate. Qed.
Lemma rwrap_Ok {A} pre (m : reader A) l a l' : m l = (Ok a, l') -> rwrap pre m l = (Ok a, l').
Proof. intros E. unfold rwrap. by rewrite E. Qed.

(** Readers that never panic, and readers that also consume input on success. *)
Definition safe {A} (m : reader A) : Prop := forall l s, fst (m l) <> Panic s.
Definition shrinks {A} (m : reader A) : Prop :=
  forall l a l', m l = (Ok a, l') -> (length l' < length l)%nat.
Definition shrinksLe {A} (m : reader A) : Prop :=
  forall l a l', m l = (Ok a, l') -> (length l' <= length l)%nat.

Lemma safe_bind {A B} (m : reader A) (f : A -> reader B) :
  safe m -> (forall a, safe (f a)) -> safe (m ≫= f).
Proof.
  intros Hm Hf l s. unfold mbind, reader_bind. specialize (Hm l).
  destruct (m l) as [[a|e|p] l']; simpl in *; [apply Hf|congruence|by destruct (Hm p)].
Qed.
Lemma safe_ret {A} (a : A) : safe (mret a).
Proof. intros l s. done. Qed.
Lemma safe_rfail {A} e : safe (@rfail A e).
Proof. intros l s. done. Qed.
Lemma safe_rwrap {A} pre (m : reader A) : safe m -> safe (rwrap pre m).
Proof.
  intros Hm l s. unfold rwrap. specialize (Hm l). destruct (m l) as [[] l']; simpl in *; congruence.
Qed.
Lemma safe_readFull n : safe (readFull n).
Proof. intros l s. unfold readFull. destruct (_ <=? _); [done|]. by destruct l. Qed.
Lemma safe_uvarint n i x s : safe (readUvarintLoop n i x s).
Proof.
  revert i x s. induction n as [|n IH]; intros i x s l p; [done|]. cbn [readUvarintLoop].
  destruct l as [|b l]; [done|]. destruct (_ <? 128); [|apply IH]. by destruct (_ && _).
Qed.
Lemma safe_readVarint : safe readVarint.
Proof. apply safe_bind; [apply safe_uvarint|intros; apply safe_ret]. Qed.
Lemma safe_readBytes : safe readBytes.
Proof.
  apply safe_bind; [apply safe_readVarint|]. intros n.
  destruct (_ =? -1); [apply safe_rfail|]. destruct (_ || _); [apply safe_rfail|].
  destruct (n =? 0); [apply safe_ret|apply safe_readFull].
Qed.
Lemma safe_readString : safe readString.
Proof. apply safe_bind; [apply safe_readBytes|intros; apply safe_ret]. Qed.

Lemma shrinks_le {A} (m : reader A) : shrinks m -> shrinksLe m.
Proof. intros H l a l' E. apply H in E. lia. Qed.
Lemma shrinksLe_ret {A} (a : A) : shrinksLe (mret a).
Proof. intros l b l' [= _ ->]. lia. Qed.
Lemma shrinksLe_rfail {A} e : shrinksLe (@rfail A e).
Proof. intros l a l' [=]. Qed.
Lemma shrinksLe_readFull n : shrinksLe (readFull n).
Proof.
  intros l a l'. unfold readFull. destruct (_ <=? _); [|by destruct l].
  intros [= _ <-]. rewrite length_drop. lia.
Qed.
Lemma shrinks_bind {A B} (m : reader A) (f : A -> reader B) :
  shrinks m -> (forall a, shrinksLe (f a)) -> shrinks (m ≫= f).
Proof.
  intros Hm Hf l b l2 (a & l1 & E1 & E2)%reader_bind_inv.
  apply Hm in E1. apply Hf in E2. lia.
Qed.
Lemma shrinksLe_bind {A B} (m : reader A) (f : A -> reader B) :
  shrinksLe m -> (forall a, shrinksLe (f a)) -> shrinksLe (m ≫= f).
Proof.
  intros Hm Hf l b l2 (a & l1 & E1 & E2)%reader_bind_inv.
  apply Hm in E1. apply Hf in E2. lia.
Qed.
Lemma shrinks_uvarint n i x s : shrinks (readUvarintLoop n i x s).
Proof.
  revert i x s. induction n as [|n IH]; intros i x s l a l'; [done|]. cbn [readUvarintLoop].
  destruct l as [|b l]; [done|]. destruct (_ <? 128).
  - destruct (_ && _); [done|]. intros [= _ <-]. simpl. lia.
  - intros E%IH. simpl. lia.
Qed.
Lemma shrinks_readVarint : shrinks readVarint.
Proof. apply shrinks_bind; [apply shrinks_uvarint|intros; apply shrinksLe_ret]. Qed.
Lemma shrinks_readBytes : shrinks readBytes.
Proof.
  apply shrinks_bind; [apply shrinks_readVarint|]. intros n.
  destruct (_ =? -1); [apply shrinksLe_rfail|]. destruct (_ || _); [apply shrinksLe_rfail|].
  destruct (n =? 0); [apply shrinksLe_ret|apply shrinksLe_readFull].
Qed.
Lemma shrinks_readString : shrinks readString.
Proof. apply shrinks_bind; [apply shrinks_readBytes|intros; apply shrinksLe_ret]. Qed.

Create HintDb readers.
#[export] Hint Resolve safe_bind safe_ret safe_rfail safe_rwrap safe_readFull safe_readVarint
  safe_readBytes safe_readString shrinks_bind shrinksLe_bind shrinksLe_ret shrinksLe_rfail
  shrinksLe_readFull shrinks_readVarint shrinks_readBytes shrinks_readString shrinks_le : readers.

(** The counted loop neither panics nor runs out of fuel when its body is safe
    and consumes input: at most one iteration per remaining byte succeeds. *)
Lemma readLoop_total {A} fuel n (body : A -> reader A) a l s :
  (forall a, safe (body a)) -> (forall a, shrinks (body a)) -> (length l < fuel)%nat ->
  fst (readLoop fuel n body a l) <> Panic s.
Proof.
  intros Hs Hc. revert n a l. induction fuel as [|f IH]; intros n a l Hl; [lia|].
  cbn [readLoop]. destruct (n <=? 0); [done|]. unfold mbind, reader_bind.
  pose proof (Hs a l) as Hb. destruct (body a l) as [[a'|e|p] l'] eqn:E; simpl in *.
  - apply IH. apply Hc in E. lia.
  - congruence.
  - by destruct (Hb p).
Qed.
Lemma safe_readCount {A} n (body : A -> reader A) a :
  (forall a, safe (body a)) -> (forall a, shrinks (body a)) -> safe (readCount n body a).
Proof. intros Hs Hc l s. apply readLoop_total; auto. Qed.
#[export] Hint Resolve safe_readCount : readers.

Lemma readLoop_enc {A B} (body : A -> reader A) (enc : B -> list byte) (upd : A -> B -> A)
    xs fuel a r :
  (forall x a r, x ∈ xs -> body a (enc x ++ r) = (Ok (upd a x), r)) ->
  (length xs < fuel)%nat ->
  readLoop fuel (zlen xs) body a (concat (map enc xs) ++ r) = (Ok (foldl upd a xs), r).
Proof.
  revert fuel a. induction xs as [|x xs IH]; intros [|fuel] a Hb Hf; simpl in Hf; try lia;
    [done|]. cbn [readLoop map concat foldl].
  replace (zlen (x :: xs)) with (zlen xs + 1) by (unfold zlen; simpl; lia).
  pose proof (zlen_nonneg xs). destruct (Z.leb_spec (zlen xs + 1) 0); [lia|].
  rewrite <- app_assoc. rewrite (reader_bind_Ok _ _ _ _ _ (Hb x a _ (list_elem_of_here _ _))).
  rewrite Z.add_simpl_r. apply IH; [|lia]. intros y b s Hy. apply Hb. by constructor.
Qed.

Lemma readCount_enc {A B} (body : A -> reader A) (enc : B -> list byte) (upd : A -> B -> A)
    xs a r :
  (forall x a r, x ∈ xs -> body a (enc x ++ r) = (Ok (upd a x), r)) ->
  (forall x, (0 < length (enc x))%nat) ->
  readCount (zlen xs) body a (concat (map enc xs) ++ r) = (Ok (foldl upd a xs), r).
Proof.
  intros Hb He. unfold readCount. apply readLoop_enc; [done|].
  assert (length xs <= length (concat (map enc xs)))%nat.
  { clear Hb. induction xs as [|x xs IH]; simpl; [lia|]. rewrite length_app.
    specialize (He x). lia. }
  rewrite length_app. lia.
Qed.

(** ** Readers consume a prefix of their input

    Whatever a reader returns, what it leaves is a suffix of what it was given;
    and a result depends on the bytes in front of that suffix alone: on the same
    prefix followed by anything else the reader returns the same and leaves the
    rest. *)
Definition suffixing {A} (m : reader A) : Prop := forall l, exists pre, l = pre ++ snd (m l).
Definition prefixed {A} (m : reader A) : Prop :=
  forall l a l', m l = (Ok a, l') -> exists pre, l = pre ++ l' /\ forall r, m (pre ++ r) = (Ok a, r).

Lemma suffixing_bind {A B} (m : reader A) (f : A -> reader B) :
  suffixing m -> (forall a, suffixing (f a)) -> suffixing (m ≫= f).
Proof.
  intros Hm Hf l. unfold mbind, reader_bind. destruct (Hm l) as [pre E].
  destruct (m l) as [[a|e|p] l1]; cbn [snd] in E; [|by exists pre..].
  destruct (Hf a l1) as [pre2 E2]. exists (pre ++ pre2). rewrite <- app_assoc. by rewrite <- E2.
Qed.
Lemma suffixing_const {A} (r : result A) : suffixing (fun l => (r, l)).
Proof. intros l. by exists []. Qed.
Lemma suffixing_ret {A} (a : A) : suffixing (mret a).
Proof. apply suffixing_const. Qed.
Lemma suffixing_rfail {A} e : suffixing (@rfail A e).
Proof. apply suffixing_const. Qed.
Lemma suffixing_rwrap {A} pre (m : reader A) : suffixing m -> suffixing (rwrap pre m).
Proof. intros Hm l. unfold rwrap. specialize (Hm l). by destruct (m l). Qed.
Lemma suffixing_readFull n : suffixing (readFull n).
Proof.
  intros l. unfold readFull. destruct (_ <=? _).
  - exists (take (Z.to_nat n) l). cbn [snd]. by rewrite take_drop.
  - exists l. destruct l; by rewrite app_nil_r.
Qed.
Lemma suffixing_uvarint n i x s : suffixing (readUvarintLoop n i x s).
Proof.
  revert i x s. induction n as [|n IH]; intros i x s l; [by exists []|]. cbn [readUvarintLoop].
  destruct l as [|b l]; [by exists []|].
  destruct (_ <? 128); [destruct (_ && _); by exists [b]|].
  destruct (IH (i + 1) (Z.lor x (u64 (Z.shiftl (Z.land (byte_val b) 127) s))) (s + 7) l)
    as [pre E]. exists (b :: pre). cbn [app]. by rewrite <- E.
Qed.
Lemma suffixing_readVarint : suffixing readVarint.
Proof. apply suffixing_bind; [apply suffixing_uvarint|intros; apply suffixing_ret]. Qed.
Lemma suffixing_readBytes : suffixing readBytes.
Proof.
  apply suffixing_bind; [apply suffixing_readVarint|]. intros n.
  destruct (_ =? -1); [apply suffixing_rfail|]. destruct (_ || _); [apply suffixing_rfail|].
  destruct (n =? 0); [apply suffixing_ret|apply suffixing_readFull].
Qed.
Lemma suffixing_readString : suffixing readString.
Proof. apply suffixing_bind; [apply suffixing_readBytes|intros; apply suffixing_ret]. Qed.
Lemma suffixing_readCount {A} n (body : A -> reader A) a :
  (forall a, suffixing (body a)) -> suffixing (readCount n body a).
Proof.
  intros Hb l. unfold readCount. generalize (S (length l)). intros fuel.
  revert n a l. induction fuel as [|f IH]; intros n a l; cbn [readLoop];
    (destruct (n <=? 0); [by exists []|]); [by exists []|].
  by apply (suffixing_bind (body a) (readLoop f (n - 1) body)); [|intros a' l'; apply IH].
Qed.

Lemma prefixed_bind {A B} (m : reader A) (f : A -> reader B) :
  prefixed m -> (forall a, prefixed (f a)) -> prefixed (m ≫= f).
Proof.
  intros Hm Hf l b l2 (a & l1 & E1 & E2)%reader_bind_inv.
  apply Hm in E1 as (p1 & -> & H1). apply Hf in E2 as (p2 & -> & H2).
  exists (p1 ++ p2). rewrite <- app_assoc. split; [done|]. intros r.
  rewrite <- app_assoc. by rewrite (reader_bind_Ok _ _ _ _ _ (H1 (p2 ++ r))).
Qed.
Lemma prefixed_ret {A} (a : A) : prefixed (mret a).
Proof. intros l b l' [= <- <-]. by exists []. Qed.
Lemma prefixed_rfail {A} e : prefixed (@rfail A e).
Proof. intros l a l' [=]. Qed.
Lemma prefixed_rwrap {A} pre (m : reader A) : prefixed m -> prefixed (rwrap pre m).
Proof.
  intros Hm l a l' E. unfold rwrap in E.
  destruct (m l) as [[b|e|p] l1] eqn:E1; try discriminate. injection E as <- <-.
  apply Hm in E1 as (p1 & -> & H1). exists p1. split; [done|]. intros r. by apply rwrap_Ok.
Qed.
Lemma prefixed_readFull n : prefixed (readFull n).
Proof.
  intros l a l'. unfold readFull. destruct (Z.leb_spec n (zlen l)) as [Hn|]; [|by destruct l].
  intros [= <- <-]. exists (take (Z.to_nat n) l). split; [by rewrite take_drop|]. intros r.
  assert (length (take (Z.to_nat n) l) = Z.to_nat n) as El
    by (rewrite length_take; unfold zlen in Hn; lia).
  assert (n <=? zlen (take (Z.to_nat n) l ++ r) = true) as ->.
  { apply Z.leb_le. rewrite zlen_app. pose proof (zlen_nonneg r). unfold zlen in *. lia. }
  by rewrite take_app_length', drop_app_length'.
Qed.
Lemma prefixed_uvarint n i x s : prefixed (readUvarintLoop n i x s).
Proof.
  revert i x s. induction n as [|n IH]; intros i x s l a l'; [done|]. cbn [readUvarintLoop].
  destruct l as [|b l]; [done|]. destruct (byte_val b <? 128) eqn:Eb.
  - destruct (_ && _) eqn:Eo; [done|]. intros [= <- <-]. exists [b]. split; [done|]. intros r.
    cbn [app readUvarintLoop]. by rewrite Eb, Eo.
  - intros (p1 & -> & H1)%IH. exists (b :: p1). split; [done|]. intros r.
    cbn [app readUvarintLoop]. by rewrite Eb.
Qed.
Lemma prefixed_readVarint : prefixed readVarint.
Proof. apply prefixed_bind; [apply prefixed_uvarint|intros; apply prefixed_ret]. Qed.
Lemma prefixed_readBytes : prefixed readBytes.
Proof.
  apply prefixed_bind; [apply prefixed_readVarint|]. intros n.
  destruct (_ =? -1); [apply prefixed_rfail|]. destruct (_ || _); [apply prefixed_rfail|].
  destruct (n =? 0); [apply prefixed_ret|apply prefixed_readFull].
Qed.
Lemma prefixed_readString : prefixed readString.
Proof. apply prefixed_bind; [apply prefixed_readBytes|intros; apply prefixed_ret]. Qed.

(** The fuel of the counted loop is the length of the whole input, which the
    bytes behind the prefix change: any fuel above the prefix gives the same. *)
Lemma readLoop_prefixed {A} fuel n (body : A -> reader A) a l b l' :
  (forall a, prefixed (body a)) -> (forall a, shrinks (body a)) ->
  readLoop fuel n body a l = (Ok b, l') ->
  exists pre, l = pre ++ l' /\ forall r fuel', (length pre < fuel')%nat ->
    readLoop fuel' n body a (pre ++ r) = (Ok b, r).
Proof.
  intros Hp Hs. revert n a l. induction fuel as [|f IH]; intros n a l; cbn [readLoop];
    destruct (n <=? 0) eqn:En; try discriminate.
  - intros [= <- <-]. exists []. split; [done|]. intros r [|f']; cbn [readLoop]; by rewrite En.
  - intros [= <- <-]. exists []. split; [done|]. intros r [|f']; cbn [readLoop]; by rewrite En.
  - intros (a1 & l1 & E1 & E2)%reader_bind_inv. pose proof (Hs a _ _ _ E1) as Hlt.
    apply Hp in E1 as (p1 & -> & H1). apply IH in E2 as (p2 & -> & H2).
    exists (p1 ++ p2). rewrite <- app_assoc. split; [done|].
    rewrite !length_app in *. intros r [|f'] Hf; [lia|].
    cbn [readLoop]. rewrite En, <- app_assoc. rewrite (reader_bind_Ok _ _ _ _ _ (H1 (p2 ++ r))).
    apply H2. lia.
Qed.
Lemma prefixed_readCount {A} n (body : A -> reader A) a :
  (forall a, prefixed (body a)) -> (forall a, shrinks (body a)) -> prefixed (readCount n body a).
Proof.
  intros Hp Hs l b l' E. apply readLoop_prefixed in E as (pre & -> & H); [|done..].
  exists pre. split; [done|]. intros r. apply H. rewrite length_app. lia.
Qed.

(** The nil token is one varint, whatever follows it. *)
Lemma readString_nil_inv l e l' :
  readString l = (Err e, l') -> errors_Is "coders: nil token" e = true ->
  exists pre, l = pre ++ l' /\ forall r, readString (pre ++ r) = (Err ErrNilToken, r).
Proof.
  intros E He. unfold readString, readBytes in E. unfold mbind, reader_bind in E.
  destruct (readVarint l) as [[n|e1|p] l1] eqn:Ev; [|injection E as -> ->|discriminate].
  - destruct (Z.eqb_spec n (-1)) as [->|Hn].
    + cbn in E. injection E as <- <-. apply prefixed_readVarint in Ev as (pre & -> & H).
      exists pre. split; [done|]. intros r. unfold readString, readBytes, mbind, reader_bind.
      by rewrite H.
    + exfalso. destruct ((n <? -1) || _); [cbn in E; injection E as <- _; done|].
      destruct (n =? 0); [discriminate|]. unfold readFull in E.
      destruct (n <=? zlen l1); [discriminate|]. destruct l1; injection E as <- _; done.
  - exfalso. revert Ev. unfold readVarint, readUvarint, mbind, reader_bind.
    assert (forall k i x s l, forall e2 l2, readUvarintLoop k i x s l = (Err e2, l2) ->
      errors_Is "coders: nil token" e2 = false) as Hu.
    { induction k as [|k IH]; intros i x s m e2 l2; [by intros [= <- _]|].
      cbn [readUvarintLoop]. destruct m as [|c m]; [intros [= <- _]; by destruct (0 <? i)|].
      destruct (_ <? 128); [destruct (_ && _); [by intros [= <- _]|done]|apply IH]. }
    destruct (readUvarintLoop _ 0 0 0 l) as [[?|?|?] ?] eqn:Eu; intros [= -> ->].
    apply Hu in Eu. congruence.
Qed.
#[export] Hint Resolve suffixing_bind suffixing_ret suffixing_rfail suffixing_rwrap
  suffixing_readFull suffixing_readVarint suffixing_readBytes suffixing_readString
  suffixing_readCount prefixed_bind prefixed_ret prefixed_rfail prefixed_rwrap
  prefixed_readFull prefixed_readVarint prefixed_readBytes prefixed_readString : readers.

(** Rebuilding a map by inserting the entries of any listing of it. *)
Lemma foldl_insert_listing {V} (m : gmap string V) (l : list (string * V)) :
  l ≡ₚ map_to_list m -> foldl (fun m kv => <[fst kv := snd kv]> m) ∅ l = m.
Proof.
  intros Hp.
  assert (NoDup l.*1) as Hd by (rewrite Hp; apply NoDup_fst_map_to_list).
  assert (forall k : gmap string V, NoDup l.*1 ->
    foldl (fun m kv => <[fst kv := snd kv]> m) k l = (list_to_map l : gmap string V) ∪ k) as Hf.
  { clear. induction l as [|[k v] l IH]; intros m0 Hd; simpl.
    - by rewrite (left_id_L ∅ (∪)).
    - simpl in Hd. apply NoDup_cons in Hd as [Hk Hd]. rewrite IH by done. simpl.
      rewrite <- insert_union_r, insert_union_l; [done|].
      by apply not_elem_of_list_to_map_1. }
  rewrite (Hf ∅ Hd), (right_id_L ∅ (∪)).
  rewrite <- (list_to_map_to_list m). by apply list_to_map_proper.
Qed.

(** ** Sorted keys *)
Lemma bytesLe_refl l : bytesLe l l = true.
Proof. induction l as [|a l IH]; simpl; [done|]. by rewrite Z.ltb_irrefl, Z.eqb_refl. Qed.
Lemma bytesLe_total l k : bytesLe l k = true \/ bytesLe k l = true.
Proof.
  revert k. induction l as [|a l IH]; intros [|b k]; simpl; auto.
  destruct (Z.ltb_spec (byte_val a) (byte_val b)); auto.
  destruct (Z.ltb_spec (byte_val b) (byte_val a)); auto.
  rewrite (proj2 (Z.eqb_eq _ _)), (proj2 (Z.eqb_eq (byte_val b) _)) by lia. apply IH.
Qed.
Lemma bytesLe_antisym l k : bytesLe l k = true -> bytesLe k l = true -> l = k.
Proof.
  revert k. induction l as [|a l IH]; intros [|b k]; simpl; try done.
  destruct (Z.ltb_spec (byte_val a) (byte_val b)), (Z.ltb_spec (byte_val b) (byte_val a)),
    (Z.eqb_spec (byte_val a) (byte_val b)), (Z.eqb_spec (byte_val b) (byte_val a));
    try done; try lia. intros H1 H2. f_equal; [by apply byte_val_inj|auto].
Qed.
Lemma bytesLe_trans l k n : bytesLe l k = true -> bytesLe k n = true -> bytesLe l n = true.
Proof.
  revert k n. induction l as [|a l IH]; intros [|b k] [|c n]; simpl; try done.
  destruct (Z.ltb_spec (byte_val a) (byte_val b)), (Z.ltb_spec (byte_val b) (byte_val c)),
    (Z.ltb_spec (byte_val a) (byte_val c)), (Z.eqb_spec (byte_val a) (byte_val b)),
    (Z.eqb_spec (byte_val b) (byte_val c)), (Z.eqb_spec (byte_val a) (byte_val c));
    try done; try lia. apply IH.
Qed.
#[export] Instance strLe_total : Total strLe.
Proof. intros a b. apply bytesLe_total. Qed.
#[export] Instance strLe_trans : Transitive strLe.
Proof. intros a b c. apply bytesLe_trans. Qed.
#[export] Instance strLe_antisym : AntiSymm (=) strLe.
Proof.
  intros a b H1 H2. rewrite <- (str_bytes a), <- (str_bytes b). f_equal.
  by apply bytesLe_antisym.
Qed.

Lemma sortedKeys_perm {V} `{MapOrder} (m : gmap string V) :
  sortedKeys m ≡ₚ (map_to_list m).*1.
Proof.
  unfold sortedKeys, sortStrings. rewrite merge_sort_Permutation.
  apply fmap_Permutation, map_range_perm.
Qed.
(** The sorted keys do not depend on the iteration order. *)
Lemma sortedKeys_unique {V} (o1 o2 : MapOrder) (m : gmap string V) :
  @sortedKeys V o1 m = @sortedKeys V o2 m.
Proof.
  apply (StronglySorted_unique strLe).
  - apply StronglySorted_merge_sort; apply _.
  - apply StronglySorted_merge_sort; apply _.
  - by rewrite (@sortedKeys_perm V o1), (@sortedKeys_perm V o2).
Qed.
(** Looking each sorted key up lists the map. *)
Lemma sortedKeys_listing {V} `{MapOrder} (d : V) (m : gmap string V) :
  map (fun k => (k, default d (m !! k))) (sortedKeys m) ≡ₚ map_to_list m.
Proof.
  rewrite sortedKeys_perm, map_map.
  assert (forall l : list (string * V), (forall k v, (k, v) ∈ l -> m !! k = Some v) ->
    map (fun x => (fst x, default d (m !! fst x))) l = l) as Hl.
  { induction l as [|[k v] l IH]; intros Hm; [done|]. simpl. f_equal.
    - rewrite (Hm k v) by constructor. done.
    - apply IH. intros k' v' Hin. apply Hm. by constructor. }
  rewrite Hl; [done|]. intros k v. apply elem_of_map_to_list.
Qed.
