(* ===== verification/Coders.v ===== *)
(** * Binary coders

    Models [internal/beam/core/coders.go], [coders_helpers.go] and the
    [MetricItem] coder of [metrics_combiner.go]: encoders over any [Writer],
    decoders as readers, and the Beam adapters over [bytes.Buffer]. *)
From S2P Require Import Prelude GoStr Float64 Schema Intern RecordModel Metrics Wire.

(** ** Null masks *)

(** [mask[i/8] |= 1 << (i % 8)] *)
Definition maskSet (mask : list byte) (i : Z) : list byte :=
  alter (fun b => byte_of (Z.lor (byte_val b) (Z.shiftl 1 (i mod 8)))) (Z.to_nat (i / 8)) mask.
Fixpoint maskLoop (i : Z) (values : list FieldValue) (mask : list byte) : list byte :=
  match values with
  | [] => mask
  | fv :: vs => maskLoop (i + 1) vs (if IsNull fv then maskSet mask i else mask)
  end.
Definition maskLen (n : Z) : Z := (n + 7) / 8.

(** The mask buffer is zeroed whether it lives on the stack or comes from the pool. *)
Definition nullMask (values : list FieldValue) : list byte :=
  maskLoop 0 values (replicate (Z.to_nat (maskLen (zlen values))) "000"%char).

(** [mask[i/8] & (1 << (i % 8)) != 0]; indexing out of range panics. *)
Definition maskBit (mask : list byte) (i : Z) : option bool :=
  b ← mask !! Z.to_nat (i / 8);
  Some (negb (Z.land (byte_val b) (Z.shiftl 1 (i mod 8)) =? 0)).

Definition readNullMaskWithBuf (n : Z) : reader (list byte) :=
  rwrap "coders: nullMask: " (readFull (maskLen n)).

(** ** Type tags *)
Definition dataTypeToByte (dt : DataType) : Z :=
  if dt =s TypeInt64 then 1
  else if dt =s TypeFloat64 then 2
  else if dt =s TypeBool then 3
  else if dt =s TypeTimestamp then 4
  else if dt =s TypeBytes then 5
  else if dt =s TypeDate then 6
  else if dt =s TypeDecimal then 7
  else if dt =s TypeJSON then 8
  else 0.
Definition byteToDataType (b : Z) : DataType :=
  if b =? 1 then TypeInt64
  else if b =? 2 then TypeFloat64
  else if b =? 3 then TypeBool
  else if b =? 4 then TypeTimestamp
  else if b =? 5 then TypeBytes
  else if b =? 6 then TypeDate
  else if b =? 7 then TypeDecimal
  else if b =? 8 then TypeJSON
  else TypeString.

(** ** Encoders *)
Section Encode.
Context {W : Type} `{Writer W} `{MapOrder}.

Definition writeNullMask (w : W) (values : list FieldValue) : result W :=
  w_write w (nullMask values).

Definition encodeFieldValue (w : W) (fv : FieldValue) : result W :=
  let t := Type_ fv in
  if t =s TypeInt64 then writeVarint w (Int64Val fv)
  else if t =s TypeFloat64 then w_write w (putBE 8 (NumVal fv))
  else if t =s TypeBool then w_write w [byte_of (if BoolVal fv then 1 else 0)]
  else if t =s TypeTimestamp then writeVarint w (i64 (NumVal fv))
  else if t =s TypeBytes then writeBytes w (BytesVal fv)
  else if t =s TypeDecimal then
    w ← writeVarint w (Int64Val fv); writeVarint w (Scale fv)
  else writeString w (StrVal fv).

Fixpoint writeFieldValues (w : W) (values : list FieldValue) : result W :=
  match values with
  | [] => Ok w
  | fv :: vs =>
      if IsNull fv then writeFieldValues w vs
      else
        w ← w_write w [byte_of (dataTypeToByte (Type_ fv))];
        w ← encodeFieldValue w fv;
        writeFieldValues w vs
  end.

Fixpoint writePairs (w : W) (kvs : list (string * string)) : result W :=
  match kvs with
  | [] => Ok w
  | (k, v) :: kvs' => w ← writeString w k; w ← writeString w v; writePairs w kvs'
  end.
Definition writeAuditFields (w : W) (fields : gmap string string) : result W :=
  w ← writeVarint w (Z.of_nat (size fields)); writePairs w (map_range fields).

(** A nil record is the varint -1. *)
Definition EncodeGenericRecord (rec : option GenericRecord) (w : W) : result W :=
  match rec with
  | None => writeVarint w (-1)
  | Some rec =>
      w ← writeString w (SchemaID rec);
      w ← writeVarint w (zlen (Values rec));
      w ← writeNullMask w (Values rec);
      w ← writeFieldValues w (Values rec);
      writeAuditFields w (AuditFields rec)
  end.

Fixpoint writeStrings (w : W) (ss : list string) : result W :=
  match ss with [] => Ok w | s :: ss' => w ← writeString w s; writeStrings w ss' end.
Fixpoint writeVarints (w : W) (vs : list Z) : result W :=
  match vs with [] => Ok w | v :: vs' => w ← writeVarint w v; writeVarints w vs' end.

Definition EncodeDeadLetterRecord (dlq : option DeadLetterRecord) (w : W) : result W :=
  match dlq with
  | None => writeVarint w (-1)
  | Some d =>
      w ← writeStrings w [RawPayload d; ErrorMessage d; FailedColumn d; SourceFile d];
      writeVarint w (i64 (FailedAt d))
  end.

(** [m[k]] of a missing key is the zero value. *)
Fixpoint writeKeysInt64 (w : W) (m : gmap string Z) (keys : list string) : result W :=
  match keys with
  | [] => Ok w
  | k :: ks => w ← writeString w k; w ← writeVarint w (default 0 (m !! k)); writeKeysInt64 w m ks
  end.
Definition writeMapStringInt64 (w : W) (m : gmap string Z) : result W :=
  w ← writeVarint w (Z.of_nat (size m)); writeKeysInt64 w m (sortedKeys m).

Fixpoint writeKeysOrigin (w : W) (m : gmap string OriginMetric) (keys : list string) : result W :=
  match keys with
  | [] => Ok w
  | k :: ks =>
      let v := default zeroOriginMetric (m !! k) in
      w ← writeString w k;
      w ← writeVarint w (TotalRead v);
      w ← writeVarint w (Valid v);
      w ← writeVarint w (DLQ v);
      writeKeysOrigin w m ks
  end.
Definition writeOriginMetrics (w : W) (m : gmap string OriginMetric) : result W :=
  w ← writeVarint w (Z.of_nat (size m)); writeKeysOrigin w m (sortedKeys m).

Definition EncodePipelineMetrics (m : PipelineMetrics) (w : W) : result W :=
  w ← writeString w (pm_PipelineID m);
  w ← writeString w (pm_RunID m);
  w ← writeVarints w [TotalRecordsRead m; RowCount m; RowsWritten m; DeadLetterCount m;
                      BytesWritten m; FilesWritten m; APICallsMade m; ExecutionDurationMs m];
  w ← writeString w (Checksum m);
  w ← writeMapStringInt64 w (mapOf (ColumnNullCounts m));
  w ← writeMapStringInt64 w (mapOf (InvalidValueCounts m));
  writeOriginMetrics w (mapOf (OriginMetrics m)).
End Encode.

(** [MetricItem] and its coder ([metrics_combiner.go]). *)
Record MetricItem := mkMetricItem { mi_Origin : string; IsDLQ : bool }.
Definition EncodeMetricItem {W} `{Writer W} (v : MetricItem) (w : W) : result W :=
  w ← w_write w [byte_of (if IsDLQ v then 1 else 0)]; writeString w (mi_Origin v).

(** ** Decoders *)

(** [decodeFieldValue] fills [fv], whose other fields keep their values. *)
Definition decodeFieldValue (fv : FieldValue) (dt : DataType) : reader FieldValue :=
  let num (n s : Z) := mkFieldValue dt (IsNull fv) s n (StrVal fv) in
  let text (t : string) := mkFieldValue dt (IsNull fv) (Scale fv) (NumVal fv) t in
  if dt =s TypeInt64 then v ← readVarint; mret (num (u64 v) (Scale fv))
  else if dt =s TypeFloat64 then b ← readFull 8; mret (num (getBE b) (Scale fv))
  else if dt =s TypeBool then
    b ← readFull 1;
    mret (num (match b with c :: _ => if negb (byte_val c =? 0) then 1 else 0 | [] => 0 end)
            (Scale fv))
  else if dt =s TypeTimestamp then v ← readVarint; mret (num (u64 v) (Scale fv))
  else if dt =s TypeBytes then b ← readBytes; mret (text (str b))
  else if dt =s TypeDecimal then
    m ← readVarint; s ← readVarint; mret (num (u64 m) (i32 s))
  else s ← readString; mret (text s).

Definition setNullFlag (fv : FieldValue) : FieldValue :=
  mkFieldValue (Type_ fv) true (Scale fv) (NumVal fv) (StrVal fv).

(** The loop [for i := range values] with the current index [i]. *)
Fixpoint readFieldValues (i : Z) (values : list FieldValue) (mask : list byte)
    : reader (list FieldValue) :=
  match values with
  | [] => mret []
  | fv :: vs =>
      match maskBit mask i with
      | None => fun l => (Panic "index out of range", l)
      | Some true => vs' ← readFieldValues (i + 1) vs mask; mret (setNullFlag fv :: vs')
      | Some false =>
          b ← rwrap ("coders: fieldType[" +:+ FormatInt i +:+ "]: ") (readFull 1);
          let dt := byteToDataType (match b with c :: _ => byte_val c | [] => 0 end) in
          fv' ← rwrap ("coders: field[" +:+ FormatInt i +:+ "]: ") (decodeFieldValue fv dt);
          vs' ← readFieldValues (i + 1) vs mask;
          mret (fv' :: vs')
      end
  end.

Definition readAuditEntry (fields : gmap string string) : reader (gmap string string) :=
  k ← readString; v ← readString; mret (<[k := v]> fields).
Definition readAuditFields (fields : gmap string string) : reader (gmap string string) :=
  n ← rwrap "coders: auditCount: " readVarint; readCount n readAuditEntry fields.

(** The record after its schema id. *)
Definition decodeRecordBody (schemaID : string) : reader (option GenericRecord) :=
  n64 ← rwrap "coders: fieldCount: " readVarint;
  if n64 =? -1 then mret None
  else if (n64 <? 0) || (DefaultMaxRecordFields <? n64) then
    rfail (Errorf ("coders: invalid field count " +:+ FormatInt n64 +:+ " (max allowed: "
                   +:+ FormatInt DefaultMaxRecordFields +:+ ")") [])
  else
    mask ← readNullMaskWithBuf n64;
    let rec := NewGenericRecord schemaID (Z.to_nat n64) in
    values ← readFieldValues 0 (Values rec) mask;
    audit ← readAuditFields (AuditFields rec);
    mret (Some (mkGenericRecord schemaID values audit)).

Definition DecodeGenericRecord : reader (option GenericRecord) := fun l =>
  match readString l with
  | (Panic s, l) => (Panic s, l)
  | (Err e, l) =>
      if errors_Is "coders: nil token" e then (Ok None, l)
      else (Err (Errorf ("coders: schemaID: " +:+ Error e) [e]), l)
  | (Ok schemaID, l) => decodeRecordBody schemaID l
  end.

Definition DecodeDeadLetterRecord : reader (option DeadLetterRecord) := fun l =>
  match readString l with
  | (Panic s, l) => (Panic s, l)
  | (Err e, l) => if errors_Is "coders: nil token" e then (Ok None, l) else (Err e, l)
  | (Ok raw, l) =>
      (msg ← readString; col ← readString; src ← readString;
       ns ← readVarint;
       mret (Some (mkDeadLetterRecord raw msg col src ns))) l
  end.

Fixpoint readVarints (n : nat) : reader (list Z) :=
  match n with O => mret [] | S n' => v ← readVarint; vs ← readVarints n'; mret (v :: vs) end.

Definition readMapEntry (m : gmap string Z) : reader (gmap string Z) :=
  k ← readString; v ← readVarint; mret (<[k := v]> m).
Definition readMapStringInt64 : reader (gmap string Z) :=
  n ← readVarint; readCount n readMapEntry ∅.

Definition readOriginEntry (m : gmap string OriginMetric) : reader (gmap string OriginMetric) :=
  k ← readString; total ← readVarint; valid ← readVarint; dlq ← readVarint;
  mret (<[k := mkOriginMetric total valid dlq]> m).
Definition readOriginMetrics : reader (gmap string OriginMetric) :=
  n ← readVarint; readCount n readOriginEntry ∅.

Definition DecodePipelineMetrics : reader PipelineMetrics :=
  pipeID ← readString;
  runID ← readString;
  vals ← readVarints 8;
  checksum ← readString;
  nullCounts ← readMapStringInt64;
  invalidCounts ← readMapStringInt64;
  originMetrics ← readOriginMetrics;
  let v i := default 0 (vals !! i) in
  mret (mkPipelineMetrics pipeID runID (v 0%nat) (v 1%nat) (v 2%nat) (v 3%nat) (v 4%nat) (v 5%nat)
          (v 6%nat) checksum (v 7%nat) f0 f0 None (Some originMetrics) (Some nullCounts)
          (Some invalidCounts) (Some ∅)).

(** An [ErrNilToken] origin decodes to the empty string. *)
Definition readOrigin (isDLQ : bool) : reader MetricItem := fun l =>
  match readString l with
  | (Ok o, l') => (Ok (mkMetricItem o isDLQ), l')
  | (Err e, l') =>
      if errors_Is "coders: nil token" e then (Ok (mkMetricItem "" isDLQ), l') else (Err e, l')
  | (Panic s, l') => (Panic s, l')
  end.
Definition DecodeMetricItem : reader MetricItem :=
  b ← readFull 1;
  readOrigin (match b with c :: _ => byte_val c =? 1 | [] => false end).

(** ** Beam coder adapters: over an empty buffer, and dereferencing the result. *)
Definition encGenericRecord `{MapOrder} (v : GenericRecord) : result (list byte) :=
  EncodeGenericRecord (Some v) [].
Definition decGenericRecord (data : list byte) : result GenericRecord :=
  match fst (DecodeGenericRecord data) with
  | Ok (Some r) => Ok r
  | Ok None => Panic "nil pointer dereference"
  | Err e => Err e
  | Panic s => Panic s
  end.
Definition encGenericRecordPtr `{MapOrder} (rec : option GenericRecord) : result (list byte) :=
  EncodeGenericRecord rec [].
Definition decGenericRecordPtr (data : list byte) : result (option GenericRecord) :=
  fst (DecodeGenericRecord data).
Definition encDeadLetterRecord (v : DeadLetterRecord) : result (list byte) :=
  EncodeDeadLetterRecord (Some v) [].
Definition decDeadLetterRecord (data : list byte) : result DeadLetterRecord :=
  match fst (DecodeDeadLetterRecord data) with
  | Ok (Some r) => Ok r
  | Ok None => Panic "nil pointer dereference"
  | Err e => Err e
  | Panic s => Panic s
  end.
Definition encDeadLetterRecordPtr (v : option DeadLetterRecord) : result (list byte) :=
  EncodeDeadLetterRecord v [].
Definition decDeadLetterRecordPtr (data : list byte) : result (option DeadLetterRecord) :=
  fst (DecodeDeadLetterRecord data).
Definition encMetricItem (v : MetricItem) : result (list byte) := EncodeMetricItem v [].
Definition decMetricItem (data : list byte) : result MetricItem := fst (DecodeMetricItem data).

Example roundtrip_ex :
  (b ← encGenericRecordPtr (Some sampleRecord); decGenericRecordPtr b)
  = Ok (Some (mkGenericRecord "file" [int64Value 7; decimalValue (-1999) 2] ∅)).
Proof. vm_compute. reflexivity. Qed.
Example nil_ex : (b ← encGenericRecordPtr None; decGenericRecordPtr b) = Ok None.
Proof. vm_compute. reflexivity. Qed.

(** ** What the encoders put in a buffer *)
Definition encField (fv : FieldValue) : list byte :=
  match encodeFieldValue [] fv with Ok b => b | _ => [] end.
Definition encValue (fv : FieldValue) : list byte :=
  if IsNull fv then [] else byte_of (dataTypeToByte (Type_ fv)) :: encField fv.
Definition encPair (kv : string * string) : list byte := encString (fst kv) ++ encString (snd kv).
Definition encAudit `{MapOrder} (m : gmap string string) : list byte :=
  PutVarint (Z.of_nat (size m)) ++ concat (map encPair (map_range m)).
Definition encRecord `{MapOrder} (r : GenericRecord) : list byte :=
  encString (SchemaID r) ++ PutVarint (zlen (Values r)) ++ nullMask (Values r)
    ++ concat (map encValue (Values r)) ++ encAudit (AuditFields r).

Lemma encodeFieldValue_Buffer w fv : encodeFieldValue w fv = Ok (w ++ encField fv).
Proof.
  unfold encField, encodeFieldValue. eqb_cases;
    rewrite ?writeBytes_Buffer, ?writeString_Buffer, ?writeVarint_Buffer; try done.
  simpl. rewrite !writeVarint_Buffer. by rewrite app_assoc.
Qed.

Lemma writeFieldValues_Buffer w vs :
  writeFieldValues w vs = Ok (w ++ concat (map encValue vs)).
Proof.
  revert w. induction vs as [|v vs IH]; intros w; cbn [writeFieldValues map concat].
  { by rewrite app_nil_r. }
  unfold encValue at 1. destruct (IsNull v); [apply IH|].
  cbn [mbind result_bind w_write Buffer]. rewrite encodeFieldValue_Buffer.
  cbn [mbind result_bind]. rewrite IH. by rewrite <- !app_assoc.
Qed.

Lemma writePairs_Buffer w kvs : writePairs w kvs = Ok (w ++ concat (map encPair kvs)).
Proof.
  revert w. induction kvs as [|[k v] kvs IH]; intros w; cbn [writePairs map concat].
  { by rewrite app_nil_r. }
  rewrite writeString_Buffer. cbn [mbind result_bind]. rewrite writeString_Buffer.
  cbn [mbind result_bind]. rewrite IH. unfold encPair. simpl. by rewrite <- !app_assoc.
Qed.

Lemma EncodeGenericRecord_Buffer `{MapOrder} r w :
  EncodeGenericRecord (Some r) w = Ok (w ++ encRecord r).
Proof.
  unfold EncodeGenericRecord. rewrite writeString_Buffer. cbn [mbind result_bind].
  rewrite writeVarint_Buffer. cbn [mbind result_bind]. unfold writeNullMask.
  cbn [w_write Buffer mbind result_bind]. rewrite writeFieldValues_Buffer.
  cbn [mbind result_bind]. unfold writeAuditFields. rewrite writeVarint_Buffer.
  cbn [mbind result_bind]. rewrite writePairs_Buffer. unfold encRecord, encAudit.
  by rewrite <- !app_assoc.
Qed.

(** ** Masks *)
Lemma testbit_land b k : 0 <= k -> negb (Z.land b (Z.shiftl 1 k) =? 0) = Z.testbit b k.
Proof.
  intros Hk. rewrite Z.shiftl_1_l. destruct (Z.testbit b k) eqn:E.
  - destruct (Z.eqb_spec (Z.land b (2 ^ k)) 0) as [H|]; [|done]. exfalso.
    apply (f_equal (fun z => Z.testbit z k)) in H.
    rewrite Z.land_spec, E, Z.pow2_bits_true, Z.testbit_0_l in H by lia. done.
  - assert (Z.land b (2 ^ k) = 0) as ->; [|done].
    apply Z.bits_inj_0. intros i. rewrite Z.land_spec.
    destruct (Z.eqb_spec k i) as [<-|]; [by rewrite E|].
    rewrite Z.pow2_bits_false by done. apply andb_false_r.
Qed.

Lemma maskSet_bit mask i j :
  0 <= i -> 0 <= j -> i / 8 < zlen mask ->
  maskBit (maskSet mask i) j = if i =? j then Some true else maskBit mask j.
Proof.
  intros Hi Hj Hr. unfold maskBit, maskSet.
  pose proof (Z.mod_pos_bound i 8 ltac:(lia)). pose proof (Z.mod_pos_bound j 8 ltac:(lia)).
  destruct (decide (i / 8 = j / 8)) as [E|E].
  - rewrite <- E, list_lookup_alter_eq.
    destruct (lookup_lt_is_Some_2 mask (Z.to_nat (i / 8))) as [b Hb].
    { unfold zlen in Hr. pose proof (Z.div_pos i 8). lia. }
    rewrite Hb. cbn [fmap option_fmap option_map mbind option_bind].
    rewrite !testbit_land, byte_val_of by lia. unfold u8, uwrap.
    rewrite Z.mod_pow2_bits_low, Z.lor_spec, Z.shiftl_1_l, Z.pow2_bits_eqb by lia.
    destruct (Z.eqb_spec i j) as [->|Hne]; [by rewrite Z.eqb_refl, orb_true_r|].
    destruct (Z.eqb_spec (i mod 8) (j mod 8)) as [Em|]; [|by rewrite orb_false_r].
    exfalso. apply Hne. rewrite (Z.div_mod i 8), (Z.div_mod j 8) by lia. lia.
  - rewrite list_lookup_alter_ne; [by destruct (Z.eqb_spec i j); [congruence|]|].
    pose proof (Z.div_pos i 8). pose proof (Z.div_pos j 8). lia.
Qed.

Lemma maskSet_length mask i : zlen (maskSet mask i) = zlen mask.
Proof. unfold zlen, maskSet. by rewrite length_alter. Qed.
Lemma maskLoop_length i vs mask : zlen (maskLoop i vs mask) = zlen mask.
Proof.
  revert i mask. induction vs as [|v vs IH]; intros i mask; [done|]. cbn [maskLoop].
  rewrite IH. destruct (IsNull v); [apply maskSet_length|done].
Qed.

Lemma maskLoop_bit i vs mask j :
  0 <= i -> 0 <= j -> i + zlen vs <= 8 * zlen mask ->
  maskBit (maskLoop i vs mask) j =
    match (if i <=? j then vs !! Z.to_nat (j - i) else None) with
    | Some v => if IsNull v then Some true else maskBit mask j
    | None => maskBit mask j
    end.
Proof.
  revert i mask. induction vs as [|v vs IH]; intros i mask Hi Hj Hr; cbn [maskLoop].
  { by destruct (i <=? j). }
  assert (zlen (v :: vs) = zlen vs + 1) as El by (unfold zlen; simpl; lia).
  rewrite El in Hr. pose proof (zlen_nonneg vs).
  rewrite IH; [|lia|lia|destruct (IsNull v); rewrite ?maskSet_length; lia].
  assert (i / 8 < zlen mask) as Hd by (apply Z.div_lt_upper_bound; lia).
  destruct (Z.leb_spec i j), (Z.leb_spec (i + 1) j); try lia.
  - replace (Z.to_nat (j - i)) with (S (Z.to_nat (j - (i + 1)))) by lia. cbn [lookup list_lookup].
    assert (maskBit (if IsNull v then maskSet mask i else mask) j = maskBit mask j) as ->.
    { destruct (IsNull v); [|done]. rewrite maskSet_bit by done.
      destruct (Z.eqb_spec i j); [lia|done]. }
    done.
  - assert (i = j) as -> by lia. rewrite Z.sub_diag. change (Z.to_nat 0) with 0%nat. cbn [lookup list_lookup].
    destruct (IsNull v); [|done]. rewrite maskSet_bit by done. by rewrite Z.eqb_refl.
  - destruct (IsNull v); [|done]. rewrite maskSet_bit by done.
    destruct (Z.eqb_spec i j); [lia|done].
Qed.

Lemma maskLen_spec n : 0 <= n -> 0 <= maskLen n /\ n <= 8 * maskLen n.
Proof. unfold maskLen. intros H. Z.to_euclidean_division_equations. lia. Qed.

Lemma nullMask_length vs : zlen (nullMask vs) = maskLen (zlen vs).
Proof.
  unfold nullMask. rewrite maskLoop_length. unfold zlen at 1. rewrite length_replicate.
  pose proof (maskLen_spec (zlen vs) (zlen_nonneg vs)). lia.
Qed.

(** Bit [i] of the written mask is the null flag of value [i]. *)
Lemma nullMask_bit vs i v :
  vs !! i = Some v -> maskBit (nullMask vs) (Z.of_nat i) = Some (IsNull v).
Proof.
  intros Hv. pose proof (maskLen_spec (zlen vs) (zlen_nonneg vs)) as [H0 H1].
  unfold nullMask. set (z := replicate _ _).
  assert (zlen z = maskLen (zlen vs)) as Hz.
  { unfold z, zlen at 1. rewrite length_replicate. lia. }
  rewrite maskLoop_bit by (unfold zlen in *; lia).
  destruct (Z.leb_spec 0 (Z.of_nat i)); [|lia]. rewrite Z.sub_0_r, Nat2Z.id, Hv.
  destruct (IsNull v); [done|]. unfold maskBit.
  assert (Z.of_nat i / 8 < zlen z) as Hi.
  { apply lookup_lt_Some in Hv. apply Z.div_lt_upper_bound; unfold zlen in *; lia. }
  unfold z. rewrite lookup_replicate_2; [done|].
  rewrite Hz in Hi. pose proof (Z.div_pos (Z.of_nat i) 8). lia.
Qed.

(** ** Canonical values

    The coder keeps, of a value, its type tag (an unknown type becomes
    [TypeString]) and the components its type uses; a null keeps nothing. *)
Definition canonType (t : DataType) : DataType := byteToDataType (dataTypeToByte t).
Definition canonValue (fv : FieldValue) : FieldValue :=
  if IsNull fv then mkFieldValue "" true 0 0 ""
  else
    let t := canonType (Type_ fv) in
    if (t =s TypeInt64) || (t =s TypeFloat64) || (t =s TypeTimestamp)
    then mkFieldValue t false 0 (NumVal fv) ""
    else if t =s TypeBool then mkFieldValue t false 0 (if BoolVal fv then 1 else 0) ""
    else if t =s TypeDecimal then mkFieldValue t false (Scale fv) (NumVal fv) ""
    else mkFieldValue t false 0 0 (StrVal fv).
Definition canonRecord (r : GenericRecord) : GenericRecord :=
  mkGenericRecord (SchemaID r) (map canonValue (Values r)) (AuditFields r).

(** Records within the decoder's limits. *)
Definition encodableValue (fv : FieldValue) : Prop :=
  FieldValue_ok fv /\ short (bytes (StrVal fv)).
Record encodable (r : GenericRecord) : Prop := {
  enc_schema : short (bytes (SchemaID r));
  enc_count : zlen (Values r) <= DefaultMaxRecordFields;
  enc_values : Forall encodableValue (Values r);
  enc_audit_size : Z.of_nat (size (AuditFields r)) <= MaxInt64;
  enc_audit : map_Forall (fun k v => short (bytes k) /\ short (bytes v)) (AuditFields r)
}.

Lemma dataTypeToByte_range t : 0 <= dataTypeToByte t < 256.
Proof. unfold dataTypeToByte. repeat (destruct (_ =s _); [lia|]). lia. Qed.

Lemma decodeFieldValue_enc fv r :
  encodableValue fv -> IsNull fv = false ->
  decodeFieldValue zeroFieldValue (canonType (Type_ fv)) (encField fv ++ r)
  = (Ok (canonValue fv), r).
Proof.
  intros [[Hs Hn] Ht] Hnull. unfold canonValue. rewrite Hnull.
  unfold encField, encodeFieldValue, canonType, dataTypeToByte. cbv zeta.
  destruct fv as [t nl s n v]. cbn [Type_ IsNull Scale NumVal StrVal] in *. subst nl.
  unfold Int64Val, BoolVal, BytesVal. cbn [Type_ IsNull Scale NumVal StrVal].
  destruct (String.eqb_spec t TypeInt64) as [->|N1].
  { cbn. rewrite (reader_bind_Ok _ _ _ _ _ (readVarint_Put _ r (i64_range n))).
    rewrite u64_i64, u64_small by done. done. }
  destruct (String.eqb_spec t TypeFloat64) as [->|N2].
  { cbn -[putBE readFull getBE]. rewrite (reader_bind_Ok _ _ _ (putBE 8 n) r).
    - rewrite getBE_putBE. change (256 ^ Z.of_nat 8) with (2 ^ 64).
      rewrite Z.mod_small by apply Hn. done.
    - rewrite <- (readFull_exact (putBE 8 n) r). by rewrite (eq_refl : 8 = zlen (putBE 8 n)). }
  destruct (String.eqb_spec t TypeBool) as [->|N3].
  { cbn -[byte_of readFull]. rewrite (reader_bind_Ok _ _ _ _ _ (readFull1 _ r)).
    by destruct (n =? 1). }
  destruct (String.eqb_spec t TypeTimestamp) as [->|N4].
  { cbn. rewrite (reader_bind_Ok _ _ _ _ _ (readVarint_Put _ r (i64_range n))).
    rewrite u64_i64, u64_small by done. done. }
  destruct (String.eqb_spec t TypeBytes) as [->|N5].
  { rewrite writeBytes_Buffer. cbn [app].
    cbn -[encBytes readBytes]. rewrite (reader_bind_Ok _ _ _ _ _ (readBytes_enc _ r Ht)).
    by rewrite str_bytes. }
  destruct (String.eqb_spec t TypeDate) as [->|N6].
  { cbn -[encString readString writeString]. rewrite writeString_Buffer. cbn [app].
    by rewrite (reader_bind_Ok _ _ _ _ _ (readString_enc _ r Ht)). }
  destruct (String.eqb_spec t TypeDecimal) as [->|N7].
  { cbn -[PutVarint readVarint]. unfold w_write, Buffer. cbn [app].
    rewrite <- app_assoc.
    rewrite (reader_bind_Ok _ _ _ _ _ (readVarint_Put _ _ (i64_range n))).
    rewrite (reader_bind_Ok _ _ _ s r).
    - rewrite u64_i64, u64_small, i32_small by done. done.
    - apply readVarint_Put. wordlia. }
  destruct (String.eqb_spec t TypeJSON) as [->|N8];
    cbn -[encString readString writeString]; rewrite writeString_Buffer; cbn [app];
    by rewrite (reader_bind_Ok _ _ _ _ _ (readString_enc _ r Ht)).
Qed.

Lemma readFieldValues_enc i vs mask r :
  0 <= i -> Forall encodableValue vs ->
  (forall k v, vs !! k = Some v -> maskBit mask (i + Z.of_nat k) = Some (IsNull v)) ->
  readFieldValues i (replicate (length vs) zeroFieldValue) mask (concat (map encValue vs) ++ r)
  = (Ok (map canonValue vs), r).
Proof.
  intros Hi He Hm. revert i Hi Hm. induction He as [|v vs Hv He IH]; intros i Hi Hm; [done|].
  cbn [length replicate readFieldValues map concat].
  pose proof (Hm 0%nat v eq_refl) as H0. rewrite Z.add_0_r in H0. rewrite H0.
  assert (forall l, l = concat (map encValue vs) ++ r ->
    readFieldValues (i + 1) (replicate (length vs) zeroFieldValue) mask l
    = (Ok (map canonValue vs), r)) as IH'.
  { intros l ->. apply IH; [lia|]. intros k w Hk.
    rewrite <- (Hm (S k) w Hk). f_equal. lia. }
  unfold encValue at 1. destruct (IsNull v) eqn:En.
  - rewrite (reader_bind_Ok _ _ _ _ _ (IH' _ eq_refl)).
    unfold canonValue at 2. by rewrite En.
  - rewrite <- app_assoc. cbn [app].
    rewrite (reader_bind_Ok _ _ _ _ _ (rwrap_Ok _ _ _ _ _ (readFull1 _ _))).
    rewrite byte_val_of. unfold u8.
    rewrite uwrap_small by (pose proof (dataTypeToByte_range (Type_ v)); wordlia).
    rewrite (reader_bind_Ok _ _ _ _ _ (rwrap_Ok _ _ _ _ _ (decodeFieldValue_enc v _ Hv En))).
    by rewrite (reader_bind_Ok _ _ _ _ _ (IH' _ eq_refl)).
Qed.

Lemma size_range {V} `{MapOrder} (m : gmap string V) : Z.of_nat (size m) = zlen (map_range m).
Proof. unfold zlen. by rewrite (map_range_perm m), length_map_to_list. Qed.

Lemma encPair_nonempty kv : (0 < length (encPair kv))%nat.
Proof. unfold encPair. rewrite length_app. pose proof (encString_nonempty (fst kv)). lia. Qed.

Lemma readAuditFields_enc `{MapOrder} m r :
  Z.of_nat (size m) <= MaxInt64 ->
  map_Forall (fun k v => short (bytes k) /\ short (bytes v)) m ->
  readAuditFields ∅ (encAudit m ++ r) = (Ok m, r).
Proof.
  intros Hsz Hm. unfold readAuditFields, encAudit. rewrite <- app_assoc.
  erewrite reader_bind_Ok; [|apply rwrap_Ok, readVarint_Put; wordlia].
  rewrite size_range.
  rewrite (readCount_enc readAuditEntry encPair (fun m kv => <[fst kv := snd kv]> m)).
  - by rewrite (foldl_insert_listing m) by (apply map_range_perm).
  - intros [k v] a s Hin. rewrite (map_range_perm m), elem_of_map_to_list in Hin.
    destruct (Hm k v Hin) as [Hk Hv]. unfold readAuditEntry, encPair. cbn [fst snd].
    rewrite <- app_assoc. rewrite (reader_bind_Ok _ _ _ _ _ (readString_enc k _ Hk)).
    by rewrite (reader_bind_Ok _ _ _ _ _ (readString_enc v _ Hv)).
  - apply encPair_nonempty.
Qed.

Lemma DecodeGenericRecord_enc `{MapOrder} rec r :
  encodable rec -> DecodeGenericRecord (encRecord rec ++ r) = (Ok (Some (canonRecord rec)), r).
Proof.
  intros [Hs Hc Hv Ha1 Ha2]. unfold DecodeGenericRecord, encRecord. rewrite <- !app_assoc.
  rewrite (readString_enc _ _ Hs). pose proof (zlen_nonneg (Values rec)).
  unfold decodeRecordBody, DefaultMaxRecordFields in *.
  erewrite reader_bind_Ok; [|apply rwrap_Ok, readVarint_Put; wordlia].
  destruct (Z.eqb_spec (zlen (Values rec)) (-1)); [lia|].
  destruct (Z.ltb_spec (zlen (Values rec)) 0); [lia|].
  destruct (Z.ltb_spec 10000 (zlen (Values rec))); [lia|]. cbn [orb].
  unfold readNullMaskWithBuf. rewrite <- nullMask_length.
  rewrite (reader_bind_Ok _ _ _ _ _ (rwrap_Ok _ _ _ _ _ (readFull_exact _ _))). cbn zeta.
  unfold NewGenericRecord. cbn [Values AuditFields]. unfold zlen at 1. rewrite Nat2Z.id.
  rewrite (reader_bind_Ok _ _ _ _ _ (readFieldValues_enc 0 (Values rec) _ _ (Z.le_refl 0) Hv
             (nullMask_bit (Values rec)))).
  by rewrite (reader_bind_Ok _ _ _ _ _ (readAuditFields_enc _ r Ha1 Ha2)).
Qed.

(** A nil record or dead letter, the varint -1, reads back as the nil token. *)
Lemma readString_nil r : readString (PutVarint (-1) ++ r) = (Err ErrNilToken, r).
Proof. reflexivity. Qed.

(** ** Totality of the decoders *)
Lemma safe_maskless_fields i vs mask :
  (forall k, (k < length vs)%nat -> maskBit mask (i + Z.of_nat k) <> None) ->
  safe (readFieldValues i vs mask).
Proof.
  revert i. induction vs as [|v vs IH]; intros i Hm; cbn [readFieldValues]; [apply safe_ret|].
  pose proof (Hm 0%nat ltac:(simpl; lia)) as H0. rewrite Z.add_0_r in H0.
  assert (safe (readFieldValues (i + 1) vs mask)) as Hr.
  { apply IH. intros k Hk. replace (i + 1 + Z.of_nat k) with (i + Z.of_nat (S k)) by lia.
    apply Hm. simpl. lia. }
  destruct (maskBit mask i) as [[|]|]; [| |done].
  - auto with readers.
  - apply safe_bind; [auto with readers|]. intros b. apply safe_bind; [|auto with readers].
    apply safe_rwrap. unfold decodeFieldValue. cbv zeta.
    repeat match goal with |- context [if ?b then _ else _] => destruct b end;
      auto 6 with readers.
Qed.

Lemma maskBit_in_range mask i : 0 <= i < 8 * zlen mask -> maskBit mask i <> None.
Proof.
  intros Hi. unfold maskBit. assert (i / 8 < zlen mask) by (apply Z.div_lt_upper_bound; lia).
  destruct (lookup_lt_is_Some_2 mask (Z.to_nat (i / 8))) as [b ->]; [|done].
  unfold zlen in *. pose proof (Z.div_pos i 8). lia.
Qed.

Lemma safe_readAuditEntry a : safe (readAuditEntry a) /\ shrinks (readAuditEntry a).
Proof. unfold readAuditEntry. auto 7 with readers. Qed.
Lemma safe_readMapEntry a : safe (readMapEntry a) /\ shrinks (readMapEntry a).
Proof. unfold readMapEntry. auto 7 with readers. Qed.
Lemma safe_readOriginEntry a : safe (readOriginEntry a) /\ shrinks (readOriginEntry a).
Proof. unfold readOriginEntry. auto 12 with readers. Qed.

Lemma safe_readAuditFields m : safe (readAuditFields m).
Proof.
  apply safe_bind; [auto with readers|]. intros n.
  apply safe_readCount; intros; apply safe_readAuditEntry.
Qed.

Lemma readFull_length n l b l' : 0 <= n -> readFull n l = (Ok b, l') -> zlen b = n.
Proof.
  unfold readFull. intros Hn. destruct (Z.leb_spec n (zlen l)); [|by destruct l].
  intros [= <- _]. unfold zlen in *. rewrite length_take. lia.
Qed.

Lemma readFieldValues_length i vs mask l vs' l' :
  readFieldValues i vs mask l = (Ok vs', l') -> length vs' = length vs.
Proof.
  revert i l l' vs'. induction vs as [|v vs IH]; intros i l l' vs'; cbn [readFieldValues].
  { by intros [= <- _]. }
  destruct (maskBit mask i) as [[|]|]; [| |done].
  - intros (vs1 & l1 & E1%IH & E2)%reader_bind_inv. injection E2 as <- _. simpl. lia.
  - intros (b & l1 & _ & E)%reader_bind_inv. apply reader_bind_inv in E as (fv & l2 & _ & E).
    apply reader_bind_inv in E as (vs1 & l3 & E1%IH & E2). injection E2 as <- _. simpl. lia.
Qed.

Lemma safe_bind_post {A B} (P : A -> Prop) (m : reader A) (f : A -> reader B) :
  safe m -> (forall l a l', m l = (Ok a, l') -> P a) -> (forall a, P a -> safe (f a)) ->
  safe (m ≫= f).
Proof.
  intros Hm HP Hf l s. unfold mbind, reader_bind. specialize (Hm l).
  destruct (m l) as [[a|e|p] l'] eqn:E; simpl in *; [by apply Hf, (HP _ _ _ E)|congruence|].
  by destruct (Hm p).
Qed.

Lemma readNullMask_length n l mask l' :
  0 <= n -> readNullMaskWithBuf n l = (Ok mask, l') -> zlen mask = maskLen n.
Proof.
  intros Hn E. unfold readNullMaskWithBuf, rwrap in E.
  destruct (readFull _ l) as [[b|e|p] l2] eqn:Ef; try discriminate. injection E as -> ->.
  by apply readFull_length in Ef; [|apply maskLen_spec].
Qed.

Lemma safe_decodeRecordBody sid : safe (decodeRecordBody sid).
Proof.
  apply safe_bind; [auto with readers|]. intros n.
  destruct (n =? -1); [apply safe_ret|].
  destruct (Z.ltb_spec n 0) as [|H0]; [apply safe_rfail|].
  destruct (DefaultMaxRecordFields <? n); [apply safe_rfail|]. cbn [orb].
  apply (safe_bind_post (fun mask => zlen mask = maskLen n)).
  - apply safe_rwrap, safe_readFull.
  - intros l mask l' E. by apply readNullMask_length in E.
  - intros mask Hlen. cbv zeta. apply safe_bind.
    + apply safe_maskless_fields. unfold NewGenericRecord. cbn [Values].
      rewrite length_replicate. intros k Hk.
      apply maskBit_in_range. pose proof (maskLen_spec n H0). lia.
    + intros vs. apply safe_bind; [apply safe_readAuditFields|auto with readers].
Qed.

Lemma safe_DecodeGenericRecord : safe DecodeGenericRecord.
Proof.
  intros l s. unfold DecodeGenericRecord. pose proof (safe_readString l) as Hs.
  destruct (readString l) as [[sid|e|p] l1]; cbn [fst] in Hs.
  - apply safe_decodeRecordBody.
  - by destruct (errors_Is _ e).
  - by destruct (Hs p).
Qed.

Lemma decodeRecordBody_count sid l r l' :
  decodeRecordBody sid l = (Ok (Some r), l') -> zlen (Values r) <= DefaultMaxRecordFields.
Proof.
  intros (n & l1 & _ & E)%reader_bind_inv.
  destruct (n =? -1); [discriminate|].
  destruct (Z.ltb_spec n 0); [discriminate|].
  destruct (Z.ltb_spec DefaultMaxRecordFields n); [discriminate|]. cbn [orb] in E.
  apply reader_bind_inv in E as (mask & l2 & _ & E). cbv zeta in E.
  apply reader_bind_inv in E as (vs & l4 & Evs & E).
  apply reader_bind_inv in E as (au & l5 & _ & E). injection E as <- _.
  apply readFieldValues_length in Evs. unfold NewGenericRecord in Evs. cbn [Values] in *.
  rewrite length_replicate in Evs. unfold zlen. lia.
Qed.

(** ** Properties of the record coder *)

(** C20. Record round trip: whatever order the audit map is iterated in,
    encoding a record within the decoder's limits succeeds and decoding the
    bytes, with anything behind them, returns the canonical record and leaves
    exactly what was behind; a nil record reads back as nil. A record whose
    values are canonical (all the setters build such values) is unchanged. *)
Theorem GenericRecord_roundtrip `{MapOrder} (rec : GenericRecord) (w rest : list byte) :
  encodable rec ->
  (exists b, EncodeGenericRecord (Some rec) w = Ok (w ++ b)
     /\ DecodeGenericRecord (b ++ rest) = (Ok (Some (canonRecord rec)), rest)
     /\ (Forall (fun v => canonValue v = v) (Values rec) ->
           DecodeGenericRecord (b ++ rest) = (Ok (Some rec), rest)))
  /\ exists b, EncodeGenericRecord None w = Ok (w ++ b)
     /\ DecodeGenericRecord (b ++ rest) = (Ok None, rest).
Proof.
  intros He. split.
  - exists (encRecord rec). rewrite EncodeGenericRecord_Buffer, DecodeGenericRecord_enc by done.
    repeat split; auto. intros Hc. do 3 f_equal. destruct rec as [sid vs au].
    unfold canonRecord. cbn in *. f_equal. induction Hc as [|v vs Hv _ IH]; [done|].
    simpl. rewrite Hv, IH; [done|]. destruct He as [Hs Hn Hf Hz Ha]. cbn in *. split; cbn; auto.
    + unfold zlen in *. simpl in Hn. lia.
    + by apply Forall_cons in Hf as [_ Hf].
  - exists (PutVarint (-1)). split; [done|]. unfold DecodeGenericRecord.
    by rewrite readString_nil.
Qed.

Definition mixedRecord : GenericRecord :=
  mkGenericRecord "orders"
    [int64Value (-3); stringValue "abc"; nullValue TypeInt64; boolValue true;
     decimalValue 1234 2; timestampValue 99; bytesValue (bytes "xy"); float64Value (of_int 2);
     mkFieldValue TypeDate false 0 0 "2024-01-01"]
    (<["_source_file" := "a.csv"]> ∅).
Lemma mixedRecord_encodable : encodable mixedRecord.
Proof.
  split.
  - vm_compute. congruence.
  - vm_compute. congruence.
  - repeat (apply Forall_cons; split; [repeat split; vm_compute; congruence|]). apply Forall_nil.
    exact I.
  - vm_compute. congruence.
  - unfold mixedRecord. cbn [AuditFields]. apply map_Forall_insert_2; [|apply map_Forall_empty].
    split; vm_compute; congruence.
Qed.
Lemma GenericRecord_roundtrip_witness :
  exists b, EncodeGenericRecord (Some mixedRecord) [] = Ok b
    /\ DecodeGenericRecord (b ++ ["Z"%char])
       = (Ok (Some (canonRecord mixedRecord)), ["Z"%char]).
Proof.
  destruct (proj1 (GenericRecord_roundtrip mixedRecord [] ["Z"%char] mixedRecord_encodable))
    as (b & E & D & _).
  exists b. split; [exact E|exact D].
Defined.

(** The setters build canonical values. *)
Lemma setters_canonical :
  (forall n, canonValue (int64Value n) = int64Value n)
  /\ (forall x, canonValue (float64Value x) = float64Value x)
  /\ (forall b, canonValue (boolValue b) = boolValue b)
  /\ (forall t, canonValue (timestampValue t) = timestampValue t)
  /\ (forall b, canonValue (bytesValue b) = bytesValue b)
  /\ (forall m s, canonValue (decimalValue m s) = decimalValue m s)
  /\ (forall s, canonValue (stringValue s) = stringValue s).
Proof. repeat split; try done. by intros []. Qed.

(** Every reader under [DecodeGenericRecord] consumes a prefix of its input. *)
Lemma consumes_decodeFieldValue fv dt :
  suffixing (decodeFieldValue fv dt) /\ prefixed (decodeFieldValue fv dt).
Proof.
  unfold decodeFieldValue. cbv zeta.
  repeat match goal with |- context [if ?b =s ?c then _ else _] => destruct (b =s c) end;
    split; auto 6 with readers.
Qed.
Lemma consumes_readFieldValues i vs mask :
  suffixing (readFieldValues i vs mask) /\ prefixed (readFieldValues i vs mask).
Proof.
  revert i. induction vs as [|v vs IH]; intros i; cbn [readFieldValues]; [auto with readers|].
  destruct (IH (i + 1)) as [Hs Hp]. destruct (maskBit mask i) as [[|]|].
  - auto with readers.
  - split.
    + apply suffixing_bind; [auto with readers|]. intros b. apply suffixing_bind; [|auto with readers].
      apply suffixing_rwrap, consumes_decodeFieldValue.
    + apply prefixed_bind; [auto with readers|]. intros b. apply prefixed_bind; [|auto with readers].
      apply prefixed_rwrap, consumes_decodeFieldValue.
  - split; [apply suffixing_const|]. intros l a l' [=].
Qed.
Lemma consumes_readAuditFields m : suffixing (readAuditFields m) /\ prefixed (readAuditFields m).
Proof.
  assert (forall a, suffixing (readAuditEntry a) /\ prefixed (readAuditEntry a)) as He
    by (intros a; unfold readAuditEntry; auto 7 with readers).
  split.
  - apply suffixing_bind; [auto with readers|]. intros n. apply suffixing_readCount. apply He.
  - apply prefixed_bind; [auto with readers|]. intros n. apply prefixed_readCount; [apply He|].
    apply safe_readAuditEntry.
Qed.
Lemma consumes_decodeRecordBody sid :
  suffixing (decodeRecordBody sid) /\ prefixed (decodeRecordBody sid).
Proof.
  unfold decodeRecordBody, readNullMaskWithBuf. cbv zeta. split.
  - apply suffixing_bind; [auto with readers|]. intros n.
    destruct (n =? -1); [auto with readers|]. destruct (_ || _); [auto with readers|].
    apply suffixing_bind; [auto with readers|]. intros mask.
    apply suffixing_bind; [apply consumes_readFieldValues|]. intros vs.
    apply suffixing_bind; [apply consumes_readAuditFields|auto with readers].
  - apply prefixed_bind; [auto with readers|]. intros n.
    destruct (n =? -1); [auto with readers|]. destruct (_ || _); [auto with readers|].
    apply prefixed_bind; [auto with readers|]. intros mask.
    apply prefixed_bind; [apply consumes_readFieldValues|]. intros vs.
    apply prefixed_bind; [apply consumes_readAuditFields|auto with readers].
Qed.
Lemma suffixing_DecodeGenericRecord : suffixing DecodeGenericRecord.
Proof.
  intros l. unfold DecodeGenericRecord. destruct (suffixing_readString l) as [pre E].
  destruct (readString l) as [[sid|e|p] l1]; cbn [snd] in E.
  - destruct (proj1 (consumes_decodeRecordBody sid) l1) as [pre2 E2].
    exists (pre ++ pre2). rewrite <- app_assoc. by rewrite <- E2.
  - exists pre. by destruct (errors_Is _ e).
  - by exists pre.
Qed.
Lemma prefixed_DecodeGenericRecord : prefixed DecodeGenericRecord.
Proof.
  intros l a l' E. unfold DecodeGenericRecord in E |- *.
  destruct (readString l) as [[sid|e|p] l1] eqn:Es; [|destruct (errors_Is _ e) eqn:He|];
    try discriminate.
  - apply prefixed_readString in Es as (p1 & -> & H1).
    apply consumes_decodeRecordBody in E as (p2 & -> & H2).
    exists (p1 ++ p2). rewrite <- app_assoc. split; [done|]. intros r.
    by rewrite <- app_assoc, H1.
  - injection E as <- <-. apply (readString_nil_inv _ e) in Es as (p1 & -> & H1); [|done].
    exists p1. split; [done|]. intros r. by rewrite H1.
Qed.

(** C34. The record decoder is total and bounded on arbitrary bytes: it never
    panics (no index out of range, no unfinished loop, whatever counts the
    input claims), and a record it returns has at most 10000 values. Whatever
    it answers, it consumes a prefix of the input and leaves the bytes behind
    it; and what it decodes (a record or nil) depends on that prefix alone:
    followed by any other bytes the prefix decodes to the same and leaves
    those. *)
Theorem DecodeGenericRecord_total (data : list byte) :
  (forall s, fst (DecodeGenericRecord data) <> Panic s)
  /\ (forall r rest, DecodeGenericRecord data = (Ok (Some r), rest) ->
        zlen (Values r) <= DefaultMaxRecordFields)
  /\ (forall r rest, DecodeGenericRecord data = (r, rest) -> exists pre, data = pre ++ rest)
  /\ (forall v rest, DecodeGenericRecord data = (Ok v, rest) ->
        exists pre, data = pre ++ rest
          /\ forall rest', DecodeGenericRecord (pre ++ rest') = (Ok v, rest')).
Proof.
  split; [apply safe_DecodeGenericRecord|split; [|split]].
  - intros r rest E. unfold DecodeGenericRecord in E.
    destruct (readString data) as [[sid|e|p] l1]; [|by destruct (errors_Is _ e)|discriminate].
    by apply decodeRecordBody_count in E.
  - intros r rest E. pose proof (suffixing_DecodeGenericRecord data) as H. by rewrite E in H.
  - intros v rest E. by apply prefixed_DecodeGenericRecord.
Qed.

(** A string over 64 MiB is written but never read back. *)
Lemma oversize_string_rejected s r :
  DefaultChunkSizeBytes < slen s <= MaxInt64 ->
  exists e, readString (encString s ++ r) = (Err e, bytes s ++ r).
Proof.
  intros Hs. unfold readString, encString, encBytes. rewrite zlen_bytes, <- app_assoc.
  unfold mbind at 1, reader_bind at 1. unfold readBytes. unfold mbind at 1, reader_bind at 1.
  unfold DefaultChunkSizeBytes in *. rewrite readVarint_Put by wordlia.
  destruct (Z.eqb_spec (slen s) (-1)); [lia|].
  destruct (Z.ltb_spec (slen s) (-1)); [lia|].
  destruct (Z.ltb_spec (64 * 1024 * 1024) (slen s)); [|lia]. eexists. reflexivity.
Qed.

(** ** Dead letters and metric items *)
Lemma writeStrings_Buffer w ss : writeStrings w ss = Ok (w ++ concat (map encString ss)).
Proof.
  revert w. induction ss as [|s ss IH]; intros w; cbn [writeStrings map concat].
  { by rewrite app_nil_r. }
  rewrite writeString_Buffer. cbn [mbind result_bind]. rewrite IH. by rewrite app_assoc.
Qed.

Record encodableDLQ (d : DeadLetterRecord) : Prop := {
  dlq_raw : short (bytes (RawPayload d));
  dlq_msg : short (bytes (ErrorMessage d));
  dlq_col : short (bytes (FailedColumn d));
  dlq_src : short (bytes (SourceFile d));
  dlq_time : in_i64 (FailedAt d)
}.

(** Dead letters and metric items survive their coders: a dead letter
    within the string limit whose time fits in [int64] nanoseconds, a nil dead
    letter, and every metric item within the limit decode to themselves, and
    decoding consumes exactly the encoded bytes. *)
Theorem DeadLetter_MetricItem_roundtrip (d : DeadLetterRecord) (mi : MetricItem)
    (w rest : list byte) :
  encodableDLQ d -> short (bytes (mi_Origin mi)) ->
  (exists b, EncodeDeadLetterRecord (Some d) w = Ok (w ++ b)
     /\ DecodeDeadLetterRecord (b ++ rest) = (Ok (Some d), rest))
  /\ (exists b, EncodeDeadLetterRecord None w = Ok (w ++ b)
     /\ DecodeDeadLetterRecord (b ++ rest) = (Ok None, rest))
  /\ exists b, EncodeMetricItem mi w = Ok (w ++ b)
     /\ DecodeMetricItem (b ++ rest) = (Ok mi, rest).
Proof.
  intros [H1 H2 H3 H4 H5] Ho. split; [|split].
  - eexists. unfold EncodeDeadLetterRecord. rewrite writeStrings_Buffer.
    cbn [mbind result_bind]. rewrite writeVarint_Buffer, <- app_assoc. split; [done|].
    cbn [map concat]. rewrite app_nil_r, <- !app_assoc. unfold DecodeDeadLetterRecord.
    rewrite (readString_enc _ _ H1).
    rewrite (reader_bind_Ok _ _ _ _ _ (readString_enc _ _ H2)).
    rewrite (reader_bind_Ok _ _ _ _ _ (readString_enc _ _ H3)).
    rewrite (reader_bind_Ok _ _ _ _ _ (readString_enc _ _ H4)).
    rewrite i64_small by done. rewrite (reader_bind_Ok _ _ _ _ _ (readVarint_Put _ _ H5)).
    by destruct d.
  - exists (PutVarint (-1)). split; [done|]. unfold DecodeDeadLetterRecord.
    by rewrite readString_nil.
  - exists (byte_of (if IsDLQ mi then 1 else 0) :: encString (mi_Origin mi)).
    unfold EncodeMetricItem. cbn [w_write Buffer mbind result_bind].
    rewrite writeString_Buffer, <- app_assoc. split; [done|]. unfold DecodeMetricItem.
    cbn [app]. rewrite (reader_bind_Ok _ _ _ _ _ (readFull1 _ _)). unfold readOrigin.
    rewrite (readString_enc _ _ Ho). by destruct mi as [o []].
Qed.

Lemma DeadLetter_MetricItem_roundtrip_witness :
  exists b, EncodeMetricItem (mkMetricItem "a.csv" true) [] = Ok b
    /\ DecodeMetricItem (b ++ []) = (Ok (mkMetricItem "a.csv" true), []).
Proof.
  destruct (DeadLetter_MetricItem_roundtrip (mkDeadLetterRecord "x,y" "bad" "col" "a.csv" (-5))
              (mkMetricItem "a.csv" true) [] []) as (_ & _ & b & E & D).
  - split; try (vm_compute; congruence). split; vm_compute; congruence.
  - vm_compute. congruence.
  - exists b. split; [exact E|exact D].
Defined.

(** ** Pipeline metrics *)
Definition encCount (kv : string * Z) : list byte := encString (fst kv) ++ PutVarint (snd kv).
Definition encOrigin (kv : string * OriginMetric) : list byte :=
  encString (fst kv) ++ PutVarint (TotalRead (snd kv)) ++ PutVarint (Valid (snd kv))
    ++ PutVarint (DLQ (snd kv)).
Definition listing {V} `{MapOrder} (d : V) (m : gmap string V) : list (string * V) :=
  map (fun k => (k, default d (m !! k))) (sortedKeys m).
Definition encCounts `{MapOrder} (m : gmap string Z) : list byte :=
  PutVarint (Z.of_nat (size m)) ++ concat (map encCount (listing 0 m)).
Definition encOrigins `{MapOrder} (m : gmap string OriginMetric) : list byte :=
  PutVarint (Z.of_nat (size m)) ++ concat (map encOrigin (listing zeroOriginMetric m)).
Definition metricCounters (m : PipelineMetrics) : list Z :=
  [TotalRecordsRead m; RowCount m; RowsWritten m; DeadLetterCount m;
   BytesWritten m; FilesWritten m; APICallsMade m; ExecutionDurationMs m].
Definition encMetrics `{MapOrder} (m : PipelineMetrics) : list byte :=
  encString (pm_PipelineID m) ++ encString (pm_RunID m)
    ++ concat (map PutVarint (metricCounters m)) ++ encString (Checksum m)
    ++ encCounts (mapOf (ColumnNullCounts m)) ++ encCounts (mapOf (InvalidValueCounts m))
    ++ encOrigins (mapOf (OriginMetrics m)).

Lemma writeVarints_Buffer w vs : writeVarints w vs = Ok (w ++ concat (map PutVarint vs)).
Proof.
  revert w. induction vs as [|v vs IH]; intros w; cbn [writeVarints map concat].
  { by rewrite app_nil_r. }
  rewrite writeVarint_Buffer. cbn [mbind result_bind]. rewrite IH. by rewrite app_assoc.
Qed.
Lemma writeMap_Buffer `{MapOrder} w m : writeMapStringInt64 w m = Ok (w ++ encCounts m).
Proof.
  unfold writeMapStringInt64, encCounts, listing. rewrite writeVarint_Buffer.
  cbn [mbind result_bind]. rewrite app_assoc. generalize (w ++ PutVarint (Z.of_nat (size m))).
  induction (sortedKeys m) as [|k ks IH]; intros w'; cbn [writeKeysInt64 map concat].
  { by rewrite app_nil_r. }
  rewrite writeString_Buffer. cbn [mbind result_bind]. rewrite writeVarint_Buffer.
  cbn [mbind result_bind]. rewrite IH. unfold encCount. simpl. by rewrite <- !app_assoc.
Qed.
Lemma writeOrigins_Buffer `{MapOrder} w m : writeOriginMetrics w m = Ok (w ++ encOrigins m).
Proof.
  unfold writeOriginMetrics, encOrigins, listing. rewrite writeVarint_Buffer.
  cbn [mbind result_bind]. rewrite app_assoc. generalize (w ++ PutVarint (Z.of_nat (size m))).
  induction (sortedKeys m) as [|k ks IH]; intros w'; cbn [writeKeysOrigin map concat].
  { by rewrite app_nil_r. }
  rewrite writeString_Buffer. cbn [mbind result_bind]. rewrite !writeVarint_Buffer.
  cbn [mbind result_bind]. rewrite !writeVarint_Buffer. cbn [mbind result_bind].
  rewrite !writeVarint_Buffer. cbn [mbind result_bind].
  rewrite IH. unfold encOrigin. simpl. by rewrite <- !app_assoc.
Qed.
Lemma EncodePipelineMetrics_Buffer `{MapOrder} m w :
  EncodePipelineMetrics m w = Ok (w ++ encMetrics m).
Proof.
  unfold EncodePipelineMetrics, encMetrics.
  rewrite writeString_Buffer. cbn [mbind result_bind]. rewrite writeString_Buffer.
  cbn [mbind result_bind]. rewrite writeVarints_Buffer. cbn [mbind result_bind].
  rewrite writeString_Buffer. cbn [mbind result_bind]. rewrite writeMap_Buffer.
  cbn [mbind result_bind]. rewrite writeMap_Buffer. cbn [mbind result_bind].
  rewrite writeOrigins_Buffer. by rewrite <- !app_assoc.
Qed.

(** Metrics within the decoder's limits: short strings and [int64] numbers. *)
Definition okCounts (m : gmap string Z) : Prop :=
  Z.of_nat (size m) <= MaxInt64 /\ map_Forall (fun k v => short (bytes k) /\ in_i64 v) m.
Definition okOrigins (m : gmap string OriginMetric) : Prop :=
  Z.of_nat (size m) <= MaxInt64
  /\ map_Forall (fun k v => short (bytes k) /\ in_i64 (TotalRead v) /\ in_i64 (Valid v)
                            /\ in_i64 (DLQ v)) m.
Record encodableMetrics (m : PipelineMetrics) : Prop := {
  em_pipe : short (bytes (pm_PipelineID m));
  em_run : short (bytes (pm_RunID m));
  em_sum : short (bytes (Checksum m));
  em_counters : Forall in_i64 (metricCounters m);
  em_nulls : okCounts (mapOf (ColumnNullCounts m));
  em_invalid : okCounts (mapOf (InvalidValueCounts m));
  em_origins : okOrigins (mapOf (OriginMetrics m))
}.

Lemma listing_perm {V} `{MapOrder} (d : V) m : listing d m ≡ₚ map_to_list m.
Proof. apply sortedKeys_listing. Qed.
Lemma listing_size {V} `{MapOrder} (d : V) m : Z.of_nat (size m) = zlen (listing d m).
Proof. unfold zlen. by rewrite (listing_perm d m), length_map_to_list. Qed.

Lemma readMap_enc `{MapOrder} m r :
  okCounts m -> readMapStringInt64 (encCounts m ++ r) = (Ok m, r).
Proof.
  intros [Hs Hm]. unfold readMapStringInt64, encCounts. rewrite <- app_assoc.
  erewrite reader_bind_Ok; [|apply readVarint_Put; wordlia].
  rewrite (listing_size 0).
  rewrite (readCount_enc readMapEntry encCount (fun m kv => <[fst kv := snd kv]> m)).
  - by rewrite (foldl_insert_listing m) by apply (listing_perm 0).
  - intros [k v] a s Hin. rewrite (listing_perm 0 m), elem_of_map_to_list in Hin.
    destruct (Hm k v Hin) as [Hk Hv]. unfold readMapEntry, encCount. cbn [fst snd].
    rewrite <- app_assoc. rewrite (reader_bind_Ok _ _ _ _ _ (readString_enc k _ Hk)).
    by rewrite (reader_bind_Ok _ _ _ _ _ (readVarint_Put v _ Hv)).
  - intros kv. unfold encCount. rewrite length_app. pose proof (encString_nonempty (fst kv)). lia.
Qed.
Lemma readOrigins_enc `{MapOrder} m r :
  okOrigins m -> readOriginMetrics (encOrigins m ++ r) = (Ok m, r).
Proof.
  intros [Hs Hm]. unfold readOriginMetrics, encOrigins. rewrite <- app_assoc.
  erewrite reader_bind_Ok; [|apply readVarint_Put; wordlia].
  rewrite (listing_size zeroOriginMetric).
  rewrite (readCount_enc readOriginEntry encOrigin (fun m kv => <[fst kv := snd kv]> m)).
  - by rewrite (foldl_insert_listing m) by apply (listing_perm zeroOriginMetric).
  - intros [k v] a s Hin.
    rewrite (listing_perm zeroOriginMetric m), elem_of_map_to_list in Hin.
    destruct (Hm k v Hin) as (Hk & H1 & H2 & H3). unfold readOriginEntry, encOrigin.
    cbn [fst snd]. rewrite <- !app_assoc.
    rewrite (reader_bind_Ok _ _ _ _ _ (readString_enc k _ Hk)).
    rewrite (reader_bind_Ok _ _ _ _ _ (readVarint_Put _ _ H1)).
    rewrite (reader_bind_Ok _ _ _ _ _ (readVarint_Put _ _ H2)).
    rewrite (reader_bind_Ok _ _ _ _ _ (readVarint_Put _ _ H3)). by destruct v.
  - intros kv. unfold encOrigin. rewrite length_app. pose proof (encString_nonempty (fst kv)). lia.
Qed.
Lemma readVarints_enc vs r :
  Forall in_i64 vs -> readVarints (length vs) (concat (map PutVarint vs) ++ r) = (Ok vs, r).
Proof.
  induction 1 as [|v vs Hv _ IH]; [done|]. cbn [length readVarints map concat].
  rewrite <- app_assoc. rewrite (reader_bind_Ok _ _ _ _ _ (readVarint_Put _ _ Hv)).
  by rewrite (reader_bind_Ok _ _ _ _ _ IH).
Qed.

(** What the metrics coder keeps: rates, watermark and custom metrics are not
    encoded, and nil maps come back as empty maps. *)
Definition canonMetrics (m : PipelineMetrics) : PipelineMetrics :=
  mkPipelineMetrics (pm_PipelineID m) (pm_RunID m) (TotalRecordsRead m) (RowCount m)
    (RowsWritten m) (DeadLetterCount m) (BytesWritten m) (FilesWritten m) (APICallsMade m)
    (Checksum m) (ExecutionDurationMs m) f0 f0 None (Some (mapOf (OriginMetrics m)))
    (Some (mapOf (ColumnNullCounts m))) (Some (mapOf (InvalidValueCounts m))) (Some ∅).

(** Metrics round trip, deterministically: the bytes do not depend on the
    order the maps are iterated in, and metrics within the decoder's limits
    decode to themselves up to the fields the format leaves out; in particular
    both conservation checks answer the same before and after. *)
Theorem PipelineMetrics_roundtrip (o1 o2 : MapOrder) (m : PipelineMetrics) (w rest : list byte) :
  encodableMetrics m ->
  @EncodePipelineMetrics _ _ o1 m w = @EncodePipelineMetrics _ _ o2 m w
  /\ (exists b, @EncodePipelineMetrics _ _ o1 m w = Ok (w ++ b)
        /\ DecodePipelineMetrics (b ++ rest) = (Ok (canonMetrics m), rest))
  /\ IsStrictlyConserved (canonMetrics m) = IsStrictlyConserved m
  /\ IsConservedPerOrigin (canonMetrics m) = IsConservedPerOrigin m.
Proof.
  intros [H1 H2 H3 H4 H5 H6 H7]. split; [|split; [|done]].
  - rewrite !EncodePipelineMetrics_Buffer. unfold encMetrics, encCounts, encOrigins, listing.
    by rewrite !(sortedKeys_unique o1 o2).
  - exists (@encMetrics o1 m). rewrite EncodePipelineMetrics_Buffer. split; [done|].
    unfold encMetrics, DecodePipelineMetrics. rewrite <- !app_assoc.
    rewrite (reader_bind_Ok _ _ _ _ _ (readString_enc _ _ H1)).
    rewrite (reader_bind_Ok _ _ _ _ _ (readString_enc _ _ H2)).
    rewrite (reader_bind_Ok _ _ _ _ _ (readVarints_enc _ _ H4)).
    rewrite (reader_bind_Ok _ _ _ _ _ (readString_enc _ _ H3)).
    rewrite (reader_bind_Ok _ _ _ _ _ (readMap_enc _ _ H5)).
    rewrite (reader_bind_Ok _ _ _ _ _ (readMap_enc _ _ H6)).
    by rewrite (reader_bind_Ok _ _ _ _ _ (readOrigins_enc _ _ H7)).
Qed.

Definition sampleMetrics : PipelineMetrics :=
  combine SummaryCombiner.CreateAccumulator SummaryCombiner.AddInput
    SummaryCombiner.MergeAccumulators sampleSummaries.
Lemma sampleMetrics_origins :
  OriginMetrics sampleMetrics = Some (<["b.csv" := mkOriginMetric 5 5 0]>
    (<["a.csv" := mkOriginMetric 3 2 1]> (∅ : gmap string OriginMetric))).
Proof. vm_compute. reflexivity. Qed.
Lemma sampleMetrics_encodable : encodableMetrics sampleMetrics.
Proof.
  split.
  1-3: vm_compute; congruence.
  - repeat constructor; vm_compute; congruence.
  - assert (mapOf (ColumnNullCounts sampleMetrics) = ∅) as -> by (vm_compute; reflexivity).
    split; [vm_compute; congruence|apply map_Forall_empty].
  - assert (mapOf (InvalidValueCounts sampleMetrics) = ∅) as -> by (vm_compute; reflexivity).
    split; [vm_compute; congruence|apply map_Forall_empty].
  - rewrite sampleMetrics_origins. split; [vm_compute; congruence|]. cbn [mapOf].
    repeat (apply map_Forall_insert_2; [repeat split; vm_compute; congruence|]).
    apply map_Forall_empty.
Qed.
Lemma PipelineMetrics_roundtrip_witness :
  exists b, EncodePipelineMetrics sampleMetrics [] = Ok b
    /\ DecodePipelineMetrics (b ++ []) = (Ok (canonMetrics sampleMetrics), []).
Proof.
  destruct (PipelineMetrics_roundtrip defaultOrder defaultOrder sampleMetrics [] []
              sampleMetrics_encodable) as (_ & (b & E & D) & _).
  exists b. split; [exact E|exact D].
Defined.
