(* ===== verification/Batch.v ===== *)
(** * Columnar record batches

    Models [internal/domain/record_batch.go]: the structure-of-arrays
    [RecordBatch] with its operations, its row iterator, and the refinement of
    the columns, bitmaps and masks to a plain list of rows. *)
From S2P Require Import Prelude GoStr Float64 Schema Intern RecordModel.

(** ** Data *)
Definition IsNumericDataType (t : DataType) : bool :=
  (t =s TypeInt64) || (t =s TypeFloat64) || (t =s TypeBool) || (t =s TypeTimestamp)
  || (t =s TypeDecimal).

(** A nil column ([NumCols[i]] of a string column, say) is an empty list:
    [append] and [range] treat both alike. An audit entry may be a nil map. *)
Record RecordBatch := mkRecordBatch {
  b_schema : Schema;
  b_capacity : Z;
  b_rowCount : Z;
  NumCols : list (list Z);
  StrCols : list (list string);
  ScaleCols : list (list Z);
  NullBitmaps : list (list Z);
  ValidMask : list Z;
  AuditValues : list (option (gmap string string))
}.

Definition set_rowCount (b : RecordBatch) n :=
  mkRecordBatch (b_schema b) (b_capacity b) n (NumCols b) (StrCols b) (ScaleCols b)
    (NullBitmaps b) (ValidMask b) (AuditValues b).
Definition set_NumCols (b : RecordBatch) c :=
  mkRecordBatch (b_schema b) (b_capacity b) (b_rowCount b) c (StrCols b) (ScaleCols b)
    (NullBitmaps b) (ValidMask b) (AuditValues b).
Definition set_StrCols (b : RecordBatch) c :=
  mkRecordBatch (b_schema b) (b_capacity b) (b_rowCount b) (NumCols b) c (ScaleCols b)
    (NullBitmaps b) (ValidMask b) (AuditValues b).
Definition set_ScaleCols (b : RecordBatch) c :=
  mkRecordBatch (b_schema b) (b_capacity b) (b_rowCount b) (NumCols b) (StrCols b) c
    (NullBitmaps b) (ValidMask b) (AuditValues b).
Definition set_NullBitmaps (b : RecordBatch) c :=
  mkRecordBatch (b_schema b) (b_capacity b) (b_rowCount b) (NumCols b) (StrCols b)
    (ScaleCols b) c (ValidMask b) (AuditValues b).
Definition set_ValidMask (b : RecordBatch) c :=
  mkRecordBatch (b_schema b) (b_capacity b) (b_rowCount b) (NumCols b) (StrCols b)
    (ScaleCols b) (NullBitmaps b) c (AuditValues b).
Definition set_AuditValues (b : RecordBatch) c :=
  mkRecordBatch (b_schema b) (b_capacity b) (b_rowCount b) (NumCols b) (StrCols b)
    (ScaleCols b) (NullBitmaps b) (ValidMask b) c.

(** ** Construction

    Capacities and counts are [int]s in the source. No arithmetic on them can wrap there:
    [make] panics on a capacity beyond the memory, far below 2^62, and a count of rows is
    at most the capacity. That panic is not modelled: a [RecordBatch] of the model is one
    Go could allocate. *)
Definition batchCapacity (capacity : Z) : Z :=
  let capacity := OrDefault 0 capacity DefaultRecordBatchCapacity in
  if capacity <? DefaultMinRecordBatchCapacity then DefaultMinRecordBatchCapacity else capacity.
Definition numWords (capacity : Z) : nat := Z.to_nat (Z.quot (capacity + 63) 64).
Definition allOnes : Z := u64 (Z.lnot 0).

(** Every column starts empty, so the three [make] branches agree. *)
Definition NewRecordBatch (schema : Schema) (capacity : Z) : RecordBatch :=
  let capacity := batchCapacity capacity in
  let nFields := length (Fields schema) in
  mkRecordBatch schema capacity 0 (replicate nFields []) (replicate nFields [])
    (replicate nFields []) (replicate nFields (replicate (numWords capacity) 0))
    (replicate (numWords capacity) allOnes) [].

Definition SetRowCount (b : RecordBatch) (n : Z) : RecordBatch := set_rowCount b n.

(** ** Bitmaps: [words[w] |= 1 << bit], [words[w] &^= 1 << bit], [words[w] & (1 << bit) != 0] *)
Definition setBit (words : list Z) (word bit : Z) : result (list Z) :=
  w ← go_index words word; go_set words word (Z.lor w (Z.shiftl 1 bit)).
Definition clearBit (words : list Z) (word bit : Z) : result (list Z) :=
  w ← go_index words word; go_set words word (Z.ldiff w (Z.shiftl 1 bit)).
Definition testBit (words : list Z) (word bit : Z) : result bool :=
  w ← go_index words word; mret (negb (Z.land w (Z.shiftl 1 bit) =? 0)).

(** [cols[i] = append(cols[i], v)] *)
Definition appendTo {A} (cols : list (list A)) (i : Z) (v : A) : result (list (list A)) :=
  col ← go_index cols i; go_set cols i (col ++ [v]).

(** ** Appending *)
Definition recCell (rec : option GenericRecord) (i : Z) : option FieldValue :=
  match rec with
  | None => None
  | Some r =>
      if zlen (Values r) <=? i then None
      else match Values r !! Z.to_nat i with
      | Some v => if IsNull v then None else Some v
      | None => None
      end
  end.

(** The column stores of one cell: scalar, and scale for decimals; or string. *)
Definition appendCols (b : RecordBatch) (i : Z) (t : DataType) (num scale : Z) (s : string)
    : result RecordBatch :=
  if IsNumericDataType t then
    nc ← appendTo (NumCols b) i num;
    let b := set_NumCols b nc in
    if t =s TypeDecimal then
      sc ← appendTo (ScaleCols b) i scale; mret (set_ScaleCols b sc)
    else mret b
  else
    sc ← appendTo (StrCols b) i s; mret (set_StrCols b sc).

Definition appendCell (idx : Z) (rec : option GenericRecord) (i : Z) (f : Field)
    (b : RecordBatch) : result RecordBatch :=
  let wordIdx := Z.quot idx 64 in
  let bitIdx := Z.rem idx 64 in
  match recCell rec i with
  | None =>
      words ← go_index (NullBitmaps b) i;
      words' ← setBit words wordIdx bitIdx;
      nb ← go_set (NullBitmaps b) i words';
      appendCols (set_NullBitmaps b nb) i (FType f) 0 0 ""
  | Some val => appendCols b i (FType f) (NumVal val) (Scale val) (StrVal val)
  end.

Fixpoint appendCells (idx : Z) (rec : option GenericRecord) (i : Z) (fs : list Field)
    (b : RecordBatch) : result RecordBatch :=
  match fs with
  | [] => Ok b
  | f :: fs' => b' ← appendCell idx rec i f b; appendCells idx rec (i + 1) fs' b'
  end.

Definition AppendRow (b : RecordBatch) (rec : option GenericRecord) : result RecordBatch :=
  if b_capacity b <=? b_rowCount b then
    Err (Errorf ("RecordBatch: capacity " +:+ FormatInt (b_capacity b) +:+ " exceeded") [])
  else
    b ← appendCells (b_rowCount b) rec 0 (Fields (b_schema b)) b;
    let b := set_AuditValues b (AuditValues b ++ [AuditFields <$> rec]) in
    mret (set_rowCount b (b_rowCount b + 1)).

(** ** Row validity *)
Definition SetRowValid (b : RecordBatch) (idx : Z) (valid : bool) : result RecordBatch :=
  if (idx <? 0) || (b_rowCount b <=? idx) then Ok b
  else
    let word := Z.quot idx 64 in
    let bit := Z.rem idx 64 in
    m ← (if valid then setBit (ValidMask b) word bit else clearBit (ValidMask b) word bit);
    mret (set_ValidMask b m).

Definition IsRowValid (b : RecordBatch) (idx : Z) : result bool :=
  if (idx <? 0) || (b_rowCount b <=? idx) then Ok false
  else testBit (ValidMask b) (Z.quot idx 64) (Z.rem idx 64).

Fixpoint validLoop (b : RecordBatch) (n : nat) (i valid : Z) : result Z :=
  match n with
  | O => Ok valid
  | S n' =>
      v ← IsRowValid b i;
      validLoop b n' (i + 1) (if v : bool then valid + 1 else valid)
  end.
Definition ValidRowCount (b : RecordBatch) : result Z :=
  validLoop b (Z.to_nat (b_rowCount b)) 0 0.

(** ** Reset *)
Definition resetCell (nW : nat) (i : Z) (f : Field) (b : RecordBatch) : result RecordBatch :=
  words ← go_index (NullBitmaps b) i;
  words' ← go_fill nW 0 0 words;
  nb ← go_set (NullBitmaps b) i words';
  let b := set_NullBitmaps b nb in
  if IsNumericDataType (FType f) then
    nc ← go_set (NumCols b) i [];
    let b := set_NumCols b nc in
    if FType f =s TypeDecimal then
      sc ← go_set (ScaleCols b) i []; mret (set_ScaleCols b sc)
    else mret b
  else
    sc ← go_set (StrCols b) i []; mret (set_StrCols b sc).

Fixpoint resetCells (nW : nat) (i : Z) (fs : list Field) (b : RecordBatch) : result RecordBatch :=
  match fs with
  | [] => Ok b
  | f :: fs' => b' ← resetCell nW i f b; resetCells nW (i + 1) fs' b'
  end.

Definition Reset (b : RecordBatch) : result RecordBatch :=
  let b := set_rowCount b 0 in
  let nW := numWords (b_capacity b) in
  vm ← go_fill nW 0 allOnes (ValidMask b);
  b ← resetCells nW 0 (Fields (b_schema b)) (set_ValidMask b vm);
  mret (set_AuditValues b []).

(** ** The row iterator, over a batch other code may change between calls *)
Record RecordBatchIterator := mkIterator { it_curr : Z; it_cached : GenericRecord }.

Definition Iterator (b : RecordBatch) : RecordBatchIterator :=
  mkIterator (-1) (mkGenericRecord "" (replicate (length (Fields (b_schema b))) zeroFieldValue) ∅).

Fixpoint skipInvalid (b : RecordBatch) (n : nat) (curr : Z) : result Z :=
  match n with
  | O => Ok curr
  | S n' =>
      if curr <? b_rowCount b then
        v ← IsRowValid b curr;
        if v : bool then mret curr else skipInvalid b n' (curr + 1)
      else Ok curr
  end.
Definition Next (b : RecordBatch) (it : RecordBatchIterator) : result (bool * RecordBatchIterator) :=
  let curr := it_curr it + 1 in
  curr ← skipInvalid b (Z.to_nat (b_rowCount b - curr)) curr;
  mret (curr <? b_rowCount b, mkIterator curr (it_cached it)).

Definition readCell (b : RecordBatch) (idx : Z) (i : Z) (f : Field) : result FieldValue :=
  words ← go_index (NullBitmaps b) i;
  isNull ← testBit words (Z.quot idx 64) (Z.rem idx 64);
  if isNull : bool then mret (mkFieldValue (FType f) true 0 0 "")
  else if IsNumericDataType (FType f) then
    nc ← go_index (NumCols b) i;
    num ← go_index nc idx;
    scale ← (if FType f =s TypeDecimal then
               sc ← go_index (ScaleCols b) i; go_index sc idx
             else mret 0);
    mret (mkFieldValue (FType f) false scale num "")
  else
    sc ← go_index (StrCols b) i;
    s ← go_index sc idx;
    mret (mkFieldValue (FType f) false 0 0 s).

(** Every field of the cached cell is assigned. *)
Fixpoint readCells (b : RecordBatch) (idx i : Z) (fs : list Field) (cached : list FieldValue)
    : result (list FieldValue) :=
  match fs with
  | [] => Ok cached
  | f :: fs' =>
      v ← readCell b idx i f;
      cached ← go_set cached i v;
      readCells b idx (i + 1) fs' cached
  end.

Definition Record_ (b : RecordBatch) (it : RecordBatchIterator) : result RecordBatchIterator :=
  let idx := it_curr it in
  vs ← readCells b idx 0 (Fields (b_schema b)) (Values (it_cached it));
  audit ← (if idx <? zlen (AuditValues b) then go_index (AuditValues b) idx else mret None);
  mret (mkIterator idx (mkGenericRecord (SchemaID (it_cached it)) vs (default ∅ audit))).

(** The client loop [for it.Next() { use(it.Record()) }], as the list of records used. *)
Fixpoint drain (b : RecordBatch) (fuel : nat) (it : RecordBatchIterator)
    : result (list GenericRecord) :=
  match fuel with
  | O => Ok []
  | S n =>
      '(ok, it) ← Next b it;
      if ok : bool then
        it ← Record_ b it;
        rs ← drain b n it;
        mret (it_cached it :: rs)
      else mret []
  end.

(** ** The abstract batch

    A row is its cells, its audit map and its validity; a batch is a list of
    rows, and [batchOf] lays the rows out as the columns, bitmaps and mask. *)
Record BatchRow := mkRow {
  r_cells : list FieldValue;
  r_audit : option (gmap string string);
  r_valid : bool
}.
Definition cellAt (row : BatchRow) (i : nat) : FieldValue := default zeroFieldValue (r_cells row !! i).

(** The cell a column can hold: what [Record] gives back for a value. *)
Definition canonCell (f : Field) (v : option FieldValue) : FieldValue :=
  match v with
  | Some v =>
      if IsNull v then mkFieldValue (FType f) true 0 0 ""
      else if IsNumericDataType (FType f)
      then mkFieldValue (FType f) false (if FType f =s TypeDecimal then Scale v else 0) (NumVal v) ""
      else mkFieldValue (FType f) false 0 0 (StrVal v)
  | None => mkFieldValue (FType f) true 0 0 ""
  end.
Definition rowOf (schema : Schema) (rec : option GenericRecord) : BatchRow :=
  mkRow (imap (fun i f => canonCell f (recCell rec (Z.of_nat i))) (Fields schema))
    (AuditFields <$> rec) true.

(** A bitmap of [64 * n] bits, the bit of row [r] being [p r]. *)
Fixpoint wordBits (n : nat) (p : nat -> bool) : Z :=
  match n with
  | O => 0
  | S n' => Z.b2z (p 0%nat) + 2 * wordBits n' (fun j => p (S j))
  end.
Definition bitmap (n : nat) (p : nat -> bool) : list Z :=
  map (fun k => wordBits 64 (fun j => p (64 * k + j)%nat)) (seq 0 n).

Definition nullBit (rows : list BatchRow) (i r : nat) : bool :=
  match rows !! r with Some row => IsNull (cellAt row i) | None => false end.
Definition validBit (rows : list BatchRow) (r : nat) : bool :=
  match rows !! r with Some row => r_valid row | None => true end.
Definition numCol (rows : list BatchRow) (i : nat) (f : Field) : list Z :=
  if IsNumericDataType (FType f) then map (fun row => NumVal (cellAt row i)) rows else [].
Definition scaleCol (rows : list BatchRow) (i : nat) (f : Field) : list Z :=
  if FType f =s TypeDecimal then map (fun row => Scale (cellAt row i)) rows else [].
Definition strCol (rows : list BatchRow) (i : nat) (f : Field) : list string :=
  if IsNumericDataType (FType f) then [] else map (fun row => StrVal (cellAt row i)) rows.
Definition nullCol (nW : nat) (rows : list BatchRow) (i : nat) (f : Field) : list Z :=
  bitmap nW (nullBit rows i).

Definition batchOf (schema : Schema) (cap : Z) (rows : list BatchRow) : RecordBatch :=
  let fs := Fields schema in
  mkRecordBatch schema cap (zlen rows) (imap (numCol rows) fs) (imap (strCol rows) fs)
    (imap (scaleCol rows) fs) (imap (nullCol (numWords cap) rows) fs)
    (bitmap (numWords cap) (validBit rows)) (map r_audit rows).

(** ** Lemmas on bitmaps *)
Lemma wordBits_testbit n p j :
  0 <= j -> Z.testbit (wordBits n p) j = (j <? Z.of_nat n) && p (Z.to_nat j).
Proof.
  revert p j. induction n as [|n IH]; intros p j Hj; cbn [wordBits].
  { rewrite Z.testbit_0_l. by destruct (Z.ltb_spec j (Z.of_nat 0)); [lia|]. }
  rewrite Z.add_comm. destruct (Z.eq_dec j 0) as [->|Hj0].
  { rewrite Z.testbit_0_r. by destruct (Z.ltb_spec 0 (Z.of_nat (S n))); [|lia]. }
  replace j with (Z.succ (j - 1)) by lia. rewrite Z.testbit_succ_r by lia.
  rewrite IH by lia. replace (Z.to_nat (Z.succ (j - 1))) with (S (Z.to_nat (j - 1))) by lia.
  f_equal. destruct (Z.ltb_spec (j - 1) (Z.of_nat n)), (Z.ltb_spec (Z.succ (j - 1)) (Z.of_nat (S n))); lia.
Qed.
Lemma wordBits_range n p : 0 <= wordBits n p < 2 ^ Z.of_nat n.
Proof.
  revert p. induction n as [|n IH]; intros p; cbn [wordBits]; [simpl; lia|].
  specialize (IH (fun j => p (S j))). rewrite Nat2Z.inj_succ, Z.pow_succ_r by lia.
  destruct (p 0%nat); simpl Z.b2z; lia.
Qed.
Lemma wordBits_ext n p q : (forall j, (j < n)%nat -> p j = q j) -> wordBits n p = wordBits n q.
Proof.
  revert p q. induction n as [|n IH]; intros p q H; cbn [wordBits]; [done|].
  rewrite (H 0%nat) by lia. rewrite (IH _ (fun j => q (S j))); [done|]. intros. apply H. lia.
Qed.
Lemma wordBits_const n : wordBits n (fun _ => false) = 0 /\ wordBits n (fun _ => true) = 2 ^ Z.of_nat n - 1.
Proof.
  induction n as [|n [IH1 IH2]]; cbn [wordBits]; [done|].
  rewrite IH1, IH2, Nat2Z.inj_succ, Z.pow_succ_r by lia. simpl Z.b2z. split; lia.
Qed.

Lemma bitmap_ext n p q : (forall r, (r < 64 * n)%nat -> p r = q r) -> bitmap n p = bitmap n q.
Proof.
  intros H. unfold bitmap. apply map_ext_in. intros k [_ Hk]%in_seq.
  apply wordBits_ext. intros j Hj. apply H. lia.
Qed.
Lemma bitmap_false n : bitmap n (fun _ => false) = replicate n 0.
Proof.
  unfold bitmap. rewrite (proj1 (wordBits_const 64)).
  generalize 0%nat. induction n as [|n IH]; intros k; cbn; [done|]. by rewrite IH.
Qed.
Lemma bitmap_true n : bitmap n (fun _ => true) = replicate n allOnes.
Proof.
  unfold bitmap. rewrite (proj2 (wordBits_const 64)).
  change (2 ^ Z.of_nat 64 - 1) with allOnes.
  generalize 0%nat. induction n as [|n IH]; intros k; cbn [seq map replicate]; [done|]. by rewrite IH.
Qed.
Lemma length_bitmap n p : length (bitmap n p) = n.
Proof. unfold bitmap. by rewrite length_map, length_seq. Qed.
Lemma bitmap_words n p : Forall in_u64 (bitmap n p).
Proof.
  apply Forall_forall. intros w Hw. apply list_elem_of_In, in_map_iff in Hw as (k & <- & _).
  apply (wordBits_range 64).
Qed.
Lemma bitmap_lookup n p k :
  (k < n)%nat -> bitmap n p !! k = Some (wordBits 64 (fun j => p (64 * k + j)%nat)).
Proof.
  intros H. unfold bitmap.
  rewrite list_lookup_fmap, lookup_seq_lt by done. done.
Qed.

(** Row [r] lives in word [r/64], at bit [r mod 64]. *)
Lemma row_word r n : (r < 64 * n)%nat ->
  Z.quot (Z.of_nat r) 64 = Z.of_nat (r / 64) /\ Z.rem (Z.of_nat r) 64 = Z.of_nat (r mod 64)
  /\ (r / 64 < n)%nat /\ r = (64 * (r / 64) + r mod 64)%nat /\ (r mod 64 < 64)%nat.
Proof.
  intros H. rewrite Z.quot_div_nonneg, Z.rem_mod_nonneg by lia.
  rewrite Nat2Z.inj_div, Nat2Z.inj_mod.
  pose proof (Nat.div_mod_eq r 64). pose proof (Nat.mod_upper_bound r 64).
  repeat split; lia.
Qed.
Lemma testBit_bitmap n p r : (r < 64 * n)%nat ->
  testBit (bitmap n p) (Z.quot (Z.of_nat r) 64) (Z.rem (Z.of_nat r) 64) = Ok (p r).
Proof.
  intros H. destruct (row_word r n H) as (-> & -> & Hw & Er & Hb). unfold testBit.
  rewrite (go_index_Some _ _ _ (bitmap_lookup n p _ Hw)). cbn [mbind result_bind mret result_ret].
  f_equal. set (w := wordBits 64 _).
  assert (Z.testbit w (Z.of_nat (r mod 64)) = p r) as <-.
  { unfold w. rewrite wordBits_testbit, Nat2Z.id, <- Er by lia.
    by destruct (Z.ltb_spec (Z.of_nat (r mod 64)) (Z.of_nat 64)); [|lia]. }
  rewrite Z.shiftl_1_l.
  destruct (Z.testbit w (Z.of_nat (r mod 64))) eqn:E.
  - apply negb_true_iff, Z.eqb_neq. intros E0.
    assert (Z.testbit (Z.land w (2 ^ Z.of_nat (r mod 64))) (Z.of_nat (r mod 64)) = false) as Hf
      by by rewrite E0, Z.testbit_0_l.
    rewrite Z.land_spec, E, Z.pow2_bits_true in Hf by lia. done.
  - apply negb_false_iff, Z.eqb_eq. apply Z.bits_inj'. intros j Hj.
    rewrite Z.land_spec, Z.testbit_0_l, Z.pow2_bits_eqb by lia.
    destruct (Z.eqb_spec (Z.of_nat (r mod 64)) j) as [<-|]; [by rewrite E|by rewrite andb_false_r].
Qed.

Lemma setWord_bitmap n p r (v : bool) w' :
  (r < 64 * n)%nat ->
  (forall j, 0 <= j -> Z.testbit w' j =
     if j =? Z.of_nat (r mod 64) then v
     else Z.testbit (wordBits 64 (fun i => p (64 * (r / 64) + i)%nat)) j) ->
  0 <= w' ->
  <[(r / 64)%nat := w']> (bitmap n p) = bitmap n (fun x => if decide (x = r) then v else p x).
Proof.
  intros H Hw H0. destruct (row_word r n H) as (_ & _ & Hk & Er & Hb).
  apply list_eq. intros k. destruct (decide (k < n)%nat) as [Hn|Hn].
  2:{ rewrite !lookup_ge_None_2; rewrite ?length_insert, ?length_bitmap; [done|lia|lia]. }
  rewrite (bitmap_lookup n (fun x => if decide (x = r) then v else p x)) by done.
  destruct (decide (k = r / 64)%nat) as [->|Hne].
  - rewrite list_lookup_insert_eq by by rewrite length_bitmap. f_equal.
    apply Z.bits_inj'. intros j Hj. rewrite Hw, wordBits_testbit by done.
    rewrite wordBits_testbit by done.
    destruct (Z.eqb_spec j (Z.of_nat (r mod 64))) as [->|Hj'].
    + rewrite Nat2Z.id, <- Er. destruct (Z.ltb_spec (Z.of_nat (r mod 64)) (Z.of_nat 64)); [|lia].
      rewrite decide_True; done.
    + f_equal. rewrite decide_False; [done|lia].
  - rewrite list_lookup_insert_ne, bitmap_lookup by done. f_equal. apply wordBits_ext.
    intros j Hj. rewrite decide_False; [done|lia].
Qed.
Lemma updBit_bitmap n p r (v : bool) :
  (r < 64 * n)%nat ->
  (if v then setBit else clearBit) (bitmap n p) (Z.quot (Z.of_nat r) 64) (Z.rem (Z.of_nat r) 64)
  = Ok (bitmap n (fun x => if decide (x = r) then v else p x)).
Proof.
  intros H. destruct (row_word r n H) as (-> & -> & Hw & Er & Hb).
  assert (forall x, 0 <= x -> exists w', 0 <= w' /\
    (if v then setBit else clearBit) (bitmap n p) (Z.of_nat (r / 64)) (Z.of_nat (r mod 64))
    = Ok (<[(r / 64)%nat := w']> (bitmap n p)) /\
    (forall j, 0 <= j -> Z.testbit w' j = if j =? Z.of_nat (r mod 64) then v
     else Z.testbit (wordBits 64 (fun i => p (64 * (r / 64) + i)%nat)) j)) as Hx.
  { intros _ _. set (w := wordBits 64 _). pose proof (wordBits_range 64 (fun i => p (64 * (r / 64) + i)%nat)) as Hr.
    destruct v; [exists (Z.lor w (Z.shiftl 1 (Z.of_nat (r mod 64))))
                |exists (Z.ldiff w (Z.shiftl 1 (Z.of_nat (r mod 64))))]; repeat split.
    - apply Z.lor_nonneg. rewrite Z.shiftl_1_l. fold w in Hr. lia.
    - unfold setBit. rewrite (go_index_Some _ _ _ (bitmap_lookup n p _ Hw)).
      cbn [mbind result_bind]. apply go_set_lt. by rewrite length_bitmap.
    - intros j Hj. rewrite Z.shiftl_1_l, Z.lor_spec, Z.pow2_bits_eqb, (Z.eqb_sym _ j) by lia.
      destruct (_ =? _); [by rewrite orb_true_r|by rewrite orb_false_r].
    - apply Z.ldiff_nonneg. fold w in Hr. lia.
    - unfold clearBit. rewrite (go_index_Some _ _ _ (bitmap_lookup n p _ Hw)).
      cbn [mbind result_bind]. apply go_set_lt. by rewrite length_bitmap.
    - intros j Hj. rewrite Z.shiftl_1_l, Z.ldiff_spec, Z.pow2_bits_eqb, (Z.eqb_sym _ j) by lia.
      destruct (_ =? _); [by rewrite andb_false_r|by rewrite andb_true_r]. }
  destruct (Hx 0 ltac:(lia)) as (w' & H0 & -> & Hb'). f_equal. by apply setWord_bitmap.
Qed.

(** ** Loops over columns: columns before [n] are done ([a]), the others not yet ([b]) *)
Section Mixed.
Context {A B : Type} (a b : nat -> A -> B).
Definition mixed (n : nat) (l : list A) : list B :=
  imap (fun i x => if decide (i < n)%nat then a i x else b i x) l.
Lemma mixed_0 l : mixed 0 l = imap b l.
Proof. done. Qed.
Lemma mixed_full l : mixed (length l) l = imap a l.
Proof.
  apply list_eq. intros i. unfold mixed. rewrite !list_lookup_imap.
  destruct (l !! i) eqn:E; [|done]. simpl. apply lookup_lt_Some in E. by rewrite decide_True.
Qed.
Lemma mixed_lookup n l x : l !! n = Some x -> mixed n l !! n = Some (b n x).
Proof.
  intros E. unfold mixed. rewrite list_lookup_imap, E. simpl. by rewrite decide_False by lia.
Qed.
Lemma length_mixed n l : length (mixed n l) = length l.
Proof. apply length_imap. Qed.
Lemma mixed_step n l x : l !! n = Some x -> <[n := a n x]> (mixed n l) = mixed (S n) l.
Proof.
  intros E. apply list_eq. intros i. pose proof (lookup_lt_Some _ _ _ E).
  destruct (decide (i = n)) as [->|Hi].
  - rewrite list_lookup_insert_eq by by rewrite length_mixed.
    unfold mixed. rewrite list_lookup_imap, E. simpl. by rewrite decide_True by lia.
  - rewrite list_lookup_insert_ne by done. unfold mixed. rewrite !list_lookup_imap.
    destruct (l !! i); [|done]. simpl. f_equal. do 2 case_decide; lia || done.
Qed.
Lemma mixed_skip n l x : l !! n = Some x -> a n x = b n x -> mixed n l = mixed (S n) l.
Proof.
  intros E Hab. rewrite <- (mixed_step n l x E), Hab.
  symmetry. apply list_insert_id. by apply mixed_lookup.
Qed.
Lemma go_set_mixed n l x : l !! n = Some x ->
  go_set (mixed n l) (Z.of_nat n) (a n x) = Ok (mixed (S n) l).
Proof.
  intros E. rewrite go_set_lt by (rewrite length_mixed; by eapply lookup_lt_Some).
  by rewrite (mixed_step _ _ _ E).
Qed.
Lemma go_index_mixed n l x : l !! n = Some x -> go_index (mixed n l) (Z.of_nat n) = Ok (b n x).
Proof. intros E. by apply go_index_Some, mixed_lookup. Qed.
End Mixed.
Lemma appendTo_mixed {A B} (a b : nat -> A -> list B) n l x v :
  l !! n = Some x -> a n x = b n x ++ [v] ->
  appendTo (mixed a b n l) (Z.of_nat n) v = Ok (mixed a b (S n) l).
Proof.
  intros E Ha. unfold appendTo. rewrite (go_index_mixed _ _ _ _ _ E).
  cbn [mbind result_bind]. by rewrite <- Ha, go_set_mixed.
Qed.

(** The batch in the middle of a loop that turns rows [rb] into rows [ra]: the
    first [n] columns and the first [k] null bitmaps are done. *)
Definition batchMid (schema : Schema) (cap count : Z) (mask : list Z)
    (audits : list (option (gmap string string))) (ra rb : list BatchRow) (n k : nat) : RecordBatch :=
  let fs := Fields schema in
  mkRecordBatch schema cap count (mixed (numCol ra) (numCol rb) n fs)
    (mixed (strCol ra) (strCol rb) n fs) (mixed (scaleCol ra) (scaleCol rb) n fs)
    (mixed (nullCol (numWords cap) ra) (nullCol (numWords cap) rb) k fs) mask audits.

Lemma batchMid_start schema cap rows ra :
  batchOf schema cap rows = batchMid schema cap (zlen rows) (bitmap (numWords cap) (validBit rows))
    (map r_audit rows) ra rows 0 0.
Proof. done. Qed.
Lemma batchMid_end schema cap count mask audits ra rb :
  let n := length (Fields schema) in
  batchMid schema cap count mask audits ra rb n n =
  mkRecordBatch schema cap count (imap (numCol ra) (Fields schema)) (imap (strCol ra) (Fields schema))
    (imap (scaleCol ra) (Fields schema)) (imap (nullCol (numWords cap) ra) (Fields schema)) mask audits.
Proof. cbn zeta. unfold batchMid. by rewrite !mixed_full. Qed.

Lemma not_numeric_decimal t : IsNumericDataType t = false -> (t =s TypeDecimal) = false.
Proof. unfold IsNumericDataType. intros H. by apply orb_false_iff in H as [_ H]. Qed.
(** ** Appending refines [rows ++ [row]] *)
Section Append.
Context (schema : Schema) (cap : Z) (rows : list BatchRow) (row : BatchRow).
Context (mask : list Z) (audits : list (option (gmap string string))).
Let mid := batchMid schema cap (zlen rows) mask audits (rows ++ [row]) rows.

Lemma appendCols_mid n k f num scale s :
  Fields schema !! n = Some f ->
  (IsNumericDataType (FType f) = true -> NumVal (cellAt row n) = num) ->
  ((FType f =s TypeDecimal) = true -> Scale (cellAt row n) = scale) ->
  (IsNumericDataType (FType f) = false -> StrVal (cellAt row n) = s) ->
  appendCols (mid n k) (Z.of_nat n) (FType f) num scale s = Ok (mid (S n) k).
Proof.
  intros E Hn Hd Hs. unfold appendCols, mid, batchMid.
  destruct (IsNumericDataType (FType f)) eqn:En.
  - cbn [NumCols]. rewrite (appendTo_mixed _ _ _ _ f num E).
    2:{ unfold numCol. rewrite En, map_app. cbn [map]. by rewrite Hn. }
    cbn [mbind result_bind].
    rewrite (mixed_skip (strCol _) (strCol _) n _ f E) by (unfold strCol; by rewrite En).
    destruct (FType f =s TypeDecimal) eqn:Ed.
    + cbn [ScaleCols set_NumCols]. rewrite (appendTo_mixed _ _ _ _ f scale E).
      2:{ unfold scaleCol. rewrite Ed, map_app. cbn [map]. by rewrite Hd. }
      done.
    + rewrite (mixed_skip (scaleCol _) (scaleCol _) n _ f E) by (unfold scaleCol; by rewrite Ed). done.
  - cbn [StrCols]. rewrite (appendTo_mixed _ _ _ _ f s E).
    2:{ unfold strCol. rewrite En, map_app. cbn [map]. by rewrite Hs. }
    cbn [mbind result_bind].
    rewrite (mixed_skip (numCol _) (numCol _) n _ f E) by (unfold numCol; by rewrite En).
    rewrite (mixed_skip (scaleCol _) (scaleCol _) n _ f E)
      by (unfold scaleCol; by rewrite (not_numeric_decimal _ En)).
    done.
Qed.

Lemma nullBit_app i x : nullBit (rows ++ [row]) i x =
  if decide (x = length rows) then IsNull (cellAt row i) else nullBit rows i x.
Proof.
  unfold nullBit. case_decide as Hx.
  - subst. by rewrite list_lookup_middle.
  - destruct (decide (x < length rows)%nat) as [Hlt|Hge].
    + by rewrite lookup_app_l.
    + rewrite !lookup_ge_None_2; [done|lia|rewrite length_app; simpl; lia].
Qed.

Context (rec : option GenericRecord) (Hrow : row = rowOf schema rec).
Context (Hroom : (length rows < 64 * numWords cap)%nat).

Lemma cellAt_rowOf n f : Fields schema !! n = Some f ->
  cellAt row n = canonCell f (recCell rec (Z.of_nat n)).
Proof. intros E. unfold cellAt. rewrite Hrow. cbn [r_cells rowOf]. by rewrite list_lookup_imap, E. Qed.
Lemma recCell_notnull i v : recCell rec i = Some v -> IsNull v = false.
Proof.
  unfold recCell. destruct rec as [r|]; [|done]. destruct (_ <=? _); [done|].
  destruct (Values r !! _) as [v'|]; [|done]. by destruct (IsNull v') eqn:E; [|intros [= <-]].
Qed.

Lemma appendCell_mid n f : Fields schema !! n = Some f ->
  appendCell (zlen rows) rec (Z.of_nat n) f (mid n n) = Ok (mid (S n) (S n)).
Proof.
  intros E. pose proof (cellAt_rowOf n f E) as Hc. unfold appendCell.
  destruct (recCell rec (Z.of_nat n)) as [val|] eqn:Ev.
  - pose proof (recCell_notnull _ _ Ev) as Hnull. cbn [canonCell] in Hc. rewrite Hnull in Hc.
    rewrite appendCols_mid by (try done; rewrite Hc; destruct (IsNumericDataType (FType f)) eqn:En;
      try done; try (by intros ->); by rewrite (not_numeric_decimal _ En)).
    f_equal. unfold mid, batchMid.
    rewrite (mixed_skip (nullCol _ _) (nullCol _ _) n _ f E); [done|].
    unfold nullCol. apply bitmap_ext. intros x _. rewrite nullBit_app, Hc.
    case_decide; subst; [|done]. unfold nullBit. rewrite lookup_ge_None_2 by lia.
    by destruct (IsNumericDataType (FType f)).
  - assert (forall m k, NullBitmaps (mid m k) = mixed (nullCol (numWords cap) (rows ++ [row]))
      (nullCol (numWords cap) rows) k (Fields schema)) as Hnb by done.
    rewrite !Hnb, (go_index_mixed _ _ _ _ _ E). cbn [mbind result_bind].
    change (nullCol (numWords cap) rows n f) with (bitmap (numWords cap) (nullBit rows n)).
    pose proof (updBit_bitmap _ (nullBit rows n) _ true Hroom) as Hu. cbn iota in Hu.
    fold (zlen rows) in Hu. rewrite Hu.
    cbn [mbind result_bind].
    replace (bitmap (numWords cap) _) with (nullCol (numWords cap) (rows ++ [row]) n f).
    2:{ apply bitmap_ext. intros x _. rewrite nullBit_app, Hc. done. }
    rewrite (go_set_mixed _ _ _ _ _ E). cbn [mbind result_bind].
    apply (appendCols_mid n (S n) f); rewrite ?Hc; done.
Qed.

Lemma appendCells_mid fs n :
  drop n (Fields schema) = fs -> (n <= length (Fields schema))%nat ->
  appendCells (zlen rows) rec (Z.of_nat n) fs (mid n n)
  = Ok (mid (length (Fields schema)) (length (Fields schema))).
Proof.
  revert n. induction fs as [|f fs IH]; intros n Hd Hn; cbn [appendCells].
  - pose proof (f_equal length Hd) as Hl. rewrite length_drop in Hl. simpl in Hl.
    by replace n with (length (Fields schema)) by lia.
  - assert (Fields schema !! n = Some f) as E.
    { rewrite <- (take_drop n (Fields schema)), Hd, list_lookup_middle; [done|].
      rewrite length_take. lia. }
    rewrite (appendCell_mid n f E). cbn [mbind result_bind].
    replace (Z.of_nat n + 1) with (Z.of_nat (S n)) by lia.
    apply IH; [|by apply lookup_lt_Some in E].
    apply (drop_S _ _ _ E) in Hd || (rewrite (drop_S _ _ _ E) in Hd; by injection Hd).
Qed.
End Append.

Lemma numWords_room cap r : Z.of_nat r < cap -> (r < 64 * numWords cap)%nat.
Proof.
  intros H. unfold numWords. rewrite Z.quot_div_nonneg by lia.
  pose proof (Z.div_mod (cap + 63) 64). pose proof (Z.mod_pos_bound (cap + 63) 64). lia.
Qed.
Lemma batchCapacity_pos c : 0 < batchCapacity c.
Proof.
  unfold batchCapacity, DefaultMinRecordBatchCapacity.
  destruct (Z.ltb_spec (OrDefault 0 c DefaultRecordBatchCapacity) 64); lia.
Qed.

Lemma imap_replicate {A B} (f : nat -> A -> B) (l : list A) x :
  (forall i a, f i a = x) -> imap f l = replicate (length l) x.
Proof.
  intros H. apply list_eq. intros i. rewrite list_lookup_imap.
  destruct (l !! i) eqn:E; simpl.
  - rewrite lookup_replicate_2; [by rewrite H|by eapply lookup_lt_Some].
  - symmetry. apply lookup_replicate_None. by apply lookup_ge_None.
Qed.
Lemma emptyCols i f :
  numCol [] i f = [] /\ strCol [] i f = [] /\ scaleCol [] i f = [].
Proof.
  unfold numCol, strCol, scaleCol. destruct (IsNumericDataType _), (_ =s _); done.
Qed.

Lemma NewRecordBatch_batchOf schema c : NewRecordBatch schema c = batchOf schema (batchCapacity c) [].
Proof.
  unfold NewRecordBatch, batchOf. f_equal.
  - symmetry. apply imap_replicate. intros. apply emptyCols.
  - symmetry. apply imap_replicate. intros. apply emptyCols.
  - symmetry. apply imap_replicate. intros. apply emptyCols.
  - symmetry. apply imap_replicate. intros. unfold nullCol. rewrite <- bitmap_false. by apply bitmap_ext.
  - rewrite <- bitmap_true. by apply bitmap_ext.
Qed.

Lemma AppendRow_batchOf schema cap rows rec : zlen rows < cap ->
  AppendRow (batchOf schema cap rows) rec = Ok (batchOf schema cap (rows ++ [rowOf schema rec])).
Proof.
  intros H. unfold AppendRow. cbn [b_capacity b_rowCount b_schema batchOf].
  destruct (Z.leb_spec cap (zlen rows)); [lia|].
  rewrite (batchMid_start _ _ _ (rows ++ [rowOf schema rec])).
  pose proof (appendCells_mid schema cap rows (rowOf schema rec) (bitmap (numWords cap) (validBit rows))
    (map r_audit rows) rec eq_refl (numWords_room _ _ H) _ 0%nat eq_refl ltac:(lia)) as Hc.
  rewrite drop_0 in Hc. change (Z.of_nat 0) with 0 in Hc. rewrite Hc. cbn [mbind result_bind].
  rewrite batchMid_end. unfold batchOf, set_rowCount, set_AuditValues. cbn. f_equal. f_equal.
  - unfold zlen. rewrite length_app. simpl. lia.
  - apply bitmap_ext. intros r _. unfold validBit. destruct (decide (r < length rows)%nat).
    + by rewrite lookup_app_l.
    + rewrite lookup_ge_None_2 by lia. destruct (decide (r = length rows)) as [->|].
      * by rewrite list_lookup_middle.
      * rewrite lookup_ge_None_2; [done|rewrite length_app; simpl; lia].
  - by rewrite map_app.
Qed.

(** ** Validity *)
Definition setValid (v : bool) (row : BatchRow) : BatchRow := mkRow (r_cells row) (r_audit row) v.
Definition inRange (rows : list BatchRow) (idx : Z) : bool := (0 <=? idx) && (idx <? zlen rows).
Definition specSetValid (rows : list BatchRow) (idx : Z) (v : bool) : list BatchRow :=
  if inRange rows idx then alter (setValid v) (Z.to_nat idx) rows else rows.

Lemma map_alter_setValid {B} (g : BatchRow -> B) n v rows :
  (forall row, g (setValid v row) = g row) -> map g (alter (setValid v) n rows) = map g rows.
Proof.
  intros Hg. revert n. induction rows as [|row rows IH]; intros [|n]; cbn; [done..|by rewrite Hg|].
  f_equal. apply IH.
Qed.
Lemma batchOf_alter schema cap rows n v :
  batchOf schema cap (alter (setValid v) n rows)
  = set_ValidMask (batchOf schema cap rows)
      (bitmap (numWords cap) (validBit (alter (setValid v) n rows))).
Proof.
  unfold batchOf, set_ValidMask. cbn. unfold zlen. rewrite length_alter.
  rewrite map_alter_setValid by done. f_equal; apply imap_ext; intros i f Hf.
  - unfold numCol. by rewrite map_alter_setValid.
  - unfold strCol. by rewrite map_alter_setValid.
  - unfold scaleCol. by rewrite map_alter_setValid.
  - apply bitmap_ext. intros r _. unfold nullBit.
    rewrite list_lookup_alter. case_decide; [subst|done]. by destruct (rows !! _).
Qed.

Lemma SetRowValid_batchOf schema cap rows idx v : zlen rows <= cap ->
  SetRowValid (batchOf schema cap rows) idx v = Ok (batchOf schema cap (specSetValid rows idx v)).
Proof.
  intros Hcap. unfold SetRowValid, specSetValid, inRange. cbn [b_rowCount batchOf ValidMask].
  destruct (Z.ltb_spec idx 0), (Z.leb_spec (zlen rows) idx), (Z.leb_spec 0 idx),
    (Z.ltb_spec idx (zlen rows)); try lia; try done. cbn [orb andb].
  replace idx with (Z.of_nat (Z.to_nat idx)) by lia. set (n := Z.to_nat idx) in *.
  assert (n < length rows)%nat as Hn by (unfold zlen in *; lia).
  rewrite Nat2Z.id.
  pose proof (updBit_bitmap (numWords cap) (validBit rows) n v) as Hu.
  rewrite (batchOf_alter schema cap rows n v).
  replace (if v then setBit (bitmap (numWords cap) (validBit rows)) (Z.of_nat n ÷ 64) (Z.of_nat n `rem` 64)
    else clearBit (bitmap (numWords cap) (validBit rows)) (Z.of_nat n ÷ 64) (Z.of_nat n `rem` 64))
    with ((if v then setBit else clearBit) (bitmap (numWords cap) (validBit rows))
      (Z.of_nat n ÷ 64) (Z.of_nat n `rem` 64)) by by destruct v.
  rewrite Hu by (apply numWords_room; unfold zlen in *; lia). cbn [mbind result_bind].
  unfold mret, result_ret. do 2 f_equal. apply bitmap_ext. intros r _. unfold validBit.
  rewrite list_lookup_alter. case_decide as Hr; subst.
  - destruct (lookup_lt_is_Some_2 rows n Hn) as [row E]. rewrite E. simpl. by rewrite decide_True.
  - by rewrite decide_False by done.
Qed.

Lemma IsRowValid_batchOf schema cap rows idx : zlen rows <= cap ->
  IsRowValid (batchOf schema cap rows) idx
  = Ok (inRange rows idx && validBit rows (Z.to_nat idx)).
Proof.
  intros Hcap. unfold IsRowValid, inRange. cbn [b_rowCount batchOf ValidMask].
  destruct (Z.ltb_spec idx 0), (Z.leb_spec (zlen rows) idx), (Z.leb_spec 0 idx),
    (Z.ltb_spec idx (zlen rows)); try lia; try done. cbn [orb andb].
  replace idx with (Z.of_nat (Z.to_nat idx)) at 1 2 by lia.
  rewrite testBit_bitmap; [done|]. apply numWords_room. lia.
Qed.

(** ** Counting and draining *)
Definition countValid (rows : list BatchRow) : Z := zlen (filter (fun r => r_valid r = true) rows).

Lemma validLoop_spec schema cap rows n k acc : zlen rows <= cap -> (k + n = length rows)%nat ->
  validLoop (batchOf schema cap rows) n (Z.of_nat k) acc = Ok (acc + countValid (drop k rows)).
Proof.
  intros Hcap. revert k acc. induction n as [|n IH]; intros k acc Hk; cbn [validLoop].
  { rewrite drop_ge by lia. unfold countValid. cbn. f_equal. unfold zlen. simpl. lia. }
  destruct (lookup_lt_is_Some_2 rows k ltac:(lia)) as [row E].
  rewrite IsRowValid_batchOf by done. unfold inRange, validBit. rewrite Nat2Z.id, E.
  destruct (Z.leb_spec 0 (Z.of_nat k)); [|lia].
  destruct (Z.ltb_spec (Z.of_nat k) (zlen rows)); [|unfold zlen in *; lia].
  cbn [andb mbind result_bind]. replace (Z.of_nat k + 1) with (Z.of_nat (S k)) by lia.
  rewrite IH by lia. rewrite (drop_S _ _ _ E). unfold countValid.
  rewrite filter_cons. destruct (r_valid row).
  - rewrite decide_True by done. f_equal. unfold zlen. simpl. lia.
  - by rewrite decide_False.
Qed.
Lemma ValidRowCount_batchOf schema cap rows : zlen rows <= cap ->
  ValidRowCount (batchOf schema cap rows) = Ok (countValid rows).
Proof.
  intros H. unfold ValidRowCount. cbn [b_rowCount batchOf]. unfold zlen. rewrite Nat2Z.id.
  change 0 with (Z.of_nat 0) at 1. rewrite (validLoop_spec schema cap rows _ 0) by done. done.
Qed.

(** Rows as [AppendRow] stores them. *)
Definition wfRow (schema : Schema) (row : BatchRow) : Prop :=
  length (r_cells row) = length (Fields schema)
  /\ forall i f, Fields schema !! i = Some f -> canonCell f (Some (cellAt row i)) = cellAt row i.
Definition recordOf (row : BatchRow) : GenericRecord :=
  mkGenericRecord "" (r_cells row) (default ∅ (r_audit row)).

Lemma canonCell_idem f v : canonCell f (Some (canonCell f v)) = canonCell f v.
Proof.
  destruct v as [v|]; cbn [canonCell]; [|done].
  destruct (IsNull v); cbn; [done|].
  destruct (IsNumericDataType (FType f)) eqn:En; cbn; rewrite ?En; [|done].
  by destruct (FType f =s TypeDecimal).
Qed.
Lemma rowOf_wf schema rec : wfRow schema (rowOf schema rec).
Proof.
  split; [apply length_imap|]. intros i f E.
  rewrite (cellAt_rowOf schema _ rec eq_refl i f E). apply canonCell_idem.
Qed.

Section Reading.
Context (schema : Schema) (cap : Z) (rows : list BatchRow) (Hcap : zlen rows <= cap).
Let b := batchOf schema cap rows.

Lemma go_index_imap {A B} (g : nat -> A -> B) l n x :
  l !! n = Some x -> go_index (imap g l) (Z.of_nat n) = Ok (g n x).
Proof. intros E. apply go_index_Some. by rewrite list_lookup_imap, E. Qed.
Lemma go_index_map {A B} (g : A -> B) l n x :
  l !! n = Some x -> go_index (map g l) (Z.of_nat n) = Ok (g x).
Proof. intros E. apply go_index_Some. by rewrite list_lookup_fmap, E. Qed.

Lemma readCell_batchOf r row i f :
  rows !! r = Some row -> Fields schema !! i = Some f ->
  readCell b (Z.of_nat r) (Z.of_nat i) f = Ok (canonCell f (Some (cellAt row i))).
Proof.
  intros Er Ei. unfold readCell, b, batchOf. cbn [NullBitmaps NumCols ScaleCols StrCols].
  rewrite (go_index_imap (nullCol _ _) _ _ _ Ei). cbn [mbind result_bind]. unfold nullCol.
  rewrite testBit_bitmap.
  2:{ apply numWords_room. apply lookup_lt_Some in Er. unfold zlen in *. lia. }
  cbn [mbind result_bind]. unfold nullBit. rewrite Er. cbn [canonCell].
  destruct (IsNull (cellAt row i)); [done|].
  rewrite !(go_index_imap _ _ _ _ Ei). cbn [mbind result_bind].
  unfold numCol, strCol, scaleCol. destruct (IsNumericDataType (FType f)).
  - rewrite (go_index_map _ _ _ _ Er). cbn [mbind result_bind].
    destruct (FType f =s TypeDecimal); [by rewrite (go_index_map _ _ _ _ Er)|done].
  - by rewrite (go_index_map _ _ _ _ Er).
Qed.

Lemma readCells_batchOf r row fs n cached :
  rows !! r = Some row -> wfRow schema row -> length cached = length (Fields schema) ->
  drop n (Fields schema) = fs -> take n cached = take n (r_cells row) ->
  readCells b (Z.of_nat r) (Z.of_nat n) fs cached = Ok (r_cells row).
Proof.
  intros Er [Hl Hwf]. revert n cached. induction fs as [|f fs IH]; intros n cached Hc Hd Ht;
    cbn [readCells].
  - pose proof (f_equal length Hd) as Hn. rewrite length_drop in Hn. simpl in Hn.
    f_equal. by rewrite !take_ge in Ht by lia.
  - assert (Fields schema !! n = Some f) as E.
    { rewrite <- (Nat.add_0_r n), <- lookup_drop, Hd. done. }
    pose proof (lookup_lt_Some _ _ _ E) as Hn.
    rewrite (readCell_batchOf r row n f Er E), (Hwf n f E). cbn [mbind result_bind].
    rewrite go_set_lt by lia. cbn [mbind result_bind].
    replace (Z.of_nat n + 1) with (Z.of_nat (S n)) by lia.
    apply IH; [by rewrite length_insert|rewrite (drop_S _ _ _ E) in Hd; congruence|].
    destruct (lookup_lt_is_Some_2 (r_cells row) n ltac:(lia)) as [c Ec].
    rewrite (take_S_r (r_cells row) n c Ec).
    rewrite (take_S_r _ n c); [by rewrite take_insert_ge, Ht by lia|].
    rewrite list_lookup_insert_eq by lia. unfold cellAt. by rewrite Ec.
Qed.

Lemma skipInvalid_batchOf n k : (k + n = length rows)%nat ->
  exists j, skipInvalid b n (Z.of_nat k) = Ok (Z.of_nat j)
    /\ filter (fun r => r_valid r = true) (drop k rows) = filter (fun r => r_valid r = true) (drop j rows)
    /\ (k <= j <= length rows)%nat
    /\ (forall row, rows !! j = Some row -> r_valid row = true).
Proof.
  revert k. induction n as [|n IH]; intros k Hk; cbn [skipInvalid].
  { exists k. repeat split; [lia|lia|]. intros row E. apply lookup_lt_Some in E. lia. }
  destruct (lookup_lt_is_Some_2 rows k ltac:(lia)) as [row E].
  change (b_rowCount b) with (zlen rows).
  destruct (Z.ltb_spec (Z.of_nat k) (zlen rows)); [|unfold zlen in *; lia].
  pose proof (IsRowValid_batchOf schema cap rows (Z.of_nat k) Hcap) as Hval. fold b in Hval.
  rewrite Hval. unfold inRange, validBit. rewrite Nat2Z.id, E.
  destruct (Z.leb_spec 0 (Z.of_nat k)); [|lia].
  destruct (Z.ltb_spec (Z.of_nat k) (zlen rows)); [|lia]. cbn [andb mbind result_bind].
  destruct (r_valid row) eqn:Ev.
  - exists k. repeat split; [lia|lia|]. intros row' E'. congruence.
  - replace (Z.of_nat k + 1) with (Z.of_nat (S k)) by lia.
    destruct (IH (S k) ltac:(lia)) as (j & Ej & Hf & Hj & Hv). exists j.
    rewrite Ej. repeat split; [|lia|lia|done].
    rewrite (drop_S _ _ _ E), filter_cons, decide_False by congruence. done.
Qed.

Lemma drain_batchOf fuel k it :
  Forall (wfRow schema) rows ->
  it_curr it + 1 = Z.of_nat k -> (k <= length rows)%nat -> (length rows - k < fuel)%nat ->
  SchemaID (it_cached it) = "" -> length (Values (it_cached it)) = length (Fields schema) ->
  drain b fuel it = Ok (map recordOf (filter (fun r => r_valid r = true) (drop k rows))).
Proof.
  intros Hwf. revert k it. induction fuel as [|fuel IH]; intros k it Hk Hle Hf Hid Hlen; [lia|].
  cbn [drain]. unfold Next. rewrite Hk.
  destruct (skipInvalid_batchOf (length rows - k) k ltac:(lia)) as (j & Ej & Hfil & Hj & Hv).
  replace (Z.to_nat (b_rowCount b - Z.of_nat k)) with (length rows - k)%nat
    by (unfold b, batchOf, zlen; cbn [b_rowCount]; lia).
  rewrite Ej. cbn [mbind result_bind mret result_ret]. rewrite Hfil.
  change (b_rowCount b) with (zlen rows). destruct (Z.ltb_spec (Z.of_nat j) (zlen rows)) as [Hlt|Hge].
  - destruct (lookup_lt_is_Some_2 rows j ltac:(unfold zlen in *; lia)) as [row E].
    assert (wfRow schema row) as Hw by (by eapply Forall_lookup_1).
    unfold Record_. cbn [it_curr it_cached]. change (b_schema b) with schema.
    change 0 with (Z.of_nat 0).
    rewrite (readCells_batchOf j row (Fields schema) 0) by (done || by rewrite drop_0).
    cbn [mbind result_bind]. change (AuditValues b) with (map r_audit rows).
    unfold zlen at 1. rewrite length_map. fold (zlen rows).
    destruct (Z.ltb_spec (Z.of_nat j) (zlen rows)); [|lia].
    rewrite (go_index_map _ _ _ _ E). cbn [mbind result_bind mret result_ret it_cached].
    rewrite (IH (S j)) by (cbn [it_curr it_cached SchemaID Values];
      first [done | apply Hw | unfold zlen in *; lia]).
    cbn [mbind result_bind]. rewrite (drop_S _ _ _ E), filter_cons, decide_True by by apply Hv.
    cbn [map]. unfold recordOf at 2. by rewrite Hid.
  - rewrite drop_ge by (unfold zlen in *; lia). done.
Qed.
End Reading.

(** ** Reset *)
Lemma go_fill_nullCol nW rows n f : go_fill nW 0 0 (nullCol nW rows n f) = Ok (nullCol nW [] n f).
Proof.
  pose proof (go_fill_all 0 (bitmap nW (nullBit rows n))) as Hf. rewrite length_bitmap in Hf.
  unfold nullCol. rewrite Hf. f_equal. rewrite <- bitmap_false. by apply bitmap_ext.
Qed.
Section ResetProof.
Context (schema : Schema) (cap : Z) (rows : list BatchRow).
Context (mask : list Z) (audits : list (option (gmap string string))).
Let mid := batchMid schema cap 0 mask audits [] rows.

Lemma resetCell_mid n f : Fields schema !! n = Some f ->
  resetCell (numWords cap) (Z.of_nat n) f (mid n n) = Ok (mid (S n) (S n)).
Proof.
  intros E. destruct (emptyCols n f) as (E1 & E2 & E3). unfold resetCell.
  change (NullBitmaps (mid n n)) with (mixed (nullCol (numWords cap) []) (nullCol (numWords cap) rows) n (Fields schema)).
  rewrite (go_index_mixed _ _ _ _ _ E). cbn [mbind result_bind].
  rewrite go_fill_nullCol. cbn [mbind result_bind].
  rewrite (go_set_mixed _ _ _ _ _ E). cbn [mbind result_bind].
  unfold mid, batchMid, set_NullBitmaps. cbn.
  destruct (IsNumericDataType (FType f)) eqn:En.
  - rewrite <- E1 at 1. rewrite (go_set_mixed _ _ _ _ _ E). cbn [mbind result_bind].
    rewrite (mixed_skip (strCol _) (strCol _) n _ f E) by (unfold strCol; by rewrite En).
    destruct (FType f =s TypeDecimal) eqn:Ed.
    + cbn [ScaleCols set_NumCols]. rewrite <- E3 at 1. by rewrite (go_set_mixed _ _ _ _ _ E).
    + by rewrite (mixed_skip (scaleCol _) (scaleCol _) n _ f E) by (unfold scaleCol; by rewrite Ed).
  - rewrite <- E2 at 1. rewrite (go_set_mixed _ _ _ _ _ E). cbn [mbind result_bind].
    rewrite (mixed_skip (numCol _) (numCol _) n _ f E) by (unfold numCol; by rewrite En).
    by rewrite (mixed_skip (scaleCol _) (scaleCol _) n _ f E)
      by (unfold scaleCol; by rewrite (not_numeric_decimal _ En)).
Qed.
Lemma resetCells_mid fs n :
  drop n (Fields schema) = fs -> (n <= length (Fields schema))%nat ->
  resetCells (numWords cap) (Z.of_nat n) fs (mid n n)
  = Ok (mid (length (Fields schema)) (length (Fields schema))).
Proof.
  revert n. induction fs as [|f fs IH]; intros n Hd Hn; cbn [resetCells].
  - pose proof (f_equal length Hd) as Hl. rewrite length_drop in Hl. simpl in Hl.
    by replace n with (length (Fields schema)) by lia.
  - assert (Fields schema !! n = Some f) as E.
    { rewrite <- (Nat.add_0_r n), <- lookup_drop, Hd. done. }
    rewrite (resetCell_mid n f E). cbn [mbind result_bind].
    replace (Z.of_nat n + 1) with (Z.of_nat (S n)) by lia.
    apply IH; [rewrite (drop_S _ _ _ E) in Hd; congruence|by apply lookup_lt_Some in E].
Qed.
End ResetProof.

Lemma Reset_batchOf schema cap rows :
  Reset (batchOf schema cap rows) = Ok (batchOf schema cap []).
Proof.
  unfold Reset. cbn [b_capacity set_rowCount batchOf ValidMask b_schema].
  pose proof (go_fill_all allOnes (bitmap (numWords cap) (validBit rows))) as Hf.
  rewrite length_bitmap in Hf. rewrite Hf. cbn [mbind result_bind].
  pose proof (resetCells_mid schema cap rows (replicate (numWords cap) allOnes) (map r_audit rows)
    _ 0%nat eq_refl ltac:(lia)) as Hr.
  rewrite drop_0 in Hr. change (Z.of_nat 0) with 0 in Hr. unfold set_ValidMask at 1. cbn.
  unfold batchMid at 1 in Hr. rewrite !mixed_0 in Hr. rewrite Hr. cbn [mbind result_bind].
  rewrite batchMid_end. unfold batchOf, set_AuditValues. cbn. unfold mret, result_ret. do 2 f_equal.
  rewrite <- bitmap_true. by apply bitmap_ext.
Qed.

(** ** Programs over a batch *)
Inductive batchOp :=
  | OpAppend (rec : option GenericRecord)
  | OpSetValid (idx : Z) (v : bool)
  | OpReset.

(** A failed append leaves the batch as it was. *)
Definition runOp (b : RecordBatch) (op : batchOp) : result RecordBatch :=
  match op with
  | OpAppend rec => match AppendRow b rec with Err _ => Ok b | r => r end
  | OpSetValid idx v => SetRowValid b idx v
  | OpReset => Reset b
  end.
Fixpoint runOps (b : RecordBatch) (ops : list batchOp) : result RecordBatch :=
  match ops with
  | [] => Ok b
  | op :: ops' => b' ← runOp b op; runOps b' ops'
  end.

(** The same programs over a list of rows bounded by the capacity. *)
Definition specOp (schema : Schema) (cap : Z) (rows : list BatchRow) (op : batchOp) : list BatchRow :=
  match op with
  | OpAppend rec => if zlen rows <? cap then rows ++ [rowOf schema rec] else rows
  | OpSetValid idx v => specSetValid rows idx v
  | OpReset => []
  end.
Definition specOps schema cap := foldl (specOp schema cap).

Lemma runOp_batchOf schema cap rows op : zlen rows <= cap -> 0 < cap ->
  Forall (wfRow schema) rows ->
  runOp (batchOf schema cap rows) op = Ok (batchOf schema cap (specOp schema cap rows op))
  /\ zlen (specOp schema cap rows op) <= cap /\ Forall (wfRow schema) (specOp schema cap rows op).
Proof.
  intros Hc H0 Hwf. destruct op as [rec|idx v|]; cbn [runOp specOp].
  - destruct (Z.ltb_spec (zlen rows) cap).
    + rewrite AppendRow_batchOf by done. split; [done|]. split.
      * rewrite zlen_app. unfold zlen at 2. simpl. lia.
      * apply Forall_app. split; [done|]. constructor; [apply rowOf_wf|constructor].
    + unfold AppendRow. cbn [b_capacity b_rowCount batchOf].
      destruct (Z.leb_spec cap (zlen rows)); [done|lia].
  - rewrite SetRowValid_batchOf by done. split; [done|]. unfold specSetValid.
    destruct (inRange rows idx); [|done]. unfold zlen. rewrite length_alter. split; [done|].
    by apply Forall_alter.
  - rewrite Reset_batchOf. split; [done|]. split; [unfold zlen; simpl; lia|constructor].
Qed.
Lemma runOps_batchOf schema cap rows ops : zlen rows <= cap -> 0 < cap ->
  Forall (wfRow schema) rows ->
  runOps (batchOf schema cap rows) ops = Ok (batchOf schema cap (specOps schema cap rows ops))
  /\ zlen (specOps schema cap rows ops) <= cap /\ Forall (wfRow schema) (specOps schema cap rows ops).
Proof.
  intros Hc H0 Hwf. revert rows Hc Hwf. induction ops as [|op ops IH]; intros rows Hc Hwf; cbn; [done|].
  destruct (runOp_batchOf schema cap rows op Hc H0 Hwf) as (-> & Hc' & Hwf'). cbn [mbind result_bind].
  by apply IH.
Qed.

(** C13. Every program of appends, validity marks and resets on a new batch runs
    without panicking and ends in the columns, null bitmaps, validity mask and
    audit values of the list of rows the program describes, never more rows
    than the capacity; what was marked or appended before a reset leaves no trace. *)
Theorem RecordBatch_refines (schema : Schema) (capacity : Z) (ops : list batchOp) :
  let cap := batchCapacity capacity in
  let rows := specOps schema cap [] ops in
  runOps (NewRecordBatch schema capacity) ops = Ok (batchOf schema cap rows)
  /\ zlen rows <= cap
  /\ runOps (NewRecordBatch schema capacity) (ops ++ [OpReset]) = Ok (NewRecordBatch schema capacity).
Proof.
  cbn zeta. rewrite NewRecordBatch_batchOf.
  pose proof (batchCapacity_pos capacity) as H0.
  assert (forall ops, runOps (batchOf schema (batchCapacity capacity) []) ops
    = Ok (batchOf schema (batchCapacity capacity) (specOps schema (batchCapacity capacity) [] ops))
    /\ zlen (specOps schema (batchCapacity capacity) [] ops) <= batchCapacity capacity) as H.
  { intros o. destruct (runOps_batchOf schema (batchCapacity capacity) [] o) as (? & ? & _); [unfold zlen; simpl; lia|done|constructor|done]. }
  destruct (H ops) as [H1 H2]. split; [done|]. split; [done|].
  rewrite (proj1 (H _)). unfold specOps. by rewrite foldl_app.
Qed.

(** On the batch such a program leaves, [ValidRowCount] counts the rows
    marked valid, and draining a new iterator yields exactly their records, in
    order, each with the cells, nulls, scales and audit map that were appended:
    nothing of an earlier row stays in the iterator's cached record. *)
Theorem RecordBatch_iterate (schema : Schema) (capacity : Z) (ops : list batchOp) (b : RecordBatch) (fuel : nat) :
  runOps (NewRecordBatch schema capacity) ops = Ok b ->
  let rows := specOps schema (batchCapacity capacity) [] ops in
  let valid := filter (fun r => r_valid r = true) rows in
  (length rows < fuel)%nat ->
  b_rowCount b = zlen rows /\ ValidRowCount b = Ok (zlen valid)
  /\ drain b fuel (Iterator b) = Ok (map recordOf valid).
Proof.
  rewrite NewRecordBatch_batchOf. pose proof (batchCapacity_pos capacity) as H0.
  destruct (runOps_batchOf schema (batchCapacity capacity) [] ops) as (-> & Hc & Hwf);
    [unfold zlen; simpl; lia|done|constructor|].
  intros [= <-] rows valid Hf. split; [done|]. split; [by apply ValidRowCount_batchOf|].
  rewrite (drain_batchOf schema _ rows Hc fuel 0%nat); try done; [lia|lia|].
  unfold Iterator. cbn [it_cached Values]. apply length_replicate.
Qed.

Definition sampleBatchSchema : Schema :=
  schemaOf [mkField "id" TypeInt64 false 0 ""; mkField "price" TypeDecimal true 2 "round";
            mkField "name" TypeString true 0 ""].
Definition sampleRow (id : Z) (name : string) : GenericRecord :=
  mkGenericRecord "s" [int64Value id; decimalValue (id * 100) 2; stringValue name] {["run" := "r1"]}.
Definition sampleOps : list batchOp :=
  [OpAppend (Some (sampleRow 7 "gone")); OpReset; OpAppend (Some (sampleRow 1 "a"));
   OpAppend None; OpAppend (Some (sampleRow 3 "c")); OpSetValid 1 false; OpSetValid 9 false].
Lemma RecordBatch_iterate_witness :
  exists b, runOps (NewRecordBatch sampleBatchSchema 2) sampleOps = Ok b
    /\ ValidRowCount b = Ok 2
    /\ exists r1 r2, drain b 9 (Iterator b) = Ok [r1; r2]
         /\ (Values r2) !! 2%nat = Some (stringValue "c").
Proof.
  destruct (runOps (NewRecordBatch sampleBatchSchema 2) sampleOps) as [b|e|e] eqn:E;
    [|vm_compute in E; discriminate E..].
  destruct (RecordBatch_iterate sampleBatchSchema 2 sampleOps b 9 E) as (_ & H1 & H2);
    [vm_compute; lia|].
  exists b. split; [reflexivity|]. split; [rewrite H1; vm_compute; reflexivity|].
  eexists _, _. split; [rewrite H2; vm_compute; reflexivity|vm_compute; reflexivity].
Defined.
