(* ===== verification/BatchCoder.v ===== *)
(** * The record batch coder

    Models [internal/beam/core/record_batch_coder.go]: the little-endian binary
    format of a [RecordBatch], its encoder over any writer and its decoder. *)
From S2P Require Import Prelude GoStr Float64 Schema Intern RecordModel Wire Batch.

(** ** Encoding *)
Section Encode.
Context {W : Type} `{Writer W}.
Definition writeU16 (w : W) (v : Z) : result W := w_write w (putLE 2 (u16 v)).
Definition writeU32 (w : W) (v : Z) : result W := w_write w (putLE 4 (u32 v)).
Definition writeU64 (w : W) (v : Z) : result W := w_write w (putLE 8 v).
Fixpoint writeEach {A} (f : W -> A -> result W) (w : W) (l : list A) : result W :=
  match l with [] => Ok w | a :: l' => w ← f w a; writeEach f w l' end.
(** [for i := 0; i < numWords; i++ { write(words[i]) }] *)
Fixpoint writeWords (w : W) (n : nat) (i : Z) (words : list Z) : result W :=
  match n with
  | O => Ok w
  | S n' => x ← go_index words i; w ← writeU64 w x; writeWords w n' (i + 1) words
  end.
Definition writeStr (w : W) (s : string) : result W :=
  w ← writeU32 w (slen s);
  if 0 <? slen s then w_write w (bytes s) else Ok w.

Definition writeCol (b : RecordBatch) (nW : nat) (w : W) (colIdx : Z) (f : Field) : result W :=
  nulls ← go_index (NullBitmaps b) colIdx;
  w ← writeWords w nW 0 nulls;
  if IsNumericDataType (FType f) then
    nc ← go_index (NumCols b) colIdx;
    w ← writeEach writeU64 w nc;
    if FType f =s TypeDecimal then
      sc ← go_index (ScaleCols b) colIdx; writeEach writeU32 w sc
    else Ok w
  else
    sc ← go_index (StrCols b) colIdx; writeEach writeStr w sc.
Fixpoint writeCols (b : RecordBatch) (nW : nat) (w : W) (colIdx : Z) (fs : list Field) : result W :=
  match fs with
  | [] => Ok w
  | f :: fs' => w ← writeCol b nW w colIdx f; writeCols b nW w (colIdx + 1) fs'
  end.

(** Lengths and counts are truncated to 16 bits. *)
Definition writeAuditPair (w : W) (kv : string * string) : result W :=
  w ← w_write w (putLE 2 (u16 (slen (fst kv))) ++ putLE 2 (u16 (slen (snd kv))));
  w ← w_write w (bytes (fst kv)); w_write w (bytes (snd kv)).
Definition writeAuditMap `{MapOrder} (w : W) (m : option (gmap string string)) : result W :=
  let m := default ∅ m in
  w ← writeU16 w (Z.of_nat (size m)); writeEach writeAuditPair w (map_range m).
Fixpoint writeAudits `{MapOrder} (b : RecordBatch) (w : W) (n : nat) (row : Z) : result W :=
  match n with
  | O => Ok w
  | S n' =>
      m ← (if row <? zlen (AuditValues b) then go_index (AuditValues b) row else Ok None);
      w ← writeAuditMap w m; writeAudits b w n' (row + 1)
  end.

Definition Encode `{MapOrder} (b : RecordBatch) (w : W) : result W :=
  w ← w_write w (putLE 4 (u32 (b_rowCount b)) ++ putLE 4 (u32 (zlen (Fields (b_schema b)))));
  let nW := numWords (b_rowCount b) in
  w ← writeWords w nW 0 (ValidMask b);
  w ← writeCols b nW w 0 (Fields (b_schema b));
  writeAudits b w (Z.to_nat (b_rowCount b)) 0.
End Encode.

(** ** Decoding *)
Definition readUint (n : nat) : reader Z := b ← readFull (Z.of_nat n); mret (getLE b).
Definition lift {A} (r : result A) : reader A := fun l => (r, l).
Fixpoint readN {A} (n : nat) (body : reader A) : reader (list A) :=
  match n with
  | O => mret []
  | S n' => a ← body; l ← readN n' body; mret (a :: l)
  end.
(** [for i := 0; i < numWords; i++ { words[i] = read() }] *)
Fixpoint readWords (n : nat) (i : Z) (words : list Z) : reader (list Z) :=
  match n with
  | O => mret words
  | S n' =>
      x ← readUint 8;
      words ← lift (go_set words i x);
      readWords n' (i + 1) words
  end.
Definition readScale : reader Z := s ← readUint 4; mret (i32 s).
Definition readStr : reader string :=
  sLen ← readUint 4;
  if sLen =? 0 then mret "" else b ← readFull sLen; mret (str b).

(** [cols[i] = append(cols[i], v)] for each of the values read *)
Definition appendAll {A} (cols : list (list A)) (i : Z) (vs : list A) : reader (list (list A)) :=
  col ← lift (go_index cols i); lift (go_set cols i (col ++ vs)).
Definition readCol (rowCount : Z) (nW : nat) (colIdx : Z) (f : Field) (b : RecordBatch)
    : reader RecordBatch :=
  nulls ← lift (go_index (NullBitmaps b) colIdx);
  nulls ← readWords nW 0 nulls;
  nb ← lift (go_set (NullBitmaps b) colIdx nulls);
  let b := set_NullBitmaps b nb in
  if IsNumericDataType (FType f) then
    vs ← readN (Z.to_nat rowCount) (readUint 8);
    nc ← appendAll (NumCols b) colIdx vs;
    let b := set_NumCols b nc in
    if FType f =s TypeDecimal then
      ss ← readN (Z.to_nat rowCount) readScale;
      sc ← appendAll (ScaleCols b) colIdx ss;
      mret (set_ScaleCols b sc)
    else mret b
  else
    ss ← readN (Z.to_nat rowCount) readStr;
    sc ← appendAll (StrCols b) colIdx ss;
    mret (set_StrCols b sc).
Fixpoint readCols (rowCount : Z) (nW : nat) (colIdx : Z) (fs : list Field) (b : RecordBatch)
    : reader RecordBatch :=
  match fs with
  | [] => mret b
  | f :: fs' => b ← readCol rowCount nW colIdx f b; readCols rowCount nW (colIdx + 1) fs' b
  end.

Definition readAuditPair : reader (string * string) :=
  lenBuf ← readFull 4;
  k ← readFull (getLE (take 2 lenBuf));
  v ← readFull (getLE (drop 2 lenBuf));
  mret (str k, str v).
Definition readAuditMap : reader (option (gmap string string)) :=
  count ← readUint 2;
  if count =? 0 then mret None
  else
    kvs ← readN (Z.to_nat count) readAuditPair;
    mret (Some (foldl (fun m kv => <[fst kv := snd kv]> m) ∅ kvs)).

Definition Decode (schema : Schema) : reader RecordBatch :=
  hdr ← readFull 8;
  let rowCount := getLE (take 4 hdr) in
  let numFields := getLE (drop 4 hdr) in
  if negb (numFields =? zlen (Fields schema)) then
    rfail (Errorf ("RecordBatchDecoder: schema field count mismatch (expected "
      +:+ FormatInt (zlen (Fields schema)) +:+ ", got " +:+ FormatInt numFields +:+ ")") [])
  else
    let batch := NewRecordBatch schema rowCount in
    let nW := numWords rowCount in
    vm ← readWords nW 0 (ValidMask batch);
    batch ← readCols rowCount nW 0 (Fields schema) (set_ValidMask batch vm);
    audits ← readN (Z.to_nat rowCount) readAuditMap;
    let batch := set_AuditValues batch (AuditValues batch ++ audits) in
    mret (SetRowCount batch rowCount).

(** ** What the encoder writes in a buffer *)
Definition encWords (ws : list Z) : list byte := concat (map (putLE 8) ws).
Definition encStr (s : string) : list byte := putLE 4 (u32 (slen s)) ++ bytes s.
Definition encCol (rows : list BatchRow) (nW : nat) (i : nat) (f : Field) : list byte :=
  encWords (bitmap nW (nullBit rows i)) ++ encWords (numCol rows i f)
    ++ concat (map (fun s => putLE 4 (u32 s)) (scaleCol rows i f))
    ++ concat (map encStr (strCol rows i f)).
Definition encAuditPair (kv : string * string) : list byte :=
  putLE 2 (u16 (slen (fst kv))) ++ putLE 2 (u16 (slen (snd kv))) ++ bytes (fst kv) ++ bytes (snd kv).
Definition encAuditMap `{MapOrder} (m : option (gmap string string)) : list byte :=
  putLE 2 (u16 (Z.of_nat (size (default ∅ m)))) ++ concat (map encAuditPair (map_range (default ∅ m))).
Definition encBatch `{MapOrder} (schema : Schema) (rows : list BatchRow) : list byte :=
  let nW := numWords (zlen rows) in
  putLE 4 (u32 (zlen rows)) ++ putLE 4 (u32 (zlen (Fields schema)))
    ++ encWords (bitmap nW (validBit rows))
    ++ concat (imap (encCol rows nW) (Fields schema))
    ++ concat (map (fun r => encAuditMap (r_audit r)) rows).

Lemma writeEach_Buffer {A} (f : list byte -> A -> result (list byte)) (enc : A -> list byte) w l :
  (forall w a, f w a = Ok (w ++ enc a)) ->
  writeEach f w l = Ok (w ++ concat (map enc l)).
Proof.
  intros Hf. revert w. induction l as [|a l IH]; intros w; cbn [writeEach map concat].
  { by rewrite app_nil_r. }
  rewrite Hf. cbn [mbind result_bind]. rewrite IH. by rewrite app_assoc.
Qed.
Lemma writeWords_Buffer n k w (words : list Z) : (k + n <= length words)%nat ->
  writeWords w n (Z.of_nat k) words = Ok (w ++ encWords (take n (drop k words))).
Proof.
  revert k w. induction n as [|n IH]; intros k w Hk; cbn [writeWords].
  { unfold encWords. by rewrite take_0, app_nil_r. }
  destruct (lookup_lt_is_Some_2 words k ltac:(lia)) as [x E].
  rewrite (go_index_Some _ _ _ E). cbn [mbind result_bind].
  unfold writeU64, w_write, Buffer. cbn [mbind result_bind].
  replace (Z.of_nat k + 1) with (Z.of_nat (S k)) by lia. rewrite IH by lia.
  rewrite (drop_S _ _ _ E). cbn [take]. unfold encWords. cbn [map concat].
  by rewrite app_assoc.
Qed.
Lemma writeStr_Buffer w s : writeStr w s = Ok (w ++ encStr s).
Proof.
  unfold writeStr, encStr, writeU32, w_write, Buffer. cbn [mbind result_bind].
  destruct (Z.ltb_spec 0 (slen s)) as [|H]; [by rewrite app_assoc|].
  assert (bytes s = []) as ->.
  { apply zlen_nil. rewrite zlen_bytes. pose proof (slen_nonneg s). lia. }
  by rewrite app_nil_r.
Qed.

Lemma take_bitmap n m p : (n <= m)%nat -> take n (bitmap m p) = bitmap n p.
Proof.
  intros H. unfold bitmap. rewrite firstn_map. f_equal. by rewrite take_seq, Nat.min_l by lia.
Qed.
Lemma numWords_mono a b : 0 <= a <= b -> (numWords a <= numWords b)%nat.
Proof.
  intros H. unfold numWords. rewrite !Z.quot_div_nonneg by lia.
  apply Z2Nat.inj_le; [apply Z.div_pos; lia..|]. apply Z.div_le_mono; lia.
Qed.

Section EncodeBatch.
Context `{MapOrder} (schema : Schema) (cap : Z) (rows : list BatchRow) (Hcap : zlen rows <= cap).
Let b := batchOf schema cap rows.
Let nW := numWords (zlen rows).

Lemma writeBitmap w p : writeWords w nW 0 (bitmap (numWords cap) p) = Ok (w ++ encWords (bitmap nW p)).
Proof.
  assert (nW <= numWords cap)%nat as Hle.
  { apply numWords_mono. pose proof (zlen_nonneg rows). lia. }
  change 0 with (Z.of_nat 0). rewrite writeWords_Buffer by (rewrite length_bitmap; lia).
  by rewrite drop_0, take_bitmap.
Qed.
Lemma writeCol_Buffer w i f : Fields schema !! i = Some f ->
  writeCol b nW w (Z.of_nat i) f = Ok (w ++ encCol rows nW i f).
Proof.
  intros E. unfold writeCol, b, batchOf. cbn [NullBitmaps NumCols ScaleCols StrCols].
  rewrite (go_index_imap (nullCol _ _) _ _ _ E). cbn [mbind result_bind]. unfold nullCol.
  rewrite writeBitmap. cbn [mbind result_bind].
  rewrite (go_index_imap (numCol _) _ _ _ E), (go_index_imap (strCol _) _ _ _ E),
    (go_index_imap (scaleCol _) _ _ _ E). cbn [mbind result_bind].
  rewrite !(writeEach_Buffer writeU64 (putLE 8)) by done.
  unfold encCol. rewrite (app_assoc w). unfold numCol, scaleCol, strCol.
  destruct (IsNumericDataType (FType f)) eqn:En; cbn [mbind result_bind].
  - destruct (FType f =s TypeDecimal); cbn [map concat]; rewrite ?app_nil_r.
    + rewrite (writeEach_Buffer writeU32 (fun s => putLE 4 (u32 s))) by done.
      unfold encWords. by rewrite <- !app_assoc.
    + unfold encWords. by rewrite <- !app_assoc.
  - rewrite (not_numeric_decimal _ En). cbn [map concat].
    rewrite (writeEach_Buffer writeStr encStr) by apply writeStr_Buffer. done.
Qed.
Lemma writeCols_Buffer w k fs : drop k (Fields schema) = fs ->
  writeCols b nW w (Z.of_nat k) fs = Ok (w ++ concat (imap (fun i => encCol rows nW (k + i)) fs)).
Proof.
  revert w k. induction fs as [|f fs IH]; intros w k Hd; cbn [writeCols].
  { cbn. by rewrite app_nil_r. }
  assert (Fields schema !! k = Some f) as E.
  { rewrite <- (Nat.add_0_r k), <- lookup_drop, Hd. done. }
  rewrite (writeCol_Buffer _ _ _ E). cbn [mbind result_bind].
  replace (Z.of_nat k + 1) with (Z.of_nat (S k)) by lia.
  rewrite IH by (rewrite (drop_S _ _ _ E) in Hd; congruence).
  cbn [imap concat]. rewrite Nat.add_0_r, <- app_assoc. do 3 f_equal.
  unfold imap. cbn. f_equal. apply imap_ext. intros i f' _. cbn. f_equal. lia.
Qed.
Lemma writeAuditMap_Buffer w m : writeAuditMap w m = Ok (w ++ encAuditMap m).
Proof.
  unfold writeAuditMap, writeU16, w_write, Buffer. cbn [mbind result_bind].
  rewrite (writeEach_Buffer _ encAuditPair).
  - unfold encAuditMap. by rewrite app_assoc.
  - intros w' kv. unfold writeAuditPair, encAuditPair, w_write. cbn [mbind result_bind].
    by rewrite <- !app_assoc.
Qed.
Lemma writeAudits_Buffer w n k : (k + n = length rows)%nat ->
  writeAudits b w n (Z.of_nat k)
  = Ok (w ++ concat (map (fun r => encAuditMap (r_audit r)) (drop k rows))).
Proof.
  revert w k. induction n as [|n IH]; intros w k Hk; cbn [writeAudits].
  { rewrite drop_ge by lia. cbn. by rewrite app_nil_r. }
  destruct (lookup_lt_is_Some_2 rows k ltac:(lia)) as [row E].
  change (AuditValues b) with (map r_audit rows).
  unfold zlen. rewrite length_map.
  destruct (Z.ltb_spec (Z.of_nat k) (Z.of_nat (length rows))); [|lia].
  rewrite (go_index_map _ _ _ _ E). cbn [mbind result_bind].
  rewrite writeAuditMap_Buffer. cbn [mbind result_bind].
  replace (Z.of_nat k + 1) with (Z.of_nat (S k)) by lia. rewrite IH by lia.
  rewrite (drop_S _ _ _ E). cbn [map concat]. by rewrite app_assoc.
Qed.
Lemma Encode_Buffer w : Encode b w = Ok (w ++ encBatch schema rows).
Proof.
  unfold Encode. change (b_rowCount b) with (zlen rows). change (b_schema b) with schema.
  change (ValidMask b) with (bitmap (numWords cap) (validBit rows)). fold nW.
  unfold w_write, Buffer. cbn [mbind result_bind]. rewrite writeBitmap. cbn [mbind result_bind].
  assert (forall w, writeCols b nW w 0 (Fields schema)
    = Ok (w ++ concat (imap (encCol rows nW) (Fields schema)))) as Hc
    by (intros w'; exact (writeCols_Buffer w' 0 _ (drop_0 _))).
  rewrite Hc. cbn [mbind result_bind].
  pose proof (fun w => writeAudits_Buffer w (length rows) 0 eq_refl) as Ha.
  rewrite drop_0 in Ha. change (Z.of_nat 0) with 0 in Ha.
  unfold zlen at 3. rewrite Nat2Z.id, Ha. unfold encBatch. fold nW. by rewrite <- !app_assoc.
Qed.
End EncodeBatch.

(** ** Reading back *)
Lemma readUint_putLE n v r : readUint n (putLE n v ++ r) = (Ok (v mod 256 ^ Z.of_nat n), r).
Proof.
  unfold readUint. pose proof (readFull_exact (putLE n v) r) as H.
  unfold zlen in H. rewrite length_putLE in H.
  rewrite (reader_bind_Ok _ _ _ _ _ H). by rewrite getLE_putLE.
Qed.
Lemma readN_enc {A B} (body : reader B) (enc : A -> list byte) (dec : A -> B) xs r :
  (forall x r, x ∈ xs -> body (enc x ++ r) = (Ok (dec x), r)) ->
  readN (length xs) body (concat (map enc xs) ++ r) = (Ok (map dec xs), r).
Proof.
  revert r. induction xs as [|x xs IH]; intros r H; [done|]. cbn [length readN map concat].
  rewrite <- app_assoc. rewrite (reader_bind_Ok _ _ _ _ _ (H x _ (list_elem_of_here _ _))).
  rewrite (reader_bind_Ok _ _ _ _ _ (IH r (fun y s Hy => H y s (list_elem_of_further _ _ _ Hy)))). done.
Qed.
Lemma readU64_enc x r : in_u64 x -> readUint 8 (putLE 8 x ++ r) = (Ok x, r).
Proof. intros H. rewrite readUint_putLE. by rewrite (Z.mod_small x) by (wunfold; simpl; lia). Qed.
Lemma readU32_enc x r : in_u32 x -> readUint 4 (putLE 4 (u32 x) ++ r) = (Ok x, r).
Proof. intros H. rewrite u32_small, readUint_putLE by done. by rewrite (Z.mod_small x) by (wunfold; simpl; lia). Qed.
Lemma readU16_enc x r : in_u 16 x -> readUint 2 (putLE 2 (u16 x) ++ r) = (Ok x, r).
Proof.
  intros H. unfold u16. rewrite uwrap_small, readUint_putLE by done.
  by rewrite (Z.mod_small x) by (wunfold; simpl; lia).
Qed.
Lemma readScale_enc x r : in_i32 x -> readScale (putLE 4 (u32 x) ++ r) = (Ok x, r).
Proof.
  intros H. unfold readScale.
  rewrite (reader_bind_Ok _ _ _ _ _ (readUint_putLE 4 (u32 x) r)). unfold mret, reader_ret.
  do 2 f_equal. change (256 ^ Z.of_nat 4) with (2 ^ 32). wordlia.
Qed.
Lemma readStr_enc s r : in_u32 (slen s) -> readStr (encStr s ++ r) = (Ok s, r).
Proof.
  intros H. unfold readStr, encStr. rewrite <- app_assoc.
  rewrite (reader_bind_Ok _ _ _ _ _ (readU32_enc _ _ H)).
  destruct (Z.eqb_spec (slen s) 0) as [E|].
  - rewrite <- zlen_bytes in E. apply zlen_nil in E. rewrite E.
    by rewrite <- (str_bytes s), E.
  - rewrite <- zlen_bytes, (reader_bind_Ok _ _ _ _ _ (readFull_exact _ _)). by rewrite str_bytes.
Qed.
Lemma readWords_enc xs k ws r : Forall in_u64 xs -> (k + length xs <= length ws)%nat ->
  readWords (length xs) (Z.of_nat k) ws (encWords xs ++ r)
  = (Ok (take k ws ++ xs ++ drop (k + length xs) ws), r).
Proof.
  intros Hx. revert k ws. induction Hx as [|x xs Hx Hxs IH]; intros k ws Hk; cbn [length readWords].
  { cbn [app]. by rewrite Nat.add_0_r, take_drop. }
  unfold encWords. cbn [map concat]. rewrite <- app_assoc.
  rewrite (reader_bind_Ok _ _ _ _ _ (readU64_enc _ _ Hx)). simpl in Hk.
  unfold lift. rewrite go_set_lt by lia. unfold mbind at 1, reader_bind at 1.
  replace (Z.of_nat k + 1) with (Z.of_nat (S k)) by lia. fold (encWords xs).
  rewrite IH by (rewrite length_insert; lia). do 2 f_equal.
  rewrite (take_S_r _ _ x) by (rewrite list_lookup_insert_eq; [done|lia]).
  rewrite take_insert_ge, drop_insert_lt by lia. rewrite <- app_assoc. cbn [app].
  by replace (S k + length xs)%nat with (k + S (length xs))%nat by lia.
Qed.

Lemma bitmap_extend n m p q : (n <= m)%nat ->
  (forall r, (64 * n <= r)%nat -> p r = q r) -> bitmap n p ++ drop n (bitmap m q) = bitmap m p.
Proof.
  intros Hnm H. rewrite <- (take_drop n (bitmap m p)), take_bitmap by done. f_equal.
  apply list_eq. intros i. rewrite !lookup_drop.
  destruct (decide (n + i < m)%nat) as [Hi|Hi].
  - rewrite !bitmap_lookup by done. f_equal. apply wordBits_ext. intros j Hj. symmetry. apply H. lia.
  - by rewrite !lookup_ge_None_2 by (rewrite length_bitmap; lia).
Qed.
Lemma readBitmap n m p q r : (n <= m)%nat -> (forall r, (64 * n <= r)%nat -> p r = q r) ->
  readWords n 0 (bitmap m q) (encWords (bitmap n p) ++ r) = (Ok (bitmap m p), r).
Proof.
  intros Hnm H. pose proof (readWords_enc (bitmap n p) 0 (bitmap m q) r (bitmap_words n p)) as Hr.
  rewrite !length_bitmap in Hr. specialize (Hr ltac:(lia)).
  change (Z.of_nat 0) with 0 in Hr. rewrite Hr. cbn [take app].
  by rewrite bitmap_extend.
Qed.

(** Rows whose sizes fit the fields of the format. *)
Definition cellFits (c : FieldValue) : Prop :=
  in_u64 (NumVal c) /\ in_i32 (Scale c) /\ in_u32 (slen (StrVal c)).
Definition auditFits (m : option (gmap string string)) : Prop :=
  in_u 16 (Z.of_nat (size (default ∅ m)))
  /\ map_Forall (fun k v => in_u 16 (slen k) /\ in_u 16 (slen v)) (default ∅ m).
Definition rowFits (row : BatchRow) : Prop :=
  Forall cellFits (r_cells row) /\ auditFits (r_audit row).

Lemma cellFits_at row i : Forall cellFits (r_cells row) -> cellFits (cellAt row i).
Proof.
  intros H. unfold cellAt. destruct (r_cells row !! i) eqn:E; simpl.
  - by eapply Forall_lookup_1.
  - repeat split; unfold slen; simpl; wunfold; lia.
Qed.

(** An empty audit map is read back as nil. *)
Definition normAudit (row : BatchRow) : BatchRow :=
  mkRow (r_cells row)
    (if decide (default ∅ (r_audit row) = ∅) then None else r_audit row) (r_valid row).

Lemma readAuditPair_enc kv r : in_u 16 (slen (fst kv)) -> in_u 16 (slen (snd kv)) ->
  readAuditPair (encAuditPair kv ++ r) = (Ok kv, r).
Proof.
  intros Hk Hv. destruct kv as [k v]. cbn [fst snd] in *. unfold readAuditPair, encAuditPair. cbn [fst snd].
  set (pk := putLE 2 (u16 (slen k))). set (pv := putLE 2 (u16 (slen v))).
  assert (length pk = 2%nat /\ length pv = 2%nat) as [Lk Lv] by (split; apply length_putLE).
  pose proof (readFull_exact (pk ++ pv) (bytes k ++ bytes v ++ r)) as H.
  unfold zlen in H. rewrite length_app, Lk, Lv in H. change (Z.of_nat (2 + 2)) with 4 in H.
  rewrite <- !app_assoc in *.
  rewrite (reader_bind_Ok _ _ _ _ _ H).
  rewrite take_app_exact, drop_app_exact by done.
  assert (getLE pk = slen k /\ getLE pv = slen v) as [-> ->].
  { unfold pk, pv, u16. rewrite !getLE_putLE, !uwrap_small by done.
    rewrite !Z.mod_small by (wunfold; simpl; lia). done. }
  rewrite <- !zlen_bytes, (reader_bind_Ok _ _ _ _ _ (readFull_exact _ _)).
  rewrite (reader_bind_Ok _ _ _ _ _ (readFull_exact _ _)). by rewrite !str_bytes.
Qed.
Lemma readAuditMap_enc `{MapOrder} row r : auditFits (r_audit row) ->
  readAuditMap (encAuditMap (r_audit row) ++ r) = (Ok (r_audit (normAudit row)), r).
Proof.
  unfold auditFits, normAudit. cbn [r_audit]. destruct row as [cells a v]. cbn [r_audit].
  intros [Hs Hm]. unfold readAuditMap, encAuditMap.
  rewrite <- app_assoc. rewrite (reader_bind_Ok _ _ _ _ _ (readU16_enc _ _ Hs)).
  case_decide as Hd.
  - rewrite Hd. rewrite map_size_empty.
    pose proof (map_range_perm (∅ : gmap string string)) as Hp.
    rewrite map_to_list_empty in Hp. apply Permutation_nil_r in Hp. rewrite Hp. done.
  - destruct a as [m|]; [|done]. cbn [default from_option id] in *.
    assert (size m <> 0%nat) as Hz by by rewrite map_size_empty_iff.
    destruct (Z.eqb_spec (Z.of_nat (size m)) 0); [lia|]. rewrite Nat2Z.id.
    assert (size m = length (map_range m)) as ->.
    { rewrite map_range_perm, length_map_to_list. done. }
    assert (readN (length (map_range m)) readAuditPair (concat (map encAuditPair (map_range m)) ++ r)
      = (Ok (map id (map_range m)), r)) as Hr.
    { apply readN_enc. intros [k x] s Hin. rewrite map_range_perm in Hin.
      apply elem_of_map_to_list in Hin. destruct (Hm k x Hin). by apply readAuditPair_enc. }
    rewrite (reader_bind_Ok _ _ _ _ _ Hr). rewrite map_id.
    unfold mret, reader_ret. do 3 f_equal. apply foldl_insert_listing, map_range_perm.
Qed.

Section DecodeBatch.
Context `{MapOrder} (schema : Schema) (rows : list BatchRow) (Hfits : Forall rowFits rows).
Let cap := batchCapacity (zlen rows).
Let nW := numWords (zlen rows).
Let rows' := map normAudit rows.
Context (mask : list Z).
Let mid := batchMid schema cap 0 mask [] rows' [].

Lemma cap_room : zlen rows <= cap.
Proof.
  unfold cap, batchCapacity, OrDefault, DefaultRecordBatchCapacity, DefaultMinRecordBatchCapacity.
  pose proof (zlen_nonneg rows). case_decide; zcases; lia.
Qed.
Lemma nW_cap : (nW <= numWords cap)%nat.
Proof. apply numWords_mono. pose proof (zlen_nonneg rows). pose proof cap_room. lia. Qed.
Lemma rows_beyond r : (64 * nW <= r)%nat -> rows !! r = None.
Proof.
  intros Hr. apply lookup_ge_None_2. destruct (decide (length rows <= r)%nat); [done|].
  pose proof (numWords_room (zlen rows) r ltac:(unfold zlen; lia)). unfold nW in Hr. lia.
Qed.
Lemma norm_lookup r : rows' !! r = normAudit <$> rows !! r.
Proof. apply list_lookup_fmap. Qed.
Lemma norm_cols i f : numCol rows' i f = numCol rows i f /\ strCol rows' i f = strCol rows i f
  /\ scaleCol rows' i f = scaleCol rows i f.
Proof. unfold numCol, strCol, scaleCol, rows'. rewrite !map_map. done. Qed.
Lemma norm_null i r : nullBit rows' i r = nullBit rows i r.
Proof. unfold nullBit. rewrite norm_lookup. by destruct (rows !! r). Qed.
Lemma norm_valid r : validBit rows' r = validBit rows r.
Proof. unfold validBit. rewrite norm_lookup. by destruct (rows !! r). Qed.

Lemma column_fits {A} (g : FieldValue -> A) (P : A -> Prop) i :
  (forall c, cellFits c -> P (g c)) -> forall x, x ∈ map (fun row => g (cellAt row i)) rows -> P x.
Proof.
  intros Hg x Hx. apply list_elem_of_In, in_map_iff in Hx as (row & <- & Hin).
  apply Hg, cellFits_at. rewrite Forall_forall in Hfits.
  apply (Hfits row). by apply list_elem_of_In.
Qed.
Lemma readColumn {A} (body : reader A) (enc : A -> list byte) (g : FieldValue -> A) i r :
  (forall c r, cellFits c -> body (enc (g c) ++ r) = (Ok (g c), r)) ->
  readN (length rows) body (concat (map enc (map (fun row => g (cellAt row i)) rows)) ++ r)
  = (Ok (map (fun row => g (cellAt row i)) rows), r).
Proof.
  intros Hb. rewrite <- (length_map (fun row => g (cellAt row i)) rows).
  rewrite (readN_enc body enc id); [by rewrite map_id|].
  intros x s Hx. revert s. apply (column_fits g (fun x => forall s, body (enc x ++ s) = (Ok x, s)) i); auto.
Qed.

Lemma appendAll_mixed {A B} (a b : nat -> A -> list B) n l x vs r :
  l !! n = Some x -> b n x = [] -> a n x = vs ->
  appendAll (mixed a b n l) (Z.of_nat n) vs r = (Ok (mixed a b (S n) l), r).
Proof.
  intros E Hb Ha. unfold appendAll, lift, mbind, reader_bind.
  rewrite (go_index_mixed _ _ _ _ _ E), Hb. cbn [app]. by rewrite <- Ha, (go_set_mixed _ _ _ _ _ E).
Qed.

Lemma readNulls n f r :
  readWords nW 0 (nullCol (numWords cap) [] n f) (encWords (bitmap nW (nullBit rows n)) ++ r)
  = (Ok (nullCol (numWords cap) rows' n f), r).
Proof.
  unfold nullCol. rewrite readBitmap; [|apply nW_cap|].
  - do 2 f_equal. apply bitmap_ext. intros. by rewrite norm_null.
  - intros x Hx. unfold nullBit. by rewrite rows_beyond.
Qed.
Lemma readMask r :
  readWords nW 0 (replicate (numWords cap) allOnes) (encWords (bitmap nW (validBit rows)) ++ r)
  = (Ok (bitmap (numWords cap) (validBit rows')), r).
Proof.
  rewrite <- bitmap_true, readBitmap; [|apply nW_cap|].
  - do 2 f_equal. apply bitmap_ext. intros. by rewrite norm_valid.
  - intros x Hx. unfold validBit. by rewrite rows_beyond.
Qed.

Lemma readCol_enc n f r : Fields schema !! n = Some f ->
  readCol (zlen rows) nW (Z.of_nat n) f (mid n n) (encCol rows nW n f ++ r) = (Ok (mid (S n) (S n)), r).
Proof.
  intros E. destruct (emptyCols n f) as (E1 & E2 & E3). destruct (norm_cols n f) as (N1 & N2 & N3).
  unfold readCol, encCol. rewrite <- !app_assoc.
  change (NullBitmaps (mid n n)) with
    (mixed (nullCol (numWords cap) rows') (nullCol (numWords cap) []) n (Fields schema)).
  unfold lift. rewrite (go_index_mixed _ _ _ _ _ E). unfold mbind at 1, reader_bind at 1.
  rewrite (reader_bind_Ok _ _ _ _ _ (readNulls n f _)).
  rewrite (go_set_mixed _ _ _ _ _ E). unfold mbind at 1, reader_bind at 1.
  unfold zlen. rewrite Nat2Z.id. unfold mid at 1 2 3 4 5 6, batchMid. cbn [set_NullBitmaps b_schema b_capacity
    b_rowCount NumCols StrCols ScaleCols ValidMask AuditValues set_NumCols].
  unfold mid, batchMid.
  destruct (IsNumericDataType (FType f)) eqn:En.
  - rewrite (mixed_skip (strCol _) (strCol _) n _ f E) by (unfold strCol; by rewrite En).
    assert (numCol rows n f = map (fun row => NumVal (cellAt row n)) rows) as Hn
      by (unfold numCol; by rewrite En).
    assert (strCol rows n f = []) as -> by (unfold strCol; by rewrite En).
    rewrite Hn. cbn [map concat app]. unfold encWords.
    rewrite (reader_bind_Ok _ _ _ _ _ (readColumn (readUint 8) (putLE 8) NumVal n _
      (fun c r Hc => readU64_enc _ _ (proj1 Hc)))).
    rewrite (reader_bind_Ok _ _ _ _ _ (appendAll_mixed _ _ n _ f _ _ E E1
      (eq_trans N1 Hn))).
    destruct (FType f =s TypeDecimal) eqn:Ed.
    + assert (scaleCol rows n f = map (fun row => Scale (cellAt row n)) rows) as Hs
        by (unfold scaleCol; by rewrite Ed).
      rewrite Hs.
      rewrite (reader_bind_Ok _ _ _ _ _ (readColumn readScale (fun s => putLE 4 (u32 s)) Scale n _
        (fun c r Hc => readScale_enc _ _ (proj1 (proj2 Hc))))).
      rewrite (reader_bind_Ok _ _ _ _ _ (appendAll_mixed _ _ n _ f _ _ E E3
        (eq_trans N3 Hs))). done.
    + assert (scaleCol rows n f = []) as -> by (unfold scaleCol; by rewrite Ed). cbn [map concat app].
      by rewrite (mixed_skip (scaleCol _) (scaleCol _) n _ f E) by (unfold scaleCol; by rewrite Ed).
  - pose proof (not_numeric_decimal _ En) as Ed.
    rewrite (mixed_skip (numCol _) (numCol _) n _ f E) by (unfold numCol; by rewrite En).
    rewrite (mixed_skip (scaleCol _) (scaleCol _) n _ f E) by (unfold scaleCol; by rewrite Ed).
    assert (numCol rows n f = []) as -> by (unfold numCol; by rewrite En).
    assert (scaleCol rows n f = []) as -> by (unfold scaleCol; by rewrite Ed).
    assert (strCol rows n f = map (fun row => StrVal (cellAt row n)) rows) as Hs
      by (unfold strCol; by rewrite En).
    rewrite Hs. cbn [encWords map concat app].
    rewrite (reader_bind_Ok _ _ _ _ _ (readColumn readStr encStr StrVal n _
      (fun c r Hc => readStr_enc _ _ (proj2 (proj2 Hc))))).
    rewrite (reader_bind_Ok _ _ _ _ _ (appendAll_mixed _ _ n _ f _ _ E E2
      (eq_trans N2 Hs))). done.
Qed.
Lemma readCols_enc fs n r : drop n (Fields schema) = fs -> (n <= length (Fields schema))%nat ->
  readCols (zlen rows) nW (Z.of_nat n) fs (mid n n) (concat (imap (fun i => encCol rows nW (n + i)) fs) ++ r)
  = (Ok (mid (length (Fields schema)) (length (Fields schema))), r).
Proof.
  revert n. induction fs as [|f fs IH]; intros n Hd Hn; cbn [readCols].
  - pose proof (f_equal length Hd) as Hl. rewrite length_drop in Hl. simpl in Hl.
    by replace n with (length (Fields schema)) by lia.
  - assert (Fields schema !! n = Some f) as E.
    { rewrite <- (Nat.add_0_r n), <- lookup_drop, Hd. done. }
    rewrite imap_cons. cbn [concat]. rewrite Nat.add_0_r, <- app_assoc.
    rewrite (reader_bind_Ok _ _ _ _ _ (readCol_enc n f _ E)).
    replace (Z.of_nat n + 1) with (Z.of_nat (S n)) by lia.
    rewrite <- (IH (S n)); [|rewrite (drop_S _ _ _ E) in Hd; congruence|by apply lookup_lt_Some in E].
    do 2 f_equal. f_equal. apply imap_ext. intros i f' _. cbn. f_equal. lia.
Qed.
Lemma readAudits_enc r :
  readN (length rows) readAuditMap (concat (map (fun row => encAuditMap (r_audit row)) rows) ++ r)
  = (Ok (map r_audit rows'), r).
Proof.
  unfold rows'. rewrite map_map. apply (readN_enc readAuditMap (fun row => encAuditMap (r_audit row))
    (fun row => r_audit (normAudit row))).
  intros row s Hin. apply readAuditMap_enc. rewrite Forall_forall in Hfits. by apply Hfits.
Qed.
End DecodeBatch.

(** C31. Batch round trip: a batch of rows that fit the format is decoded, from
    its bytes and any continuation, to the batch of the same rows (empty audit
    maps become nil) in a buffer sized for them, leaving the continuation. *)
Theorem RecordBatch_roundtrip (o : MapOrder) (schema : Schema) (cap : Z) (rows : list BatchRow)
    (w rest : list byte) :
  zlen rows <= cap -> in_u32 (zlen rows) -> in_u32 (zlen (Fields schema)) ->
  Forall rowFits rows ->
  exists b, Encode (batchOf schema cap rows) w = Ok (w ++ b)
    /\ Decode schema (b ++ rest)
       = (Ok (batchOf schema (batchCapacity (zlen rows)) (map normAudit rows)), rest).
Proof.
  intros Hcap Hr Hf Hfits. exists (encBatch schema rows). split; [by apply Encode_Buffer|].
  unfold encBatch. set (nW := numWords (zlen rows)).
  unfold Decode. rewrite (app_assoc (putLE 4 _)), <- !app_assoc.
  set (p1 := putLE 4 (u32 (zlen rows))). set (p2 := putLE 4 (u32 (zlen (Fields schema)))).
  assert (length p1 = 4%nat /\ length p2 = 4%nat) as [L1 L2] by (split; apply length_putLE).
  match goal with |- context [(p1 ++ p2 ++ ?x)] => pose proof (readFull_exact (p1 ++ p2) x) as H end.
  unfold zlen at 1 in H. rewrite length_app, L1, L2 in H. change (Z.of_nat (4 + 4)) with 8 in H.
  rewrite <- !app_assoc in H. rewrite (reader_bind_Ok _ _ _ _ _ H).
  rewrite take_app_exact, drop_app_exact by done.
  assert (getLE p1 = zlen rows /\ getLE p2 = zlen (Fields schema)) as [-> ->].
  { unfold p1, p2. rewrite !getLE_putLE, !u32_small by done.
    rewrite !Z.mod_small by (wunfold; simpl; lia). done. }
  rewrite Z.eqb_refl. cbn [negb].
  rewrite (reader_bind_Ok _ _ _ _ _ (readMask rows _)).
  rewrite NewRecordBatch_batchOf.
  pose proof (fun r => readCols_enc schema rows Hfits (bitmap (numWords (batchCapacity (zlen rows)))
    (validBit (map normAudit rows))) (Fields schema) 0 r (drop_0 _) ltac:(lia)) as Hc.
  change (Z.of_nat 0) with 0 in Hc. cbn [Nat.add] in Hc. fold nW in Hc |- *.
  unfold batchMid at 1 in Hc. rewrite !mixed_0 in Hc.
  rewrite (reader_bind_Ok _ _ _ _ _ (Hc _)).
  replace (Z.to_nat (zlen rows)) with (length rows) by (unfold zlen; lia).
  rewrite (reader_bind_Ok _ _ _ _ _ (readAudits_enc rows Hfits _)).
  rewrite batchMid_end. unfold mret, reader_ret, SetRowCount, set_AuditValues, set_rowCount, batchOf. cbn.
  do 3 f_equal. unfold zlen. by rewrite length_map.
Qed.
Definition sampleRows : list BatchRow := specOps sampleBatchSchema 64 [] sampleOps.
Lemma RecordBatch_roundtrip_witness :
  zlen sampleRows = 3 /\
  exists b, Encode (batchOf sampleBatchSchema 64 sampleRows) [] = Ok ([] ++ b)
    /\ Decode sampleBatchSchema (b ++ [])
       = (Ok (batchOf sampleBatchSchema (batchCapacity (zlen sampleRows)) (map normAudit sampleRows)), []).
Proof.
  split; [vm_compute; reflexivity|].
  assert (Forall rowFits sampleRows) as Hf.
  { repeat apply List.Forall_cons; try apply List.Forall_nil.
    all: split; [repeat constructor; vm_compute; congruence|].
    all: split; [vm_compute; split; congruence|].
    1,3: apply map_Forall_insert_2; [repeat split; vm_compute; congruence|apply map_Forall_empty].
    apply map_Forall_empty. }
  apply (RecordBatch_roundtrip defaultOrder sampleBatchSchema 64 sampleRows [] []);
    [vm_compute; congruence|vm_compute; split; congruence|vm_compute; split; congruence|exact Hf].
Defined.

(** An audit value of 65536 bytes: its length is written as 0. The encoder
    succeeds, and the decoder, also without an error, reads an empty value and
    takes the rest for what follows the batch. *)
Definition longAudit : list BatchRow :=
  [mkRow [] (Some {["k" := str (replicate 65536 "x"%char)]}) true].
Definition misread : bool :=
  match Encode (batchOf (schemaOf []) 64 longAudit) [] with
  | Ok b =>
      match Decode (schemaOf []) b with
      | (Ok batch, rest) =>
          (zlen rest =? 65536) && bool_decide (AuditValues batch = [Some {["k" := ""]}])
      | _ => false
      end
  | _ => false
  end.
Lemma misread_true : misread = true.
Proof. vm_compute. reflexivity. Qed.
Lemma audit_length_truncated :
  exists b, Encode (batchOf (schemaOf []) 64 longAudit) [] = Ok b
    /\ exists batch rest, Decode (schemaOf []) b = (Ok batch, rest) /\ zlen rest = 65536
         /\ AuditValues batch = [Some {["k" := ""]}].
Proof.
  pose proof misread_true as H. unfold misread in H.
  destruct (Encode _ _) as [b| |]; [|done..]. exists b. split; [done|].
  destruct (Decode _ b) as [[batch| |] rest]; [|done..]. exists batch, rest.
  apply andb_prop in H as [H1 H2]. apply Z.eqb_eq in H1. by apply bool_decide_eq_true in H2.
Qed.
