(* ===== verification/Trackers.v ===== *)
(** * Restriction trackers

    Models [internal/beam/streams/byte_offset_tracker.go],
    [internal/beam/partitions/partition_tracker.go] and
    [internal/beam/paged_api/page_tracker.go]: one Module per tracker with its
    state and operations (each runs under the tracker's mutex, so it is one
    atomic step), the interface [RTracker] that states what a runner relies on,
    an instance per tracker, and the theorems proved once against it: however
    claims and dynamic splits interleave, every position of the initial
    restriction is processed exactly once. *)
From S2P Require Import Prelude GoStr Float64.

(** A restriction [[Start, End)]; the three Go structs have the same fields. *)
Record OffsetRange := mkRange { Start : Z; End_ : Z }.
#[export] Instance OffsetRange_eq_dec : EqDecision OffsetRange.
Proof. solve_decision. Defined.

(** The dynamic value handed to [TryClaim(any)]; for other types, the texts of
    its [%T] and [%v]. *)
Inductive rawPos :=
  | RawInt64 (p : Z)
  | RawInt (p : Z)
  | RawOther (ty val : string).

(** ** [ByteOffsetTracker] *)
Module ByteOffset.
Record Tracker := mkTracker { rest : OffsetRange; claimed : Z; stopped : bool; err : option error }.

Definition NewByteOffsetTracker (r : OffsetRange) : Tracker :=
  mkTracker r (i64 (Start r - 1)) false None.

Definition stop (t : Tracker) : Tracker := mkTracker (rest t) (claimed t) true (err t).

Definition ClaimOffset (t : Tracker) (pos : Z) : bool * Tracker :=
  if stopped t then (false, t)
  else if (pos <? Start (rest t)) || (End_ (rest t) <=? pos) || (pos <=? claimed t) then
    (false, stop t)
  else (true, mkTracker (rest t) pos (stopped t) (err t)).

Definition TryClaim (t : Tracker) (raw : rawPos) : bool * Tracker :=
  match raw with
  | RawInt64 p => ClaimOffset t p
  | RawInt p => ClaimOffset t (i64 p)
  | RawOther ty v =>
      (false, mkTracker (rest t) (claimed t) true
                (Some (Errorf ("unsupported claim position type " +:+ ty +:+ ": " +:+ v) [])))
  end.

Definition TrySplit `{FloatCvt} (t : Tracker) (fraction : float64)
    : option (OffsetRange * OffsetRange) * Tracker :=
  if stopped t || fle fraction (of_int 0) || fle (of_int 1) fraction then (None, t)
  else
    let current := if claimed t <? Start (rest t) then Start (rest t) else claimed t in
    let remaining := i64 (End_ (rest t) - current) in
    if remaining <? 2 then (None, t)
    else
      let splitPoint := i64 (current + int64_round (fmul (of_int remaining) fraction)) in
      if (splitPoint <=? current) || (End_ (rest t) <=? splitPoint) then (None, t)
      else
        let primaryRange := mkRange (Start (rest t)) splitPoint in
        let residualRange := mkRange splitPoint (End_ (rest t)) in
        (Some (primaryRange, residualRange),
         mkTracker (mkRange (Start (rest t)) splitPoint) (claimed t) (stopped t) (err t)).

Definition GetRestriction (t : Tracker) : OffsetRange := rest t.
Definition GetProgress (t : Tracker) : float64 * float64 :=
  let done := of_int (i64 (claimed t - Start (rest t) + 1)) in
  let remaining := of_int (i64 (End_ (rest t) - claimed t - 1)) in
  (done, if flt remaining (of_int 0) then of_int 0 else remaining).
Definition GetError (t : Tracker) : option error := err t.
Definition MarkDone (t : Tracker) : Tracker := stop t.
Definition IsDone (t : Tracker) : bool :=
  stopped t || (i64 (End_ (rest t) - 1) <=? claimed t).
End ByteOffset.

(** ** [PartitionRangeTracker] *)
Module Partition.
Record Tracker := mkTracker { rest : OffsetRange; claimed : Z; stopped : bool; err : option error }.

Definition NewPartitionRangeTracker (r : OffsetRange) : Tracker :=
  mkTracker r (i64 (Start r - 1)) false None.

Definition stop (t : Tracker) : Tracker := mkTracker (rest t) (claimed t) true (err t).

Definition claimIndex (t : Tracker) (index : Z) : bool * Tracker :=
  if (index <? Start (rest t)) || (End_ (rest t) <=? index) || (index <=? claimed t) then
    (false, stop t)
  else (true, mkTracker (rest t) index (stopped t) (err t)).

Definition TryClaim (t : Tracker) (raw : rawPos) : bool * Tracker :=
  if stopped t then (false, t)
  else match raw with
  | RawInt idx => claimIndex t idx
  | RawInt64 idx => claimIndex t (i64 idx)
  | RawOther ty v =>
      (false, mkTracker (rest t) (claimed t) true
                (Some (Errorf ("unsupported claim slice index type " +:+ ty +:+ ": " +:+ v) [])))
  end.

Definition TrySplit `{FloatCvt} (t : Tracker) (fraction : float64)
    : option (OffsetRange * OffsetRange) * Tracker :=
  if stopped t || fle fraction (of_int 0) || fle (of_int 1) fraction then (None, t)
  else
    let remaining := i64 (End_ (rest t) - claimed t - 1) in
    let splitPoint := i64 (claimed t + 1 + int64_round (fmul (of_int remaining) fraction)) in
    if (splitPoint <=? i64 (claimed t + 1)) || (End_ (rest t) <=? splitPoint) then (None, t)
    else
      let primaryRange := mkRange (Start (rest t)) splitPoint in
      let residualRange := mkRange splitPoint (End_ (rest t)) in
      (Some (primaryRange, residualRange),
       mkTracker (mkRange (Start (rest t)) splitPoint) (claimed t) (stopped t) (err t)).

Definition GetRestriction (t : Tracker) : OffsetRange := rest t.
Definition GetProgress (t : Tracker) : float64 * float64 :=
  let done := of_int (i64 (claimed t - Start (rest t) + 1)) in
  let remaining := of_int (i64 (End_ (rest t) - claimed t - 1)) in
  (done, if flt remaining (of_int 0) then of_int 0 else remaining).
Definition GetError (t : Tracker) : option error := err t.
Definition MarkDone (t : Tracker) : Tracker := stop t.
Definition IsDone (t : Tracker) : bool :=
  stopped t || (i64 (End_ (rest t) - 1) <=? claimed t).
End Partition.

(** ** [PageRangeTracker] *)
Module Page.
Record Tracker := mkTracker { rest : OffsetRange; claimed : Z; stopped : bool; err : option error }.

Definition NewPageRangeTracker (r : OffsetRange) : Tracker :=
  mkTracker r (i64 (Start r - 1)) false None.

Definition stop (t : Tracker) : Tracker := mkTracker (rest t) (claimed t) true (err t).

Definition claimIndex (t : Tracker) (index : Z) : bool * Tracker :=
  if (index <? Start (rest t)) || (End_ (rest t) <=? index) || (index <=? claimed t) then
    (false, stop t)
  else (true, mkTracker (rest t) index (stopped t) (err t)).

Definition TryClaim (t : Tracker) (raw : rawPos) : bool * Tracker :=
  if stopped t then (false, t)
  else match raw with
  | RawInt idx => claimIndex t idx
  | RawInt64 idx => claimIndex t (i64 idx)
  | RawOther ty v =>
      (false, mkTracker (rest t) (claimed t) true
                (Some (Errorf ("unsupported claim page index type " +:+ ty +:+ ": " +:+ v) [])))
  end.

Definition TrySplit `{FloatCvt} (t : Tracker) (fraction : float64)
    : option (OffsetRange * OffsetRange) * Tracker :=
  if stopped t || fle fraction (of_int 0) || fle (of_int 1) fraction then (None, t)
  else
    let remaining := i64 (End_ (rest t) - claimed t - 1) in
    let splitPoint := i64 (claimed t + 1 + int64_round (fmul (of_int remaining) fraction)) in
    if (splitPoint <=? i64 (claimed t + 1)) || (End_ (rest t) <=? splitPoint) then (None, t)
    else
      let primaryRange := mkRange (Start (rest t)) splitPoint in
      let residualRange := mkRange splitPoint (End_ (rest t)) in
      (Some (primaryRange, residualRange),
       mkTracker (mkRange (Start (rest t)) splitPoint) (claimed t) (stopped t) (err t)).

Definition GetRestriction (t : Tracker) : OffsetRange := rest t.
Definition GetProgress (t : Tracker) : float64 * float64 :=
  let done := of_int (i64 (claimed t - Start (rest t) + 1)) in
  let remaining := of_int (i64 (End_ (rest t) - claimed t - 1)) in
  (done, if flt remaining (of_int 0) then of_int 0 else remaining).
Definition GetError (t : Tracker) : option error := err t.
Definition MarkDone (t : Tracker) : Tracker := stop t.
Definition IsDone (t : Tracker) : bool :=
  stopped t || (i64 (End_ (rest t) - 1) <=? claimed t).
End Page.

(** ** What a runner relies on *)
Class RTracker (T : Type) := {
  rt_new : OffsetRange -> T;
  rt_claim : T -> rawPos -> bool * T;
  rt_split : T -> float64 -> option (OffsetRange * OffsetRange) * T;
  rt_markDone : T -> T;
  rt_isDone : T -> bool;
  rt_rest : T -> OffsetRange;
  rt_claimed : T -> Z;
  rt_stopped : T -> bool
}.

Definition range_ok (r : OffsetRange) : Prop := 0 <= Start r <= End_ r /\ End_ r <= MaxInt64.
(** The positions of a tracker lie in its restriction. *)
Definition rt_ok `{RTracker T} (t : T) : Prop :=
  range_ok (rt_rest t) /\ Start (rt_rest t) - 1 <= rt_claimed t < End_ (rt_rest t).

(** A position is claimable when it is in the restriction, after the last claim. *)
Definition claimable `{RTracker T} (t : T) (p : Z) : bool :=
  negb (rt_stopped t) && (Start (rt_rest t) <=? p) && (p <? End_ (rt_rest t)) && (rt_claimed t <? p).

Class RTrackerLaws (T : Type) `{RTracker T} := {
  new_law r : range_ok r ->
    rt_rest (rt_new r) = r /\ rt_claimed (rt_new r) = Start r - 1 /\ rt_stopped (rt_new r) = false;
  claim_law t p raw : in_i64 p -> raw = RawInt64 p \/ raw = RawInt p ->
    fst (rt_claim t raw) = claimable t p
    /\ rt_rest (snd (rt_claim t raw)) = rt_rest t
    /\ rt_claimed (snd (rt_claim t raw)) = (if claimable t p then p else rt_claimed t)
    /\ rt_stopped (snd (rt_claim t raw)) = negb (claimable t p);
  split_none_law t x : fst (rt_split t x) = None -> snd (rt_split t x) = t;
  split_some_law t x p r : rt_ok t -> fst (rt_split t x) = Some (p, r) ->
    exists sp, p = mkRange (Start (rt_rest t)) sp /\ r = mkRange sp (End_ (rt_rest t))
      /\ rt_stopped t = false /\ rt_claimed t < sp /\ Start (rt_rest t) < sp < End_ (rt_rest t)
      /\ rt_rest (snd (rt_split t x)) = p /\ rt_claimed (snd (rt_split t x)) = rt_claimed t
      /\ rt_stopped (snd (rt_split t x)) = false;
  done_law t : rt_rest (rt_markDone t) = rt_rest t /\ rt_claimed (rt_markDone t) = rt_claimed t
    /\ rt_stopped (rt_markDone t) = true;
  isDone_law t : rt_ok t -> rt_isDone t = rt_stopped t || (rt_claimed t =? End_ (rt_rest t) - 1)
}.

#[export] Instance ByteOffset_tracker `{FloatCvt} : RTracker ByteOffset.Tracker := {|
  rt_new := ByteOffset.NewByteOffsetTracker; rt_claim := ByteOffset.TryClaim;
  rt_split := ByteOffset.TrySplit; rt_markDone := ByteOffset.MarkDone;
  rt_isDone := ByteOffset.IsDone; rt_rest := ByteOffset.rest;
  rt_claimed := ByteOffset.claimed; rt_stopped := ByteOffset.stopped |}.
#[export] Instance Partition_tracker `{FloatCvt} : RTracker Partition.Tracker := {|
  rt_new := Partition.NewPartitionRangeTracker; rt_claim := Partition.TryClaim;
  rt_split := Partition.TrySplit; rt_markDone := Partition.MarkDone;
  rt_isDone := Partition.IsDone; rt_rest := Partition.rest;
  rt_claimed := Partition.claimed; rt_stopped := Partition.stopped |}.
#[export] Instance Page_tracker `{FloatCvt} : RTracker Page.Tracker := {|
  rt_new := Page.NewPageRangeTracker; rt_claim := Page.TryClaim;
  rt_split := Page.TrySplit; rt_markDone := Page.MarkDone;
  rt_isDone := Page.IsDone; rt_rest := Page.rest;
  rt_claimed := Page.claimed; rt_stopped := Page.stopped |}.

(** ** The trackers keep the contract *)
Ltac tracker_ok :=
  unfold rt_ok, range_ok, claimable in *; cbn [rt_rest rt_claimed rt_stopped] in *;
  cbn [Start End_] in *.

Lemma isDone_arith (s : bool) (c e : Z) : c < e -> in_i64 (e - 1) ->
  s || (i64 (e - 1) <=? c) = s || (c =? e - 1).
Proof. intros H Hi. rewrite i64_small by done. destruct s; [done|]. cbn [orb]. zcases; lia. Qed.

#[export] Instance ByteOffset_laws `{FloatCvt} : RTrackerLaws ByteOffset.Tracker.
Proof.
  split.
  - intros [s e] [H1 H2]. cbn [Start End_] in *. cbn. repeat split. apply i64_small. wordlia.
  - intros [[s e] c st er] p raw Hp Hraw. tracker_ok.
    assert (ByteOffset.TryClaim (ByteOffset.mkTracker (mkRange s e) c st er) raw
      = ByteOffset.ClaimOffset (ByteOffset.mkTracker (mkRange s e) c st er) p) as Hc.
    { destruct Hraw as [-> | ->]; cbn; by rewrite ?(i64_small p Hp). }
    cbn [rt_claim ByteOffset_tracker]. rewrite Hc. unfold ByteOffset.ClaimOffset. cbn.
    destruct st; cbn; [done|]. zcases; cbn; repeat split; lia.
  - intros [[s e] c st er] x. cbn [rt_split ByteOffset_tracker]. unfold ByteOffset.TrySplit. cbn.
    destruct (_ || _); [done|]. destruct (_ <? 2); [done|]. by destruct (_ || _).
  - intros [[s e] c st er] x p r Hok. tracker_ok. cbn [ByteOffset.rest ByteOffset.claimed] in *.
    cbn [rt_split ByteOffset_tracker]. unfold ByteOffset.TrySplit. cbn.
    destruct st; [done|]. cbn [orb]. destruct (_ || _); [done|].
    set (cur := if c <? s then s else c). destruct (_ <? 2); [done|].
    set (sp := i64 (cur + _)). destruct (Z.leb_spec sp cur); [done|].
    destruct (Z.leb_spec e sp); [done|]. cbn. intros [= <- <-]. exists sp.
    assert (s <= cur /\ c <= cur) by (unfold cur; zcases; lia). repeat split; lia.
  - intros [r c st er]. done.
  - intros [[s e] c st er] Hok. tracker_ok. cbn in Hok |- *. apply isDone_arith; wordlia.
Qed.
(** The two index trackers have the same shape. *)
Ltac index_tracker_laws :=
  split;
  [ intros [s e] [H1 H2]; cbn [Start End_] in *; cbn; repeat split; apply i64_small; wordlia
  | intros [[s e] c st er] p raw Hp Hraw; tracker_ok; destruct Hraw as [-> | ->];
    destruct st; cbn; try done; unfold Partition.claimIndex, Page.claimIndex;
    rewrite ?(i64_small p Hp); cbn; zcases; cbn; repeat split; lia
  | intros [[s e] c st er] x; cbn [rt_split Partition_tracker Page_tracker];
    unfold Partition.TrySplit, Page.TrySplit; cbv zeta;
    destruct (_ || _ || _); try done; by destruct (_ || _)
  | intros [[s e] c st er] x p r Hok; tracker_ok; cbn in Hok;
    cbn [rt_split Partition_tracker Page_tracker Partition.rest Partition.claimed
      Partition.stopped Page.rest Page.claimed Page.stopped] in *;
    unfold Partition.TrySplit, Page.TrySplit; cbv zeta;
    cbn [Partition.rest Partition.claimed Partition.stopped Page.rest Page.claimed
      Page.stopped Start End_] in *;
    destruct st; try done; cbn [orb]; destruct (_ || _); try done;
    rewrite (i64_small (c + 1)) by wordlia;
    generalize (int64_round (fmul (of_int (i64 (e - c - 1))) x)); intros d;
    destruct (Z.leb_spec (i64 (c + 1 + d)) (c + 1)); try done;
    destruct (Z.leb_spec e (i64 (c + 1 + d))); try done; cbn; intros [= <- <-];
    exists (i64 (c + 1 + d)); repeat split; lia
  | intros [r c st er]; done
  | intros [[s e] c st er] Hok; tracker_ok; cbn in Hok |- *; apply isDone_arith; wordlia ].

#[export] Instance Partition_laws `{FloatCvt} : RTrackerLaws Partition.Tracker.
Proof. index_tracker_laws. Qed.
#[export] Instance Page_laws `{FloatCvt} : RTrackerLaws Page.Tracker.
Proof. index_tracker_laws. Qed.

(** ** A pool of workers

    A worker owns a tracker and processes the positions it claims; a dynamic
    split truncates its restriction and starts a worker on the residual. A
    schedule is any sequence of claims, splits and [MarkDone]s on the pool. *)
Section Pool.
Context {T : Type} `{RTrackerLaws T}.

Record worker := mkWorker { w_tracker : T; w_processed : list Z }.
Inductive poolOp :=
  | PClaim (i : nat) (p : Z)
  | PNext (i : nat)
  | PSplit (i : nat) (fraction : float64)
  | PDone (i : nat).

Definition startWorker (r : OffsetRange) : worker := mkWorker (rt_new r) [].
Definition claimOp (w : worker) (p : Z) : worker :=
  let '(ok, t) := rt_claim (w_tracker w) (RawInt64 p) in
  mkWorker t (if ok then w_processed w ++ [p] else w_processed w).
Definition splitOp (w : worker) (x : float64) : list worker :=
  match rt_split (w_tracker w) x with
  | (None, t) => [mkWorker t (w_processed w)]
  | (Some (_, residual), t) => [mkWorker t (w_processed w); startWorker residual]
  end.
Definition workerOp (op : poolOp) (w : worker) : list worker :=
  match op with
  | PClaim _ p => [claimOp w p]
  | PNext _ => [claimOp w (rt_claimed (w_tracker w) + 1)]
  | PSplit _ x => splitOp w x
  | PDone _ => [mkWorker (rt_markDone (w_tracker w)) (w_processed w)]
  end.
Definition opIndex (op : poolOp) : nat :=
  match op with PClaim i _ | PNext i | PSplit i _ | PDone i => i end.
Definition poolStep (ws : list worker) (op : poolOp) : list worker :=
  match ws !! opIndex op with
  | None => ws
  | Some w => take (opIndex op) ws ++ workerOp op w ++ drop (S (opIndex op)) ws
  end.
Definition poolRun (r : OffsetRange) (ops : list poolOp) : list worker :=
  foldl poolStep [startWorker r] ops.

Definition opRange (op : poolOp) : Prop := match op with PClaim _ p => in_i64 p | _ => True end.
(** In-order schedules: a worker only claims the position after its last one,
    and gives up only when the tracker refuses it. *)
Definition inOrder (op : poolOp) : Prop :=
  match op with PNext _ | PSplit _ _ => True | _ => False end.

Definition positions (r : OffsetRange) : list Z := seqZ (Start r) (End_ r - Start r).
Definition allPositions (ws : list worker) : list Z :=
  concat (map (fun w => positions (rt_rest (w_tracker w))) ws).
Definition allProcessed (ws : list worker) : list Z := concat (map w_processed ws).

(** What a worker has processed lies in its restriction, ascending, up to its claim. *)
Record worker_ok (w : worker) : Prop := {
  wk_ok : rt_ok (w_tracker w);
  wk_sub : w_processed w ⊆+ seqZ (Start (rt_rest (w_tracker w)))
             (rt_claimed (w_tracker w) + 1 - Start (rt_rest (w_tracker w)))
}.
(** In order: it has processed all of them, and stopped only at the end. *)
Record worker_full (w : worker) : Prop := {
  wf_all : w_processed w = seqZ (Start (rt_rest (w_tracker w)))
             (rt_claimed (w_tracker w) + 1 - Start (rt_rest (w_tracker w)));
  wf_stop : rt_stopped (w_tracker w) = true ->
            rt_claimed (w_tracker w) = End_ (rt_rest (w_tracker w)) - 1
}.

Lemma startWorker_ok r : range_ok r -> worker_ok (startWorker r) /\ worker_full (startWorker r)
  /\ rt_rest (w_tracker (startWorker r)) = r.
Proof.
  intros Hr. destruct (new_law r Hr) as (H1 & H2 & H3).
  assert (seqZ (Start r) (Start r - 1 + 1 - Start r) = []) as E
    by (replace (Start r - 1 + 1 - Start r) with 0 by lia; done).
  split; [|split]; [split|split|]; cbn [startWorker w_tracker w_processed]; unfold rt_ok;
    rewrite ?H1, ?H2, ?H3, ?E; try done.
  destruct Hr. split; [done|lia].
Qed.

Lemma seqZ_grow s c p : s - 1 <= c < p -> seqZ s (p + 1 - s) = seqZ s (c + 1 - s) ++ seqZ (c + 1) (p - c - 1) ++ [p].
Proof.
  intros Hp. replace (p + 1 - s) with ((c + 1 - s) + ((p - c - 1) + 1)) by lia.
  rewrite seqZ_app by lia. f_equal. replace (s + (c + 1 - s)) with (c + 1) by lia.
  rewrite seqZ_app by lia. f_equal. replace (c + 1 + (p - c - 1)) with p by lia. done.
Qed.

Lemma claimOp_ok w p : worker_ok w -> in_i64 p ->
  worker_ok (claimOp w p) /\ rt_rest (w_tracker (claimOp w p)) = rt_rest (w_tracker w).
Proof.
  intros [Hok Hsub] Hp. destruct (claim_law (w_tracker w) p (RawInt64 p) Hp (or_introl eq_refl)) as (E1 & E2 & E3 & E4).
  unfold claimOp. destruct (rt_claim (w_tracker w) (RawInt64 p)) as [ok t]. cbn [fst snd] in *.
  subst ok. split; [|done]. split; cbn [w_tracker w_processed]; unfold rt_ok; rewrite E2, E3.
  - destruct Hok as [H1 H2]. split; [done|]. unfold claimable.
    destruct (claimable (w_tracker w) p) eqn:E; unfold claimable in E; rewrite ?E; [|done].
    destruct (rt_stopped _); [done|]. cbn in E. zcases; try done. lia.
  - destruct (claimable (w_tracker w) p) eqn:E; [|done].
    assert (rt_claimed (w_tracker w) < p) as Hlt.
    { unfold claimable in E. apply andb_prop in E as [_ E]. by apply Z.ltb_lt. }
    destruct Hok as [_ Hc]. rewrite (seqZ_grow _ (rt_claimed (w_tracker w)) p) by lia.
    apply submseteq_app; [done|]. apply submseteq_inserts_l. done.
Qed.
Lemma claimNext_full w : worker_ok w -> worker_full w ->
  worker_full (claimOp w (rt_claimed (w_tracker w) + 1)).
Proof.
  intros [Hok _] [Hall Hstop]. set (p := rt_claimed (w_tracker w) + 1).
  destruct Hok as [[H1 H2] H3].
  assert (in_i64 p) as Hp by (unfold p; wordlia).
  destruct (claim_law (w_tracker w) p (RawInt64 p) Hp (or_introl eq_refl)) as (E1 & E2 & E3 & E4).
  unfold claimOp. destruct (rt_claim (w_tracker w) (RawInt64 p)) as [ok t]. cbn [fst snd] in *. subst ok.
  split; cbn [w_tracker w_processed]; rewrite E2, ?E3.
  - destruct (claimable (w_tracker w) p) eqn:E; [|done].
    rewrite (seqZ_grow _ (rt_claimed (w_tracker w)) p) by lia. rewrite Hall. f_equal.
    replace (p - rt_claimed (w_tracker w) - 1) with 0 by (unfold p; lia). done.
  - rewrite E4. destruct (claimable (w_tracker w) p) eqn:E; [done|]. intros _.
    unfold claimable in E. destruct (rt_stopped (w_tracker w)); [by apply Hstop|].
    cbn in E. unfold p in *. zcases; try done; lia.
Qed.

Ltac forall_list := repeat (apply List.Forall_cons; [solve [assumption | done]|]); apply List.Forall_nil.

(** A step on one worker keeps its positions, and what it says of processed ones. *)
Lemma splitOp_ok w x : worker_ok w ->
  Forall worker_ok (splitOp w x)
  /\ allPositions (splitOp w x) = positions (rt_rest (w_tracker w))
  /\ allProcessed (splitOp w x) = w_processed w
  /\ (worker_full w -> Forall worker_full (splitOp w x)).
Proof.
  intros [Hok Hsub]. unfold splitOp.
  destruct (rt_split (w_tracker w) x) as [[[p r]|] t] eqn:E.
  - destruct (split_some_law (w_tracker w) x p r Hok) as (sp & -> & -> & Hs & Hc & Hsp & E1 & E2 & E3);
      [by rewrite E|]. rewrite E in E1, E2, E3. cbn [fst snd] in *.
    destruct Hok as [[H1 H2] H3].
    destruct (startWorker_ok (mkRange sp (End_ (rt_rest (w_tracker w))))) as (K1 & K2 & K3);
      [split; cbn; lia|].
    assert (worker_ok (mkWorker t (w_processed w))) as K4.
    { split; cbn [w_tracker w_processed]; unfold rt_ok; rewrite E1, E2; [|done].
      split; [split; cbn; lia|cbn; lia]. }
    split; [forall_list|]. split; [|split].
    + unfold allPositions. cbn [map concat w_tracker]. rewrite E1, K3, app_nil_r.
      unfold positions. cbn [Start End_].
      replace (End_ (rt_rest (w_tracker w)) - Start (rt_rest (w_tracker w)))
        with ((sp - Start (rt_rest (w_tracker w))) + (End_ (rt_rest (w_tracker w)) - sp)) by lia.
      rewrite seqZ_app by lia. do 2 f_equal. lia.
    + unfold allProcessed. cbn. by rewrite app_nil_r.
    + intros [Hall _]. apply List.Forall_cons; [|forall_list].
      split; cbn [w_tracker w_processed]; rewrite ?E1, ?E2, ?E3; done.
  - pose proof (split_none_law (w_tracker w) x) as Hn. rewrite E in Hn. specialize (Hn eq_refl).
    cbn [snd] in Hn. subst t.
    destruct w as [tr pr]. cbn. split; [forall_list|].
    unfold allPositions, allProcessed. cbn. rewrite !app_nil_r. repeat split.
    intros Hf. forall_list.
Qed.
Lemma workerOp_ok op w : opRange op -> worker_ok w ->
  Forall worker_ok (workerOp op w)
  /\ allPositions (workerOp op w) = positions (rt_rest (w_tracker w))
  /\ (inOrder op -> worker_full w -> Forall worker_full (workerOp op w)).
Proof.
  intros Hop Hw. destruct op as [i p|i|i x|i]; cbn [workerOp].
  - destruct (claimOp_ok w p Hw Hop) as [H1 H2]. split; [forall_list|].
    unfold allPositions. cbn [map concat]. by rewrite H2, app_nil_r.
  - assert (in_i64 (rt_claimed (w_tracker w) + 1)) as Hp.
    { destruct Hw as [[[? ?] ?] _]. wordlia. }
    destruct (claimOp_ok w _ Hw Hp) as [H1 H2]. split; [forall_list|].
    unfold allPositions. cbn [map concat]. rewrite H2, app_nil_r. split; [done|].
    intros _ Hf. constructor; [by apply claimNext_full|constructor].
  - destruct (splitOp_ok w x Hw) as (H1 & H2 & _ & H3). auto.
  - destruct (done_law (w_tracker w)) as (E1 & E2 & E3). destruct Hw as [Hok Hsub].
    split; [constructor; [|constructor]|].
    + split; cbn [w_tracker w_processed]; unfold rt_ok; by rewrite E1, E2.
    + unfold allPositions. cbn [map concat w_tracker]. by rewrite E1, app_nil_r.
Qed.

Lemma poolStep_ok ws op : opRange op -> Forall worker_ok ws ->
  Forall worker_ok (poolStep ws op) /\ allPositions (poolStep ws op) = allPositions ws
  /\ (inOrder op -> Forall worker_full ws -> Forall worker_full (poolStep ws op)).
Proof.
  intros Hop Hws. unfold poolStep. destruct (ws !! opIndex op) as [w|] eqn:E; [|done].
  pose proof (take_drop_middle ws (opIndex op) w E) as Hm.
  rewrite <- Hm in Hws. apply Forall_app in Hws as [Ht [Hw Hd]%Forall_cons].
  destruct (workerOp_ok op w Hop Hw) as (H1 & H2 & H3). split; [|split].
  - apply Forall_app. split; [done|]. by apply Forall_app.
  - rewrite <- Hm at 3. unfold allPositions in *. rewrite !map_app, !concat_app. cbn [map concat].
    by rewrite H2.
  - intros Ho Hf. rewrite <- Hm in Hf. apply Forall_app in Hf as [Hft [Hfw Hfd]%Forall_cons].
    apply Forall_app. split; [done|]. apply Forall_app. split; [by apply H3|done].
Qed.
Lemma poolRun_ok r ops : range_ok r -> Forall opRange ops ->
  Forall worker_ok (poolRun r ops) /\ allPositions (poolRun r ops) = positions r
  /\ (Forall inOrder ops -> Forall worker_full (poolRun r ops)).
Proof.
  intros Hr Hops. unfold poolRun.
  destruct (startWorker_ok r Hr) as (S1 & S2 & S3).
  assert (forall ws, Forall worker_ok ws -> Forall worker_ok (foldl poolStep ws ops)
    /\ allPositions (foldl poolStep ws ops) = allPositions ws
    /\ (Forall inOrder ops -> Forall worker_full ws -> Forall worker_full (foldl poolStep ws ops))) as Hf.
  { clear -Hops H0. induction Hops as [|op ops Hop Hops IH]; intros ws Hws; [done|]. cbn [foldl].
    destruct (poolStep_ok ws op Hop Hws) as (A1 & A2 & A3).
    destruct (IH _ A1) as (B1 & B2 & B3). split; [done|]. split; [by rewrite B2|].
    intros [Ho Hos]%Forall_cons Hfull. apply B3; auto. }
  destruct (Hf [startWorker r]) as (A1 & A2 & A3); [by constructor|].
  split; [done|]. split.
  - rewrite A2. unfold allPositions. cbn [map concat]. by rewrite S3, app_nil_r.
  - intros Ho. apply A3; [done|by constructor].
Qed.
End Pool.
Arguments worker T : clear implicits.

(** C4. Whatever claims, dynamic splits and early stops interleave over the
    pool, in any order and with any fractions: the restrictions of the workers
    partition the initial one, and no position is processed twice, nor one
    outside it. *)
Theorem tracker_pool_safe {T : Type} `{RTrackerLaws T} (r : OffsetRange) (ops : list poolOp) :
  range_ok r -> Forall opRange ops ->
  allPositions (poolRun (T := T) r ops) = positions r
  /\ allProcessed (poolRun (T := T) r ops) ⊆+ positions r
  /\ NoDup (allProcessed (poolRun (T := T) r ops)).
Proof.
  intros Hr Hops. destruct (poolRun_ok (T := T) r ops Hr Hops) as (Hok & Hpos & _).
  assert (allProcessed (poolRun (T := T) r ops) ⊆+ positions r) as Hsub.
  { rewrite <- Hpos. unfold allProcessed, allPositions. clear Hpos.
    induction Hok as [|w ws [[_ Hc] Hs] _ IH]; [done|]. cbn [map concat].
    apply submseteq_app; [|done]. etransitivity; [exact Hs|]. unfold positions.
    set (s := Start (rt_rest (w_tracker w))) in *. set (c := rt_claimed (w_tracker w)) in *.
    set (e := End_ (rt_rest (w_tracker w))) in *.
    replace (e - s) with ((c + 1 - s) + (e - c - 1)) by lia.
    rewrite seqZ_app by lia. by apply submseteq_inserts_r. }
  split; [done|]. split; [done|].
  destruct (submseteq_Permutation _ _ Hsub) as [k Hk].
  pose proof (NoDup_seqZ (Start r) (End_ r - Start r)) as Hnd. fold (positions r) in Hnd.
  rewrite Hk in Hnd. by apply NoDup_app in Hnd as [? _].
Qed.

(** C27. When workers claim in order and every tracker reports that it is done,
    each position of the initial restriction has been processed exactly once. *)
Theorem tracker_pool_exactly_once {T : Type} `{RTrackerLaws T} (r : OffsetRange) (ops : list poolOp) :
  range_ok r -> Forall inOrder ops ->
  Forall (fun w => rt_isDone (w_tracker w) = true) (poolRun (T := T) r ops) ->
  allProcessed (poolRun (T := T) r ops) = positions r.
Proof.
  intros Hr Hops Hdone.
  assert (Forall opRange ops) as Hrange.
  { eapply Forall_impl; [exact Hops|]. by intros []. }
  destruct (poolRun_ok (T := T) r ops Hr Hrange) as (Hok & Hpos & Hfull).
  rewrite <- Hpos. specialize (Hfull Hops). clear Hpos.
  unfold allProcessed, allPositions. f_equal. apply map_ext_in. intros w Hin%list_elem_of_In.
  rewrite Forall_forall in Hok, Hfull, Hdone.
  destruct (Hok w Hin) as [Hk _], (Hfull w Hin) as [Hall Hstop]. specialize (Hdone w Hin).
  cbn beta in Hdone. rewrite (isDone_law _ Hk) in Hdone.
  assert (rt_claimed (w_tracker w) = End_ (rt_rest (w_tracker w)) - 1) as Hc.
  { apply orb_prop in Hdone as [Hd|Hd]; [by apply Hstop|by apply Z.eqb_eq]. }
  rewrite Hall, Hc. unfold positions. f_equal. lia.
Qed.

(** Two workers split a range of ten positions and process it to the end. *)
#[local] Instance sampleCvt : FloatCvt := fun _ => 0.
Definition half : float64 := fdiv (of_int 1) (of_int 2).
Definition sampleSchedule : list poolOp :=
  [PNext 0; PNext 0; PSplit 0 half; PNext 1; PNext 0; PNext 0; PNext 0; PNext 0; PNext 0; PNext 0]
  ++ [PNext 1; PNext 1; PNext 1; PNext 1].
Lemma tracker_pool_safe_witness :
  (length (poolRun (T := ByteOffset.Tracker) (mkRange 0 10) sampleSchedule) = 2)%nat
  /\ NoDup (allProcessed (poolRun (T := ByteOffset.Tracker) (mkRange 0 10) sampleSchedule)).
Proof.
  split; [vm_compute; reflexivity|].
  apply (tracker_pool_safe (T := ByteOffset.Tracker) (mkRange 0 10) sampleSchedule).
  - vm_compute. repeat split; congruence.
  - unfold sampleSchedule. repeat (apply List.Forall_cons; [exact I|]). apply List.Forall_nil.
Defined.
Lemma tracker_pool_exactly_once_witness :
  (length (poolRun (T := Partition.Tracker) (mkRange 0 10) sampleSchedule) = 2)%nat
  /\ allProcessed (poolRun (T := Partition.Tracker) (mkRange 0 10) sampleSchedule) = seqZ 0 10.
Proof.
  split; [vm_compute; reflexivity|].
  apply (tracker_pool_exactly_once (T := Partition.Tracker) (mkRange 0 10) sampleSchedule).
  - vm_compute. repeat split; congruence.
  - unfold sampleSchedule. repeat (apply List.Forall_cons; [exact I|]). apply List.Forall_nil.
  - apply List.Forall_forall. intros w Hw.
    assert (forallb (fun w => rt_isDone (w_tracker w))
      (poolRun (T := Partition.Tracker) (mkRange 0 10) sampleSchedule) = true) as Hb
      by (vm_compute; reflexivity).
    rewrite forallb_forall in Hb. by apply Hb.
Defined.

(** A single slice or page ([[0,1)], what the query and page sources start
    from) never splits, and is processed by the first claim only. *)
Lemma Partition_single_slice `{FloatCvt} x :
  let t := Partition.NewPartitionRangeTracker (mkRange 0 1) in
  fst (Partition.TrySplit t x) = None
  /\ fst (Partition.TryClaim t (RawInt 0)) = true
  /\ fst (Partition.TryClaim (snd (Partition.TryClaim t (RawInt 0))) (RawInt 0)) = false
  /\ Partition.IsDone (snd (Partition.TryClaim t (RawInt 0))) = true.
Proof.
  cbn zeta. split; [|vm_compute; auto]. unfold Partition.TrySplit, Partition.NewPartitionRangeTracker.
  cbn. destruct (_ || _); [done|].
  generalize (int64_round (fmul (of_int (i64 (1 - i64 (0 - 1) - 1))) x)). intros d.
  change (i64 (i64 (0 - 1) + 1)) with 0. change (i64 (0 - 1) + 1 + d) with (0 + d).
  destruct (Z.leb_spec (i64 (0 + d)) 0); [done|]. destruct (Z.leb_spec 1 (i64 (0 + d))); [done|lia].
Qed.

(** An unsupported claim type stops the tracker and records the error. *)
Lemma ByteOffset_TryClaim_other t ty v :
  let t' := snd (ByteOffset.TryClaim t (RawOther ty v)) in
  fst (ByteOffset.TryClaim t (RawOther ty v)) = false /\ ByteOffset.stopped t' = true
  /\ ByteOffset.GetError t' <> None /\ ByteOffset.IsDone t' = true.
Proof. cbn. done. Qed.
