(* ===== verification/ByteStream.v ===== *)
(** * The byte stream source

    Models [internal/beam/streams/byte_stream_sdf.go] and the record boundary
    search of [byte_offset_tracker.go]: how a file is cut in byte ranges, and
    which records the worker of each range reads and emits, dynamic splits
    included. *)
From S2P Require Import Prelude GoStr Float64 Schema Intern RecordModel Config Trackers.

(** ** Restrictions *)
(** [reader.Size(ctx, fileURI)] is given. *)
Definition CreateInitialRestriction `{GoQuote} (size : string -> result Z) (fileURI : string)
    : result OffsetRange :=
  match size fileURI with
  | Err e => Err (Errorf ("failed getting size for initial restriction on " +:+ Quote fileURI
                          +:+ ": " +:+ Error e) [e])
  | Ok n => Ok (mkRange 0 n)
  | Panic s => Panic s
  end.

(** The loop runs at most once per chunk: [fuel] bounds the iterations. *)
Fixpoint splitLoop (fuel : nat) (start stop chunk : Z) : list OffsetRange :=
  match fuel with
  | O => []
  | S n =>
      if start <? stop then
        let e := i64 (start + chunk) in
        let e := if stop <? e then stop else e in
        mkRange start e :: splitLoop n (i64 (start + chunk)) stop chunk
      else []
  end.
Definition chunkOf (cfg : SourceConfig) : Z :=
  if ChunkSizeBytes cfg <=? 0 then DefaultChunkSizeBytes else ChunkSizeBytes cfg.
Definition SplitRestriction `{UnicodeLower} (cfg : SourceConfig) (rest : OffsetRange) : list OffsetRange :=
  let comp := ToLower (TrimSpace (Compression cfg)) in
  if negb (comp =s "") && negb (comp =s "none") then [rest]
  else
    let chunkSize := chunkOf cfg in
    if i64 (End_ rest - Start rest) <=? chunkSize then [rest]
    else splitLoop (Z.to_nat ((End_ rest - Start rest) / chunkSize + 1)) (Start rest) (End_ rest) chunkSize.

Definition RestrictionSize (rest : OffsetRange) : float64 :=
  if End_ rest <? Start rest then of_int 0 else of_int (i64 (End_ rest - Start rest)).

Definition CreateTracker (rest : OffsetRange) : ByteOffset.Tracker :=
  ByteOffset.NewByteOffsetTracker rest.

(** ** Reading records *)
Definition newline : byte := "010"%char.
Definition quotation : byte := "034"%char.
Definition backslash : byte := "092"%char.

(** [br.ReadBytes('\n')]: the bytes up to and including the delimiter, whether
    the input ended first ([io.EOF]), and what is left. *)
Fixpoint ReadBytes (l : list byte) : list byte * bool * list byte :=
  match l with
  | [] => ([], true, [])
  | b :: l' =>
      if ascii_dec b newline then ([b], false, l')
      else let '(line, eof, r) := ReadBytes l' in (b :: line, eof, r)
  end.

(** The scan of one line for quotes; [prev] is [line[i-1]], [None] at [i = 0]. *)
Fixpoint scanQuotes (quoteChar : byte) (inQuotes : bool) (prev : option byte) (l : list byte) : bool :=
  match l with
  | [] => inQuotes
  | b :: l' =>
      let escaped := match prev with Some p => bool_decide (p = backslash) | None => false end in
      if ascii_dec b quoteChar then
        match l' with
        | c :: l'' =>
            if inQuotes && bool_decide (c = quoteChar)
            then scanQuotes quoteChar inQuotes (Some c) l''
            else if escaped
            then scanQuotes quoteChar inQuotes (Some b) l'
            else scanQuotes quoteChar (negb inQuotes) (Some b) l'
        | [] =>
            if escaped then inQuotes else negb inQuotes
        end
      else scanQuotes quoteChar inQuotes (Some b) l'
  end.

(** Each iteration consumes a line, so one more than the bytes left is enough fuel. *)
Fixpoint readRecordLoop (fuel : nat) (quoteChar : byte) (full : list byte) (inQuotes : bool)
    (l : list byte) : list byte * bool * list byte :=
  match fuel with
  | O => (full, true, l)
  | S n =>
      let '(line, eof, r) := ReadBytes l in
      match line with
      | [] => (full, eof, r)
      | _ =>
          let full := full ++ line in
          let inQuotes := scanQuotes quoteChar inQuotes None line in
          if negb inQuotes || eof then (full, eof, r)
          else readRecordLoop n quoteChar full inQuotes r
      end
  end.
Definition readRecordBytes (quoteChar : byte) (multiline : bool) (l : list byte)
    : list byte * bool * list byte :=
  if negb multiline then ReadBytes l
  else
    let quoteChar := if ascii_dec quoteChar "000"%char then quotation else quoteChar in
    readRecordLoop (S (length l)) quoteChar [] false l.

Definition quoteOf (cfg : SourceConfig) : byte :=
  match bytes (QuoteChar cfg) with b :: _ => b | [] => quotation end.

(** ** The feeder goroutine

    It claims the position of each record and writes the record to the pipe.
    The runner may split the restriction between two iterations: [sched] is
    the fractions it tries before each claim. [stopAt] is the end of the
    restriction the worker was started with. *)
Section Feed.
Context `{FloatCvt} (cfg : SourceConfig) (stopAt : Z).

Fixpoint trySplits (t : ByteOffset.Tracker) (xs : list float64) : ByteOffset.Tracker :=
  match xs with [] => t | x :: xs' => trySplits (snd (ByteOffset.TrySplit t x)) xs' end.

Fixpoint feed (fuel : nat) (sched : list (list float64)) (t : ByteOffset.Tracker) (currPos : Z)
    (l : list byte) : list (list byte) * ByteOffset.Tracker :=
  match fuel with
  | O => ([], t)
  | S n =>
      if stopAt <=? currPos then ([], t)
      else
        let t := trySplits t (hd [] sched) in
        let '(ok, t) := ByteOffset.ClaimOffset t currPos in
        if negb ok then ([], t)
        else
          let '(line, eof, r) := readRecordBytes (quoteOf cfg) (Multiline cfg) l in
          let out := match line with [] => [] | _ => [line] end in
          let currPos := i64 (currPos + zlen line) in
          if eof : bool then (out, t)
          else let '(outs, t) := feed n (tl sched) t currPos r in (out ++ outs, t)
  end.

(** Seek to the start, drop the partial record unless at offset 0, then feed;
    [None] when the range holds no start of a record ([return nil]). *)
Definition readRange (sched : list (list float64)) (t : ByteOffset.Tracker) (data : list byte)
    : option (list (list byte)) * ByteOffset.Tracker :=
  let start := Start (ByteOffset.GetRestriction t) in
  let l := drop (Z.to_nat start) data in
  if 0 <? start then
    let '(line, _, r) := readRecordBytes (quoteOf cfg) (Multiline cfg) l in
    let currPos := i64 (start + zlen line) in
    if stopAt <=? currPos then (None, t)
    else let '(out, t) := feed (S (length r)) sched t currPos r in (Some out, t)
  else let '(out, t) := feed (S (length l)) sched t start l in (Some out, t).
End Feed.

(** ** [ProcessElement]

    The storage reader, the stream wrapper and the decoder are ports: a file
    opens to its bytes or an error, the wrapper transforms the stream, and the
    decoder turns it into the records of its channel and the errors of the
    other, or fails at once. *)
Record StreamPorts := mkPorts {
  p_Open : string -> result (list byte);
  p_WrapStream : option (list byte -> result (list byte));
  p_Decode : list byte -> Schema -> string -> result (list (option GenericRecord) * list (option error))
}.

(** [for rec := range recChan { if rec != nil { emit(rec) } }] *)
Definition emitted (recs : list (option GenericRecord)) : list GenericRecord := omap id recs.
(** The first non-nil error of a channel. *)
Definition firstError (errs : list (option error)) : option error := head (omap id errs).

Definition decodeStream `{GoQuote} (cfg : SourceConfig) (ports : StreamPorts) (fileURI : string)
    (input : list byte) : list GenericRecord * option error :=
  let fail pre e := ([], Some (Errorf (pre +:+ Quote fileURI +:+ ": " +:+ Error e) [e])) in
  match (match p_WrapStream ports with None => Ok input | Some wrap => wrap input end) with
  | Err e => fail "failed wrapping stream for " e
  | Panic s => ([], Some (Errorf s []))
  | Ok stream =>
      match p_Decode ports stream (SrcSchema cfg) fileURI with
      | Err e => fail "decoder setup error for " e
      | Panic s => ([], Some (Errorf s []))
      | Ok (recs, errs) =>
          (emitted recs,
           e ← firstError errs;
           Some (Errorf ("stream read error in " +:+ Quote fileURI +:+ ": " +:+ Error e) [e]))
      end
  end.

(** The records emitted, the error returned, and the tracker, which every exit marks done. *)
Definition ProcessElement `{FloatCvt, GoQuote} (cfg : SourceConfig) (ports : StreamPorts)
    (sched : list (list float64)) (t : ByteOffset.Tracker) (fileURI : string)
    : list GenericRecord * option error * ByteOffset.Tracker :=
  match p_Open ports fileURI with
  | Err e => ([], Some (Errorf ("failed opening " +:+ Quote fileURI +:+ ": " +:+ Error e) [e]),
              ByteOffset.MarkDone t)
  | Panic s => ([], Some (Errorf s []), ByteOffset.MarkDone t)
  | Ok data =>
      match readRange cfg (End_ (ByteOffset.GetRestriction t)) sched t data with
      | (None, t') => ([], None, ByteOffset.MarkDone t')
      | (Some lines, t') =>
          (decodeStream cfg ports fileURI (concat lines), ByteOffset.MarkDone t')
      end
  end.

(** ** [SyncToNextRecordBoundary] *)
Fixpoint indexByte (c : byte) (l : list byte) : Z :=
  match l with
  | [] => -1
  | b :: l' =>
      if ascii_dec b c then 0
      else let i := indexByte c l' in if i =? -1 then -1 else i + 1
  end.
(** The scan from [i], [prev] being [data[i-1]]. *)
Fixpoint syncScan (quoteChar : byte) (startOffset : Z) (i : Z) (inQuotes : bool)
    (prev : option byte) (l : list byte) : option Z :=
  match l with
  | [] => None
  | b :: l' =>
      let escaped := match prev with Some p => bool_decide (p = backslash) | None => false end in
      if ascii_dec b quoteChar then
        match l' with
        | c :: l'' =>
            if inQuotes && bool_decide (c = quoteChar)
            then syncScan quoteChar startOffset (i + 2) inQuotes (Some c) l''
            else if escaped then syncScan quoteChar startOffset (i + 1) inQuotes (Some b) l'
            else syncScan quoteChar startOffset (i + 1) (negb inQuotes) (Some b) l'
        | [] => None
        end
      else if bool_decide (b = newline) && negb inQuotes && (startOffset <=? i + 1)
      then Some (i + 1)
      else syncScan quoteChar startOffset (i + 1) inQuotes (Some b) l'
  end.
Definition SyncToNextRecordBoundary (data : list byte) (startOffset : Z) (quoteChar : byte)
    (isMulti : bool) : Z :=
  if (startOffset <=? 0) || (zlen data <=? startOffset) then startOffset
  else if negb isMulti then
    let idx := indexByte newline (drop (Z.to_nat startOffset) data) in
    if idx =? -1 then zlen data else startOffset + idx + 1
  else
    let quoteChar := if ascii_dec quoteChar "000"%char then quotation else quoteChar in
    default (zlen data) (syncScan quoteChar startOffset 0 false None data).
Definition SyncToNextNewline (data : list byte) (startOffset : Z) : Z :=
  SyncToNextRecordBoundary data startOffset quotation false.

(** ** The lines of a file, with their positions *)
Fixpoint linesFuel (fuel : nat) (pos : Z) (l : list byte) : list (Z * list byte) :=
  match fuel with
  | O => []
  | S n =>
      match ReadBytes l with
      | ([], _, _) => []
      | (line, _, r) => (pos, line) :: linesFuel n (pos + zlen line) r
      end
  end.
Definition linesFrom (pos : Z) (l : list byte) : list (Z * list byte) := linesFuel (length l) pos l.
Definition linesOf (data : list byte) : list (Z * list byte) := linesFrom 0 data.

Lemma ReadBytes_spec l line eof r : ReadBytes l = (line, eof, r) ->
  l = line ++ r /\ (eof = true -> r = []) /\ (line = [] -> l = []).
Proof.
  revert line eof r. induction l as [|b l IH]; intros line eof r; cbn [ReadBytes].
  { intros [= <- <- <-]. done. }
  destruct (ascii_dec b newline); [intros [= <- <- <-]; done|].
  destruct (ReadBytes l) as [[line' eof'] r'] eqn:E. intros [= <- <- <-].
  destruct (IH _ _ _ eq_refl) as (H1 & H2 & _). subst l. repeat split; [done|done].
Qed.
Lemma ReadBytes_noeof l line r : ReadBytes l = (line, false, r) -> line <> [].
Proof.
  destruct l as [|b l]; cbn [ReadBytes]; [done|].
  destruct (ascii_dec b newline); [by intros [= <- <-]|].
  destruct (ReadBytes l) as [[? ?] ?]. by intros [= <- _ _].
Qed.
(** Starting inside a line reads the rest of it. *)
Lemma ReadBytes_drop l line eof r k : ReadBytes l = (line, eof, r) -> (k < length line)%nat ->
  ReadBytes (drop k l) = (drop k line, eof, r).
Proof.
  revert line eof r k. induction l as [|b l IH]; intros line eof r k; cbn [ReadBytes].
  { intros [= <- <- <-]. simpl. lia. }
  destruct (ascii_dec b newline) as [Hb|Hb].
  { intros [= <- <- <-]. simpl. intros Hk. assert (k = 0%nat) as -> by lia. cbn.
    by destruct (ascii_dec b newline). }
  destruct (ReadBytes l) as [[line' eof'] r'] eqn:E. intros [= <- <- <-]. simpl. intros Hk.
  destruct k as [|k]; cbn [drop ReadBytes].
  - destruct (ascii_dec b newline); [done|]. by rewrite E.
  - apply (IH _ _ _ k eq_refl). lia.
Qed.

Lemma linesFuel_irrel n m pos l : (length l <= n)%nat -> (length l <= m)%nat ->
  linesFuel n pos l = linesFuel m pos l.
Proof.
  revert m pos l. induction n as [|n IH]; intros m pos l Hn Hm.
  { destruct l; [|simpl in Hn; lia]. by destruct m. }
  destruct m as [|m].
  { destruct l; [done|simpl in Hm; lia]. }
  cbn [linesFuel]. destruct (ReadBytes l) as [[line eof] r] eqn:E.
  destruct (ReadBytes_spec _ _ _ _ E) as (-> & _ & _).
  destruct line as [|b line]; [done|]. f_equal. rewrite length_app in *. simpl in *.
  apply IH; lia.
Qed.
Lemma linesFrom_step pos l line eof r : ReadBytes l = (line, eof, r) -> line <> [] ->
  linesFrom pos l = (pos, line) :: linesFrom (pos + zlen line) r.
Proof.
  intros E Hl. unfold linesFrom. destruct (ReadBytes_spec _ _ _ _ E) as (Hspl & _ & _).
  destruct line as [|b line]; [done|].
  assert (length l = S (length line + length r)) as Hlen by (rewrite Hspl, length_app; simpl; lia).
  rewrite Hlen. cbn [linesFuel]. rewrite E. f_equal. apply linesFuel_irrel; lia.
Qed.
Lemma linesFrom_nil pos : linesFrom pos [] = [].
Proof. done. Qed.
(** Induction on the lines of an input. *)
Lemma lines_ind (P : list byte -> Prop) :
  P [] -> (forall l line eof r, ReadBytes l = (line, eof, r) -> line <> [] -> P r -> P l) -> forall l, P l.
Proof.
  intros H0 HS l. remember (length l) as n eqn:Hn. revert l Hn.
  induction (Nat.lt_wf_0 n) as [n _ IH]. intros l ->.
  destruct (ReadBytes l) as [[line eof] r] eqn:E. destruct (ReadBytes_spec _ _ _ _ E) as (Hl & _ & He).
  destruct line as [|b line]; [by rewrite He|].
  apply (HS l (b :: line) eof r E); [done|]. apply (IH (length r)); [|done].
  rewrite Hl, length_app. simpl. lia.
Qed.

Lemma linesFrom_ge pos l p line : (p, line) ∈ linesFrom pos l -> pos <= p.
Proof.
  revert pos. induction l as [|l x eof r E Hne IH] using lines_ind; intros pos.
  { rewrite linesFrom_nil. by intros ?%elem_of_nil. }
  rewrite (linesFrom_step _ _ _ _ _ E Hne). intros [[= -> _]|Hin]%elem_of_cons; [lia|].
  apply IH in Hin. pose proof (zlen_nonneg x). lia.
Qed.
(** The lines cut the file. *)
Lemma linesFrom_concat pos l : concat (map snd (linesFrom pos l)) = l.
Proof.
  revert pos. induction l as [|l x eof r E Hne IH] using lines_ind; intros pos; [done|].
  rewrite (linesFrom_step _ _ _ _ _ E Hne). cbn [map concat snd]. rewrite IH.
  by destruct (ReadBytes_spec _ _ _ _ E) as (-> & _).
Qed.

(** Resynchronising: after dropping what is left of a line from offset [k],
    the reader is at the first line that starts after [k]. *)
Lemma resync pos l k line eof r : (k <= length l)%nat ->
  ReadBytes (drop k l) = (line, eof, r) ->
  linesFrom (pos + Z.of_nat k + zlen line) r
  = filter (fun pl => pos + Z.of_nat k < fst pl) (linesFrom pos l).
Proof.
  revert pos k line eof r. induction l as [|l x e r' E Hne IH] using lines_ind; intros pos k line eof r Hk.
  { rewrite drop_nil. cbn. intros [= <- <- <-]. done. }
  intros Hr. rewrite (linesFrom_step _ _ _ _ _ E Hne), filter_cons. cbn [fst].
  rewrite decide_False by lia.
  destruct (ReadBytes_spec _ _ _ _ E) as (Hl & _ & _).
  destruct (decide (k < length x)%nat) as [Hkx|Hkx].
  - rewrite (ReadBytes_drop _ _ _ _ _ E Hkx) in Hr. injection Hr as <- <- <-.
    replace (pos + Z.of_nat k + zlen (drop k x)) with (pos + zlen x)
      by (unfold zlen; rewrite length_drop; lia).
    symmetry. apply filter_all. intros [p y] Hin.
    apply linesFrom_ge in Hin. cbn. unfold zlen in Hin. lia.
  - assert (drop k l = drop (k - length x) r') as Hd by (rewrite Hl, drop_app_ge by lia; done).
    rewrite Hd in Hr.
    pose proof (IH (pos + zlen x) (k - length x)%nat line eof r) as H.
    replace (pos + zlen x + Z.of_nat (k - length x)) with (pos + Z.of_nat k) in H
      by (unfold zlen; lia).
    apply H; [|done]. rewrite Hl, length_app in Hk. lia.
Qed.

(** ** What a worker reads *)
Lemma trySplits_spec `{FloatCvt} xs t : rt_ok t ->
  let t' := trySplits t xs in
  rt_ok t' /\ ByteOffset.claimed t' = ByteOffset.claimed t
  /\ ByteOffset.stopped t' = ByteOffset.stopped t
  /\ Start (ByteOffset.rest t') = Start (ByteOffset.rest t)
  /\ End_ (ByteOffset.rest t') <= End_ (ByteOffset.rest t).
Proof.
  revert t. induction xs as [|x xs IH]; intros t Hok; cbn [trySplits];
    [split; [done|]; repeat split; lia|].
  assert (rt_ok (snd (ByteOffset.TrySplit t x)) /\
    ByteOffset.claimed (snd (ByteOffset.TrySplit t x)) = ByteOffset.claimed t /\
    ByteOffset.stopped (snd (ByteOffset.TrySplit t x)) = ByteOffset.stopped t /\
    Start (ByteOffset.rest (snd (ByteOffset.TrySplit t x))) = Start (ByteOffset.rest t) /\
    End_ (ByteOffset.rest (snd (ByteOffset.TrySplit t x))) <= End_ (ByteOffset.rest t)) as (A & B & C & D & E).
  { destruct (fst (ByteOffset.TrySplit t x)) as [[p r]|] eqn:Es.
    - destruct (split_some_law t x p r Hok Es) as (sp & -> & -> & Hs & Hc & Hsp & E1 & E2 & E3).
      cbn [rt_split rt_rest rt_claimed rt_stopped ByteOffset_tracker] in *.
      destruct Hok as [[H1 H2] H3]. cbn [rt_rest rt_claimed ByteOffset_tracker] in *.
      unfold rt_ok. cbn [rt_rest rt_claimed ByteOffset_tracker]. rewrite E1, E2, E3, Hs.
      cbn [Start End_]. split; [split; [split; cbn; lia|cbn; lia]|]. repeat split; lia.
    - pose proof (split_none_law t x Es) as Hn. cbn [rt_split ByteOffset_tracker] in Hn. rewrite Hn.
      split; [done|]. repeat split; lia. }
  destruct (IH _ A) as (A' & B' & C' & D' & E'). split; [done|].
  repeat split; try congruence. lia.
Qed.

Section Reading.
Context `{FloatCvt} (cfg : SourceConfig) (Hsingle : Multiline cfg = false).
Context (stopAt : Z).

Lemma readRecord_single l : readRecordBytes (quoteOf cfg) (Multiline cfg) l = ReadBytes l.
Proof. unfold readRecordBytes. by rewrite Hsingle. Qed.

Lemma filter_below e pos l : e <= pos -> filter (fun pl => fst pl < e) (linesFrom pos l) = [].
Proof.
  intros He. apply filter_none. intros [p x] Hin%linesFrom_ge. cbn. lia.
Qed.

Lemma feed_spec fuel sched t pos l :
  rt_ok t -> ByteOffset.stopped t = false -> End_ (ByteOffset.rest t) <= stopAt ->
  Start (ByteOffset.rest t) <= pos -> ByteOffset.claimed t < pos ->
  pos + zlen l <= MaxInt64 -> (length l < fuel)%nat ->
  let '(out, t') := feed cfg stopAt fuel sched t pos l in
  let e := End_ (ByteOffset.rest t') in
  out = map snd (filter (fun pl => fst pl < e) (linesFrom pos l))
  /\ Start (ByteOffset.rest t') = Start (ByteOffset.rest t)
  /\ ByteOffset.claimed t < e <= End_ (ByteOffset.rest t)
  /\ (sched = [] -> e = End_ (ByteOffset.rest t)).
Proof.
  revert sched t pos l. induction fuel as [|fuel IH]; intros sched t pos l Hok Hst Hstop Hs Hc Hmax Hf; [lia|].
  cbn [feed]. destruct (Z.leb_spec stopAt pos) as [Hle|Hlt].
  { rewrite filter_below by lia. split; [done|]. destruct Hok as [_ Hk].
    cbn [rt_rest rt_claimed ByteOffset_tracker] in Hk. repeat split; lia. }
  destruct (trySplits_spec (hd [] sched) t Hok) as (Hok1 & E1 & E2 & E3 & E4).
  assert (sched = [] -> trySplits t (hd [] sched) = t) as Hnil by by intros ->.
  set (t1 := trySplits t (hd [] sched)) in *.
  pose proof Hok1 as [[R1 R2] R3]. cbn [rt_rest rt_claimed ByteOffset_tracker] in R1, R2, R3.
  unfold ByteOffset.ClaimOffset. rewrite E2, Hst. rewrite E3, E1.
  destruct (Z.ltb_spec pos (Start (ByteOffset.rest t))); [lia|].
  destruct (Z.leb_spec pos (ByteOffset.claimed t)); [lia|]. rewrite orb_false_r. cbn [orb].
  destruct (Z.leb_spec (End_ (ByteOffset.rest t1)) pos) as [Hend|Hend]; cbn [negb].
  { cbn [ByteOffset.stop ByteOffset.rest]. rewrite filter_below by lia. split; [done|].
    split; [done|]. split; [lia|]. intros Hn. by rewrite (Hnil Hn). }
  rewrite readRecord_single. destruct (ReadBytes l) as [[line eof] r] eqn:E.
  destruct (ReadBytes_spec _ _ _ _ E) as (Hl & Heof & Hempty).
  set (t2 := ByteOffset.mkTracker _ pos _ _).
  destruct eof.
  { cbn [ByteOffset.rest t2]. split; [|split; [done|split; [lia|intros Hn; by rewrite (Hnil Hn)]]].
    destruct line as [|b line]; [by rewrite Hempty|].
    rewrite (linesFrom_step _ _ _ _ _ E) by done. rewrite (Heof eq_refl), linesFrom_nil.
    rewrite filter_cons, decide_True by (cbn; lia). done. }
  pose proof (ReadBytes_noeof _ _ _ E) as Hne. rewrite Hl, zlen_app in Hmax.
  pose proof (zlen_nonneg r). pose proof (zlen_nonneg line).
  assert (0 < zlen line) as Hpos by (destruct line; [done|unfold zlen; simpl; lia]).
  rewrite i64_small by wordlia.
  specialize (IH (tl sched) t2 (pos + zlen line) r).
  destruct (feed cfg stopAt fuel (tl sched) t2 (pos + zlen line) r) as [outs t'].
  destruct IH as (O1 & O2 & O3 & O4).
  { split; [split; cbn; lia|]. cbn [rt_rest rt_claimed ByteOffset_tracker t2 ByteOffset.rest ByteOffset.claimed]. lia. }
  { cbn. by rewrite ?E2. }
  { cbn. lia. }
  { cbn. lia. }
  { cbn. lia. }
  { lia. }
  { rewrite Hl, length_app in Hf. unfold zlen in Hpos. lia. }
  cbn [t2 ByteOffset.rest ByteOffset.claimed] in O2, O3, O4.
  split; [|split; [by rewrite O2|split; [lia|]]].
  - rewrite (linesFrom_step _ _ _ _ _ E Hne), filter_cons, decide_True by (cbn; lia).
    cbn [map snd]. rewrite O1. by destruct line.
  - intros Hn. rewrite O4 by by rewrite Hn. by rewrite (Hnil Hn).
Qed.
End Reading.

(** The lines a range [s, e) is responsible for: those that start in it, except
    the one at [s] itself unless [s] is the start of the file. *)
Definition rangeLines (data : list byte) (s e : Z) : list (list byte) :=
  map snd (filter (fun pl => (s = 0 \/ s < fst pl) /\ fst pl < e) (linesOf data)).

Lemma readRange_spec `{FloatCvt} (cfg : SourceConfig) (r : OffsetRange)
    (sched : list (list float64)) (data : list byte) :
  Multiline cfg = false -> range_ok r -> Start r <= zlen data -> zlen data <= MaxInt64 ->
  let '(out, t') := readRange cfg (End_ r) sched (CreateTracker r) data in
  let r' := ByteOffset.rest t' in
  default [] out = rangeLines data (Start r) (End_ r')
  /\ Start r' = Start r /\ End_ r' <= End_ r /\ (sched = [] -> r' = r).
Proof.
  intros Hsingle Hr Hs Hmax. destruct r as [s e]. destruct Hr as [[H0 He] Hm].
  cbn [Start End_] in *. unfold readRange, CreateTracker, ByteOffset.NewByteOffsetTracker.
  cbn [ByteOffset.GetRestriction ByteOffset.rest Start].
  rewrite (i64_small (s - 1)) by wordlia.
  set (t := ByteOffset.mkTracker (mkRange s e) (s - 1) false None).
  assert (rt_ok t) as Hok by (split; [split; cbn; lia|cbn; lia]).
  assert (zlen (drop (Z.to_nat s) data) = zlen data - s) as Hdl
    by (unfold zlen in *; rewrite length_drop; lia).
  destruct (Z.ltb_spec 0 s) as [Hpos|Hzero].
  - rewrite readRecord_single by done.
    destruct (ReadBytes (drop (Z.to_nat s) data)) as [[line eof] rem] eqn:E.
    destruct (ReadBytes_spec _ _ _ _ E) as (Hl & _ & _).
    pose proof (resync 0 data (Z.to_nat s) line eof rem ltac:(unfold zlen in *; lia) E) as Hre.
    rewrite Z2Nat.id in Hre by lia. rewrite Z.add_0_l in Hre.
    rewrite Hl, zlen_app in Hdl. pose proof (zlen_nonneg line). pose proof (zlen_nonneg rem).
    rewrite i64_small by wordlia.
    assert (forall e', rangeLines data s e'
      = map snd (filter (fun pl => fst pl < e') (linesFrom (s + zlen line) rem))) as Hrl.
    { intros e'. unfold rangeLines, linesOf. rewrite Hre, list_filter_filter. f_equal.
      apply list_filter_iff. intros [p x]. cbn. lia. }
    destruct (Z.leb_spec e (s + zlen line)).
    + cbn. rewrite Hrl, filter_below by lia. repeat split; done || lia.
    + pose proof (feed_spec cfg Hsingle e (S (length rem)) sched t (s + zlen line) rem) as Hfeed.
      destruct (feed _ _ _ _ _ _ _) as [out t'].
      destruct Hfeed as (F1 & F2 & F3 & F4); try done; try (cbn; lia); [lia..|].
      unfold default, from_option, id. rewrite Hrl. repeat split; try done; try (cbn in *; lia).
      intros Hn. specialize (F4 Hn). destruct (ByteOffset.rest t') as [s' e'']. cbn in *. congruence.
  - assert (s = 0) as -> by lia. change (Z.to_nat 0) with 0%nat. rewrite drop_0.
    pose proof (feed_spec cfg Hsingle e (S (length data)) sched t 0 data) as Hfeed.
    destruct (feed _ _ _ _ _ _ _) as [out t'].
    destruct Hfeed as (F1 & F2 & F3 & F4); try done; try (cbn; lia); [lia..|].
    split; [|split; [done|split; [cbn in *; lia|]]].
    + rewrite F1. unfold rangeLines, linesOf. unfold default, from_option, id. f_equal. apply list_filter_iff. intros [p x]. cbn. lia.
    + intros Hn. specialize (F4 Hn). destruct (ByteOffset.rest t') as [s' e'']. cbn in *. congruence.
Qed.

(** The worker of a range, however the runner splits it while it runs,
    reads exactly the lines that start in its final restriction, whole and in
    order, but for a line that starts at the first byte of a range other than
    the first. *)
Theorem readRange_lines `{FloatCvt} (cfg : SourceConfig) (r : OffsetRange)
    (sched : list (list float64)) (data : list byte) :
  Multiline cfg = false -> range_ok r -> Start r <= zlen data -> zlen data <= MaxInt64 ->
  let '(out, t') := readRange cfg (End_ r) sched (CreateTracker r) data in
  let r' := ByteOffset.rest t' in
  default [] out = rangeLines data (Start r) (End_ r')
  /\ Start r' = Start r /\ End_ r' <= End_ r /\ (sched = [] -> r' = r).
Proof. apply readRange_spec. Qed.

(** ** Ranges that follow one another *)
Fixpoint chain (a : Z) (rs : list OffsetRange) (b : Z) : Prop :=
  match rs with
  | [] => a = b
  | r :: rs' => Start r = a /\ a <= End_ r /\ chain (End_ r) rs' b
  end.
Lemma chain_le a rs b : chain a rs b -> a <= b.
Proof.
  revert a. induction rs as [|r rs IH]; intros a; cbn [chain]; [lia|].
  intros (_ & H & Hc). specialize (IH _ Hc). lia.
Qed.
Lemma chain_starts a rs b r : chain a rs b -> r ∈ rs -> a <= Start r <= b /\ Start r <= End_ r <= b.
Proof.
  revert a. induction rs as [|r' rs IH]; intros a; cbn [chain]; [by intros _ ?%elem_of_nil|].
  intros (Hs & H & Hc) [->|Hin]%elem_of_cons.
  - pose proof (chain_le _ _ _ Hc). lia.
  - specialize (IH _ Hc Hin). lia.
Qed.

Lemma splitLoop_chain fuel start stop chunk :
  0 < chunk -> 0 <= start <= stop -> stop + chunk <= MaxInt64 ->
  (stop - start) / chunk < Z.of_nat fuel ->
  chain start (splitLoop fuel start stop chunk) stop
  /\ Forall (fun r => End_ r - Start r <= chunk) (splitLoop fuel start stop chunk).
Proof.
  revert start. induction fuel as [|fuel IH]; intros start Hc Hs Hm Hf.
  { assert (0 <= (stop - start) / chunk) by (apply Z.div_pos; lia). lia. }
  cbn [splitLoop]. destruct (Z.ltb_spec start stop) as [Hlt|Hge].
  - rewrite (i64_small (start + chunk)) by wordlia.
    destruct (Z.ltb_spec stop (start + chunk)) as [Hlast|Hmore].
    + destruct fuel as [|fuel]; cbn [splitLoop].
      * split; [cbn; lia|]. repeat constructor. cbn. lia.
      * destruct (Z.ltb_spec (start + chunk) stop); [lia|].
        split; [cbn; lia|]. repeat constructor. cbn. lia.
    + destruct (IH (start + chunk)) as [Hch Hsz]; [lia|lia|lia| |].
      { replace (stop - (start + chunk)) with ((stop - start) + (-1) * chunk) by lia.
        rewrite Z.div_add by lia. lia. }
      split; [cbn; split; [done|split; [lia|done]]|]. constructor; [cbn; lia|done].
  - split; [cbn; lia|constructor].
Qed.
Lemma chunkOf_pos cfg : 0 < chunkOf cfg.
Proof. unfold chunkOf, DefaultChunkSizeBytes. zcases; lia. Qed.
Lemma SplitRestriction_chain `{UnicodeLower} cfg size :
  0 <= size -> size + chunkOf cfg <= MaxInt64 ->
  chain 0 (SplitRestriction cfg (mkRange 0 size)) size.
Proof.
  intros H0 Hm. pose proof (chunkOf_pos cfg). unfold SplitRestriction. cbn [Start End_].
  destruct (_ && _); [cbn; lia|]. rewrite i64_small by wordlia.
  destruct (Z.leb_spec (size - 0) (chunkOf cfg)); [cbn; lia|].
  apply splitLoop_chain; [done|lia|done|].
  assert (0 <= (size - 0) / chunkOf cfg) by (apply Z.div_pos; lia). lia.
Qed.

(** Lines by where they start. *)
Lemma lines_sorted pos l : StronglySorted (fun x y => fst x < fst y) (linesFrom pos l).
Proof.
  revert pos. induction l as [|l x eof r E Hne IH] using lines_ind; intros pos; [constructor|].
  rewrite (linesFrom_step _ _ _ _ _ E Hne). constructor; [apply IH|].
  apply List.Forall_forall. intros [p y] Hin%list_elem_of_In. apply linesFrom_ge in Hin.
  assert (0 < zlen x) by (destruct x; [done|unfold zlen; simpl; lia]). cbn. lia.
Qed.
Lemma lines_below pos l p x : (p, x) ∈ linesFrom pos l -> p < pos + zlen l.
Proof.
  revert pos. induction l as [|l y eof r E Hne IH] using lines_ind; intros pos.
  { rewrite linesFrom_nil. by intros ?%elem_of_nil. }
  destruct (ReadBytes_spec _ _ _ _ E) as (-> & _). rewrite zlen_app.
  rewrite (linesFrom_step _ _ _ _ _ E Hne). pose proof (zlen_nonneg r).
  assert (0 < zlen y) by (destruct y; [done|unfold zlen; simpl; lia]).
  intros [[= -> _]|Hin]%elem_of_cons; [lia|]. apply IH in Hin. lia.
Qed.
Lemma sorted_filter_app {A} (key : A -> Z) (P Q : A -> Prop) `{forall x, Decision (P x)}
    `{forall x, Decision (Q x)} (l : list A) :
  StronglySorted (fun x y => key x < key y) l ->
  (forall x y, x ∈ l -> y ∈ l -> P x -> Q y -> key x < key y) ->
  filter P l ++ filter Q l = filter (fun x => P x \/ Q x) l.
Proof.
  intros Hs HPQ. induction Hs as [|x l Hs IH Hx]; [done|]. rewrite !filter_cons.
  assert (filter P l ++ filter Q l = filter (fun x => P x \/ Q x) l) as IH'.
  { apply IH. intros y z Hy Hz. apply HPQ; by constructor. }
  destruct (decide (P x \/ Q x)) as [Ho|Ho], (decide (P x)) as [HP|HP], (decide (Q x)) as [HQ|HQ];
    try tauto; cbn [app]; rewrite <- ?IH'; try done.
  - specialize (HPQ x x (list_elem_of_here _ _) (list_elem_of_here _ _) HP HQ). lia.
  - assert (filter P l = []) as ->; [|done]. apply filter_none. intros y Hy HPy.
    rewrite List.Forall_forall in Hx. specialize (Hx y (proj1 (list_elem_of_In _ _) Hy)).
    specialize (HPQ y x (list_elem_of_further _ _ _ Hy) (list_elem_of_here _ _) HPy HQ).
    cbn in Hx. lia.
Qed.

(** Where the ranges of a chain begin, but the first. *)
Definition interior (rs : list OffsetRange) : list Z := tl (map Start rs).
Lemma chain_lines data a rs b : 0 <= a -> chain a rs b ->
  concat (map (fun r => rangeLines data (Start r) (End_ r)) rs)
  = map snd (filter (fun pl => ((a = 0 \/ a < fst pl) /\ fst pl < b) /\ (fst pl ∉ interior rs \/ fst pl = 0))
      (linesOf data)).
Proof.
  revert a. induction rs as [|r rs IH]; intros a Ha Hc.
  { cbn in Hc. subst b. cbn [map concat]. rewrite filter_none; [done|]. unfold linesOf.
    intros [p x] Hin%linesFrom_ge. cbn. lia. }
  destruct Hc as (Hs & He & Hc). cbn [map concat]. rewrite (IH (End_ r)) by (lia || done).
  unfold rangeLines. rewrite <- map_app. f_equal. rewrite Hs.
  rewrite (sorted_filter_app fst); [|apply lines_sorted|].
  2:{ unfold linesOf. intros [p x] [q y] Hp%linesFrom_ge Hq%linesFrom_ge. cbn. lia. }
  apply filter_iff_in. unfold linesOf. intros [p x] Hp%linesFrom_ge. cbn [fst].
  unfold interior. cbn [map tl]. destruct rs as [|r2 rs]; cbn [map tl].
  { cbn in Hc. subst b. pose proof (not_elem_of_nil p). intuition lia. }
  destruct Hc as (Hs2 & He2 & Hc). rewrite Hs2.
  assert (p < End_ r -> p ∉ map Start rs) as Hlow.
  { intros Hlt Hin. apply list_elem_of_In, in_map_iff in Hin as (r3 & Hr3 & Hin).
    apply list_elem_of_In in Hin. pose proof (chain_starts _ _ _ r3 Hc Hin). lia. }
  pose proof (chain_le _ _ _ Hc). rewrite elem_of_cons.
  destruct (decide (p = End_ r)) as [->|Hne]; [intuition lia|].
  destruct (decide (p < End_ r)); [|intuition lia].
  assert (p ∉ map Start rs) by auto. intuition lia.
Qed.

(** What the worker of a range reads, and the lines of all ranges together. *)
Lemma SplitRestriction_ranges `{FloatCvt, UnicodeLower} (cfg : SourceConfig) (data : list byte) :
  Multiline cfg = false -> zlen data + chunkOf cfg <= MaxInt64 ->
  let rs := SplitRestriction cfg (mkRange 0 (zlen data)) in
  (forall r, r ∈ rs ->
     default [] (fst (readRange cfg (End_ r) [] (CreateTracker r) data)) = rangeLines data (Start r) (End_ r))
  /\ concat (map (fun r => rangeLines data (Start r) (End_ r)) rs)
     = map snd (filter (fun pl => fst pl ∉ interior rs \/ fst pl = 0) (linesOf data)).
Proof.
  intros Hsingle Hmax rs. pose proof (zlen_nonneg data). pose proof (chunkOf_pos cfg).
  pose proof (SplitRestriction_chain cfg (zlen data) ltac:(lia) Hmax) as Hch. fold rs in Hch. split.
  - intros r Hin. pose proof (chain_starts _ _ _ r Hch Hin).
    pose proof (readRange_spec cfg r [] data Hsingle ltac:(split; lia) ltac:(lia) ltac:(lia)) as Hr.
    destruct (readRange cfg (End_ r) [] (CreateTracker r) data) as [o t'].
    destruct Hr as (Ho & _ & _ & Hr). cbn [fst]. by rewrite Ho, (Hr eq_refl).
  - rewrite (chain_lines data 0 rs (zlen data) ltac:(lia) Hch). f_equal. apply filter_iff_in.
    unfold linesOf. intros [p x] Hin. pose proof (linesFrom_ge _ _ _ _ Hin).
    apply lines_below in Hin. cbn. intuition lia.
Qed.

(** C7. The workers of the ranges [SplitRestriction] cuts a file in read, in
    order, every line of it once and whole, except the lines that start exactly
    at an interior chunk boundary; when there is none of those, the bytes fed to
    the decoders are the bytes of the file. *)
Theorem ByteStream_file_lines `{FloatCvt, UnicodeLower} (cfg : SourceConfig) (data : list byte) :
  Multiline cfg = false -> zlen data + chunkOf cfg <= MaxInt64 ->
  let rs := SplitRestriction cfg (mkRange 0 (zlen data)) in
  let out := concat (map (fun r =>
    default [] (fst (readRange cfg (End_ r) [] (CreateTracker r) data))) rs) in
  out = map snd (filter (fun pl => fst pl ∉ interior rs \/ fst pl = 0) (linesOf data))
  /\ ((forall p x, (p, x) ∈ linesOf data -> p ∈ interior rs -> p = 0) -> concat out = data).
Proof.
  intros Hsingle Hmax rs out. destruct (SplitRestriction_ranges cfg data Hsingle Hmax) as [Hr Hl]. fold rs in Hr, Hl.
  assert (out = map snd (filter (fun pl => fst pl ∉ interior rs \/ fst pl = 0) (linesOf data))) as Hout.
  { unfold out. rewrite <- Hl. f_equal. apply map_ext_in. intros r Hin%list_elem_of_In. by apply Hr. }
  split; [done|]. intros Hno. rewrite Hout, filter_all; [apply linesFrom_concat|].
  intros [p x] Hin. cbn. destruct (decide (p ∈ interior rs)); [right; by eapply Hno|by left].
Qed.

(** A config with the given chunk size, and the two files of the examples. *)
Definition sampleConfig (chunk : Z) (multiline : bool) : SourceConfig :=
  mkSourceConfig "" "" [] "csv" "," "" multiline "utf-8" "" chunk (schemaOf []) None.
#[local] Instance sampleLower : UnicodeLower := fun s => s.
#[local] Instance streamCvt : FloatCvt := fun _ => 0.
Definition twoLines : list byte := bytes "abc" ++ [newline] ++ bytes "def" ++ [newline].

Lemma readRange_lines_witness :
  let r := mkRange 2 8 in
  fst (readRange (sampleConfig 4 false) 8 [] (CreateTracker r) twoLines) = Some [bytes "def" ++ [newline]]
  /\ rangeLines twoLines 2 8 = [bytes "def" ++ [newline]].
Proof.
  cbn zeta. split; [vm_compute; reflexivity|].
  pose proof (readRange_lines (sampleConfig 4 false) (mkRange 2 8) [] twoLines) as H.
  destruct (readRange (sampleConfig 4 false) (End_ (mkRange 2 8)) [] (CreateTracker (mkRange 2 8)) twoLines)
    as [out t'] eqn:E.
  vm_compute in E. injection E as <- <-.
  destruct H as [H _]; [reflexivity|vm_compute; repeat split; congruence|vm_compute; congruence..|].
  cbn in H. symmetry. exact H.
Defined.
Lemma ByteStream_file_lines_witness :
  let rs := SplitRestriction (sampleConfig 5 false) (mkRange 0 8) in
  rs = [mkRange 0 5; mkRange 5 8]
  /\ concat (concat (map (fun r => default [] (fst (readRange (sampleConfig 5 false) (End_ r) []
        (CreateTracker r) twoLines))) rs)) = twoLines.
Proof.
  cbn zeta. split; [vm_compute; reflexivity|].
  apply (ByteStream_file_lines (sampleConfig 5 false) twoLines); [reflexivity|vm_compute; congruence|].
  intros p x Hp Hi. exfalso. revert Hp Hi.
  assert (interior (SplitRestriction (sampleConfig 5 false) (mkRange 0 (zlen twoLines))) = [5]) as ->
    by (vm_compute; reflexivity).
  assert (linesOf twoLines = [(0, bytes "abc" ++ [newline]); (4, bytes "def" ++ [newline])]) as ->
    by (vm_compute; reflexivity).
  rewrite !elem_of_cons, elem_of_nil. intros [[= -> ->]|[[= -> ->]|[]]] [Hi|Hi%elem_of_nil]; done.
Defined.

(** With chunks of 4 bytes the second line starts at the boundary: no worker reads it. *)
Lemma boundary_line_lost :
  map (fun r => default [] (fst (readRange (sampleConfig 4 false) (End_ r) [] (CreateTracker r) twoLines)))
    (SplitRestriction (sampleConfig 4 false) (mkRange 0 8)) = [[bytes "abc" ++ [newline]]; []].
Proof. vm_compute. reflexivity. Qed.

(** In multiline mode, a chunk that starts inside a quoted field takes its
    closing quote for an opening one: the record after it is lost too. *)
Definition quotedFile : list byte :=
  bytes "a," ++ [quotation] ++ bytes "x" ++ [newline] ++ bytes "y" ++ [quotation; newline]
    ++ bytes "b" ++ [newline].
Lemma multiline_record_lost :
  map (fun r => map zlen (default [] (fst (readRange (sampleConfig 6 true) (End_ r) [] (CreateTracker r) quotedFile))))
    (SplitRestriction (sampleConfig 6 true) (mkRange 0 10)) = [[8]; []]
  /\ map zlen (default [] (fst (readRange (sampleConfig 0 true) 10 [] (CreateTracker (mkRange 0 10)) quotedFile)))
     = [8; 2].
Proof. vm_compute. auto. Qed.

(** ** The boundary search *)
Lemma indexByte_ReadBytes l line eof r : ReadBytes l = (line, eof, r) ->
  indexByte newline l = (if eof then -1 else zlen line - 1).
Proof.
  revert line eof r. induction l as [|b l IH]; intros line eof r; cbn [ReadBytes indexByte].
  { by intros [= <- <- <-]. }
  destruct (ascii_dec b newline) as [Hb|Hb]; [by intros [= <- <- <-]|].
  destruct (ReadBytes l) as [[line' eof'] r'] eqn:E. intros [= <- <- <-].
  rewrite (IH _ _ _ eq_refl). destruct eof'; [done|].
  assert (0 < zlen line') by (pose proof (ReadBytes_noeof _ _ _ E); destruct line'; [done|unfold zlen; simpl; lia]).
  destruct (Z.eqb_spec (zlen line' - 1) (-1)); [lia|]. unfold zlen. simpl. lia.
Qed.

(** For an offset inside the file, [SyncToNextNewline] finds where the
    first line that starts after the offset begins (the end of the file when
    there is none): the lines from there are the lines that start after it. *)
Theorem SyncToNextNewline_lines (data : list byte) (startOffset : Z) :
  0 < startOffset < zlen data ->
  let p := SyncToNextNewline data startOffset in
  startOffset < p <= zlen data
  /\ linesFrom p (drop (Z.to_nat p) data) = filter (fun pl => startOffset < fst pl) (linesOf data).
Proof.
  intros Ho. unfold SyncToNextNewline, SyncToNextRecordBoundary.
  destruct (Z.leb_spec startOffset 0); [lia|]. destruct (Z.leb_spec (zlen data) startOffset); [lia|].
  cbn [orb negb]. set (l := drop (Z.to_nat startOffset) data).
  destruct (ReadBytes l) as [[line eof] r] eqn:E.
  destruct (ReadBytes_spec _ _ _ _ E) as (Hl & Heof & He).
  assert (zlen l = zlen data - startOffset) as Hdl by (unfold l, zlen in *; rewrite length_drop; lia).
  assert (line <> []) as Hne by (intros ->; rewrite He in Hdl by done; unfold zlen in *; simpl in *; lia).
  assert (0 < zlen line) by (destruct line; [done|unfold zlen; simpl; lia]).
  rewrite (indexByte_ReadBytes _ _ _ _ E).
  assert ((if (if eof then -1 else zlen line - 1) =? -1 then zlen data
           else startOffset + (if eof then -1 else zlen line - 1) + 1) = startOffset + zlen line) as ->.
  { destruct eof; cbn.
    - rewrite (Heof eq_refl), app_nil_r in Hl. rewrite Hl in Hdl. lia.
    - destruct (Z.eqb_spec (zlen line - 1) (-1)); lia. }
  cbn zeta. pose proof (zlen_nonneg r). rewrite Hl, zlen_app in Hdl. split; [lia|].
  pose proof (resync 0 data (Z.to_nat startOffset) line eof r ltac:(unfold zlen in *; lia) E) as Hr.
  rewrite Z2Nat.id in Hr by lia. rewrite Z.add_0_l in Hr. unfold linesOf. rewrite <- Hr. f_equal.
  rewrite Z2Nat.inj_add by lia. rewrite <- drop_drop. fold l. rewrite Hl.
  apply drop_app_exact. unfold zlen. lia.
Qed.
Lemma SyncToNextNewline_lines_witness :
  SyncToNextNewline twoLines 2 = 4
  /\ linesFrom 4 (drop 4 twoLines) = filter (fun pl => 2 < fst pl) (linesOf twoLines).
Proof.
  split; [vm_compute; reflexivity|].
  apply (SyncToNextNewline_lines twoLines 2). vm_compute. split; congruence.
Defined.
