(* ===== verification/Cast.v ===== *)
(** * Casting and validation

    Models [internal/beam/core/cast_and_validate.go],
    [fused_enrich_and_validate.go], [audit_enricher.go] and
    [pkg/telemetry/sanitizer.go]: the per-column casting plans compiled from the
    schema, the element functions with everything they emit (valid records,
    dead letters, audit events), and the redaction of sensitive columns. *)
From S2P Require Import Prelude GoStr Float64 Schema Intern RecordModel FastNum.

(** ** Sensitive keys ([sanitizer.go]) *)
(** [regexp.MustCompile(p).ReplaceAllString(src, repl)] and [regexp.QuoteMeta]. *)
Class GoRegexp := {
  ReplaceAllString : string -> string -> string -> string;
  QuoteMeta : string -> string
}.

Definition defaultSensitiveKeywords : list string :=
  ["password"; "secret"; "token"; "apikey"; "api_key"; "auth"; "credential"; "private_key"].
Definition redacted : string := "[REDACTED]".
Definition quoteChar : string := str ["034"%char].

Section Sanitize.
Context `{UnicodeLower, GoRegexp}.
Definition normKey (key : string) : string := ToLower (TrimSpace key).
Definition IsSensitiveKey (key : string) (customSensitive : list string) : bool :=
  let norm := normKey key in
  existsb (Contains norm) defaultSensitiveKeywords
  || existsb (fun custom => norm =s normKey custom) customSensitive.
Definition SanitizeValue (key : string) (val : any) (customSensitive : list string) : any :=
  if IsSensitiveKey key customSensitive then AString redacted else val.

Definition jsonSecretPattern : string :=
  "(?i)" +:+ quoteChar
  +:+ "([^" +:+ quoteChar +:+ "]*(?:password|secret|token|apikey|api_key|auth|credential|cpf)[^"
  +:+ quoteChar +:+ "]*)" +:+ quoteChar +:+ "\s*:\s*" +:+ quoteChar
  +:+ "([^" +:+ quoteChar +:+ "]+)" +:+ quoteChar.
Definition customPattern (custom : string) : string :=
  "(?i)" +:+ quoteChar +:+ "(" +:+ QuoteMeta custom +:+ ")" +:+ quoteChar +:+ "\s*:\s*"
  +:+ quoteChar +:+ "([^" +:+ quoteChar +:+ "]+)" +:+ quoteChar.
Definition redactTemplate : string :=
  quoteChar +:+ "$1" +:+ quoteChar +:+ ":" +:+ quoteChar +:+ redacted +:+ quoteChar.
Definition SanitizePayload (payload : string) (customSensitive : list string) : string :=
  foldl (fun res custom =>
      if custom =s "" then res else ReplaceAllString (customPattern custom) res redactTemplate)
    (ReplaceAllString jsonSecretPattern payload redactTemplate) customSensitive.
Definition ContainsRedacted (s : string) : bool := Contains s redacted.
End Sanitize.

(** ** Casting plans

    A plan casts the raw value (or nil) of one column into the validated
    record, or reports a failure through the [fail] callback. *)
Inductive planOut :=
  | PlanOk (validated : GenericRecord) (pool : Pool)
  | PlanFail (col msg sample : string).
Definition fieldCastingPlan : Type :=
  option FieldValue -> GenericRecord -> Pool -> Z -> Field -> result planOut.

Section Cast.
Context `{GoFormatFloat, GoQuote, UnicodeLower, GoTimeParse, FloatCvt, GoRegexp}.

Definition failNull (field : Field) : result planOut :=
  let nullErr := mkFieldValidationError (Name field) "" (FType field) ErrNullConstraint in
  Ok (PlanFail (Name field) (FieldValidationError_Error nullErr) "").
Definition failCast (field : Field) (s : string) (err : error) : result planOut :=
  let castErr := mkFieldValidationError (Name field) s (FType field)
    (Errorf (Error ErrTypeCastFailed +:+ ": " +:+ Error err) [ErrTypeCastFailed; err]) in
  Ok (PlanFail (Name field) (FieldValidationError_Error castErr) s).

Definition planOk (pool : Pool) (r : result GenericRecord) : result planOut :=
  v ← r; Ok (PlanOk v pool).
(** Nil and null values: null if the column is nullable, a failure if not. *)
Definition castNull (t : DataType) (validated : GenericRecord) (pool : Pool) (i : Z) (f : Field)
    : result planOut :=
  if negb (Nullable f) then failNull f else planOk pool (SetNull validated i t).
(** The tail of the scalar plans: coerce the text of the value, empty meaning null. *)
Definition castText {A} (t : DataType) (coerce : string -> result A)
    (set : GenericRecord -> Z -> A -> result GenericRecord)
    (raw : FieldValue) (validated : GenericRecord) (pool : Pool) (i : Z) (f : Field)
    : result planOut :=
  let s := FieldValue_String raw in
  if s =s "" then castNull t validated pool i f
  else match coerce s with
  | Err e => failCast f s e
  | Panic m => Panic m
  | Ok v => planOk pool (set validated i v)
  end.

Definition planInt64 : fieldCastingPlan := fun rawVal validated pool i f =>
  match rawVal with
  | None => castNull TypeInt64 validated pool i f
  | Some raw =>
      if IsNull raw then castNull TypeInt64 validated pool i f
      else if Type_ raw =s TypeInt64 then planOk pool (setValue validated i raw)
      else if Type_ raw =s TypeFloat64 then
        planOk pool (SetInt64 validated i (int64_trunc (Float64Val raw)))
      else castText TypeInt64 CoerceInt64Fast SetInt64 raw validated pool i f
  end.
Definition planDecimal (scale : Z) (overflow : string) : fieldCastingPlan :=
  fun rawVal validated pool i f =>
  match rawVal with
  | None => castNull TypeDecimal validated pool i f
  | Some raw =>
      if IsNull raw then castNull TypeDecimal validated pool i f
      else if (Type_ raw =s TypeDecimal) && (Scale raw =? scale) then
        planOk pool (setValue validated i raw)
      else if Type_ raw =s TypeInt64 then
        planOk pool (SetDecimal validated i (Int64Val raw) 0)
      else castText TypeDecimal (fun s => CoerceDecimalFast s scale overflow)
             (fun r i ms => SetDecimal r i (fst ms) (snd ms)) raw validated pool i f
  end.
Definition planFloat64 : fieldCastingPlan := fun rawVal validated pool i f =>
  match rawVal with
  | None => castNull TypeFloat64 validated pool i f
  | Some raw =>
      if IsNull raw then castNull TypeFloat64 validated pool i f
      else if Type_ raw =s TypeFloat64 then planOk pool (setValue validated i raw)
      else if Type_ raw =s TypeInt64 then
        planOk pool (SetFloat64 validated i (of_int (Int64Val raw)))
      else castText TypeFloat64 CoerceFloat64Fast SetFloat64 raw validated pool i f
  end.
Definition planBool : fieldCastingPlan := fun rawVal validated pool i f =>
  match rawVal with
  | None => castNull TypeBool validated pool i f
  | Some raw =>
      if IsNull raw then castNull TypeBool validated pool i f
      else if Type_ raw =s TypeBool then planOk pool (setValue validated i raw)
      else castText TypeBool CoerceBoolFast SetBool raw validated pool i f
  end.
Definition planTimestamp : fieldCastingPlan := fun rawVal validated pool i f =>
  match rawVal with
  | None => castNull TypeTimestamp validated pool i f
  | Some raw =>
      if IsNull raw then castNull TypeTimestamp validated pool i f
      else if Type_ raw =s TypeTimestamp then planOk pool (setValue validated i raw)
      else castText TypeTimestamp CoerceTimestampFast SetTimestamp raw validated pool i f
  end.
Definition planBytes : fieldCastingPlan := fun rawVal validated pool i f =>
  match rawVal with
  | None => castNull TypeBytes validated pool i f
  | Some raw =>
      if IsNull raw then castNull TypeBytes validated pool i f
      else planOk pool (SetBytes validated i (bytes (FieldValue_String raw)))
  end.
(** Strings and every other type. *)
Definition planString : fieldCastingPlan := fun rawVal validated pool i f =>
  match rawVal with
  | None => castNull TypeString validated pool i f
  | Some raw =>
      if IsNull raw then castNull TypeString validated pool i f
      else
        let '(r, pool) := SetString pool validated i (FieldValue_String raw) in planOk pool r
  end.

Definition compileFieldPlan (field : Field) : fieldCastingPlan :=
  if FType field =s TypeInt64 then planInt64
  else if FType field =s TypeDecimal then planDecimal (FScale field) (OnOverflow field)
  else if FType field =s TypeFloat64 then planFloat64
  else if FType field =s TypeBool then planBool
  else if FType field =s TypeTimestamp then planTimestamp
  else if FType field =s TypeBytes then planBytes
  else planString.

(** ** The element function *)
Record CastAndValidateFn := mkCast {
  cv_Schema : Schema;
  cv_Rules : list QualityRule;
  cv_Sensitive : list string;
  cv_plan : option (list fieldCastingPlan)
}.
Definition NewCastFn (schema : Schema) (rules : list QualityRule) (sensitive : list string) :=
  mkCast schema rules sensitive None.
Definition Setup (fn : CastAndValidateFn) : CastAndValidateFn :=
  let s := Index (cv_Schema fn) in
  mkCast s (cv_Rules fn) (cv_Sensitive fn) (Some (map compileFieldPlan (Fields s))).

(** What one element emits, the metric counters it bumps, and the string pool. *)
Record Outcome := mkOutcome {
  o_valid : list GenericRecord;
  o_dlq : list DeadLetterRecord;
  o_audit : list AuditRecord;
  c_valid : Z; c_dlq : Z; c_audit : Z;
  o_pool : Pool
}.

(** [time.Now().UTC()] read while the element is processed. *)
Variable now : Z.

(** [fmt.Sprintf("%v", vals)] of a string slice. *)
Definition sprintStrings (vals : list string) : string :=
  "[" +:+ String.concat " " vals +:+ "]".
Fixpoint payloadVals (fs : list Field) (sensitive : list string) (vs : list FieldValue) : list string :=
  match vs with
  | [] => []
  | v :: vs' =>
      match fs with
      | f :: fs' =>
          (if IsSensitiveKey (Name f) sensitive then redacted else FieldValue_String v)
          :: payloadVals fs' sensitive vs'
      | [] => FieldValue_String v :: payloadVals [] sensitive vs'
      end
  end.

(** The [fail] callback: one dead letter and one audit event. *)
Definition failOutcome (fs : list Field) (sensitive : list string) (rec : GenericRecord)
    (pool : Pool) (col msg sample : string) : Outcome :=
  let rawPayload := SanitizePayload (sprintStrings (payloadVals fs sensitive (Values rec))) sensitive in
  let sanitizedSample := if IsSensitiveKey col sensitive then redacted else sample in
  mkOutcome []
    [mkDeadLetterRecord rawPayload msg col (default "" (AuditFields rec !! "_source_file")) now]
    [NewAuditRecord now "type_cast_failure" SeverityError col "type_cast" msg sanitizedSample]
    0 1 1 pool.

(** The loop over the plans. *)
Fixpoint runPlans (plans : list fieldCastingPlan) (i : Z) (fs : list Field) (rec : GenericRecord)
    (validated : GenericRecord) (pool : Pool) : result (planOut * Pool) :=
  match fs with
  | [] => Ok (PlanOk validated pool, pool)
  | f :: fs' =>
      match plans with
      | [] => Panic "index out of range"
      | plan :: plans' =>
          let raw := if i <? zlen (Values rec) then Values rec !! Z.to_nat i else None in
          out ← plan raw validated pool i f;
          match out with
          | PlanFail col msg sample => Ok (PlanFail col msg sample, pool)
          | PlanOk validated pool => runPlans plans' (i + 1) fs' rec validated pool
          end
      end
  end.

(** Soft quality rules: a warning per null column that a [not_null] rule names. *)
Definition ruleWarnings (fs : list Field) (validated : GenericRecord) (rule : QualityRule)
    : list AuditRecord :=
  if (rule_Type rule =s "not_null") && negb (rule_Column rule =s "") then
    omap (fun '(i, field) =>
        if (Name field =s rule_Column rule)
           && match Values validated !! i with Some v => IsNull v | None => false end
        then Some (NewAuditRecord now "quality_warning" SeverityWarning (Name field) (rule_Type rule)
                     ("soft quality warning: column " +:+ Quote (Name field) +:+ " is null") "")
        else None)
      (imap (fun i f => (i, f)) fs)
  else [].

(** Plans, then soft rules, then the emission. *)
Definition castElement (fs : list Field) (rules : list QualityRule) (sensitive : list string)
    (plans : list fieldCastingPlan) (rec : GenericRecord) (pool : Pool) : result Outcome :=
  let validated := NewGenericRecord (SchemaID rec) (length fs) in
  let validated := mkGenericRecord (SchemaID validated) (Values validated) (AuditFields rec) in
  '(out, pool) ← runPlans plans 0 fs rec validated pool;
  match out with
  | PlanFail col msg sample => Ok (failOutcome fs sensitive rec pool col msg sample)
  | PlanOk validated pool =>
      let warnings := concat (map (ruleWarnings fs validated) rules) in
      Ok (mkOutcome [validated] [] warnings 1 0 (zlen warnings) pool)
  end.

Definition lifecycleOutcome (msg auditMsg : string) (pool : Pool) : Outcome :=
  mkOutcome [] [mkDeadLetterRecord "" msg "_setup" "" now]
    [NewAuditRecord now "lifecycle_violation" SeverityError "_setup" "beam_lifecycle" auditMsg ""]
    0 0 0 pool.

(** A nil record panics when it is dereferenced. *)
Definition Cast_ProcessElement (fn : CastAndValidateFn) (rec : option GenericRecord) (pool : Pool)
    : result Outcome :=
  match cv_plan fn with
  | None => Ok (lifecycleOutcome
      "CastAndValidateFn: plan not compiled — Setup() must be called before ProcessElement()"
      "CastAndValidateFn.ProcessElement called without prior Setup — check beam.RegisterDoFn and beam.RegisterInit"
      pool)
  | Some plans =>
      match rec with
      | None => Panic "nil pointer dereference"
      | Some rec => castElement (Fields (cv_Schema fn)) (cv_Rules fn) (cv_Sensitive fn) plans rec pool
      end
  end.

(** ** The audit enricher and the fused element function *)
Definition enrichAudit (m : gmap string string) : gmap string string :=
  match m !! "_ingested_at" with
  | Some _ => m
  | None => <["_ingested_at" := formatRFC3339 now]> m
  end.
Definition AuditEnricher_ProcessElement (rec : option GenericRecord) : list GenericRecord :=
  match rec with
  | None => []
  | Some rec => [mkGenericRecord (SchemaID rec) (Values rec) (enrichAudit (AuditFields rec))]
  end.

Record FusedEnrichAndValidateFn := mkFused {
  fu_Schema : Schema;
  fu_Rules : list QualityRule;
  fu_Sensitive : list string;
  fu_JobID : string;
  fu_ExecutionID : string;
  fu_plan : option (list fieldCastingPlan)
}.
Definition Fused_Setup (fn : FusedEnrichAndValidateFn) : FusedEnrichAndValidateFn :=
  let s := Index (fu_Schema fn) in
  let cv := Setup (mkCast s (fu_Rules fn) (fu_Sensitive fn) None) in
  mkFused s (fu_Rules fn) (fu_Sensitive fn) (fu_JobID fn) (fu_ExecutionID fn) (cv_plan cv).

(** The element function has its own copies of the loops above; these are theirs. *)
Definition fusedAudit (fn : FusedEnrichAndValidateFn) (m : gmap string string) : gmap string string :=
  let af := m in
  let af := if bool_decide (is_Some (af !! "_ingested_at")) then af
            else <["_ingested_at" := formatRFC3339 now]> af in
  let af := if negb (fu_JobID fn =s "") then <["_job_id" := fu_JobID fn]> af else af in
  if negb (fu_ExecutionID fn =s "") then <["_execution_id" := fu_ExecutionID fn]> af else af.
Definition fusedVals (fn : FusedEnrichAndValidateFn) (vs : list FieldValue) : list string :=
  imap (fun idx v =>
          match Fields (fu_Schema fn) !! idx with
          | Some f => if IsSensitiveKey (Name f) (fu_Sensitive fn) then redacted else FieldValue_String v
          | None => FieldValue_String v
          end) vs.
Definition fusedFail (fn : FusedEnrichAndValidateFn) (enriched : GenericRecord) (pool : Pool)
    (col msg sample : string) : Outcome :=
  let rawPayload := SanitizePayload (sprintStrings (fusedVals fn (Values enriched))) (fu_Sensitive fn) in
  let sanitizedSample := if IsSensitiveKey col (fu_Sensitive fn) then redacted else sample in
  mkOutcome []
    [mkDeadLetterRecord rawPayload msg col (default "" (AuditFields enriched !! "_source_file")) now]
    [NewAuditRecord now "type_cast_failure" SeverityError col "type_cast" msg sanitizedSample]
    0 1 1 pool.
(** [fn.plan[i](raw, validated, i, f, fail)] for the fields from [i] on. *)
Fixpoint fusedPlans (fn : FusedEnrichAndValidateFn) (plan : list fieldCastingPlan) (enriched : GenericRecord)
    (i : nat) (fs : list Field) (validated : GenericRecord) (pool : Pool)
    : result (Outcome + GenericRecord * Pool) :=
  match fs with
  | [] => Ok (inr (validated, pool))
  | f :: fs' =>
      let raw := if (i <? length (Values enriched))%nat then Values enriched !! i else None in
      match plan !! i with
      | None => Panic "index out of range"
      | Some cast =>
          out ← cast raw validated pool (Z.of_nat i) f;
          match out with
          | PlanFail col msg sample => Ok (inl (fusedFail fn enriched pool col msg sample))
          | PlanOk validated pool => fusedPlans fn plan enriched (S i) fs' validated pool
          end
      end
  end.
Fixpoint fusedRule (rule : QualityRule) (validated : GenericRecord) (i : nat) (fs : list Field)
    (events : list AuditRecord) : list AuditRecord :=
  match fs with
  | [] => events
  | field :: fs' =>
      let null := match Values validated !! i with Some v => IsNull v | None => false end in
      fusedRule rule validated (S i) fs'
        (if (Name field =s rule_Column rule) && (i <? length (Values validated))%nat && null
         then events ++ [NewAuditRecord now "quality_warning" SeverityWarning (Name field) (rule_Type rule)
                           ("soft quality warning: column " +:+ Quote (Name field) +:+ " is null") ""]
         else events)
  end.
Definition fusedRules (rules : list QualityRule) (validated : GenericRecord) (fs : list Field) : list AuditRecord :=
  fold_left (fun events rule =>
               if (rule_Type rule =s "not_null") && negb (rule_Column rule =s "")
               then fusedRule rule validated 0 fs events else events) rules [].
Definition Fused_ProcessElement (fn : FusedEnrichAndValidateFn) (rec : option GenericRecord) (pool : Pool)
    : result Outcome :=
  match rec with
  | None => Ok (mkOutcome [] [] [] 0 0 0 pool)
  | Some rec =>
      match fu_plan fn with
      | None => Ok (lifecycleOutcome
          "FusedEnrichAndValidateFn: plan not compiled — Setup() must be called before ProcessElement()"
          "FusedEnrichAndValidateFn.ProcessElement called without prior Setup" pool)
      | Some plan =>
          let enriched := mkGenericRecord (SchemaID rec) (Values rec) (fusedAudit fn (AuditFields rec)) in
          let fs := Fields (fu_Schema fn) in
          let validated := NewGenericRecord (SchemaID enriched) (length fs) in
          let validated := mkGenericRecord (SchemaID validated) (Values validated) (AuditFields enriched) in
          out ← fusedPlans fn plan enriched 0 fs validated pool;
          match out with
          | inl failed => Ok failed
          | inr (validated, pool) =>
              let events := fusedRules (fu_Rules fn) validated fs in
              Ok (mkOutcome [validated] [] events 1 0 (zlen events) pool)
          end
      end
  end.
End Cast.

(** ** The cell a plan computes *)
Definition castType (t : DataType) : DataType :=
  if (t =s TypeInt64) || (t =s TypeDecimal) || (t =s TypeFloat64) || (t =s TypeBool)
     || (t =s TypeTimestamp) || (t =s TypeBytes) then t else TypeString.

Inductive cellOut := CellOk (v : FieldValue) | CellFail (msg sample : string).

Section CastProofs.
Context `{GoFormatFloat, GoQuote, UnicodeLower, GoTimeParse, FloatCvt, GoRegexp}.

(** What the plan of a column makes of a raw value, alone in a record of one cell. *)
Definition castCell (f : Field) (raw : option FieldValue) : cellOut :=
  match compileFieldPlan f raw (NewGenericRecord "" 1) emptyPool 0 f with
  | Ok (PlanOk r _) => CellOk (default zeroFieldValue (Values r !! 0%nat))
  | Ok (PlanFail _ msg sample) => CellFail msg sample
  | _ => CellFail "" ""
  end.

(** A cell the output of a column may hold. *)
Definition cell_ok (f : Field) (v : FieldValue) : Prop :=
  Type_ v = castType (FType f) /\ (IsNull v = true -> Nullable f = true).

(** The plan of a column acts on its own cell only, and the value it stores does
    not depend on the record, the position or the string pool. *)
Definition plan_acts (f : Field) (plan : fieldCastingPlan) (t : DataType) : Prop :=
  forall raw, exists c,
    match c with
    | CellOk v => Type_ v = t /\ (IsNull v = true -> Nullable f = true)
    | CellFail _ _ => True
    end /\
    forall r pool i, 0 <= i < zlen (Values r) -> PoolOk pool ->
    match c with
    | CellOk v => exists pool', PoolOk pool' /\
        plan raw r pool i f
        = Ok (PlanOk (mkGenericRecord (SchemaID r) (<[Z.to_nat i := v]> (Values r)) (AuditFields r)) pool')
    | CellFail msg sample => plan raw r pool i f = Ok (PlanFail (Name f) msg sample)
    end.

Lemma planOk_set r pool i v : 0 <= i < zlen (Values r) ->
  planOk pool (setValue r i v)
  = Ok (PlanOk (mkGenericRecord (SchemaID r) (<[Z.to_nat i := v]> (Values r)) (AuditFields r)) pool).
Proof. intros Hi. by rewrite setValue_in_range. Qed.

(** The two ways out of a plan. *)
Ltac cell_fail := eexists (CellFail _ _); split; [exact I|intros r pool i Hi Hp; reflexivity].
Ltac cell_set v :=
  exists (CellOk v); split;
  [ split; [first [done | cbn in *; congruence]|first [done | cbn in *; congruence]]
  | intros r pool i Hi Hp; exists pool; split; [exact Hp|]; apply (planOk_set r pool i _ Hi) ].

Lemma castNull_acts f t : exists c,
  match c with CellOk v => Type_ v = t /\ (IsNull v = true -> Nullable f = true) | CellFail _ _ => True end /\
  forall r pool i, 0 <= i < zlen (Values r) -> PoolOk pool ->
  match c with
  | CellOk v => exists pool', PoolOk pool' /\
      castNull t r pool i f
      = Ok (PlanOk (mkGenericRecord (SchemaID r) (<[Z.to_nat i := v]> (Values r)) (AuditFields r)) pool')
  | CellFail msg sample => castNull t r pool i f = Ok (PlanFail (Name f) msg sample)
  end.
Proof.
  unfold castNull. destruct (Nullable f) eqn:En; cbn [negb].
  - cell_set (nullValue t).
  - cell_fail.
Qed.
Lemma castText_acts {A} f t (coerce : string -> result A) set (mk : A -> FieldValue) raw :
  (forall s, noPanic (coerce s)) -> (forall a, Type_ (mk a) = t /\ IsNull (mk a) = false) ->
  (forall r i a, set r i a = setValue r i (mk a)) ->
  exists c,
  match c with CellOk v => Type_ v = t /\ (IsNull v = true -> Nullable f = true) | CellFail _ _ => True end /\
  forall r pool i, 0 <= i < zlen (Values r) -> PoolOk pool ->
  match c with
  | CellOk v => exists pool', PoolOk pool' /\
      castText t coerce set raw r pool i f
      = Ok (PlanOk (mkGenericRecord (SchemaID r) (<[Z.to_nat i := v]> (Values r)) (AuditFields r)) pool')
  | CellFail msg sample => castText t coerce set raw r pool i f = Ok (PlanFail (Name f) msg sample)
  end.
Proof.
  intros Hc Hm Hset. unfold castText. cbv zeta.
  destruct (_ =s ""); [apply castNull_acts|].
  pose proof (Hc (FieldValue_String raw)) as Hn.
  destruct (coerce (FieldValue_String raw)) as [a|e|m]; [|cell_fail|by destruct (Hn m)].
  destruct (Hm a) as [Ht Hnull]. exists (CellOk (mk a)). split; [split; [done|congruence]|].
  intros r pool i Hi Hp. exists pool. split; [done|]. rewrite Hset. by apply planOk_set.
Qed.

Lemma plan_scalar_acts f : plan_acts f (compileFieldPlan f) (castType (FType f)).
Proof.
  unfold compileFieldPlan, castType. intros raw.
  destruct (FType f =s TypeInt64) eqn:E1; [apply String.eqb_eq in E1; rewrite E1|]; cbn [orb].
  { unfold planInt64. destruct raw as [raw|]; [|apply castNull_acts].
    destruct (IsNull raw) eqn:En; [apply castNull_acts|].
    destruct (Type_ raw =s TypeInt64) eqn:Et.
    { apply String.eqb_eq in Et. cell_set raw. }
    destruct (Type_ raw =s TypeFloat64); [cell_set (int64Value (int64_trunc (Float64Val raw)))|].
    apply (castText_acts _ _ _ _ int64Value); auto using CoerceInt64_noPanic. }
  destruct (FType f =s TypeDecimal) eqn:E2; [apply String.eqb_eq in E2; rewrite E2|]; cbn [orb].
  { unfold planDecimal. destruct raw as [raw|]; [|apply castNull_acts].
    destruct (IsNull raw) eqn:En; [apply castNull_acts|].
    destruct (Type_ raw =s TypeDecimal) eqn:Et; cbn [andb].
    - apply String.eqb_eq in Et.
      destruct (Scale raw =? FScale f); [cell_set raw|].
      rewrite Et. cbn [String.eqb].
      apply (castText_acts _ _ _ _ (fun ms => decimalValue (fst ms) (snd ms))); auto using CoerceDecimal_noPanic.
    - destruct (Type_ raw =s TypeInt64); [cell_set (decimalValue (Int64Val raw) 0)|].
      apply (castText_acts _ _ _ _ (fun ms => decimalValue (fst ms) (snd ms))); auto using CoerceDecimal_noPanic. }
  destruct (FType f =s TypeFloat64) eqn:E3; [apply String.eqb_eq in E3; rewrite E3|]; cbn [orb].
  { unfold planFloat64. destruct raw as [raw|]; [|apply castNull_acts].
    destruct (IsNull raw) eqn:En; [apply castNull_acts|].
    destruct (Type_ raw =s TypeFloat64) eqn:Et.
    { apply String.eqb_eq in Et. cell_set raw. }
    destruct (Type_ raw =s TypeInt64); [cell_set (float64Value (of_int (Int64Val raw)))|].
    apply (castText_acts _ _ _ _ float64Value); auto using CoerceFloat64_noPanic. }
  destruct (FType f =s TypeBool) eqn:E4; [apply String.eqb_eq in E4; rewrite E4|]; cbn [orb].
  { unfold planBool. destruct raw as [raw|]; [|apply castNull_acts].
    destruct (IsNull raw) eqn:En; [apply castNull_acts|].
    destruct (Type_ raw =s TypeBool) eqn:Et.
    { apply String.eqb_eq in Et. cell_set raw. }
    apply (castText_acts _ _ _ _ boolValue); auto using CoerceBool_noPanic. }
  destruct (FType f =s TypeTimestamp) eqn:E5; [apply String.eqb_eq in E5; rewrite E5|]; cbn [orb].
  { unfold planTimestamp. destruct raw as [raw|]; [|apply castNull_acts].
    destruct (IsNull raw) eqn:En; [apply castNull_acts|].
    destruct (Type_ raw =s TypeTimestamp) eqn:Et.
    { apply String.eqb_eq in Et. cell_set raw. }
    apply (castText_acts _ _ _ _ timestampValue); auto using CoerceTimestamp_noPanic. }
  destruct (FType f =s TypeBytes) eqn:E6; [apply String.eqb_eq in E6; rewrite E6|]; cbn [orb].
  { unfold planBytes. destruct raw as [raw|]; [|apply castNull_acts].
    destruct (IsNull raw) eqn:En; [apply castNull_acts|].
    cell_set (bytesValue (bytes (FieldValue_String raw))). }
  unfold planString. destruct raw as [raw|]; [|apply castNull_acts].
  destruct (IsNull raw) eqn:En; [apply castNull_acts|].
  exists (CellOk (stringValue (FieldValue_String raw))). split; [done|].
  intros r pool i Hi Hp. unfold SetString.
  destruct (intern_String_ok pool (FieldValue_String raw) Hp) as (p' & -> & Hp').
  exists p'. split; [done|]. by apply planOk_set.
Qed.

Lemma castCell_spec f raw r pool i : 0 <= i < zlen (Values r) -> PoolOk pool ->
  match castCell f raw with
  | CellOk v => cell_ok f v /\ exists pool', PoolOk pool' /\
      compileFieldPlan f raw r pool i f
      = Ok (PlanOk (mkGenericRecord (SchemaID r) (<[Z.to_nat i := v]> (Values r)) (AuditFields r)) pool')
  | CellFail msg sample => compileFieldPlan f raw r pool i f = Ok (PlanFail (Name f) msg sample)
  end.
Proof.
  intros Hi Hp. destruct (plan_scalar_acts f raw) as (c & Hc & Hrun).
  assert (castCell f raw = c) as ->.
  { unfold castCell. specialize (Hrun (NewGenericRecord "" 1) emptyPool 0 ltac:(vm_compute; split; congruence)
      emptyPool_ok).
    destruct c; [destruct Hrun as (p' & _ & ->)|rewrite Hrun]; done. }
  specialize (Hrun r pool i Hi Hp). destruct c; [by split|done].
Qed.

(** The cells of a record cast one by one, up to the first that fails. *)
Definition rawAt (rec : GenericRecord) (i : Z) : option FieldValue :=
  if i <? zlen (Values rec) then Values rec !! Z.to_nat i else None.
Fixpoint castCells (rec : GenericRecord) (i : Z) (fs : list Field)
    : (Field * string * string) + list FieldValue :=
  match fs with
  | [] => inr []
  | f :: fs' =>
      match castCell f (rawAt rec i) with
      | CellFail msg sample => inl (f, msg, sample)
      | CellOk v =>
          match castCells rec (i + 1) fs' with inl e => inl e | inr vs => inr (v :: vs) end
      end
  end.

Lemma runPlans_spec fs rec i sid audit pre post pool :
  Z.of_nat (length pre) = i -> length post = length fs -> PoolOk pool ->
  exists pool', PoolOk pool' /\
  runPlans (map compileFieldPlan fs) i fs rec (mkGenericRecord sid (pre ++ post) audit) pool
  = match castCells rec i fs with
    | inl (f, msg, sample) => Ok (PlanFail (Name f) msg sample, pool')
    | inr vs => Ok (PlanOk (mkGenericRecord sid (pre ++ vs) audit) pool', pool')
    end.
Proof.
  revert i pre post pool. induction fs as [|f fs IH]; intros i pre post pool Hi Hpost Hp;
    cbn [map runPlans castCells].
  { destruct post; [|done]. by exists pool. }
  destruct post as [|x post]; [done|]. fold (rawAt rec i).
  set (r := mkGenericRecord sid (pre ++ x :: post) audit).
  assert (0 <= i < zlen (Values r)) as Hr
    by (unfold r, zlen; cbn [Values]; rewrite length_app; simpl; lia).
  pose proof (castCell_spec f (rawAt rec i) r pool i Hr Hp) as Hc.
  destruct (castCell f (rawAt rec i)) as [v|msg sample].
  - destruct Hc as (_ & p1 & Hp1 & ->). cbn [mbind result_bind].
    replace (<[Z.to_nat i := v]> (Values r)) with ((pre ++ [v]) ++ post).
    2:{ unfold r. cbn [Values]. replace (Z.to_nat i) with (length pre + 0)%nat by lia.
        rewrite insert_app_r. cbn. by rewrite <- app_assoc. }
    cbn [SchemaID AuditFields r].
    destruct (IH (i + 1) (pre ++ [v]) post p1) as (p2 & Hp2 & ->);
      [rewrite length_app; simpl; lia|simpl in Hpost; lia|done|].
    exists p2. split; [done|]. destruct (castCells rec (i + 1) fs) as [[[? ?] ?]|vs]; [done|].
    by rewrite <- app_assoc.
  - rewrite Hc. by exists pool.
Qed.

Lemma castCells_ok rec fs i vs : castCells rec i fs = inr vs ->
  length vs = length fs /\
  forall k f, fs !! k = Some f -> exists v, vs !! k = Some v /\ castCell f (rawAt rec (i + Z.of_nat k)) = CellOk v.
Proof.
  revert i vs. induction fs as [|f fs IH]; intros i vs; cbn [castCells].
  { by intros [= <-]. }
  destruct (castCell f (rawAt rec i)) as [v|] eqn:Ec; [|done].
  destruct (castCells rec (i + 1) fs) as [|ws] eqn:E; [done|]. intros [= <-].
  destruct (IH _ _ E) as [Hl Hk]. split; [simpl; lia|]. intros [|k] g; cbn [lookup list_lookup].
  - intros [= <-]. exists v. split; [done|]. rewrite Z.add_0_r. done.
  - intros Hg. destruct (Hk k g Hg) as (w & Hw & Hc). exists w. split; [done|].
    replace (i + Z.of_nat (S k)) with (i + 1 + Z.of_nat k) by lia. done.
Qed.
Lemma castCells_fail rec fs i f msg sample : castCells rec i fs = inl (f, msg, sample) ->
  exists k, fs !! k = Some f /\ castCell f (rawAt rec (i + Z.of_nat k)) = CellFail msg sample.
Proof.
  revert i. induction fs as [|g fs IH]; intros i; cbn [castCells]; [done|].
  destruct (castCell g (rawAt rec i)) as [v|m s] eqn:Ec.
  - destruct (castCells rec (i + 1) fs) as [e|] eqn:E; [|done]. intros [= ->].
    destruct (IH _ E) as (k & Hk & Hc). exists (S k). split; [done|].
    replace (i + Z.of_nat (S k)) with (i + 1 + Z.of_nat k) by lia. done.
  - intros [= -> -> ->]. exists 0%nat. split; [done|]. by rewrite Z.add_0_r.
Qed.

Lemma ruleWarnings_severity now fs v rules : Forall (fun a => Severity a = SeverityWarning)
  (concat (map (ruleWarnings now fs v) rules)).
Proof.
  apply List.Forall_forall. intros a Ha. apply in_concat in Ha as (l & Hl & Ha).
  apply in_map_iff in Hl as (rule & <- & _). unfold ruleWarnings in Ha.
  destruct (_ && _); [|done]. apply list_elem_of_In, list_elem_of_omap in Ha as ([i f] & _ & Hf).
  destruct (_ && _); [|done]. by injection Hf as <-.
Qed.

Lemma castElement_spec now fs rules sensitive rec pool : PoolOk pool ->
  exists pool', PoolOk pool' /\
  castElement now fs rules sensitive (map compileFieldPlan fs) rec pool
  = match castCells rec 0 fs with
    | inl (f, msg, sample) => Ok (failOutcome now fs sensitive rec pool' (Name f) msg sample)
    | inr vs =>
        let v := mkGenericRecord (SchemaID rec) vs (AuditFields rec) in
        let warnings := concat (map (ruleWarnings now fs v) rules) in
        Ok (mkOutcome [v] [] warnings 1 0 (zlen warnings) pool')
    end.
Proof.
  intros Hp. unfold castElement, NewGenericRecord. cbn [SchemaID Values].
  destruct (runPlans_spec fs rec 0 (SchemaID rec) (AuditFields rec) []
    (replicate (length fs) zeroFieldValue) pool) as (p' & Hp' & E); [done|apply length_replicate|done|].
  cbn [app] in E. exists p'. split; [done|]. rewrite E.
  destruct (castCells rec 0 fs) as [[[f msg] sample]|vs]; done.
Qed.

(** The cells the plans produce, exactly: null cells are all alike, decimals
    have the column's scale, strings and bytes carry nothing but their text. *)
Definition canonical (f : Field) (v : FieldValue) : Prop :=
  let t := castType (FType f) in
  (IsNull v = true /\ Nullable f = true /\ v = nullValue t)
  \/ (IsNull v = false /\ Type_ v = t
      /\ (t = TypeDecimal -> Scale v = FScale f)
      /\ (t = TypeBytes -> v = bytesValue (bytes (StrVal v)))
      /\ (t = TypeString -> v = stringValue (StrVal v))).

Lemma castType_cases f : 
  (FType f = TypeInt64 /\ compileFieldPlan f = planInt64)
  \/ (FType f = TypeDecimal /\ compileFieldPlan f = planDecimal (FScale f) (OnOverflow f))
  \/ (FType f = TypeFloat64 /\ compileFieldPlan f = planFloat64)
  \/ (FType f = TypeBool /\ compileFieldPlan f = planBool)
  \/ (FType f = TypeTimestamp /\ compileFieldPlan f = planTimestamp)
  \/ (FType f = TypeBytes /\ compileFieldPlan f = planBytes)
  \/ (castType (FType f) = TypeString /\ compileFieldPlan f = planString).
Proof.
  unfold compileFieldPlan, castType.
  repeat match goal with |- context [FType f =s ?t] =>
    destruct (String.eqb_spec (FType f) t) as [E|?]; [rewrite E; cbn; tauto|] end.
  cbn [orb]. tauto.
Qed.

Definition one : GenericRecord := NewGenericRecord "" 1.
Lemma planOk_one v : planOk emptyPool (setValue one 0 v)
  = Ok (PlanOk (mkGenericRecord "" [v] ∅) emptyPool).
Proof. reflexivity. Qed.
Lemma castNull_one t f : castNull t one emptyPool 0 f =
  if Nullable f then Ok (PlanOk (mkGenericRecord "" [nullValue t] ∅) emptyPool) else failNull f.
Proof. unfold castNull. by destruct (Nullable f). Qed.

Lemma canonical_castCell f v : canonical f v -> castCell f (Some v) = CellOk v.
Proof.
  unfold castCell. change (NewGenericRecord "" 1) with one. unfold canonical. intros Hc.
  destruct (castType_cases f) as [[E ->]|[[E ->]|[[E ->]|[[E ->]|[[E ->]|[[E ->]|[E ->]]]]]]];
    rewrite E in Hc; cbn [castType] in Hc.
  all: destruct Hc as [(Hn & Hnull & Hv)|(Hn & Ht & Hd & Hb & Hs)];
    unfold planInt64, planDecimal, planFloat64, planBool, planTimestamp, planBytes, planString; rewrite Hn.
  all: try (rewrite castNull_one, Hnull, Hv; reflexivity).
  all: try (rewrite Ht; reflexivity).
  - rewrite Ht, (Hd eq_refl), Z.eqb_refl. reflexivity.
  - rewrite (Hb eq_refl).
    change (FieldValue_String (bytesValue (bytes (StrVal v)))) with (str (bytes (StrVal v))).
    rewrite bytes_str. reflexivity.
  - rewrite (Hs eq_refl). unfold SetString.
    destruct (intern_String_ok emptyPool (FieldValue_String (stringValue (StrVal v))) emptyPool_ok) as (p & -> & _).
    reflexivity.
Qed.

Lemma castText_one {A} t (coerce : string -> result A) set (mk : A -> FieldValue) raw f v :
  (forall r i a, set r i a = setValue r i (mk a)) ->
  match castText t coerce set raw one emptyPool 0 f with
  | Ok (PlanOk r _) => CellOk (default zeroFieldValue (Values r !! 0%nat))
  | Ok (PlanFail _ msg sample) => CellFail msg sample
  | _ => CellFail "" ""
  end = CellOk v ->
  (Nullable f = true /\ v = nullValue t) \/ (exists a s, coerce s = Ok a /\ v = mk a).
Proof.
  intros Hset. unfold castText. cbv zeta. destruct (_ =s "").
  - rewrite castNull_one. destruct (Nullable f); [|done]. intros [= <-]. by left.
  - destruct (coerce (FieldValue_String raw)) as [a|e|m] eqn:E; [|done|done].
    rewrite Hset, planOk_one. intros [= <-]. right. by exists a, (FieldValue_String raw).
Qed.
Lemma castNull_cell t f v :
  match castNull t one emptyPool 0 f with
  | Ok (PlanOk r _) => CellOk (default zeroFieldValue (Values r !! 0%nat))
  | Ok (PlanFail _ msg sample) => CellFail msg sample
  | _ => CellFail "" ""
  end = CellOk v -> Nullable f = true /\ v = nullValue t.
Proof. rewrite castNull_one. destruct (Nullable f); [|done]. by intros [= <-]. Qed.

Lemma castCell_canonical f raw v :
  castCell f raw = CellOk v ->
  (FType f = TypeDecimal -> FScale f <> 0 -> forall w, raw = Some w -> Type_ w <> TypeInt64) ->
  canonical f v.
Proof.
  unfold castCell. change (NewGenericRecord "" 1) with one. unfold canonical.
  assert (forall t, Nullable f = true /\ v = nullValue t -> IsNull v = true /\ Nullable f = true /\ v = nullValue t) as HN
    by (intros t [? ->]; done).
  destruct (castType_cases f) as [[E ->]|[[E ->]|[[E ->]|[[E ->]|[[E ->]|[[E ->]|[E ->]]]]]]];
    rewrite E; cbn [castType]; intros Hc Hdec.
  all: destruct raw as [raw|];
    [|unfold planInt64, planDecimal, planFloat64, planBool, planTimestamp, planBytes, planString in Hc;
      apply castNull_cell in Hc; left; by apply HN].
  all: unfold planInt64, planDecimal, planFloat64, planBool, planTimestamp, planBytes, planString in Hc.
  all: destruct (IsNull raw) eqn:En; [apply castNull_cell in Hc; left; by apply HN|].
  all: try match type of Hc with context [Type_ ?r =s ?t] =>
    destruct (String.eqb_spec (Type_ r) t) as [Et|Et]; cbn [andb] in Hc end.
  all: try (rewrite planOk_one in Hc; injection Hc as <-; right; done).
  - destruct (String.eqb_spec (Type_ raw) TypeFloat64).
    { unfold SetInt64 in Hc. rewrite planOk_one in Hc. injection Hc as <-. by right. }
    apply (castText_one _ _ _ int64Value) in Hc; [|done].
    destruct Hc as [Hc|(a & s & _ & ->)]; [left; by apply HN|by right].
  - destruct (Z.eqb_spec (Scale raw) (FScale f)) as [Es|Es].
    { rewrite planOk_one in Hc. injection Hc as <-. by right. }
    rewrite Et in Hc. cbn [String.eqb] in Hc.
    apply (castText_one _ _ _ (fun ms => decimalValue (fst ms) (snd ms))) in Hc; [|done].
    destruct Hc as [Hc|(a & s & Ha & ->)]; [left; by apply HN|]. right.
    apply CoerceDecimal_scale in Ha. repeat split; done.
  - destruct (String.eqb_spec (Type_ raw) TypeInt64) as [Ei|Ei].
    { unfold SetDecimal in Hc. rewrite planOk_one in Hc. injection Hc as <-. right.
      repeat split; try done. intros _. cbn.
      destruct (Z.eq_dec (FScale f) 0) as [->|Hz]; [done|]. by destruct (Hdec eq_refl Hz raw eq_refl). }
    apply (castText_one _ _ _ (fun ms => decimalValue (fst ms) (snd ms))) in Hc; [|done].
    destruct Hc as [Hc|(a & s & Ha & ->)]; [left; by apply HN|]. right.
    apply CoerceDecimal_scale in Ha. repeat split; done.
  - destruct (String.eqb_spec (Type_ raw) TypeInt64).
    { unfold SetFloat64 in Hc. rewrite planOk_one in Hc. injection Hc as <-. by right. }
    apply (castText_one _ _ _ float64Value) in Hc; [|done].
    destruct Hc as [Hc|(a & s & _ & ->)]; [left; by apply HN|by right].
  - apply (castText_one _ _ _ boolValue) in Hc; [|done].
    destruct Hc as [Hc|(a & s & _ & ->)]; [left; by apply HN|by right].
  - apply (castText_one _ _ _ timestampValue) in Hc; [|done].
    destruct Hc as [Hc|(a & s & _ & ->)]; [left; by apply HN|by right].
  - unfold SetBytes in Hc. rewrite planOk_one in Hc. injection Hc as <-. right.
    repeat split; try done. intros _. cbn. unfold bytesValue. by rewrite bytes_str, str_bytes.
  - unfold SetString in Hc.
    destruct (intern_String_ok emptyPool (FieldValue_String raw) emptyPool_ok) as (p & Ep & _).
    rewrite Ep in Hc. change (setValue one 0 (stringValue (FieldValue_String raw)))
      with (Ok (mkGenericRecord "" [stringValue (FieldValue_String raw)] ∅)) in Hc.
    injection Hc as <-. by right.
Qed.

(** A cell cast from a valid cell is the cell. *)
Lemma castCell_idem f raw v :
  castCell f raw = CellOk v ->
  (FType f = TypeDecimal -> FScale f <> 0 -> forall w, raw = Some w -> Type_ w <> TypeInt64) ->
  castCell f (Some v) = CellOk v.
Proof. intros H7 H8. by eapply canonical_castCell, castCell_canonical. Qed.

Lemma castCells_fix rec fs vs i : length vs = length fs ->
  (forall k f w, fs !! k = Some f -> vs !! k = Some w ->
     rawAt rec (i + Z.of_nat k) = Some w /\ castCell f (Some w) = CellOk w) ->
  castCells rec i fs = inr vs.
Proof.
  revert vs i. induction fs as [|f fs IH]; intros [|w vs] i Hl Hk; cbn [castCells]; try done.
  destruct (Hk 0%nat f w eq_refl eq_refl) as [Hr Hc]. rewrite Z.add_0_r in Hr. rewrite Hr, Hc.
  rewrite (IH vs); [done|simpl in Hl; lia|]. intros k g u Hg Hu.
  replace (i + 1 + Z.of_nat k) with (i + Z.of_nat (S k)) by lia. by apply (Hk (S k)).
Qed.
Lemma rawAt_lookup rec k : rawAt rec (Z.of_nat k) = Values rec !! k.
Proof.
  unfold rawAt. rewrite Nat2Z.id. destruct (Z.ltb_spec (Z.of_nat k) (zlen (Values rec))) as [|Hge]; [done|].
  symmetry. apply lookup_ge_None_2. unfold zlen in Hge. lia.
Qed.

Lemma payloadVals_eq fs sensitive vs ws : length vs = length ws ->
  (forall k, vs !! k = ws !! k
     \/ exists f, fs !! k = Some f /\ IsSensitiveKey (Name f) sensitive = true) ->
  payloadVals fs sensitive vs = payloadVals fs sensitive ws.
Proof.
  revert fs ws. induction vs as [|v vs IH]; intros fs [|w ws] Hl Hk; try done.
  assert (payloadVals (tl fs) sensitive vs = payloadVals (tl fs) sensitive ws) as IH'.
  { apply IH; [simpl in Hl; lia|]. intros k. destruct (Hk (S k)) as [Hv|(f & Hf & Hs)]; [by left|].
    right. exists f. by destruct fs. }
  cbn [payloadVals]. destruct (Hk 0%nat) as [[= ->]|(f & Hf & Hs)].
  - destruct fs as [|f fs]; cbn [tl] in IH'; by rewrite IH'.
  - destruct fs as [|g fs]; [done|]. cbn [tl] in IH'. injection Hf as ->. by rewrite Hs, IH'.
Qed.

Lemma Fields_Index s : Fields (Index s) = Fields s.
Proof. unfold Index. by destruct (Fields s) eqn:E. Qed.
Lemma Setup_schema fn : Fields (cv_Schema (Setup fn)) = Fields (cv_Schema fn)
  /\ cv_plan (Setup fn) = Some (map compileFieldPlan (Fields (cv_Schema fn))).
Proof. unfold Setup. cbn. by rewrite Fields_Index. Qed.
End CastProofs.

(** ** Properties *)
Section CastTheorems.
Context `{GoFormatFloat, GoQuote, UnicodeLower, GoTimeParse, FloatCvt, GoRegexp}.

(** C3. A set-up element function never panics on a record and routes it to
    exactly one output: either every column casts, and it emits one valid record
    made of the cells cast one by one, with the record's schema id and audit
    fields, and only warnings; or it emits one dead letter and one error event
    that name the first column that does not cast. *)
Theorem Cast_exactly_one (now : Z) (fn : CastAndValidateFn) (rec : GenericRecord) (pool : Pool) :
  PoolOk pool ->
  let fs := Fields (cv_Schema fn) in
  exists o, Cast_ProcessElement now (Setup fn) (Some rec) pool = Ok o /\ PoolOk (o_pool o) /\
  match castCells rec 0 fs with
  | inr vs =>
      o_valid o = [mkGenericRecord (SchemaID rec) vs (AuditFields rec)] /\ o_dlq o = []
      /\ Forall (fun a => Severity a = SeverityWarning) (o_audit o)
      /\ (c_valid o, c_dlq o, c_audit o) = (1, 0, zlen (o_audit o))
      /\ length vs = length fs
      /\ forall k f, fs !! k = Some f ->
           exists v, vs !! k = Some v /\ castCell f (rawAt rec (Z.of_nat k)) = CellOk v
  | inl (f, msg, sample) =>
      o_valid o = []
      /\ (exists d, o_dlq o = [d] /\ FailedColumn d = Name f /\ ErrorMessage d = msg /\ FailedAt d = now)
      /\ (exists a, o_audit o = [a] /\ ColumnName a = Name f /\ Severity a = SeverityError)
      /\ (c_valid o, c_dlq o, c_audit o) = (0, 1, 1)
      /\ f ∈ fs
  end.
Proof.
  intros Hp fs. unfold Cast_ProcessElement. rewrite (proj2 (Setup_schema fn)), (proj1 (Setup_schema fn)).
  fold fs.
  destruct (castElement_spec now fs (cv_Rules (Setup fn)) (cv_Sensitive (Setup fn)) rec pool Hp)
    as (p' & Hp' & E). rewrite E. clear E.
  destruct (castCells rec 0 fs) as [[[f msg] sample]|vs] eqn:Ec; eexists; (split; [reflexivity|]); (split; [done|]).
  - cbn. split; [done|]. split; [by eexists|]. split; [by eexists|]. split; [done|].
    destruct (castCells_fail _ _ _ _ _ _ Ec) as (k & Hk & _). by eapply list_elem_of_lookup_2.
  - cbn. split; [done|]. split; [done|]. split; [apply ruleWarnings_severity|]. split; [done|].
    apply (castCells_ok _ _ _ _ Ec).
Qed.

(** A record that is emitted as valid is well typed: it has one cell per
    column, each of the column's type (STRING for the date, JSON and unknown
    types), and a null cell only where the column is nullable. *)
Theorem Cast_valid_typed (now : Z) (fn : CastAndValidateFn) (rec v : GenericRecord) (pool : Pool) (o : Outcome) :
  PoolOk pool ->
  Cast_ProcessElement now (Setup fn) (Some rec) pool = Ok o -> v ∈ o_valid o ->
  Forall2 cell_ok (Fields (cv_Schema fn)) (Values v)
  /\ SchemaID v = SchemaID rec /\ AuditFields v = AuditFields rec.
Proof.
  intros Hp. unfold Cast_ProcessElement. rewrite (proj2 (Setup_schema fn)), (proj1 (Setup_schema fn)).
  set (fs := Fields (cv_Schema fn)).
  destruct (castElement_spec now fs (cv_Rules (Setup fn)) (cv_Sensitive (Setup fn)) rec pool Hp)
    as (p' & Hp' & E). rewrite E. clear E.
  destruct (castCells rec 0 fs) as [[[f msg] sample]|vs] eqn:Ec; intros [= <-]; cbn;
    [by intros ?%elem_of_nil|]. intros ->%list_elem_of_singleton. cbn [Values]. split; [|done].
  destruct (castCells_ok _ _ _ _ Ec) as [Hl Hk]. apply Forall2_same_length_lookup_2; [done|].
  intros k f w Hf Hw. destruct (Hk k f Hf) as (w' & Hw' & Hc). assert (w' = w) as -> by congruence.
  pose proof (castCell_spec f (rawAt rec (0 + Z.of_nat k)) (NewGenericRecord "" 1) emptyPool 0
    ltac:(vm_compute; split; congruence) emptyPool_ok) as Hs.
  rewrite Hc in Hs. apply Hs.
Qed.

(** ** The two copies of the element function *)
Lemma fusedVals_payload fn vs : fusedVals fn vs = payloadVals (Fields (fu_Schema fn)) (fu_Sensitive fn) vs.
Proof.
  unfold fusedVals. generalize (Fields (fu_Schema fn)) as fs.
  assert (forall vs, imap (fun idx v => match @nil Field !! idx with
            | Some f => if IsSensitiveKey (Name f) (fu_Sensitive fn) then redacted else FieldValue_String v
            | None => FieldValue_String v end) vs = payloadVals [] (fu_Sensitive fn) vs) as Hnil.
  { clear. induction vs as [|v vs IH]; [done|]. cbn. f_equal. rewrite <- IH. by apply imap_ext. }
  induction vs as [|v vs IH]; intros fs; [done|]. destruct fs as [|f fs]; [apply (Hnil (v :: vs))|].
  cbn [payloadVals imap lookup list_lookup]. f_equal. by rewrite <- IH.
Qed.
Lemma fusedFail_eq now fn e pool col msg sample :
  fusedFail now fn e pool col msg sample
  = failOutcome now (Fields (fu_Schema fn)) (fu_Sensitive fn) e pool col msg sample.
Proof. unfold fusedFail, failOutcome. by rewrite fusedVals_payload. Qed.
Lemma fusedPlans_run now fn plan e fs : forall i v pool,
  fusedPlans now fn plan e i fs v pool
  = match runPlans (drop i plan) (Z.of_nat i) fs e v pool with
    | Ok (PlanFail col msg sample, pool) => Ok (inl (fusedFail now fn e pool col msg sample))
    | Ok (PlanOk v pool, _) => Ok (inr (v, pool))
    | Err er => Err er
    | Panic m => Panic m
    end.
Proof.
  induction fs as [|f fs IH]; intros i v pool; cbn [fusedPlans]; [by destruct (drop i plan)|].
  destruct (plan !! i) as [cast|] eqn:Ep.
  - assert (@drop fieldCastingPlan i plan = cast :: drop (S i) plan) as -> by by apply drop_S.
    cbn [runPlans]. rewrite Nat2Z.id.
    assert ((i <? length (Values e))%nat = (Z.of_nat i <? zlen (Values e))) as ->.
    { unfold zlen. apply Bool.eq_true_iff_eq. rewrite Nat.ltb_lt, Z.ltb_lt. lia. }
    destruct (cast _ v pool (Z.of_nat i) f) as [[v' pool'|col msg sample]|er|m]; cbn; try done.
    rewrite IH. by replace (Z.of_nat (S i)) with (Z.of_nat i + 1) by lia.
  - rewrite drop_ge by by apply lookup_ge_None. done.
Qed.
Lemma fusedRule_warnings now rule v fs : forall i events,
  fusedRule now rule v i fs events
  = events ++ omap (fun '(i, field) =>
        if (Name field =s rule_Column rule)
           && match Values v !! i with Some w => IsNull w | None => false end
        then Some (NewAuditRecord now "quality_warning" SeverityWarning (Name field) (rule_Type rule)
                     ("soft quality warning: column " +:+ Quote (Name field) +:+ " is null") "")
        else None) (imap (fun k f => ((i + k)%nat, f)) fs).
Proof.
  induction fs as [|f fs IH]; intros i events; cbn [fusedRule imap omap list_omap]; [by rewrite app_nil_r|].
  rewrite IH, Nat.add_0_r.
  rewrite (imap_ext (fun k f => ((S i + k)%nat, f)) ((fun k f => ((i + k)%nat, f)) ∘ S)) by (intros; cbn; f_equal; lia).
  assert ((i <? length (Values v))%nat && match Values v !! i with Some w => IsNull w | None => false end
          = match Values v !! i with Some w => IsNull w | None => false end) as E.
  { destruct (Values v !! i) eqn:E; [|apply andb_false_r].
    apply lookup_lt_Some, Nat.ltb_lt in E. by rewrite E. }
  rewrite <- andb_assoc, E. destruct ((Name f =s rule_Column rule) && _); [by rewrite <- app_assoc|done].
Qed.
Lemma fusedRules_warnings now rules v fs :
  fusedRules now rules v fs = concat (map (ruleWarnings now fs v) rules).
Proof.
  unfold fusedRules. rewrite <- (app_nil_l (concat _)). generalize (@nil AuditRecord) as events.
  induction rules as [|rule rules IH]; intros events; cbn [fold_left map concat]; [by rewrite app_nil_r|].
  rewrite IH. unfold ruleWarnings at 2. destruct (_ && _); [|done]. by rewrite fusedRule_warnings, <- app_assoc.
Qed.
(** The fused function with a plan is [castElement] of the enriched record. *)
Lemma Fused_castElement now fn plan rec pool : fu_plan fn = Some plan ->
  Fused_ProcessElement now fn (Some rec) pool
  = castElement now (Fields (fu_Schema fn)) (fu_Rules fn) (fu_Sensitive fn) plan
      (mkGenericRecord (SchemaID rec) (Values rec) (fusedAudit now fn (AuditFields rec))) pool.
Proof.
  intros Hp. unfold Fused_ProcessElement, castElement. rewrite Hp. cbn zeta. rewrite fusedPlans_run, drop_0.
  change (Z.of_nat 0) with 0. destruct (runPlans _ _ _ _ _ _) as [[[v p|col msg sample] p']|er|m]; cbn; try done.
  - by rewrite fusedRules_warnings.
  - by rewrite fusedFail_eq.
Qed.
Lemma fusedAudit_enrich now fn m :
  fusedAudit now fn m
  = (if fu_ExecutionID fn =s "" then id else insert "_execution_id" (fu_ExecutionID fn))
      ((if fu_JobID fn =s "" then id else insert "_job_id" (fu_JobID fn)) (enrichAudit now m)).
Proof.
  unfold fusedAudit, enrichAudit. destruct (m !! "_ingested_at") as [x|] eqn:E;
    [rewrite bool_decide_true by done|rewrite bool_decide_false by (by intros [? ?])];
    destruct (fu_JobID fn =s ""), (fu_ExecutionID fn =s ""); done.
Qed.

(** C35. The fused function, which has its own copies of the enrichment, of the loop
    over the plans, of the failure callback and of the soft rules, is the composition it
    replaces: the audit enricher, the job and execution ids, then casting and
    validation, with the same emissions, counters and string pool; a nil record yields
    nothing in both. *)
Theorem Fused_is_composition (now : Z) (fn : FusedEnrichAndValidateFn) (rec : GenericRecord) (pool : Pool) :
  let cv := Setup (NewCastFn (fu_Schema fn) (fu_Rules fn) (fu_Sensitive fn)) in
  let ids m := (if fu_ExecutionID fn =s "" then id else insert "_execution_id" (fu_ExecutionID fn))
    ((if fu_JobID fn =s "" then id else insert "_job_id" (fu_JobID fn)) m) in
  exists e, AuditEnricher_ProcessElement now (Some rec) = [e]
    /\ Values e = Values rec /\ AuditFields e !! "_ingested_at" <> None
    /\ Fused_ProcessElement now (Fused_Setup fn) (Some rec) pool
       = Cast_ProcessElement now cv (Some (mkGenericRecord (SchemaID e) (Values e) (ids (AuditFields e)))) pool
    /\ Fused_ProcessElement now (Fused_Setup fn) None pool = Ok (mkOutcome [] [] [] 0 0 0 pool)
    /\ AuditEnricher_ProcessElement now None = [].
Proof.
  cbn zeta. eexists. split; [reflexivity|]. cbn [Values AuditFields SchemaID]. split; [done|]. split.
  { unfold enrichAudit. destruct (AuditFields rec !! "_ingested_at") eqn:E; [congruence|].
    by rewrite lookup_insert_eq. }
  split; [|done]. rewrite (Fused_castElement now (Fused_Setup fn) _ rec pool eq_refl), fusedAudit_enrich.
  unfold Cast_ProcessElement, Fused_Setup, Setup, NewCastFn. cbn. by rewrite !Fields_Index.
Qed.

(** Casting is idempotent: a record that was emitted as valid is emitted
    again unchanged, provided no integer was put in a decimal column of
    non-zero scale (those keep scale 0, see [decimal_from_int_scale]). *)
Theorem Cast_idempotent (now : Z) (fn : CastAndValidateFn) (rec v : GenericRecord) (pool : Pool) (o : Outcome) :
  PoolOk pool ->
  Cast_ProcessElement now (Setup fn) (Some rec) pool = Ok o -> v ∈ o_valid o ->
  (forall k f raw, Fields (cv_Schema fn) !! k = Some f -> FType f = TypeDecimal -> FScale f <> 0 ->
     Values rec !! k = Some raw -> Type_ raw <> TypeInt64) ->
  exists o', Cast_ProcessElement now (Setup fn) (Some v) (o_pool o) = Ok o' /\ o_valid o' = [v] /\ o_dlq o' = [].
Proof.
  intros Hp. unfold Cast_ProcessElement. rewrite (proj2 (Setup_schema fn)), (proj1 (Setup_schema fn)).
  set (fs := Fields (cv_Schema fn)).
  destruct (castElement_spec now fs (cv_Rules (Setup fn)) (cv_Sensitive (Setup fn)) rec pool Hp)
    as (p' & Hp' & E). rewrite E. clear E.
  destruct (castCells rec 0 fs) as [[[f msg] sample]|vs] eqn:Ec; intros [= <-];
    cbn [o_valid o_pool failOutcome]; [by intros ?%elem_of_nil|].
    intros ->%list_elem_of_singleton Hdec.
  destruct (castCells_ok _ _ _ _ Ec) as [Hl Hk].
  set (v := mkGenericRecord (SchemaID rec) vs (AuditFields rec)).
  destruct (castElement_spec now fs (cv_Rules (Setup fn)) (cv_Sensitive (Setup fn)) v p' Hp')
    as (p2 & _ & ->).
  rewrite (castCells_fix v fs vs 0 Hl); [by eexists|]. intros k f w Hf Hw. split.
  - rewrite Z.add_0_l, rawAt_lookup. done.
  - destruct (Hk k f Hf) as (w' & Hw' & Hc). assert (w' = w) as -> by congruence.
    eapply castCell_idem; [exact Hc|]. rewrite Z.add_0_l, rawAt_lookup.
    intros Hd Hs u Hu. by apply (Hdec k f u).
Qed.

(** C36. Redaction: the payload of the dead letter of a record does not depend
    on the values of its sensitive columns, and the sample of an error event on
    a sensitive column is the redaction mark. *)
Theorem Cast_redacts (now : Z) (fn : CastAndValidateFn) (rec1 rec2 : GenericRecord) (pool1 pool2 : Pool)
    (o1 o2 : Outcome) :
  let fs := Fields (cv_Schema fn) in
  PoolOk pool1 -> PoolOk pool2 ->
  Cast_ProcessElement now (Setup fn) (Some rec1) pool1 = Ok o1 ->
  Cast_ProcessElement now (Setup fn) (Some rec2) pool2 = Ok o2 ->
  length (Values rec1) = length (Values rec2) ->
  (forall k, Values rec1 !! k = Values rec2 !! k
     \/ exists f, fs !! k = Some f /\ IsSensitiveKey (Name f) (cv_Sensitive fn) = true) ->
  (forall d1 d2, d1 ∈ o_dlq o1 -> d2 ∈ o_dlq o2 -> RawPayload d1 = RawPayload d2)
  /\ (forall a, a ∈ o_audit o1 -> Severity a = SeverityError ->
       IsSensitiveKey (ColumnName a) (cv_Sensitive fn) = true -> SampleValue a = redacted).
Proof.
  cbn zeta. unfold Cast_ProcessElement. rewrite (proj2 (Setup_schema fn)), (proj1 (Setup_schema fn)).
  set (fs := Fields (cv_Schema fn)). change (cv_Sensitive (Setup fn)) with (cv_Sensitive fn).
  intros Hp1 Hp2.
  destruct (castElement_spec now fs (cv_Rules (Setup fn)) (cv_Sensitive fn) rec1 pool1 Hp1) as (q1 & _ & ->).
  destruct (castElement_spec now fs (cv_Rules (Setup fn)) (cv_Sensitive fn) rec2 pool2 Hp2) as (q2 & _ & ->).
  intros E1 E2 Hl Hs.
  assert (payloadVals fs (cv_Sensitive fn) (Values rec1) = payloadVals fs (cv_Sensitive fn) (Values rec2)) as Hpay
    by by apply payloadVals_eq.
  split.
  - destruct (castCells rec1 0 fs) as [[[f1 m1] s1]|vs1]; injection E1 as <-; cbn; [|by intros ? ? ?%elem_of_nil].
    destruct (castCells rec2 0 fs) as [[[f2 m2] s2]|vs2]; injection E2 as <-; cbn; [|by intros ? ? ? ?%elem_of_nil].
    intros d1 d2 ->%list_elem_of_singleton ->%list_elem_of_singleton. cbn [RawPayload]. by rewrite Hpay.
  - intros a. destruct (castCells rec1 0 fs) as [[[f1 m1] s1]|vs1]; injection E1 as <-; cbn [o_audit failOutcome].
    + intros ->%list_elem_of_singleton. cbn. by intros _ ->.
    + intros Ha Hsev. pose proof (ruleWarnings_severity now fs
        (mkGenericRecord (SchemaID rec1) vs1 (AuditFields rec1)) (cv_Rules (Setup fn))) as Hw.
      rewrite Forall_forall in Hw. specialize (Hw a Ha). cbn in Hw.
      rewrite Hw in Hsev. discriminate Hsev.
Qed.
End CastTheorems.

(** ** Witnesses and findings, with simple instances of the standard library *)
Section Samples.
#[local] Instance castFloat : GoFormatFloat := fun _ => "0".
#[local] Instance castQuote : GoQuote := fun s => s.
#[local] Instance castLower : UnicodeLower := fun s => s.
#[local] Instance castTime : GoTimeParse := fun _ s => if s =s "1970-01-01" then Some 0 else None.
#[local] Instance castCvt : FloatCvt := fun _ => - 2 ^ 63.
#[local] Instance castRegexp : GoRegexp :=
  {| ReplaceAllString := fun _ s _ => s; QuoteMeta := fun s => s |}.

Definition castSchema : Schema :=
  schemaOf [mkField "id" TypeInt64 false 0 ""; mkField "day" TypeDate true 0 "";
            mkField "api_token" TypeInt64 true 0 ""; mkField "price" TypeDecimal true 2 "round"].
Definition castFn : CastAndValidateFn :=
  NewCastFn castSchema [mkRule "not_null" "api_token" [] 0] [].
Definition rawRecord (id token : string) : GenericRecord :=
  mkGenericRecord "s" [stringValue id; stringValue "2024-01-02"; stringValue token; stringValue "12.345"] ∅.

Lemma Cast_exactly_one_witness :
  exists o, Cast_ProcessElement 0 (Setup castFn) (Some (rawRecord "7" "")) emptyPool = Ok o
    /\ length (o_valid o) = 1%nat /\ o_dlq o = [] /\ length (o_audit o) = 1%nat.
Proof.
  destruct (Cast_exactly_one 0 castFn (rawRecord "7" "") emptyPool emptyPool_ok) as (o & E & _ & Ho).
  assert (exists vs, castCells (rawRecord "7" "") 0 (Fields (cv_Schema castFn)) = inr vs) as (vs & Ec)
    by (vm_compute; by eexists).
  rewrite Ec in Ho. destruct Ho as (H1 & H2 & _). exists o. split; [exact E|].
  rewrite H1. split; [reflexivity|]. split; [exact H2|].
  vm_compute in E. injection E as <-. reflexivity.
Defined.
Lemma Cast_valid_typed_witness :
  exists o v, Cast_ProcessElement 0 (Setup castFn) (Some (rawRecord "7" "")) emptyPool = Ok o
    /\ v ∈ o_valid o /\ Forall2 cell_ok (Fields castSchema) (Values v).
Proof.
  destruct (Cast_ProcessElement 0 (Setup castFn) (Some (rawRecord "7" "")) emptyPool) as [o|e|m] eqn:E;
    [|vm_compute in E; discriminate E..].
  assert (exists v, o_valid o = [v]) as (v & Hv) by (vm_compute in E; injection E as <-; by eexists).
  assert (v ∈ o_valid o) as Hin by (rewrite Hv; apply list_elem_of_here).
  exists o, v. split; [reflexivity|]. split; [exact Hin|].
  exact (proj1 (Cast_valid_typed 0 castFn _ v emptyPool o emptyPool_ok E Hin)).
Defined.
Lemma Cast_idempotent_witness :
  exists o v o', Cast_ProcessElement 0 (Setup castFn) (Some (rawRecord "7" "")) emptyPool = Ok o
    /\ v ∈ o_valid o /\ Cast_ProcessElement 0 (Setup castFn) (Some v) (o_pool o) = Ok o' /\ o_valid o' = [v].
Proof.
  destruct (Cast_ProcessElement 0 (Setup castFn) (Some (rawRecord "7" "")) emptyPool) as [o|e|m] eqn:E;
    [|vm_compute in E; discriminate E..].
  assert (exists v, o_valid o = [v]) as (v & Hv) by (vm_compute in E; injection E as <-; by eexists).
  assert (v ∈ o_valid o) as Hin by (rewrite Hv; apply list_elem_of_here).
  destruct (Cast_idempotent 0 castFn _ v emptyPool o emptyPool_ok E Hin) as (o' & E' & Ho' & _).
  { intros [|[|[|[|k]]]] f raw; cbn; intros [= <-] Ht Hs [= <-]; cbn; discriminate. }
  exists o, v, o'. split; [reflexivity|]. split; [exact Hin|]. split; [exact E'|exact Ho'].
Defined.
Lemma Cast_redacts_witness :
  exists o1 o2, Cast_ProcessElement 0 (Setup castFn) (Some (rawRecord "x" "s3cret")) emptyPool = Ok o1
    /\ Cast_ProcessElement 0 (Setup castFn) (Some (rawRecord "x" "hunter2")) emptyPool = Ok o2
    /\ map RawPayload (o_dlq o1) = ["[x 2024-01-02 [REDACTED] 12.345]"]
    /\ forall d1 d2, d1 ∈ o_dlq o1 -> d2 ∈ o_dlq o2 -> RawPayload d1 = RawPayload d2.
Proof.
  destruct (Cast_ProcessElement 0 (Setup castFn) (Some (rawRecord "x" "s3cret")) emptyPool) as [o1|e|m] eqn:E1;
    [|vm_compute in E1; discriminate E1..].
  destruct (Cast_ProcessElement 0 (Setup castFn) (Some (rawRecord "x" "hunter2")) emptyPool) as [o2|e|m] eqn:E2;
    [|vm_compute in E2; discriminate E2..].
  exists o1, o2. split; [reflexivity|]. split; [reflexivity|].
  split; [vm_compute in E1; injection E1 as <-; reflexivity|].
  apply (Cast_redacts 0 castFn _ _ _ _ _ _ emptyPool_ok emptyPool_ok E1 E2); [reflexivity|].
  intros [|[|[|[|k]]]]; cbn; try by left. right.
  exists (mkField "api_token" TypeInt64 true 0 ""). split; [reflexivity|vm_compute; reflexivity].
Defined.

(** The error message is not redacted: when a sensitive column fails to cast,
    its value is in the dead letter and in the audit event. *)
Lemma sensitive_value_leaks :
  exists o d a, Cast_ProcessElement 0 (Setup castFn) (Some (rawRecord "7" "s3cret")) emptyPool = Ok o
    /\ o_dlq o = [d] /\ o_audit o = [a] /\ RawPayload d = "[7 2024-01-02 [REDACTED] 12.345]"
    /\ SampleValue a = redacted
    /\ Contains (ErrorMessage d) "s3cret" = true /\ Contains (Message a) "s3cret" = true.
Proof. eexists _, _, _. split; [vm_compute; reflexivity|]. vm_compute. repeat split. Qed.

(** An integer in a decimal column keeps scale 0; casting the result again
    gives the column's scale. *)
Lemma decimal_from_int_scale :
  let f := mkField "price" TypeDecimal true 2 "round" in
  castCell f (Some (int64Value 5)) = CellOk (decimalValue 5 0)
  /\ castCell f (Some (decimalValue 5 0)) = CellOk (decimalValue 500 2).
Proof. split; vm_compute; reflexivity. Qed.

(** A float out of the int64 range is converted without an error: the result is
    whatever the platform's conversion gives. *)
Lemma float_overflow_unchecked :
  castCell (mkField "id" TypeInt64 false 0 "") (Some (float64Value (of_int (2 ^ 70))))
  = CellOk (int64Value (- 2 ^ 63)).
Proof. vm_compute. reflexivity. Qed.
End Samples.
