(* ===== verification/Resilience.v ===== *)
(** * Resilience

    Models [pkg/resilience]: the circuit breaker ([circuit_breaker.go]) as a
    state machine whose steps are the critical sections of [State] and
    [Execute], so that concurrent calls interleave; the adaptive batch sizer
    ([adaptive_batch.go]); validation, jitter and [Retry] ([backoff.go]); and the
    drain manager and the signal trap ([shutdown.go]).

    Instants and durations are nanoseconds ([time.Duration] is an [int64]). *)
From S2P Require Import Prelude GoStr Float64.
From Stdlib Require Import SpecFloat.

(** [t.Sub(u)] and [time.Since(u)] at [t] saturate at the ends of [int64]. *)
Definition timeSub (t u : Z) : Z :=
  if MaxInt64 <? t - u then MaxInt64
  else if t - u <? - 2 ^ 63 then - 2 ^ 63 else t - u.

Definition Second : Z := 1000000000.
Definition Millisecond : Z := 1000000.

(** ** The circuit breaker *)
Inductive State := StateClosed | StateHalfOpen | StateOpen.
#[export] Instance State_eq_dec : EqDecision State.
Proof. solve_decision. Defined.

Definition State_String (s : State) : string :=
  match s with StateClosed => "Closed" | StateHalfOpen => "HalfOpen" | StateOpen => "Open" end.

Definition ErrCircuitOpen : error := Sentinel "circuit breaker is open".

Record Settings := mkSettings {
  Name : string; MaxFailures : Z; Timeout : Z; HalfOpenLimit : Z }.

Record CircuitBreaker := mkBreaker {
  name : string;
  maxFailures : Z;
  halfOpenLimit : Z;
  timeout : Z;
  state : State;
  failures : Z;
  successes : Z;
  lastStateChg : Z
}.

(** [%v] of a [time.Duration] is left to the standard library. *)
Class GoDuration := durationString : Z -> string.

Definition orOne (n : Z) : Z := if n =? 0 then 1 else n.

Definition NewCircuitBreaker `{GoQuote, GoDuration} (now : Z) (st : Settings)
    : result CircuitBreaker :=
  if Timeout st <? 0 then
    Err (Errorf ("circuit breaker " +:+ Quote (Name st)
                 +:+ ": timeout cannot be negative, got " +:+ durationString (Timeout st)) [])
  else
    Ok (mkBreaker (Name st) (orOne (MaxFailures st)) (orOne (HalfOpenLimit st))
          (if Timeout st =? 0 then Second else Timeout st) StateClosed 0 0 now).

Definition withState (cb : CircuitBreaker) (s : State) (f k at_ : Z) : CircuitBreaker :=
  mkBreaker (name cb) (maxFailures cb) (halfOpenLimit cb) (timeout cb) s f k at_.

(** [checkStateTransition] reads the clock once for the test and once for the
    new time stamp; both are [now], the instant of the critical section. *)
Definition checkStateTransition (now : Z) (cb : CircuitBreaker) : CircuitBreaker :=
  if bool_decide (state cb = StateOpen) && (timeout cb <? timeSub now (lastStateChg cb))
  then withState cb StateHalfOpen 0 0 now
  else cb.

(** [cb.State()]. *)
Definition readState (now : Z) (cb : CircuitBreaker) : State * CircuitBreaker :=
  let cb := checkStateTransition now cb in (state cb, cb).

(** The first critical section of [Execute]: whether the call is admitted. *)
Definition Execute_enter (now : Z) (cb : CircuitBreaker) : bool * CircuitBreaker :=
  let cb := checkStateTransition now cb in
  (negb (bool_decide (state cb = StateOpen)), cb).

(** The second one, after [fn] returned [err]. *)
Definition Execute_leave (now : Z) (err : option error) (cb : CircuitBreaker) : CircuitBreaker :=
  match err with
  | Some _ =>
      let f := u32 (failures cb + 1) in
      if bool_decide (state cb = StateHalfOpen) || (maxFailures cb <=? f)
      then withState cb StateOpen f (successes cb) now
      else withState cb (state cb) f (successes cb) (lastStateChg cb)
  | None =>
      if bool_decide (state cb = StateHalfOpen) then
        let k := u32 (successes cb + 1) in
        if halfOpenLimit cb <=? k then withState cb StateClosed 0 0 now
        else withState cb (state cb) (failures cb) k (lastStateChg cb)
      else cb
  end.

(** [Execute] of a caller nobody interferes with: [fn] starts after [t0] and
    returns before [t1]. *)
Definition Execute (t0 t1 : Z) (fn : option error) (cb : CircuitBreaker)
    : option error * CircuitBreaker :=
  let '(admitted, cb) := Execute_enter t0 cb in
  if admitted then (fn, Execute_leave t1 fn cb) else (Some ErrCircuitOpen, cb).

(** Goroutines sharing a breaker interleave at the critical sections. [pending]
    counts the calls of [fn] in flight. *)
Inductive cbEvent :=
  | EvEnter (now : Z)
  | EvLeave (now : Z) (err : option error)
  | EvState (now : Z).
Definition evTime (e : cbEvent) : Z :=
  match e with EvEnter n => n | EvLeave n _ => n | EvState n => n end.

Record cbSystem := mkSys { breaker : CircuitBreaker; pending : nat; clock : Z }.

Inductive cbStep : cbSystem -> cbEvent -> cbSystem -> Prop :=
  | step_enter s now cb' (b : bool) :
      clock s <= now -> Execute_enter now (breaker s) = (b, cb') ->
      cbStep s (EvEnter now) (mkSys cb' (if b then S (pending s) else pending s) now)
  | step_leave s now err p :
      clock s <= now -> pending s = S p ->
      cbStep s (EvLeave now err) (mkSys (Execute_leave now err (breaker s)) p now)
  | step_state s now st cb' :
      clock s <= now -> readState now (breaker s) = (st, cb') ->
      cbStep s (EvState now) (mkSys cb' (pending s) now).

Inductive cbSteps : cbSystem -> list cbEvent -> cbSystem -> Prop :=
  | cb_nil s : cbSteps s [] s
  | cb_cons s e s' es s'' : cbStep s e s' -> cbSteps s' es s'' -> cbSteps s (e :: es) s''.

(** ** The adaptive batch sizer *)
Definition DefaultAdaptiveMinBatchSize : Z := 500.
Definition DefaultAdaptiveMaxBatchFactor : Z := 10.
Definition DefaultAdaptiveFastThreshold : Z := 200 * Millisecond.
Definition DefaultAdaptiveSlowThreshold : Z := 1500 * Millisecond.
Definition DefaultAdaptiveStepSize : Z := 50.
Definition DefaultAdaptiveMaxHeapBytes : Z := 1024 * 1024 * 1024.

Record AdaptiveBatchSizer := mkSizer {
  minSize : Z; maxSize : Z; currentSize : Z; fastThreshold : Z; slowThreshold : Z }.

Definition NewAdaptiveBatchSizer (mn mx : Z) : AdaptiveBatchSizer :=
  let mn := if mn <=? 0 then DefaultAdaptiveMinBatchSize else mn in
  let mx := if mx <? mn then i64 (mn * DefaultAdaptiveMaxBatchFactor) else mx in
  mkSizer mn mx mn DefaultAdaptiveFastThreshold DefaultAdaptiveSlowThreshold.

Definition CurrentBatchSize (s : AdaptiveBatchSizer) : Z := currentSize s.
Definition setSize (s : AdaptiveBatchSizer) (n : Z) : AdaptiveBatchSizer :=
  mkSizer (minSize s) (maxSize s) n (fastThreshold s) (slowThreshold s).

(** [heapInuse] is what [runtime.ReadMemStats] reports. *)
Definition RecordFlush (heapInuse latency : Z) (s : AdaptiveBatchSizer) : AdaptiveBatchSizer :=
  if DefaultAdaptiveMaxHeapBytes <? heapInuse then setSize s (minSize s)
  else if latency <? fastThreshold s then
    setSize s (Z.min (maxSize s)
      (i64 (currentSize s + Z.max (Z.quot (currentSize s) 5) DefaultAdaptiveStepSize)))
  else if slowThreshold s <? latency then
    setSize s (Z.max (minSize s)
      (i64 (currentSize s - Z.max (Z.quot (currentSize s) 3) DefaultAdaptiveStepSize)))
  else s.

(** ** Backoff and retry *)
Record BackoffConfig := mkBackoff { Initial : Z; Max : Z; Multiplier : float64; MaxRetries : Z }.

Definition Backoff_Validate (b : BackoffConfig) : result unit :=
  if (Initial b <? 0) || (Max b <? 0) || flt (Multiplier b) (of_int 0) || (MaxRetries b <? 0)
  then Err (Sentinel "backoff config cannot have negative values")
  else Ok tt.

(** [math.Pow], and [crypto/rand.Int], which returns a number below its
    (positive) bound or an error. *)
Class GoPow := Pow : float64 -> float64 -> float64.
Class CryptoRand := randInt : Z -> option Z.

(** [FullJitter]: [rand.Int] panics when its bound is not positive. *)
Definition FullJitter `{GoPow, CryptoRand, FloatCvt} (attempt : Z) (cfg : BackoffConfig) : result Z :=
  if negb (is_Ok (Backoff_Validate cfg)) || (Initial cfg <=? 0) then Ok 0
  else
    let multiplier := if fle (Multiplier cfg) (of_int 0) then of_int 2 else Multiplier cfg in
    let maxExp := fmul (of_int (Initial cfg)) (Pow multiplier (of_int attempt)) in
    let capDuration :=
      if (0 <? Max cfg) && flt (of_int (Max cfg)) maxExp then of_int (Max cfg) else maxExp in
    if fle capDuration (of_int 0) then Ok 0
    else
      let bound := int64_trunc capDuration in
      if bound <=? 0 then Panic "crypto/rand: argument to Int is <= 0"
      else match randInt bound with
           | Some n => Ok n
           | None => Ok bound
           end.

(** What [Retry] meets at each attempt: [ctx.Err()] before the call, the result
    of the operation, and which branch of the [select] wins after the delay
    ([Some e]: the context was done, with error [e]). *)
Record RetryWorld := mkWorld {
  ctxErr : Z -> option error;
  opResult : Z -> option error;
  waitResult : Z -> Z -> option error
}.

(** The loop from [attempt] with [n] attempts left after it; the number of calls
    of the operation is counted beside the result. *)
Fixpoint retryLoop `{GoPow, CryptoRand, FloatCvt} (w : RetryWorld) (cfg : BackoffConfig)
    (n : nat) (attempt : Z) : result unit * Z :=
  match ctxErr w attempt with
  | Some e => (Err e, 0)
  | None =>
      match opResult w attempt with
      | None => (Ok tt, 1)
      | Some lastErr =>
          match n with
          | O => (Err lastErr, 1)
          | S n' =>
              match FullJitter attempt cfg with
              | Panic m => (Panic m, 1)
              | Err e => (Err e, 1)
              | Ok delay =>
                  match waitResult w attempt delay with
                  | Some e => (Err e, 1)
                  | None =>
                      let '(r, calls) := retryLoop w cfg n' (attempt + 1) in (r, 1 + calls)
                  end
              end
          end
      end
  end.

Definition Retry `{GoPow, CryptoRand, FloatCvt} (w : RetryWorld) (cfg : BackoffConfig)
    : result unit * Z :=
  match Backoff_Validate cfg with
  | Ok _ => retryLoop w cfg (Z.to_nat (MaxRetries cfg)) 0
  | r => (r, 0)
  end.

(** ** The drain manager. A handler is a computation on the state [W] it flushes. *)
Record DrainHandler (W : Type) := mkHandler {
  hName : string; hFn : W -> option error * W }.
Arguments mkHandler {W} _ _.
Arguments hName {W} _.
Arguments hFn {W} _.
Record DrainManager (W : Type) := mkDrain { dmTimeout : Z; handlers : list (DrainHandler W) }.
Arguments mkDrain {W} _ _.
Arguments dmTimeout {W} _.
Arguments handlers {W} _.

Definition NewDrainManager {W} (timeout : Z) : result (DrainManager W) :=
  if timeout <=? 0 then Err (Sentinel "drain timeout must be positive") else Ok (mkDrain timeout []).
Definition Register {W} (n : string) (fn : W -> option error * W) (dm : DrainManager W)
    : DrainManager W :=
  mkDrain (dmTimeout dm) (handlers dm ++ [mkHandler n fn]).
Fixpoint drainLoop `{GoQuote} {W} (hs : list (DrainHandler W)) (w : W) : option error * W :=
  match hs with
  | [] => (None, w)
  | h :: hs' =>
      match hFn h w with
      | (Some e, w') =>
          (Some (Errorf ("drain handler " +:+ Quote (hName h) +:+ " failed: " +:+ Error e) [e]), w')
      | (None, w') => drainLoop hs' w'
      end
  end.
Definition Drain `{GoQuote} {W} (dm : DrainManager W) (w : W) : option error * W :=
  drainLoop (handlers dm) w.

(** ** The signal trap

    [SetupSignalTrap]: the channel holds one signal ([sigCh]), the runtime delivers to it
    while the trap is registered ([signal.Notify]) and drops what does not fit; the
    goroutine waits for a signal or for the caller's cancel, then unregisters. *)
Definition trapped (signals : list string) (sig : string) : bool :=
  match signals with
  | [] => bool_decide (sig ∈ ["interrupt"; "terminated"])
  | _ => bool_decide (sig ∈ signals)
  end.
Inductive trapPC := Selecting | Stopping | Ended.
Record SignalTrap := mkTrap { trSignals : list string; sigCh : bool; ctxDone : bool; notified : bool; trPC : trapPC }.
Definition SetupSignalTrap (signals : list string) : SignalTrap := mkTrap signals false false true Selecting.
(** What the goroutine does by itself. *)
Inductive trapRuns : SignalTrap -> SignalTrap -> Prop :=
  | tr_signal sigs d n : trapRuns (mkTrap sigs true d n Selecting) (mkTrap sigs false true n Stopping)
  | tr_done sigs c n : trapRuns (mkTrap sigs c true n Selecting) (mkTrap sigs c true n Stopping)
  | tr_stop sigs c d n : trapRuns (mkTrap sigs c d n Stopping) (mkTrap sigs c d false Ended).
Inductive trapStep : SignalTrap -> SignalTrap -> Prop :=
  | ts_runs s s' : trapRuns s s' -> trapStep s s'
  | ts_deliver sigs c d pc sig : trapped sigs sig = true ->
      trapStep (mkTrap sigs c d true pc) (mkTrap sigs true d true pc)
  | ts_cancel sigs c d n pc : trapStep (mkTrap sigs c d n pc) (mkTrap sigs c true n pc).

(** ** Lemmas: the circuit breaker *)
Definition Settings_ok (st : Settings) : Prop :=
  in_u32 (MaxFailures st) /\ in_u32 (HalfOpenLimit st) /\ in_i64 (Timeout st).

Record breaker_ok (s : cbSystem) : Prop := {
  bo_max : 1 <= maxFailures (breaker s) < 2 ^ 32;
  bo_lim : 1 <= halfOpenLimit (breaker s) < 2 ^ 32;
  bo_timeout : 0 < timeout (breaker s) < 2 ^ 63;
  bo_failures : 0 <= failures (breaker s) < 2 ^ 32;
  bo_successes : 0 <= successes (breaker s) < 2 ^ 32;
  bo_closed : state (breaker s) = StateClosed -> failures (breaker s) < maxFailures (breaker s);
  bo_half : state (breaker s) = StateHalfOpen -> successes (breaker s) < halfOpenLimit (breaker s);
  bo_clock : lastStateChg (breaker s) <= clock s
}.

(** Events of a trace: failed returns, and returns of either kind. *)
Definition isFailure (e : cbEvent) : bool := match e with EvLeave _ (Some _) => true | _ => false end.
Definition isLeave (e : cbEvent) : bool := match e with EvLeave _ _ => true | _ => false end.
Definition countEv (p : cbEvent -> bool) (es : list cbEvent) : nat := length (List.filter p es).

(** The steps, one transition function at a time, by cases on state and error. *)
Ltac breaker_cases :=
  repeat match goal with
  | |- context [bool_decide (?a = ?b)] => destruct (decide (a = b)) as [?E|?E];
      [rewrite (bool_decide_eq_true_2 _ E) | rewrite (bool_decide_eq_false_2 _ E)]
  | H : context [bool_decide (?a = ?b)] |- _ => destruct (decide (a = b)) as [?E|?E];
      [rewrite (bool_decide_eq_true_2 _ E) in H | rewrite (bool_decide_eq_false_2 _ E) in H]
  end; simpl in *.

Lemma NewCircuitBreaker_ok `{GoQuote, GoDuration} now st cb :
  Settings_ok st -> NewCircuitBreaker now st = Ok cb ->
  breaker_ok (mkSys cb 0 now) /\ state cb = StateClosed /\ failures cb = 0.
Proof.
  intros (H1 & H2 & H3) Hn. unfold NewCircuitBreaker, orOne, Second in Hn.
  wunfold. zcases; simplify_eq; split_and!; try done; split; simpl; lia || done.
Qed.

Lemma u32_succ n : 0 <= n < 2 ^ 32 -> 0 <= u32 (n + 1) < 2 ^ 32.
Proof. intros. wordlia. Qed.

Lemma checkStateTransition_ok now p s :
  breaker_ok s -> clock s <= now -> breaker_ok (mkSys (checkStateTransition now (breaker s)) p now).
Proof.
  intros [] Hc. unfold checkStateTransition. breaker_cases; [|split; simpl; auto; lia].
  destruct (_ <? _); split; simpl; auto; try discriminate; lia.
Qed.

Lemma Execute_leave_ok now err p s :
  breaker_ok s -> clock s <= now -> breaker_ok (mkSys (Execute_leave now err (breaker s)) p now).
Proof.
  intros [] Hc. unfold Execute_leave. destruct err as [e|].
  - pose proof (u32_succ _ bo_failures0) as Hu. breaker_cases; [split; simpl; auto; done || lia|].
    destruct (Z.leb_spec (maxFailures (breaker s)) (u32 (failures (breaker s) + 1)));
      split; simpl; auto; try done; lia.
  - pose proof (u32_succ _ bo_successes0) as Hu. breaker_cases; [|split; simpl; auto; lia].
    destruct (Z.leb_spec (halfOpenLimit (breaker s)) (u32 (successes (breaker s) + 1)));
      split; simpl; auto; try done; try lia; congruence.
Qed.

Lemma cbStep_ok s e s' : cbStep s e s' -> breaker_ok s -> breaker_ok s'.
Proof.
  intros [s0 now cb' b Hc H|s0 now err p Hc H|s0 now st cb' Hc H] Hok.
  - unfold Execute_enter in H. simplify_eq. by apply checkStateTransition_ok.
  - by apply Execute_leave_ok.
  - unfold readState in H. simplify_eq. by apply checkStateTransition_ok.
Qed.

Lemma cbSteps_ok s es s' : cbSteps s es s' -> breaker_ok s -> breaker_ok s'.
Proof. induction 1; eauto using cbStep_ok. Qed.

(** The parameters never change. *)
Lemma cbStep_params s e s' :
  cbStep s e s' ->
  maxFailures (breaker s') = maxFailures (breaker s) /\ timeout (breaker s') = timeout (breaker s)
  /\ halfOpenLimit (breaker s') = halfOpenLimit (breaker s).
Proof.
  intros [s0 now cb' b Hc H|s0 now err p Hc H|s0 now st cb' Hc H];
    unfold Execute_enter, readState, Execute_leave, checkStateTransition in *; simplify_eq; simpl;
    repeat case_match; simplify_eq; done.
Qed.

Lemma cbSteps_params s es s' :
  cbSteps s es s' ->
  maxFailures (breaker s') = maxFailures (breaker s) /\ timeout (breaker s') = timeout (breaker s)
  /\ halfOpenLimit (breaker s') = halfOpenLimit (breaker s).
Proof.
  induction 1 as [|s e s1 es s' H _ (-> & -> & ->)]; [done|]. by apply cbStep_params in H.
Qed.

(** In the closed state only the failure that reaches the limit changes the
    state; successes leave the count of failures alone. *)
Lemma cbStep_closed s e s' :
  cbStep s e s' -> breaker_ok s -> state (breaker s) = StateClosed ->
  if isFailure e && (failures (breaker s) + 1 =? maxFailures (breaker s))
  then state (breaker s') = StateOpen /\ lastStateChg (breaker s') = clock s'
  else state (breaker s') = StateClosed
       /\ failures (breaker s') = failures (breaker s) + (if isFailure e then 1 else 0).
Proof.
  intros Hs [] Hcl. pose proof (bo_closed0 Hcl) as Hlt.
  destruct Hs as [s0 now cb' b Hc H|s0 now err p Hc H|s0 now st cb' Hc H]; simpl.
  - unfold Execute_enter, checkStateTransition in H. rewrite Hcl in H. simplify_eq/=.
    rewrite Hcl. split; [done|lia].
  - unfold Execute_leave. rewrite Hcl. simpl. destruct err; simpl; [|split; [done|lia]].
    replace (u32 (failures (breaker s0) + 1)) with (failures (breaker s0) + 1) by wordlia.
    destruct (Z.leb_spec (maxFailures (breaker s0)) (failures (breaker s0) + 1)),
      (Z.eqb_spec (failures (breaker s0) + 1) (maxFailures (breaker s0))); simpl; try lia; done.
  - unfold readState, checkStateTransition in H. rewrite Hcl in H. simplify_eq/=.
    rewrite Hcl. split; [done|lia].
Qed.

(** While the timeout runs an open breaker stays open and admits nothing. *)
Lemma cbStep_open s e s' :
  cbStep s e s' -> breaker_ok s -> state (breaker s) = StateOpen ->
  evTime e <= lastStateChg (breaker s) + timeout (breaker s) ->
  state (breaker s') = StateOpen /\ lastStateChg (breaker s) <= lastStateChg (breaker s')
  /\ (pending s' + (if isLeave e then 1 else 0) = pending s)%nat.
Proof.
  intros Hs [] Ho Ht.
  assert (forall now, clock s <= now -> now <= lastStateChg (breaker s) + timeout (breaker s) ->
    checkStateTransition now (breaker s) = breaker s) as Hstay.
  { intros now H1 H2. unfold checkStateTransition. rewrite Ho. simpl.
    unfold timeSub, MaxInt64. zcases; try lia; done. }
  destruct Hs as [s0 now cb' b Hc H|s0 now err p Hc H|s0 now st cb' Hc H]; simpl in *.
  - unfold Execute_enter in H. rewrite Hstay in H by done. rewrite Ho in H. simplify_eq/=.
    split_and!; [done|lia|lia].
  - unfold Execute_leave. rewrite Ho, H. simpl. destruct err; [|split_and!; [done|lia|lia]].
    destruct (_ <=? _); simpl; split_and!; try done; lia.
  - unfold readState in H. rewrite Hstay in H by done. simplify_eq/=. split_and!; [done|lia|lia].
Qed.

Lemma cbSteps_closed s es s' :
  cbSteps s es s' -> breaker_ok s -> state (breaker s) = StateClosed ->
  failures (breaker s) + Z.of_nat (countEv isFailure es) < maxFailures (breaker s) ->
  state (breaker s') = StateClosed
  /\ failures (breaker s') = failures (breaker s) + Z.of_nat (countEv isFailure es).
Proof.
  unfold countEv. induction 1 as [s|s e s1 es s' Hs Hss IH]; intros Hok Hcl Hn; simpl in *.
  - split; [done|lia].
  - pose proof (cbStep_closed _ _ _ Hs Hok Hcl) as Hc.
    pose proof (cbStep_params _ _ _ Hs) as (Hm & _ & _).
    pose proof (cbStep_ok _ _ _ Hs Hok) as Hok1.
    destruct (isFailure e); simpl in *; [destruct (Z.eqb_spec (failures (breaker s) + 1)
      (maxFailures (breaker s))); [lia|]|]; destruct Hc as [Hc1 Hc2];
      destruct (IH Hok1 Hc1 ltac:(lia)) as [-> ->]; split; try done; lia.
Qed.

Lemma cbSteps_open s es s' :
  cbSteps s es s' -> breaker_ok s -> state (breaker s) = StateOpen ->
  Forall (fun e => evTime e <= lastStateChg (breaker s) + timeout (breaker s)) es ->
  state (breaker s') = StateOpen /\ (pending s' + countEv isLeave es = pending s)%nat.
Proof.
  unfold countEv. induction 1 as [s|s e s1 es s' Hs Hss IH]; intros Hok Ho Ht; simpl in *.
  - split; [done|lia].
  - apply Forall_cons in Ht as [Ht Hts].
    destruct (cbStep_open _ _ _ Hs Hok Ho Ht) as (Ho1 & Hl1 & Hp1).
    pose proof (cbStep_params _ _ _ Hs) as (_ & Hm & _).
    destruct IH as [IH1 IH2]; [by eapply cbStep_ok|done| |].
    { eapply Forall_impl; [exact Hts|]. simpl. intros. lia. }
    split; [done|]. destruct (isLeave e); simpl in *; lia.
Qed.

Lemma cbSteps_snoc s es e s' :
  cbSteps s (es ++ [e]) s' -> exists s1, cbSteps s es s1 /\ cbStep s1 e s'.
Proof.
  revert s. induction es as [|e' es IH]; simpl; intros s H; inversion H; subst.
  - match goal with H : cbSteps _ [] _ |- _ => inversion H; subst end. eauto using cbSteps.
  - destruct (IH _ H5) as (s1 & ? & ?). eauto using cbSteps.
Qed.

Lemma cbSteps_app s es s1 es' s2 :
  cbSteps s es s1 -> cbSteps s1 es' s2 -> cbSteps s (es ++ es') s2.
Proof. induction 1; simpl; eauto using cbSteps. Qed.

(** Calls that all succeed, run one after the other. *)
Fixpoint probe (ts : list (Z * Z)) (cb : CircuitBreaker) : list (option error) * CircuitBreaker :=
  match ts with
  | [] => ([], cb)
  | (t0, t1) :: ts' =>
      let '(r, cb1) := Execute t0 t1 None cb in
      let '(rs, cb2) := probe ts' cb1 in (r :: rs, cb2)
  end.

(** The instants of the calls, in order from [from] on. *)
Fixpoint ordered (from : Z) (ts : list (Z * Z)) : Prop :=
  match ts with
  | [] => True
  | (t0, t1) :: ts' => from <= t0 /\ t0 <= t1 /\ ordered t1 ts'
  end.

Lemma probe_closed ts cb : state cb = StateClosed -> probe ts cb = (map (fun _ => None) ts, cb).
Proof.
  intros Hc. induction ts as [|[t0 t1] ts IH]; [done|]. simpl.
  unfold Execute, Execute_enter, checkStateTransition, Execute_leave.
  rewrite !Hc. simpl. rewrite ?Hc. simpl. by rewrite IH.
Qed.

Lemma probe_half ts cb :
  state cb = StateHalfOpen -> 0 <= successes cb < 2 ^ 32 -> halfOpenLimit cb < 2 ^ 32 ->
  successes cb < halfOpenLimit cb <= successes cb + zlen ts ->
  exists cb', probe ts cb = (map (fun _ => None) ts, cb') /\ state cb' = StateClosed.
Proof.
  revert cb. induction ts as [|[t0 t1] ts IH]; intros cb Hs Hr Hl Hn; unfold zlen in *; simpl in *; [lia|].
  assert (checkStateTransition t0 cb = cb) as Hck.
  { unfold checkStateTransition. by rewrite Hs. }
  unfold Execute, Execute_enter. rewrite Hck, Hs. simpl. unfold Execute_leave. rewrite Hs. simpl.
  replace (u32 (successes cb + 1)) with (successes cb + 1) by wordlia.
  destruct (Z.leb_spec (halfOpenLimit cb) (successes cb + 1)).
  - rewrite probe_closed by done. eauto.
  - edestruct (IH (withState cb StateHalfOpen (failures cb) (successes cb + 1) (lastStateChg cb)))
      as (cb' & Hp & Hc); simpl in *; try lia; [done|].
    rewrite Hp. eauto.
Qed.

Lemma probe_open ts cb from :
  state cb = StateOpen -> lastStateChg cb + timeout cb < from -> 0 < timeout cb < MaxInt64 ->
  1 <= halfOpenLimit cb < 2 ^ 32 -> halfOpenLimit cb <= zlen ts -> ordered from ts ->
  exists cb', probe ts cb = (map (fun _ => None) ts, cb') /\ state cb' = StateClosed.
Proof.
  intros Hs Hl Ht Hh Hn Ho. destruct ts as [|[t0 t1] ts]; [unfold zlen in Hn; simpl in Hn; lia|].
  simpl in Ho. destruct Ho as (H0 & H1 & Ho).
  destruct (probe_half ((t0, t1) :: ts) (withState cb StateHalfOpen 0 0 t0)) as (cb' & Hp & Hc);
    simpl; try done; try lia.
  exists cb'. split; [|done]. etransitivity; [|exact Hp]. simpl. unfold Execute, Execute_enter.
  replace (checkStateTransition t0 cb) with (withState cb StateHalfOpen 0 0 t0); [done|].
  unfold checkStateTransition. rewrite Hs. simpl. unfold timeSub, MaxInt64 in *.
  zcases; try lia; done.
Qed.

(** ** Lemmas: the batch sizer *)
Record sizer_ok (s : AdaptiveBatchSizer) : Prop := {
  so_min : 0 < minSize s;
  so_max : maxSize s < 2 ^ 61;
  so_cur : minSize s <= currentSize s <= maxSize s;
  so_fast : fastThreshold s = DefaultAdaptiveFastThreshold;
  so_slow : slowThreshold s = DefaultAdaptiveSlowThreshold
}.

Lemma NewAdaptiveBatchSizer_ok mn mx :
  mn < 2 ^ 57 -> mx < 2 ^ 61 -> sizer_ok (NewAdaptiveBatchSizer mn mx).
Proof.
  intros H1 H2. unfold NewAdaptiveBatchSizer, DefaultAdaptiveMinBatchSize, DefaultAdaptiveMaxBatchFactor.
  destruct (Z.leb_spec mn 0); zcases; split; simpl; try done; wordlia.
Qed.

(** What a flush does to the size, without the wrap-around. *)
Lemma RecordFlush_size h l s :
  sizer_ok s ->
  RecordFlush h l s = setSize s
    (if DefaultAdaptiveMaxHeapBytes <? h then minSize s
     else if l <? DefaultAdaptiveFastThreshold then
       Z.min (maxSize s) (currentSize s + Z.max (currentSize s / 5) 50)
     else if DefaultAdaptiveSlowThreshold <? l then
       Z.max (minSize s) (currentSize s - Z.max (currentSize s / 3) 50)
     else currentSize s).
Proof.
  intros []. unfold RecordFlush. rewrite so_fast0, so_slow0.
  rewrite !Z.quot_div_nonneg by lia.
  rewrite !i64_small by (unfold DefaultAdaptiveStepSize; wordlia).
  zcases; try done. by destruct s.
Qed.

Lemma RecordFlush_ok h l s : sizer_ok s -> sizer_ok (RecordFlush h l s).
Proof.
  intros Hok. rewrite RecordFlush_size by done. destruct Hok.
  split; simpl; try done. zcases; lia.
Qed.

(** A sequence of flushes, each with the heap in use and the latency seen. *)
Definition flushes (obs : list (Z * Z)) (s : AdaptiveBatchSizer) : AdaptiveBatchSizer :=
  foldl (fun s o => RecordFlush o.1 o.2 s) s obs.

Lemma flushes_ok obs s : sizer_ok s -> sizer_ok (flushes obs s).
Proof. revert s. induction obs; simpl; intros; [done|]. by apply IHobs, RecordFlush_ok. Qed.

Lemma flushes_params obs s :
  minSize (flushes obs s) = minSize s /\ maxSize (flushes obs s) = maxSize s.
Proof.
  revert s. induction obs as [|o obs IH]; intros s; [done|].
  change (flushes (o :: obs) s) with (flushes obs (RecordFlush o.1 o.2 s)).
  destruct (IH (RecordFlush o.1 o.2 s)) as [-> ->].
  unfold RecordFlush. by repeat case_match.
Qed.

(** Flushes that are all fast with memory to spare grow the size by at least 50
    each up to the maximum; flushes that are all slow shrink it likewise. *)
Definition fastFlush (o : Z * Z) : Prop :=
  o.1 <= DefaultAdaptiveMaxHeapBytes /\ o.2 < DefaultAdaptiveFastThreshold.
Definition slowFlush (o : Z * Z) : Prop := DefaultAdaptiveSlowThreshold < o.2.

Lemma flushes_fast obs s :
  sizer_ok s -> Forall fastFlush obs ->
  Z.min (maxSize s) (currentSize s + 50 * zlen obs) <= currentSize (flushes obs s).
Proof.
  intros Hok Hf. revert s Hok. induction Hf as [|[h l] obs [Hh Hl] _ IH]; intros s Hok.
  - unfold zlen. simpl. lia.
  - pose proof (IH _ (RecordFlush_ok h l s Hok)) as IH1. unfold zlen in *. simpl in *.
    rewrite RecordFlush_size in * by done. simpl in *. zcases; simpl in *; lia.
Qed.

Lemma flushes_slow obs s :
  sizer_ok s -> Forall slowFlush obs ->
  currentSize (flushes obs s) <= Z.max (minSize s) (currentSize s - 50 * zlen obs).
Proof.
  intros Hok Hf. revert s Hok.
  induction Hf as [|[h l] obs Hl _ IH]; intros s Hok; unfold slowFlush in *.
  - unfold zlen. simpl. lia.
  - pose proof (IH _ (RecordFlush_ok h l s Hok)) as IH1. unfold zlen in *. simpl in *.
    rewrite RecordFlush_size in * by done. simpl in *.
    unfold DefaultAdaptiveFastThreshold, DefaultAdaptiveSlowThreshold, Millisecond in *.
    destruct Hok. zcases; simpl in *; lia.
Qed.

(** ** Lemmas: the drain manager *)

(** Handlers run in registration order; the first failure ends the drain, and
    the handlers after it are not run. *)
(** The context is done only after a signal or a cancel; from a delivered signal or a
    cancel on, the goroutine takes at most two steps, never blocks before it has ended,
    and ends with the context done and the trap unregistered. *)
Definition trapOk (s : SignalTrap) : Prop :=
  (trPC s <> Selecting -> ctxDone s = true) /\ (notified s = false <-> trPC s = Ended).
Lemma trapStep_ok s s' : trapStep s s' -> trapOk s -> trapOk s'.
Proof. unfold trapOk. intros [? ? []| |] [H1 H2]; cbn in *; split; try naive_solver. Qed.
Lemma SetupSignalTrap_ends signals s : rtc trapStep (SetupSignalTrap signals) s ->
  sigCh s = true \/ ctxDone s = true ->
  exists n s', (n <= 2)%nat /\ nsteps trapRuns n s s' /\ trPC s' = Ended /\ ctxDone s' = true /\ notified s' = false.
Proof.
  intros Hr Hs. assert (trapOk s) as [H1 H2].
  { assert (trapOk (SetupSignalTrap signals)) as H0 by (split; cbn; naive_solver).
    clear Hs. revert H0. induction Hr as [|? ? ? Hst _ IH]; [done|]. intros H0. apply IH. by eapply trapStep_ok. }
  destruct s as [sigs c d n []]; cbn in *.
  - exists 2%nat. destruct c.
    + eexists. split; [lia|]. split; [eapply nsteps_l; [apply tr_signal|]; eapply nsteps_l; [apply tr_stop|]; apply nsteps_O|done].
    + destruct Hs as [?| ->]; [done|]. eexists. split; [lia|].
      split; [eapply nsteps_l; [apply tr_done|]; eapply nsteps_l; [apply tr_stop|]; apply nsteps_O|done].
  - exists 1%nat. eexists. split; [lia|]. split; [eapply nsteps_l; [apply tr_stop|]; apply nsteps_O|]. cbn. by rewrite H1.
  - exists 0%nat. eexists. split; [lia|]. split; [apply nsteps_O|]. cbn. rewrite H1 by done. split; [done|]. split; [done|]. by apply H2.
Qed.

Lemma drainLoop_app `{GoQuote} {W} (hs hs' : list (DrainHandler W)) w :
  drainLoop (hs ++ hs') w =
  match drainLoop hs w with (None, w') => drainLoop hs' w' | r => r end.
Proof.
  revert w. induction hs as [|h hs IH]; intros w; simpl; [done|].
  destruct (hFn h w) as [[e|] w']; auto.
Qed.

Lemma Drain_Register `{GoQuote} {W} n fn (dm : DrainManager W) w :
  Drain (Register n fn dm) w =
  match Drain dm w with (None, w') => drainLoop [mkHandler n fn] w' | r => r end.
Proof. apply drainLoop_app. Qed.

(** ** Lemmas: retry *)
Definition retry_post `{GoPow, CryptoRand, FloatCvt} (w : RetryWorld) (cfg : BackoffConfig)
    (first last : Z) (out : result unit * Z) : Prop :=
  let '(r, calls) := out in
  0 <= calls <= last - first + 1
  /\ (forall k, first <= k < first + calls - 1 -> opResult w k <> None)
  /\ match r with
     | Ok _ => 1 <= calls /\ opResult w (first + calls - 1) = None
     | Err e =>
         (calls = last - first + 1 /\ opResult w last = Some e)
         \/ ctxErr w (first + calls) = Some e
         \/ (exists delay, 1 <= calls /\ FullJitter (first + calls - 1) cfg = Ok delay
              /\ waitResult w (first + calls - 1) delay = Some e)
     | Panic m => 1 <= calls <= last - first /\ FullJitter (first + calls - 1) cfg = Panic m
     end.

Lemma FullJitter_no_err `{GoPow, CryptoRand, FloatCvt} attempt cfg e :
  FullJitter attempt cfg <> Err e.
Proof. unfold FullJitter. repeat case_match; discriminate. Qed.

Lemma retryLoop_post `{GoPow, CryptoRand, FloatCvt} w cfg n first :
  retry_post w cfg first (first + Z.of_nat n) (retryLoop w cfg n first).
Proof.
  revert first. induction n as [|n IH]; intros first; simpl;
    destruct (ctxErr w first) as [e|] eqn:Ec; simpl.
  1,3: split_and!; [lia|lia|intros; lia|right; left; by rewrite Z.add_0_r].
  - destruct (opResult w first) as [e|] eqn:Eo; simpl; (split; [lia|]); (split; [intros; lia|]).
    + left. split; [lia|]. by rewrite Z.add_0_r.
    + split; [lia|]. by replace (first + 1 - 1) with first by lia.
  - destruct (opResult w first) as [e|] eqn:Eo; simpl.
    2: { split; [lia|]. split; [intros; lia|]. split; [lia|].
         by replace (first + 1 - 1) with first by lia. }
    destruct (FullJitter first cfg) as [delay|e'|m] eqn:Ej; [|by apply FullJitter_no_err in Ej|].
    2: { simpl. split; [lia|]. split; [intros; lia|]. split; [lia|].
         by replace (first + 1 - 1) with first by lia. }
    destruct (waitResult w first delay) as [e'|] eqn:Ew; simpl.
    { split; [lia|]. split; [intros; lia|]. right. right. exists delay.
      by replace (first + 1 - 1) with first by lia. }
    specialize (IH (first + 1)). destruct (retryLoop w cfg n (first + 1)) as [r calls].
    unfold retry_post in *. destruct IH as (H1' & H2' & H3').
    replace (first + Z.of_nat (S n)) with (first + 1 + Z.of_nat n) by lia.
    replace (first + (1 + calls)) with (first + 1 + calls) by lia.
    split; [lia|]. split.
    { intros k Hk. destruct (Z.eq_dec k first) as [->|]; [congruence|]. apply H2'. lia. }
    destruct r as [[]|e'|m].
    + split; [lia|tauto].
    + destruct H3' as [[-> He]|[He|(d & Hc & Hd)]]; [left; split; [lia|done]|right; left; exact He|].
      right. right. exists d. split; [lia|done].
    + split; [lia|tauto].
Qed.

(** ** Properties *)

(** C22. However goroutines interleave their calls and state reads on one
    breaker. Closed, [failures] counts every failed return since the breaker was
    last closed: a success in between resets nothing (the documentation speaks
    of consecutive failures; see [failures_need_not_be_consecutive]). Through any
    mix of successes and fewer failures than the limit leaves, the breaker stays
    closed with the count gone up by those failures, and the failure that makes
    the count [MaxFailures] opens it, so [MaxFailures] consecutive failures always
    do. Half open, any failed return opens it; open, it stays open and admits no
    call until the timeout after the last opening has passed. *)
Theorem CircuitBreaker_safety `{GoQuote, GoDuration} st now cb es s es' s' :
  Settings_ok st -> NewCircuitBreaker now st = Ok cb ->
  cbSteps (mkSys cb 0 now) es s -> cbSteps s es' s' ->
  match state (breaker s) with
  | StateClosed =>
      (failures (breaker s) + Z.of_nat (countEv isFailure es') < orOne (MaxFailures st) ->
       state (breaker s') = StateClosed
       /\ failures (breaker s') = failures (breaker s) + Z.of_nat (countEv isFailure es'))
      /\ (forall pre t e, es' = pre ++ [EvLeave t (Some e)] ->
          failures (breaker s) + Z.of_nat (countEv isFailure es') = orOne (MaxFailures st) ->
          state (breaker s') = StateOpen /\ lastStateChg (breaker s') = t)
  | StateHalfOpen =>
      forall t e, es' = [EvLeave t (Some e)] ->
      state (breaker s') = StateOpen /\ lastStateChg (breaker s') = t
  | StateOpen =>
      Forall (fun ev => evTime ev <= lastStateChg (breaker s) + timeout (breaker s)) es' ->
      state (breaker s') = StateOpen /\ (pending s' + countEv isLeave es' = pending s)%nat
  end.
Proof.
  intros Hst Hn Hs Hs'.
  destruct (NewCircuitBreaker_ok _ _ _ Hst Hn) as (Hok0 & _ & _).
  assert (maxFailures (breaker s) = orOne (MaxFailures st)) as Hm.
  { assert (maxFailures cb = orOne (MaxFailures st)) as <-.
    { unfold NewCircuitBreaker in Hn. case_match; by simplify_eq/=. }
    apply (cbSteps_params _ _ _ Hs). }
  pose proof (cbSteps_ok _ _ _ Hs Hok0) as Hok.
  destruct (state (breaker s)) eqn:E.
  - rewrite <- Hm. split; [intros; by eapply cbSteps_closed|].
    intros pre t e -> Hc. apply cbSteps_snoc in Hs' as (s1 & H1 & H2).
    unfold countEv in Hc. rewrite List.filter_app, length_app in Hc. simpl in Hc.
    destruct (cbSteps_closed _ _ _ H1 Hok E) as [Ec1 Ef1]; [unfold countEv; lia|].
    pose proof (cbStep_closed _ _ _ H2 (cbSteps_ok _ _ _ H1 Hok) Ec1) as Hc2.
    destruct (cbSteps_params _ _ _ H1) as (Hm1 & _ & _).
    simpl in Hc2. unfold countEv in Ef1. rewrite Hm1, Ef1 in Hc2.
    rewrite (proj2 (Z.eqb_eq _ _)) in Hc2 by lia. destruct Hc2 as [-> ->].
    inversion H2; subst. done.
  - intros t e ->. inversion Hs'; subst.
    match goal with H : cbSteps _ [] _ |- _ => inversion H; subst end.
    match goal with H : cbStep _ _ _ |- _ => inversion H; subst end.
    unfold Execute_leave. rewrite E. done.
  - intros Ht. by eapply cbSteps_open.
Qed.

(** A breaker recovers: from any reachable state, [HalfOpenLimit] calls that
    succeed one after the other, the first started after the timeout, are all
    admitted, return no error, and leave it closed. *)
Theorem CircuitBreaker_recovers `{GoQuote, GoDuration} st now cb es s ts from :
  Settings_ok st -> Timeout st < MaxInt64 -> NewCircuitBreaker now st = Ok cb ->
  cbSteps (mkSys cb 0 now) es s ->
  lastStateChg (breaker s) + timeout cb < from -> ordered from ts ->
  halfOpenLimit cb <= zlen ts ->
  exists cb', probe ts (breaker s) = (map (fun _ => None) ts, cb') /\ state cb' = StateClosed.
Proof.
  intros Hst Ht Hn Hs Hf Ho Hl.
  destruct (NewCircuitBreaker_ok _ _ _ Hst Hn) as (Hok0 & _ & _).
  pose proof (cbSteps_ok _ _ _ Hs Hok0) as [].
  destruct (cbSteps_params _ _ _ Hs) as (_ & Et & Eh). simpl in Et, Eh.
  assert (timeout cb < MaxInt64).
  { unfold NewCircuitBreaker, Second in Hn. zcases; simplify_eq/=; unfold MaxInt64 in *; lia. }
  destruct (state (breaker s)) eqn:E.
  - rewrite probe_closed by done. eauto.
  - apply probe_half; [done|lia|lia|]. pose proof (bo_half0 eq_refl). lia.
  - apply probe_open with from; try done; rewrite ?Et, ?Eh; lia.
Qed.

(** [Retry] calls the operation at most [MaxRetries + 1] times, never again
    after a success; it returns no error exactly on a success, and otherwise the
    error of the last allowed call or the context's, whichever came first (or the
    panic of the jitter). *)
Theorem Retry_spec `{GoPow, CryptoRand, FloatCvt} w cfg :
  Backoff_Validate cfg = Ok tt ->
  let '(r, calls) := Retry w cfg in
  0 <= calls <= MaxRetries cfg + 1
  /\ (forall k, 0 <= k < calls - 1 -> opResult w k <> None)
  /\ match r with
     | Ok _ => 1 <= calls /\ opResult w (calls - 1) = None
     | Err e =>
         (calls = MaxRetries cfg + 1 /\ opResult w (MaxRetries cfg) = Some e)
         \/ ctxErr w calls = Some e
         \/ (exists delay, 1 <= calls /\ FullJitter (calls - 1) cfg = Ok delay
              /\ waitResult w (calls - 1) delay = Some e)
     | Panic m => 1 <= calls <= MaxRetries cfg /\ FullJitter (calls - 1) cfg = Panic m
     end.
Proof.
  intros Hv. unfold Retry. rewrite Hv.
  assert (0 <= MaxRetries cfg) as Hm.
  { unfold Backoff_Validate in Hv. case_match eqn:E; [done|].
    rewrite !orb_false_iff in E. lia. }
  pose proof (retryLoop_post w cfg (Z.to_nat (MaxRetries cfg)) 0) as Hp. unfold retry_post in Hp.
  rewrite Z2Nat.id in Hp by done. destruct (retryLoop _ _ _ _) as [r calls].
  rewrite !Z.add_0_l in Hp. rewrite !Z.sub_0_r in Hp. exact Hp.
Qed.

(** C39. With a minimum below 2^57 and a maximum below 2^61, so that no sum wraps,
    whatever the latencies and the heap, the batch size stays between the minimum and
    the maximum; enough fast flushes in a row (with memory to spare) bring it to the
    maximum and enough slow ones to the minimum. *)
Theorem AdaptiveBatchSizer_bounded mn mx obs more :
  mn < 2 ^ 57 -> mx < 2 ^ 61 ->
  let s := flushes obs (NewAdaptiveBatchSizer mn mx) in
  let s' := flushes more s in
  minSize s <= CurrentBatchSize s <= maxSize s
  /\ minSize s = (if mn <=? 0 then DefaultAdaptiveMinBatchSize else mn)
  /\ (maxSize s - minSize s <= 50 * zlen more -> Forall fastFlush more ->
      CurrentBatchSize s' = maxSize s)
  /\ (maxSize s - minSize s <= 50 * zlen more -> Forall slowFlush more ->
      CurrentBatchSize s' = minSize s).
Proof.
  intros H1 H2 s s'. pose proof (NewAdaptiveBatchSizer_ok _ _ H1 H2) as Hok0.
  pose proof (flushes_ok obs _ Hok0) as Hok. fold s in Hok.
  pose proof (flushes_ok more _ Hok) as Hok'. fold s' in Hok'.
  destruct (flushes_params more s) as [Hmn Hmx]. fold s' in Hmn, Hmx.
  destruct (flushes_params obs (NewAdaptiveBatchSizer mn mx)) as [Hmn0 _]. fold s in Hmn0.
  pose proof (so_cur _ Hok). pose proof (so_cur _ Hok').
  unfold CurrentBatchSize. split_and!; try lia.
  - rewrite Hmn0. unfold NewAdaptiveBatchSizer. by zcases.
  - intros Hlen Hf. pose proof (flushes_fast _ _ Hok Hf) as Hg. fold s' in Hg. lia.
  - intros Hlen Hf. pose proof (flushes_slow _ _ Hok Hf) as Hg. fold s' in Hg. lia.
Qed.

(** ** What the code does not do *)

(** A success in the closed state does not clear the failures: two failures with
    a success between them open a breaker whose limit is two. *)
Lemma failures_need_not_be_consecutive :
  let cb := mkBreaker "c" 2 1 Second StateClosed 0 0 0 in
  let cb := (Execute 1 2 (Some (Sentinel "e")) cb).2 in
  let cb := (Execute 3 4 None cb).2 in
  state (Execute 5 6 (Some (Sentinel "e")) cb).2 = StateOpen.
Proof. reflexivity. Qed.

(** A delay below one nanosecond, or one that does not fit an [int64] when no
    maximum is configured, gives [rand.Int] a bound that is not positive. *)
Lemma FullJitter_panics :
  let half := fdiv (of_int 1) (of_int 2) in
  let cfg := mkBackoff 1 0 half 3 in
  Backoff_Validate cfg = Ok tt
  /\ @FullJitter (fun x _ => x) (fun _ => None) (fun _ => - 2 ^ 63) 1 cfg
     = Panic "crypto/rand: argument to Int is <= 0"
  /\ @FullJitter (fun x _ => of_int (2 ^ 70)) (fun _ => None) (fun _ => - 2 ^ 63) 70
       (mkBackoff 1 0 (of_int 2) 100)
     = Panic "crypto/rand: argument to Int is <= 0".
Proof. vm_compute. done. Qed.

(** ** Witnesses *)
Lemma CircuitBreaker_safety_witness :
  exists cb s, @NewCircuitBreaker (fun s => s) (fun _ => "") 0 (mkSettings "c" 2 0 1) = Ok cb
  /\ state (breaker s) = StateOpen
  /\ match state cb with
     | StateClosed =>
         (failures cb + Z.of_nat (countEv isFailure
            [EvEnter 1; EvEnter 2; EvLeave 3 (Some (Sentinel "e")); EvLeave 4 (Some (Sentinel "e"))])
          < orOne 2 -> state (breaker s) = StateClosed
          /\ failures (breaker s) = failures cb + Z.of_nat (countEv isFailure
            [EvEnter 1; EvEnter 2; EvLeave 3 (Some (Sentinel "e")); EvLeave 4 (Some (Sentinel "e"))]))
         /\ (forall pre t e,
             [EvEnter 1; EvEnter 2; EvLeave 3 (Some (Sentinel "e")); EvLeave 4 (Some (Sentinel "e"))]
               = pre ++ [EvLeave t (Some e)] ->
             failures cb + Z.of_nat (countEv isFailure
               [EvEnter 1; EvEnter 2; EvLeave 3 (Some (Sentinel "e")); EvLeave 4 (Some (Sentinel "e"))])
               = orOne 2 ->
             state (breaker s) = StateOpen /\ lastStateChg (breaker s) = t)
     | _ => True
     end.
Proof.
  eexists (mkBreaker "c" 2 1 Second StateClosed 0 0 0), _. split; [reflexivity|]. split; cycle 1.
  - apply (@CircuitBreaker_safety (fun s => s) (fun _ => "") (mkSettings "c" 2 0 1) 0
             (mkBreaker "c" 2 1 Second StateClosed 0 0 0) []
             (mkSys (mkBreaker "c" 2 1 Second StateClosed 0 0 0) 0 0)).
    + unfold Settings_ok; wunfold; simpl; lia.
    + reflexivity.
    + constructor.
    + eapply cb_cons; [eapply step_enter; [simpl; lia|reflexivity]|].
      eapply cb_cons; [eapply step_enter; [simpl; lia|reflexivity]|].
      eapply cb_cons; [eapply step_leave; [simpl; lia|reflexivity]|].
      eapply cb_cons; [eapply step_leave; [simpl; lia|reflexivity]|].
      constructor.
  - reflexivity.
Defined.

Lemma CircuitBreaker_recovers_witness :
  exists cb', probe [(3000000000, 3000000001)]
      (mkBreaker "c" 1 1 Second StateOpen 1 0 2)
    = ([None], cb') /\ state cb' = StateClosed.
Proof.
  apply (@CircuitBreaker_recovers (fun s => s) (fun _ => "") (mkSettings "c" 1 0 1) 0
           (mkBreaker "c" 1 1 Second StateClosed 0 0 0)
           [EvEnter 1; EvLeave 2 (Some (Sentinel "e"))]
           (mkSys (mkBreaker "c" 1 1 Second StateOpen 1 0 2) 0 2)
           [(3000000000, 3000000001)] 3000000000).
  - unfold Settings_ok; wunfold; simpl; lia.
  - unfold MaxInt64; simpl; lia.
  - reflexivity.
  - eapply cb_cons; [eapply step_enter; [simpl; lia|reflexivity]|].
    eapply cb_cons; [eapply (step_leave _ 2 _ 0); [simpl; lia|reflexivity]|].
    constructor.
  - simpl. unfold Second. lia.
  - simpl. lia.
  - simpl. unfold zlen. simpl. lia.
Defined.

Lemma Retry_spec_witness :
  let w := mkWorld (fun _ => None) (fun k => if k =? 2 then None else Some (Sentinel "e"))
                   (fun _ _ => None) in
  let cfg := mkBackoff 0 0 (of_int 2) 3 in
  @Retry (fun x _ => x) (fun _ => None) (fun _ => 0) w cfg = (Ok tt, 3)
  /\ (0 <= 3 <= MaxRetries cfg + 1
      /\ (forall k, 0 <= k < 3 - 1 -> opResult w k <> None)
      /\ (1 <= 3 /\ opResult w (3 - 1) = None)).
Proof.
  split; [vm_compute; reflexivity|].
  exact (@Retry_spec (fun x _ => x) (fun _ => None) (fun _ => 0)
           (mkWorld (fun _ => None) (fun k => if k =? 2 then None else Some (Sentinel "e"))
                    (fun _ _ => None))
           (mkBackoff 0 0 (of_int 2) 3) eq_refl).
Defined.

Lemma AdaptiveBatchSizer_bounded_witness :
  CurrentBatchSize (flushes [(0, 5); (0, 5)] (NewAdaptiveBatchSizer 100 200)) = 200.
Proof.
  destruct (AdaptiveBatchSizer_bounded 100 200 [] [(0, 5); (0, 5)]) as (_ & _ & H & _);
    [lia|lia|].
  apply H; [unfold zlen; simpl; lia|].
  repeat constructor; unfold fastFlush; simpl;
    unfold DefaultAdaptiveMaxHeapBytes, DefaultAdaptiveFastThreshold, Millisecond; lia.
Defined.
