(* ===== verification/Pipe.v ===== *)
(** * A reader goroutine and the worker that drains it

    The source functions read a slice or a page the same way
    ([internal/beam/partitions/partition_query_sdf.go],
    [internal/beam/paged_api/paged_api_sdf.go]): the reader's goroutine sends records
    and errors on two buffered channels and closes both; the worker first ranges over
    the records, emitting them, then over the errors, and returns the first one. *)
From S2P Require Import Prelude RecordModel.

(** What a reader sends. *)
Inductive sent := SentRec (r : GenericRecord) | SentErr (e : error).

(** [todo] is what is still to be sent; the worker first ranges over the records
    ([draining]), then over the errors. *)
Record pipe := mkPipe {
  todo : list sent; recBuf : list GenericRecord; errBuf : list error; chansClosed : bool;
  emitted : list GenericRecord; draining : bool; outcome : option (result unit) }.
Definition startPipe (outs : list sent) : pipe := mkPipe outs [] [] false [] true None.

Definition recordsOf (outs : list sent) : list GenericRecord :=
  concat (map (fun o => match o with SentRec r => [r] | SentErr _ => [] end) outs).
Definition errorsOf (outs : list sent) : list error :=
  concat (map (fun o => match o with SentErr e => [e] | SentRec _ => [] end) outs).

Section Pipe.
(** The capacities of the channels, and how the worker wraps the error it returns. *)
Context (recCap errCap : Z) (wrap : error -> error).

Inductive pipeStep : pipe -> pipe -> Prop :=
  | ps_sendRec r t rb eb em dr :
      zlen rb < recCap ->
      pipeStep (mkPipe (SentRec r :: t) rb eb false em dr None) (mkPipe t (rb ++ [r]) eb false em dr None)
  | ps_sendErr e t rb eb em dr :
      zlen eb < errCap ->
      pipeStep (mkPipe (SentErr e :: t) rb eb false em dr None) (mkPipe t rb (eb ++ [e]) false em dr None)
  | ps_close rb eb em dr :
      pipeStep (mkPipe [] rb eb false em dr None) (mkPipe [] rb eb true em dr None)
  | ps_emit t r rb eb cl em :
      pipeStep (mkPipe t (r :: rb) eb cl em true None) (mkPipe t rb eb cl (em ++ [r]) true None)
  | ps_drained t eb em :
      pipeStep (mkPipe t [] eb true em true None) (mkPipe t [] eb true em false None)
  | ps_error t rb e eb cl em :
      pipeStep (mkPipe t rb (e :: eb) cl em false None)
               (mkPipe t rb eb cl em false (Some (Err (wrap e))))
  | ps_done t rb em :
      pipeStep (mkPipe t rb [] true em false None) (mkPipe t rb [] true em false (Some (Ok tt))).

(** The worker reports the first error, if there was one. *)
Definition streamResult (errs : list error) : result unit :=
  match errs with [] => Ok tt | e :: _ => Err (wrap e) end.

Record pipeInv (outs : list sent) (s : pipe) : Prop := {
  pi_recs : recordsOf outs = emitted s ++ recBuf s ++ recordsOf (todo s);
  pi_errs : outcome s = None -> errorsOf outs = errBuf s ++ errorsOf (todo s);
  pi_cap : zlen (errBuf s) <= errCap;
  pi_closed : chansClosed s = true -> todo s = [];
  pi_drained : draining s = false -> chansClosed s = true /\ recBuf s = [];
  pi_outcome : forall r, outcome s = Some r ->
    emitted s = recordsOf outs /\ zlen (errorsOf outs) <= errCap /\ r = streamResult (errorsOf outs)
}.

Lemma startPipe_inv outs : 0 <= errCap -> pipeInv outs (startPipe outs).
Proof. by split. Qed.

Ltac pipe_cbn := cbn [todo recBuf errBuf chansClosed emitted draining outcome] in *.

Lemma pipeStep_inv outs s s' : pipeStep s s' -> pipeInv outs s -> pipeInv outs s'.
Proof.
  intros Hs [Hr He Hcap Hcl Hd Ho].
  destruct Hs; pipe_cbn; try specialize (He eq_refl); split; pipe_cbn; try done;
    try (intros Hx; destruct (Hd Hx); done).
  - by rewrite Hr, <- app_assoc.
  - intros _. by rewrite He, <- app_assoc.
  - rewrite zlen_app. unfold zlen at 2. simpl. lia.
  - by rewrite Hr, <- app_assoc.
  - unfold zlen in *. simpl in Hcap. lia.
  - destruct (Hd eq_refl) as [-> ->]. specialize (Hcl eq_refl). subst t.
    intros r [= <-]. rewrite He, Hr. simpl. rewrite !app_nil_r. done.
  - destruct (Hd eq_refl) as [_ ->]. specialize (Hcl eq_refl). subst t.
    intros r [= <-]. rewrite He, Hr. simpl. rewrite !app_nil_r. done.
Qed.

Lemma pipeSteps_inv outs s s' : rtc pipeStep s s' -> pipeInv outs s -> pipeInv outs s'.
Proof. induction 1; eauto using pipeStep_inv. Qed.

(** Every step makes the remaining work smaller, so no run is infinite. *)
Definition pipeWork (s : pipe) : nat :=
  2 * length (todo s) + length (recBuf s) + (if chansClosed s then 0 else 1)
  + (if draining s then 1 else 0) + (match outcome s with None => 1 | Some _ => 0 end).
Lemma pipeStep_work s s' : pipeStep s s' -> (pipeWork s' < pipeWork s)%nat.
Proof. destruct 1; unfold pipeWork; simpl; rewrite ?length_app; simpl; lia. Qed.
Lemma pipe_sn s : sn pipeStep s.
Proof.
  remember (pipeWork s) as n. revert s Heqn. induction (lt_wf n) as [n _ IH]. intros s ->.
  constructor. intros s' Hs. eapply IH; [|done]. by apply pipeStep_work in Hs.
Qed.

(** Unless an error finds its channel full, some goroutine can move. *)
Lemma pipe_progress outs s : 0 < recCap ->
  pipeInv outs s -> outcome s = None -> zlen (errorsOf outs) <= errCap ->
  exists s', pipeStep s s'.
Proof.
  intros Hrc [Hr He Hcap Hcl Hd Ho] Hn Hlen. destruct s as [t rb eb cl em dr oc]. pipe_cbn. subst oc.
  specialize (He eq_refl). destruct dr.
  - destruct rb as [|r rb]; [|eexists; constructor]. destruct cl; [eexists; constructor|].
    destruct t as [|[r|e] t]; eexists; constructor.
    + by unfold zlen.
    + rewrite He in Hlen. cbn in Hlen. rewrite zlen_app in Hlen. unfold zlen in Hlen at 2.
      simpl in Hlen. lia.
  - destruct (Hd eq_refl) as [-> ->]. destruct eb as [|e eb]; eexists; constructor.
Qed.

(** Every run is finite; while the errors fit their channel no run blocks before the
    worker returns, and it then has emitted every record, in order, and returns the
    first error; when they do not fit no run ever returns. *)
Lemma pipe_delivers outs s : 0 < recCap -> 0 <= errCap -> rtc pipeStep (startPipe outs) s ->
  sn pipeStep s
  /\ (zlen (errorsOf outs) <= errCap -> outcome s = None -> exists s', pipeStep s s')
  /\ (forall r, outcome s = Some r -> emitted s = recordsOf outs /\ r = streamResult (errorsOf outs))
  /\ (errCap < zlen (errorsOf outs) -> outcome s = None).
Proof.
  intros Hrc Hec Hs. pose proof (pipeSteps_inv outs _ _ Hs (startPipe_inv outs Hec)) as Hi.
  split; [apply pipe_sn|]. split; [intros; by eapply pipe_progress|].
  destruct Hi as [_ _ _ _ _ Ho]. split.
  - intros r Hr. by destruct (Ho r Hr) as (? & _ & ?).
  - intros Hc. destruct (outcome s) as [r|] eqn:E; [|done].
    destruct (Ho r eq_refl) as (_ & Hl & _). lia.
Qed.
End Pipe.
