(* ===== verification/BatchBuffer.v ===== *)
(** * The batch buffer of the sinks

    Models [internal/beam/core/batch_buffer.go]. The flush callback works on a state [S];
    [None] is a callback that has not returned. What a bundle passes to the callback is
    compared with the batches of the whole list ([batches]). *)
From S2P Require Import Prelude.

(** A slice of pointers has at most [2 ^ 48 / 8] cells. *)
Definition maxCells : Z := 2 ^ 45.
Definition makeItems {T} (n : Z) : result (list T) :=
  if maxCells <? n then Panic "runtime error: makeslice: cap out of range" else Ok [].

Record BatchBuffer (T : Type) := mkBuffer { bb_size : Z; bb_items : list T }.
Arguments mkBuffer {T} _ _.
Arguments bb_size {T} _.
Arguments bb_items {T} _.

Section Buffer.
Context {T S : Type}.
Implicit Types b : BatchBuffer T.
Abbreviation callback := (list T -> S -> option (result unit * S)).

Definition NewBundleBatchBuffer (batchSize : Z) : result (BatchBuffer T) :=
  let n := if batchSize <=? 0 then 100 else batchSize in
  mkBuffer n <$> makeItems n.
(** The capacity only tells whether the slice is made anew; a slice that would be too
    long has never been made. *)
Definition Reset (b : BatchBuffer T) (batchSize : Z) : result (BatchBuffer T) :=
  let n := if 0 <? batchSize then batchSize else bb_size b in
  mkBuffer n <$> makeItems n.
Definition SetBatchSize (b : BatchBuffer T) (size : Z) : BatchBuffer T :=
  if 0 <? size then mkBuffer size (bb_items b) else b.
Definition TargetBatchSize (b : BatchBuffer T) : Z := bb_size b.
Definition Count (b : BatchBuffer T) : Z := zlen (bb_items b).
Definition Items (b : BatchBuffer T) : list T := bb_items b.

Definition Flush (flushFn : option callback) (b : BatchBuffer T) (s : S)
    : option (result unit * BatchBuffer T * S) :=
  let cleared := mkBuffer (bb_size b) [] in
  match bb_items b with
  | [] => Some (Ok tt, b, s)
  | items =>
      match flushFn with
      | None => Some (Ok tt, cleared, s)
      | Some f =>
          match f items s with
          | None => None
          | Some (Ok _, s) => Some (Ok tt, cleared, s)
          | Some (r, s) => Some (r, b, s)
          end
      end
  end.
Definition Add (flushFn : option callback) (b : BatchBuffer T) (item : T) (s : S)
    : option (result unit * BatchBuffer T * S) :=
  let b := mkBuffer (bb_size b) (bb_items b ++ [item]) in
  if bb_size b <=? zlen (bb_items b) then Flush flushFn b s else Some (Ok tt, b, s).

(** A bundle: every item, then what remains; the first error ends it. *)
Fixpoint addItems (flushFn : option callback) (b : BatchBuffer T) (items : list T) (s : S)
    : option (result unit * BatchBuffer T * S) :=
  match items with
  | [] => Some (Ok tt, b, s)
  | x :: items' =>
      match Add flushFn b x s with
      | Some (Ok _, b, s) => addItems flushFn b items' s
      | r => r
      end
  end.
Definition runBuffer (flushFn : option callback) (b : BatchBuffer T) (items : list T) (s : S)
    : option (result unit * BatchBuffer T * S) :=
  match addItems flushFn b items s with
  | Some (Ok _, b, s) => Flush flushFn b s
  | r => r
  end.
End Buffer.

(** ** The reference: the callback on each batch of the list *)
Definition batches {T} (k : nat) (l : list T) : list (list T) :=
  map (fun i => take k (drop (i * k) l)) (seq 0 ((length l + k - 1) / k)).
Fixpoint flushEach {T S} (f : list T -> S -> option (result unit * S)) (bs : list (list T)) (s : S)
    : option (result unit * S) :=
  match bs with
  | [] => Some (Ok tt, s)
  | b :: bs' =>
      match f b s with
      | Some (Ok _, s) => flushEach f bs' s
      | r => r
      end
  end.

Example batches_ex : batches 2 [1; 2; 3; 4; 5] = [[1; 2]; [3; 4]; [5]].
Proof. reflexivity. Qed.

(** ** Lemmas *)
Lemma batches_nil {T} k : batches k (@nil T) = [].
Proof.
  unfold batches. simpl length. destruct k as [|k]; [done|]. by rewrite Nat.div_small by lia.
Qed.
Lemma batches_app {T} k (l l' : list T) : length l = k -> (0 < k)%nat -> batches k (l ++ l') = l :: batches k l'.
Proof.
  intros Hl Hk. unfold batches. rewrite length_app, Hl.
  replace (k + length l' + k - 1)%nat with (1 * k + (length l' + k - 1))%nat by lia.
  rewrite Nat.div_add_l by lia. cbn [seq map Nat.add]. f_equal.
  - rewrite Nat.mul_0_l, drop_0. by rewrite take_app_le, take_ge by lia.
  - rewrite <- seq_shift, map_map. apply map_ext. intros i. f_equal.
    rewrite Nat.mul_succ_l, Nat.add_comm, <- drop_drop. by rewrite drop_app_length' by done.
Qed.
Lemma batches_small {T} k (l : list T) : (0 < length l <= k)%nat -> batches k l = [l].
Proof.
  intros Hl. unfold batches. replace ((length l + k - 1) / k)%nat with 1%nat.
  - cbn [seq map]. by rewrite Nat.mul_0_l, drop_0, take_ge by lia.
  - apply Nat.div_unique with (length l - 1)%nat; lia.
Qed.

(** The batches are the list, cut in pieces that are not empty and, but for the last,
    full. *)
Lemma batches_spec {T} k (l : list T) : (0 < k)%nat ->
  concat (batches k l) = l
  /\ Forall (fun b => 0 < length b <= k)%nat (batches k l)
  /\ forall b c bs', batches k l = bs' ++ [b] ++ c -> c <> [] -> length b = k.
Proof.
  intros Hk. remember (length l) as n eqn:Hn. revert l Hn.
  induction (lt_wf n) as [n _ IH]. intros l ->.
  destruct (Nat.le_gt_cases (length l) k) as [Hs|Hb].
  - destruct l as [|x l]; [rewrite batches_nil; split_and!; [done..|]; intros b c [|] E; discriminate|].
    rewrite batches_small by (simpl in *; lia). simpl concat. rewrite app_nil_r.
    split_and!; [done|apply Forall_singleton; simpl in *; lia|].
    intros b c [|? [|]] E Hc; [|discriminate|discriminate]. by injection E as _ <-.
  - rewrite <- (take_drop k l). rewrite batches_app by (rewrite ?length_take; lia).
    destruct (IH (length (drop k l)) ltac:(rewrite length_drop; lia) (drop k l) eq_refl) as (E1 & E2 & E3).
    split_and!.
    + cbn [concat]. by rewrite E1.
    + constructor; [rewrite length_take; lia|done].
    + intros b c [|b' bs'] E Hc; [injection E as <- _; rewrite length_take; lia|].
      injection E as _ E. by apply (E3 b c bs').
Qed.

Section BufferFacts.
Context {T S : Type} (f : list T -> S -> option (result unit * S)).

Lemma addAll_batches items : forall b s, 0 < bb_size b -> zlen (bb_items b) < bb_size b ->
  (fun '(r, _, s) => (r, s)) <$> runBuffer (Some f) b items s
  = flushEach f (batches (Z.to_nat (bb_size b)) (bb_items b ++ items)) s.
Proof.
  induction items as [|x items IH]; intros [k its] s Hk Hits; simpl in Hk, Hits; unfold runBuffer; cbn [addItems].
  - rewrite app_nil_r. simpl bb_size. simpl bb_items. unfold Flush. cbn [bb_items].
    destruct its as [|y its]; [by rewrite batches_nil|].
    rewrite batches_small by (unfold zlen in Hits; simpl in *; lia). simpl.
    by destruct (f (y :: its) s) as [[[[]| |] s']|].
  - cbn [bb_items bb_size]. unfold Add. cbn [bb_items bb_size].
    destruct (Z.leb_spec k (zlen (its ++ [x]))) as [Hfull|Hroom].
    + assert (length (its ++ [x]) = Z.to_nat k) as Hl.
      { rewrite zlen_app in Hfull. unfold zlen in *. rewrite length_app. simpl in *. lia. }
      replace (its ++ x :: items) with ((its ++ [x]) ++ items) by (by rewrite <- app_assoc).
      rewrite batches_app by lia. unfold Flush. cbn [bb_items bb_size flushEach].
      destruct (its ++ [x]) as [|y l] eqn:El; [by destruct its|]. rewrite <- El in *.
      destruct (f (its ++ [x]) s) as [[[[]|e|m] s']|]; try done.
      apply (IH (mkBuffer k []) s'); simpl; [done|by unfold zlen].
    + change (its ++ x :: items) with (its ++ [x] ++ items). rewrite app_assoc.
      by apply (IH (mkBuffer k (its ++ [x])) s).
Qed.
End BufferFacts.

(** ** Properties *)

(** A bundle that goes through a reset buffer hands the callback exactly the batches
    of its items: their concatenation is the items in order, none is empty, all but the
    last have the target size; it stops at the first error, returns it, and leaves the
    state the callback left. *)
Theorem BatchBuffer_batches {T S : Type} (f : list T -> S -> option (result unit * S))
    (b0 b : BatchBuffer T) (n : Z) (items : list T) (s : S) :
  0 < bb_size b0 -> Reset b0 n = Ok b ->
  let k := Z.to_nat (bb_size b) in
  (fun '(r, _, s) => (r, s)) <$> runBuffer (Some f) b items s = flushEach f (batches k items) s
  /\ concat (batches k items) = items
  /\ Forall (fun batch => 0 < length batch <= k)%nat (batches k items)
  /\ forall batch rest pre, batches k items = pre ++ [batch] ++ rest -> rest <> [] -> length batch = k.
Proof.
  intros H0 Hr k. assert (0 < bb_size b /\ bb_items b = []) as [Hk Hi].
  { unfold Reset, makeItems in Hr. destruct (maxCells <? _); [discriminate|]. injection Hr as <-. cbn [bb_size bb_items].
    split; [|done]. destruct (Z.ltb_spec 0 n); lia. }
  split; [|apply batches_spec; lia].
  rewrite addAll_batches by (rewrite ?Hi; done). by rewrite Hi.
Qed.

Definition sampleFlush (b : list Z) (log : list (list Z)) : option (result unit * list (list Z)) :=
  Some (if bool_decide (4 ∈ b) then (Err (Sentinel "refused"), log) else (Ok tt, log ++ [b])).
Lemma BatchBuffer_batches_witness :
  (fun '(r, _, s) => (r, s)) <$> runBuffer (Some sampleFlush) (mkBuffer 3 []) [1; 2; 3; 4; 5; 6; 7] []
  = Some (Err (Sentinel "refused"), [[1; 2; 3]]).
Proof.
  destruct (BatchBuffer_batches sampleFlush (mkBuffer 5 [9]) (mkBuffer 3 []) 3 [1; 2; 3; 4; 5; 6; 7] []) as [E _];
    [reflexivity|reflexivity|]. rewrite E. vm_compute. reflexivity.
Defined.
