(* ===== verification/SqlSource.v ===== *)
(** * Relational sources

    Models [internal/ports/partition.go], [internal/adapters/partitions/sql]
    ([range_slicer.go], [generic_sql_source.go], [type_mapper.go],
    [factory.go]) and [internal/beam/partitions/partition_query_sdf.go]: how a
    table is cut in key ranges, which query each worker runs, how rows become
    records, and the two goroutines that stream them. ([SliceWire.v] puts the
    slices, the coder they travel through and the workers' queries together.)

    [K] is the type of the partition key as the driver returns it ([any]); a nil
    bound is [None]. The database, with its driver, is given: running a query
    returns its rows and the error that ended them. *)
From S2P Require Import Prelude GoStr Float64 Schema Intern RecordModel Watermark Config Trackers Resilience Pipe.

(** ** Slices *)
Record PartitionSlice (K : Type) := mkSlice {
  SliceIndex : Z; LowerBound : option K; UpperBound : option K; IsFirst : bool; IsLast : bool;
  Metadata : gmap string string }.
Arguments mkSlice {K} _ _ _ _ _ _.
Arguments SliceIndex {K} _.
Arguments LowerBound {K} _.
Arguments UpperBound {K} _.
Arguments IsFirst {K} _.
Arguments IsLast {K} _.
Arguments Metadata {K} _.

Record RawBucket (K : Type) := mkBucket { BucketID : Z; Lower : option K; Upper : option K }.
Arguments mkBucket {K} _ _ _.
Arguments BucketID {K} _.
Arguments Lower {K} _.
Arguments Upper {K} _.

(** The whole table as one slice. *)
Definition singleSlice {K} : PartitionSlice K := mkSlice 0 None None true true ∅.

Definition BuildUniversalBoundsQuery (baseQuery col : string) (batchSize : Z) : string :=
  "SELECT bucket_id, MIN(" +:+ col +:+ ") AS lower_bound, MAX(" +:+ col
  +:+ ") AS upper_bound, COUNT(*) AS row_count FROM (SELECT " +:+ col
  +:+ ", CEIL(ROW_NUMBER() OVER (ORDER BY " +:+ col +:+ ") / " +:+ FormatInt batchSize
  +:+ ".0) AS bucket_id FROM (" +:+ TrimSpace baseQuery
  +:+ ") AS _user_subq) AS _ranked GROUP BY bucket_id ORDER BY bucket_id".

Definition isNone {A} (o : option A) : bool := match o with None => true | _ => false end.

Definition BuildWorkerSliceQuery {K} (baseQuery col : string) (slice : PartitionSlice K)
    (isDollarStyle : bool) : string * list (option K) :=
  let trimmed := TrimSpace baseQuery in
  if (IsFirst slice && IsLast slice) || (isNone (LowerBound slice) && isNone (UpperBound slice))
  then ("SELECT * FROM (" +:+ trimmed +:+ ") AS _user_subq", [])
  else
    let p1 := if isDollarStyle then "$1" else "?" in
    let p2 := if isDollarStyle then "$2" else "?" in
    if IsLast slice then
      ("SELECT * FROM (" +:+ trimmed +:+ ") AS _user_subq WHERE " +:+ col +:+ " >= " +:+ p1
       +:+ " ORDER BY " +:+ col, [LowerBound slice])
    else
      ("SELECT * FROM (" +:+ trimmed +:+ ") AS _user_subq WHERE " +:+ col +:+ " >= " +:+ p1
       +:+ " AND " +:+ col +:+ " < " +:+ p2 +:+ " ORDER BY " +:+ col,
       [LowerBound slice; UpperBound slice]).

(** The slices from index [i] on: the upper bound of a bucket is the lower bound
    of the next one. *)
Fixpoint slicesFrom {K} (i : Z) (buckets : list (RawBucket K)) : list (PartitionSlice K) :=
  match buckets with
  | [] => []
  | b :: bs =>
      let isLast := match bs with [] => true | _ => false end in
      let upper := match bs with [] => Upper b | b' :: _ => Lower b' end in
      mkSlice i (Lower b) upper (i =? 0) isLast ∅ :: slicesFrom (i + 1) bs
  end.
Definition ConstructContiguousSlices {K} (buckets : list (RawBucket K)) : list (PartitionSlice K) :=
  match buckets with [] => [singleSlice] | _ => slicesFrom 0 buckets end.

(** ** Scan targets ([type_mapper.go]) *)
Inductive scanTarget :=
  | NullInt64 (v : option Z)
  | NullFloat64 (v : option float64)
  | NullBool (v : option bool)
  | NullTime (v : option Z)
  | RawBytes (v : option (list byte))
  | NullString (v : option string).

Definition newTarget (f : Field) : scanTarget :=
  if FType f =s TypeInt64 then NullInt64 None
  else if FType f =s TypeFloat64 then NullFloat64 None
  else if FType f =s TypeBool then NullBool None
  else if FType f =s TypeTimestamp then NullTime None
  else if FType f =s TypeBytes then RawBytes None
  else NullString None.
Definition NewScanTargetHolder (schema : Schema) : list scanTarget := map newTarget (Fields schema).

(** A column of the record; the type assertion on its target may panic. *)
Definition mapColumn (targets : list scanTarget) (i : Z) (f : Field) (rec : GenericRecord) (pool : Pool)
    : result (GenericRecord * Pool) :=
  let keep r := (fun x => (x, pool)) <$> r in
  let badTarget := Panic "interface conversion: interface {} holds another type" in
  t ← go_index targets i;
  if FType f =s TypeInt64 then
    match t with
    | NullInt64 None => keep (SetNull rec i TypeInt64)
    | NullInt64 (Some v) => keep (SetInt64 rec i v)
    | _ => badTarget
    end
  else if FType f =s TypeFloat64 then
    match t with
    | NullFloat64 None => keep (SetNull rec i TypeFloat64)
    | NullFloat64 (Some v) => keep (SetFloat64 rec i v)
    | _ => badTarget
    end
  else if FType f =s TypeBool then
    match t with
    | NullBool None => keep (SetNull rec i TypeBool)
    | NullBool (Some v) => keep (SetBool rec i v)
    | _ => badTarget
    end
  else if FType f =s TypeTimestamp then
    match t with
    | NullTime None => keep (SetNull rec i TypeTimestamp)
    | NullTime (Some v) => keep (SetTimestamp rec i v)
    | _ => badTarget
    end
  else if FType f =s TypeBytes then
    match t with
    | RawBytes None => keep (SetNull rec i TypeBytes)
    | RawBytes (Some v) => keep (SetBytes rec i v)
    | _ => badTarget
    end
  else
    match t with
    | NullString None => keep (SetNull rec i TypeString)
    | NullString (Some v) => let '(r, p) := SetString pool rec i v in (fun x => (x, p)) <$> r
    | _ => badTarget
    end.

Fixpoint mapColumns (targets : list scanTarget) (i : Z) (fs : list Field) (rec : GenericRecord)
    (pool : Pool) : result (GenericRecord * Pool) :=
  match fs with
  | [] => Ok (rec, pool)
  | f :: fs' => '(rec, pool) ← mapColumn targets i f rec pool; mapColumns targets (i + 1) fs' rec pool
  end.

(** [now] is the text of [time.Now().UTC().Format(time.RFC3339)]. *)
Definition ExtractRecord (now : string) (targets : list scanTarget) (schema : Schema) (pool : Pool)
    : result (GenericRecord * Pool) :=
  '(rec, pool) ← mapColumns targets 0 (Fields schema)
                   (NewGenericRecord "sql-schema" (length (Fields schema))) pool;
  Ok (mkGenericRecord (SchemaID rec) (Values rec) (<["_ingested_at" := now]> (AuditFields rec)), pool).

(** ** The source *)
Record SqlDB (K R : Type) := mkDB {
  QueryContext : string -> list (option K) -> result (list R * option error);
  scanBounds : R -> result (RawBucket K);
  scanRow : R -> list scanTarget -> result (list scanTarget)
}.
Arguments mkDB {K R} _ _ _.
Arguments QueryContext {K R} _ _ _.
Arguments scanBounds {K R} _ _.
Arguments scanRow {K R} _ _ _.

Definition supportedDrivers : list string := ["postgres"; "pgx"; "cockroach"; "mysql"; "mariadb"].
Definition isDollarStyle `{UnicodeLower} (driver : string) : bool :=
  let d := ToLower (TrimSpace driver) in (d =s "postgres") || (d =s "pgx") || (d =s "cockroach").

Record GenericSQLSource (K R : Type) := mkSource {
  db : option (SqlDB K R); dollarStyle : bool; cb : option CircuitBreaker }.
Arguments mkSource {K R} _ _ _.
Arguments db {K R} _.
Arguments dollarStyle {K R} _.
Arguments cb {K R} _.

Definition DefaultDatabaseCircuitBreakerFails : Z := 5.
Definition NewGenericSQLSource `{GoQuote, GoDuration} {K R} (now : Z) (d : option (SqlDB K R))
    (dollar : bool) : GenericSQLSource K R :=
  mkSource d dollar
    (match NewCircuitBreaker now (mkSettings "sql-source-cb" DefaultDatabaseCircuitBreakerFails
             (DefaultCircuitBreakerTimeoutMs * Millisecond) 0) with
     | Ok b => Some b | _ => None end).
Definition NewSQLReader `{UnicodeLower, GoQuote, GoDuration} {K R} (now : Z) (driver : string)
    (d : option (SqlDB K R)) : result (GenericSQLSource K R) :=
  let dr := ToLower (TrimSpace driver) in
  if negb (existsb (String.eqb dr) supportedDrivers)
  then Err (Errorf ("unsupported database driver: " +:+ Quote driver) [])
  else Ok (NewGenericSQLSource now d (isDollarStyle dr)).

Section Source.
Context {K R : Type} `{UnicodeLower, GoQuote, GoTimeParseZ, GoParseFloat, GoFormatFloat}.

Definition withBreaker (s : GenericSQLSource K R) (b : CircuitBreaker) : GenericSQLSource K R :=
  mkSource (db s) (dollarStyle s) (Some b).

(** The instants at which a call enters the critical sections of the breaker. *)
Record callTimes := mkTimes { tState : Z; tEnter : Z; tLeave : Z }.

Definition queryWithCircuitBreaker (ts : callTimes) (s : GenericSQLSource K R) (query : string)
    (args : list (option K)) : result (list R * option error) * GenericSQLSource K R :=
  match db s with
  | None => (Err (Errorf "database connection is not initialized" []), s)
  | Some d =>
      let r := QueryContext d query args in
      match cb s with
      | None => (r, s)
      | Some b =>
          let '(e, b') := Execute (tEnter ts) (tLeave ts) (match r with Err e => Some e | _ => None end) b in
          (match e with Some e => Err e | None => r end, withBreaker s b')
      end
  end.

(** The breaker's state is read first; an open breaker refuses the call. *)
Definition breakerOpen (ts : callTimes) (s : GenericSQLSource K R) : bool * GenericSQLSource K R :=
  match cb s with
  | None => (false, s)
  | Some b => let '(st, b') := readState (tState ts) b in (bool_decide (st = StateOpen), withBreaker s b')
  end.

Fixpoint scanRawBuckets (d : SqlDB K R) (rows : list R) (endErr : option error)
    : result (list (RawBucket K)) :=
  match rows with
  | [] => match endErr with
          | Some e => Err (Errorf ("bounds rows iteration error: " +:+ Error e) [e])
          | None => Ok []
          end
  | r :: rows' =>
      b ← wrapErr "failed scanning bounds row: " (scanBounds d r);
      bs ← scanRawBuckets d rows' endErr;
      Ok (b :: bs)
  end.

Definition CalculateSlices (ts : callTimes) (s : GenericSQLSource K R) (cfg : DatabaseSourceConfig)
    : result (list (PartitionSlice K)) * GenericSQLSource K R :=
  let '(open, s) := breakerOpen ts s in
  if open then (Err ErrCircuitOpen, s)
  else
    let col := TrimSpace (PartitionColumn (DbPartition cfg)) in
    if col =s "" then (Ok [singleSlice], s)
    else match EffectiveQuery cfg with
    | Panic m => (Panic m, s)
    | Err e => (Err (Errorf ("failed resolving effective query: " +:+ Error e) [e]), s)
    | Ok effQuery =>
        let '(q, s) := queryWithCircuitBreaker ts s
                         (BuildUniversalBoundsQuery effQuery col (BatchSize (DbPartition cfg))) [] in
        match q, db s with
        | Err e, _ => (Err (Errorf ("failed executing universal bounds query: " +:+ Error e) [e]), s)
        | Panic m, _ => (Panic m, s)
        | Ok (rows, endErr), Some d =>
            (ConstructContiguousSlices <$> scanRawBuckets d rows endErr, s)
        | Ok _, None => (Ok [], s)
        end
    end.

(** What a worker's reader sends: a record or an error per row, and the error
    that ended the rows. *)
Fixpoint streamRows (d : SqlDB K R) (now : string) (schema : Schema) (rows : list R)
    (endErr : option error) (targets : list scanTarget) (pool : Pool) : result (list sent) :=
  match rows with
  | [] => Ok (match endErr with
              | Some e => [SentErr (Errorf ("rows iteration error: " +:+ Error e) [e])]
              | None => [] end)
  | r :: rows' =>
      match scanRow d r targets with
      | Panic m => Panic m
      | Err e =>
          (cons (SentErr (Errorf ("scan error: " +:+ Error e) [e]))) <$>
            streamRows d now schema rows' endErr targets pool
      | Ok targets' =>
          match ExtractRecord now targets' schema pool with
          | Panic m => Panic m
          | Err e => (cons (SentErr e)) <$> streamRows d now schema rows' endErr targets' pool
          | Ok (rec, pool') =>
              (cons (SentRec rec)) <$> streamRows d now schema rows' endErr targets' pool'
          end
      end
  end.

(** The rows the query of a slice returns. *)
Definition readSliceRows (ts : callTimes) (s : GenericSQLSource K R) (cfg : DatabaseSourceConfig)
    (slice : PartitionSlice K) : result (list R * option error) * GenericSQLSource K R :=
  let '(open, s) := breakerOpen ts s in
  if open then (Err ErrCircuitOpen, s)
  else
    let col := TrimSpace (PartitionColumn (DbPartition cfg)) in
    match EffectiveQuery cfg with
    | Panic m => (Panic m, s)
    | Err e => (Err (Errorf ("failed resolving effective query: " +:+ Error e) [e]), s)
    | Ok effQuery =>
        let '(query, args) := BuildWorkerSliceQuery effQuery col slice (dollarStyle s) in
        let '(q, s) := queryWithCircuitBreaker ts s query args in
        match q with
        | Err e => (Err (Errorf ("failed executing slice query: " +:+ Error e) [e]), s)
        | r => (r, s)
        end
    end.
Definition ReadSlice (ts : callTimes) (now : string) (s : GenericSQLSource K R)
    (cfg : DatabaseSourceConfig) (slice : PartitionSlice K) (pool : Pool)
    : result (list sent) * GenericSQLSource K R :=
  let '(r, s) := readSliceRows ts s cfg slice in
  match r, db s with
  | Ok (rows, endErr), Some d =>
      (streamRows d now (DbSchema cfg) rows endErr (NewScanTargetHolder (DbSchema cfg)) pool, s)
  | Ok _, None => (Ok [], s)
  | Err e, _ => (Err e, s)
  | Panic m, _ => (Panic m, s)
  end.
End Source.

(** ** [PartitionQuerySourceSDF] *)
Definition PQ_CreateInitialRestriction : OffsetRange := mkRange 0 1.
Definition PQ_SplitRestriction (rest : OffsetRange) : list OffsetRange := [rest].
(** [batch] is the configured batch size, when there is a configuration. *)
Definition PQ_RestrictionSize (batch : option Z) (rest : OffsetRange) : float64 :=
  if End_ rest <? Start rest then of_int 0
  else
    let batchSize := match batch with
                     | Some b => if 0 <? b then of_int b else of_int DefaultDatabaseBatchSize
                     | None => of_int DefaultDatabaseBatchSize
                     end in
    fmul batchSize (of_int (i64 (End_ rest - Start rest))).
Definition PQ_CreateTracker (rest : OffsetRange) : Partition.Tracker :=
  Partition.NewPartitionRangeTracker rest.

(** The goroutine of [streamRows] and the loops of [ProcessElement] share two
    channels of capacity 100 ([Pipe.v]). *)
Definition chanCap : Z := 100.
Definition sliceError (idx : Z) (e : error) : error :=
  Errorf ("error in partition slice " +:+ FormatInt idx +:+ ": " +:+ Error e) [e].
Definition slicePipe (idx : Z) : pipe -> pipe -> Prop := pipeStep chanCap chanCap (sliceError idx).

(** [ProcessElement] up to the loops: it returns at once, or leaves the channels
    of the reader to be drained. *)
Definition PQ_ProcessElement (tracker : Partition.Tracker) (idx : Z)
    (readPartition : option (result (list sent))) : (result unit + pipe) * Partition.Tracker :=
  let '(ok, tracker) := Partition.TryClaim tracker (RawInt 0) in
  if negb ok then (inl (Ok tt), tracker)
  else match readPartition with
  | None => (inl (Err (Errorf "PartitionQuerySourceSDF: reader not initialized — Setup() must run before ProcessElement" [])), tracker)
  | Some (Err e) =>
      (inl (Err (Errorf ("failed reading partition slice " +:+ FormatInt idx +:+ ": " +:+ Error e) [e])), tracker)
  | Some (Panic m) => (inl (Panic m), tracker)
  | Some (Ok outs) => (inr (startPipe outs), tracker)
  end.

(** ** Lemmas: cutting a table in ranges *)

(** [x] is counted once on the left when [p] is the exclusive or of [q] and [r]. *)
Lemma filter_xor {A} (p q r : A -> bool) (l : list A) :
  (forall x, p x = xorb (q x) (r x)) -> (forall x, q x && r x = false) ->
  List.filter q l ++ List.filter r l ≡ₚ List.filter p l.
Proof.
  intros Hp Hd. induction l as [|x l IH]; [done|]. simpl. specialize (Hd x). rewrite (Hp x).
  destruct (q x), (r x); simpl in *; try done.
  - by rewrite IH.
  - by rewrite <- IH, Permutation_middle.
Qed.

Section Ranges.
Context {K R : Type} (keyOf : R -> option K) (leb : K -> K -> bool).
Context (leb_total : forall a b, leb a b = true \/ leb b a = true).
Context (leb_trans : forall a b c, leb a b = true -> leb b c = true -> leb a c = true).

(** [col >= lo] and [col >= lo AND col < hi]: false on NULLs. *)
Definition geKey (lo : option K) (r : R) : bool :=
  match lo, keyOf r with Some a, Some k => leb a k | _, _ => false end.
Definition inRange (lo hi : option K) (r : R) : bool :=
  geKey lo r && match hi, keyOf r with Some b, Some k => negb (leb b k) | _, _ => false end.

(** What a slice selects of a table. *)
Definition sliceRows (T : list R) (s : PartitionSlice K) : list R :=
  if (IsFirst s && IsLast s) || (isNone (LowerBound s) && isNone (UpperBound s)) then T
  else if IsLast s then List.filter (geKey (LowerBound s)) T
  else List.filter (inRange (LowerBound s) (UpperBound s)) T.

Lemma leb_refl a : leb a a = true.
Proof. by destruct (leb_total a a). Qed.

Lemma range_then_rest a b T :
  leb a b = true ->
  List.filter (inRange (Some a) (Some b)) T ++ List.filter (geKey (Some b)) T
  ≡ₚ List.filter (geKey (Some a)) T.
Proof.
  intros Hab. apply filter_xor; intros r; unfold inRange, geKey; destruct (keyOf r) as [k|]; try done.
  - destruct (leb b k) eqn:E; simpl; [rewrite (leb_trans a b k) by done; done|].
    by rewrite andb_true_r, xorb_false_r.
  - by destruct (leb a k), (leb b k).
Qed.

(** Buckets with lower bounds, in order. *)
Definition bucketOk (b : RawBucket K) : Prop := exists lo, Lower b = Some lo.
Fixpoint lowersSorted (bs : list (RawBucket K)) : Prop :=
  match bs with
  | b :: ((b' :: _) as bs') =>
      (exists lo lo', Lower b = Some lo /\ Lower b' = Some lo' /\ leb lo lo' = true) /\ lowersSorted bs'
  | [b] => bucketOk b
  | [] => True
  end.

Lemma slicesFrom_rows T i bs b :
  0 < i -> lowersSorted (b :: bs) ->
  concat (map (sliceRows T) (slicesFrom i (b :: bs))) ≡ₚ List.filter (geKey (Lower b)) T.
Proof.
  intros Hi. revert i b Hi. induction bs as [|b' bs IH]; intros i b Hi Hs.
  - destruct Hs as [lo Hlo]. cbn [slicesFrom map concat]. unfold sliceRows. simpl.
    rewrite (proj2 (Z.eqb_neq i 0)) by lia. rewrite Hlo. simpl. by rewrite app_nil_r.
  - destruct Hs as [(lo & lo' & E1 & E2 & Hle) Hs].
    change (slicesFrom i (b :: b' :: bs))
      with (mkSlice i (Lower b) (Lower b') (i =? 0) false ∅ :: slicesFrom (i + 1) (b' :: bs)).
    cbn [map concat]. rewrite (IH (i + 1) b') by (done || lia).
    unfold sliceRows. simpl. rewrite andb_false_r, E1, E2. simpl. by apply range_then_rest.
Qed.

(** Every row not below the first lower bound is in exactly one slice. *)
Lemma ConstructContiguousSlices_rows T b b' bs :
  lowersSorted (b :: b' :: bs) ->
  concat (map (sliceRows T) (ConstructContiguousSlices (b :: b' :: bs)))
  ≡ₚ List.filter (geKey (Lower b)) T.
Proof.
  intros [(lo & lo' & E1 & E2 & Hle) Hs].
  change (ConstructContiguousSlices (b :: b' :: bs))
    with (mkSlice 0 (Lower b) (Lower b') true false ∅ :: slicesFrom 1 (b' :: bs)).
  cbn [map concat]. rewrite slicesFrom_rows by (done || lia).
  unfold sliceRows. simpl. rewrite E1, E2. simpl. by apply range_then_rest.
Qed.

(** The buckets a database returns for the bounds query over sorted keys: rank
    [k] is in bucket [CEIL(k / n)]. *)
Fixpoint windows (fuel : nat) (id : Z) (n : nat) (ks : list K) : list (RawBucket K) :=
  match fuel, ks with
  | S f, _ :: _ =>
      mkBucket id (head (take n ks)) (last (take n ks)) :: windows f (id + 1) n (drop n ks)
  | _, _ => []
  end.
Definition windowBuckets (n : nat) (ks : list K) : list (RawBucket K) := windows (length ks) 1 n ks.

Definition keysSorted : list K -> Prop := StronglySorted (fun a b => leb a b = true).

Lemma windows_head fuel id n k ks :
  exists bs up, windows (S fuel) id (S n) (k :: ks) = mkBucket id (Some k) up :: bs.
Proof. simpl. eauto. Qed.

Lemma windows_sorted fuel id n ks :
  (length ks <= fuel)%nat -> keysSorted ks -> lowersSorted (windows fuel id (S n) ks).
Proof.
  revert id ks. induction fuel as [|f IH]; intros id ks Hl Hs; [by destruct ks; [|simpl in Hl; lia]|].
  destruct ks as [|k ks]; [done|]. cbn [windows take head].
  specialize (IH (id + 1) (drop n ks)). cbn [drop].
  assert (keysSorted (drop n ks)) as Hd.
  { inversion Hs; subst. clear -H1. revert ks H1. induction n as [|n IHn]; intros ks Hk; [by rewrite drop_0|].
    destruct ks as [|x ks]; [done|]. simpl. inversion Hk; subst. by apply IHn. }
  specialize (IH ltac:(rewrite length_drop; simpl in Hl; lia) Hd).
  destruct (drop n ks) as [|k' ks'] eqn:E.
  - destruct f; simpl; by eexists.
  - destruct f as [|f]; [simpl in Hl; apply (f_equal length) in E; rewrite length_drop in E; simpl in E; lia|].
    destruct (windows_head f (id + 1) n k' ks') as (bs & up & Ew). rewrite Ew in *.
    split; [|done]. exists k, k'. split_and!; [done|done|]. inversion Hs; subst.
    rewrite Forall_forall in H2. apply H2. apply list_elem_of_lookup.
    exists (n + 0)%nat. rewrite <- lookup_drop, E. done.
Qed.
End Ranges.

(** ** The database

    What the code relies on for one base query [q] and key column [col]: the three
    shapes of slice query return the rows of the table [T] at the time of the read
    that satisfy their predicate, once each. *)
Record readsTable {K R} (keyOf : R -> option K) (leb : K -> K -> bool) (d : SqlDB K R)
    (q col : string) (dollar : bool) (T : list R) : Prop := {
  rt_all : exists rows,
    QueryContext d ("SELECT * FROM (" +:+ q +:+ ") AS _user_subq") [] = Ok (rows, None) /\ rows ≡ₚ T;
  rt_from lo : exists rows,
    QueryContext d ("SELECT * FROM (" +:+ q +:+ ") AS _user_subq WHERE " +:+ col +:+ " >= "
        +:+ (if dollar then "$1" else "?") +:+ " ORDER BY " +:+ col) [lo] = Ok (rows, None)
    /\ rows ≡ₚ List.filter (geKey keyOf leb lo) T;
  rt_between lo hi : exists rows,
    QueryContext d ("SELECT * FROM (" +:+ q +:+ ") AS _user_subq WHERE " +:+ col +:+ " >= "
        +:+ (if dollar then "$1" else "?") +:+ " AND " +:+ col +:+ " < "
        +:+ (if dollar then "$2" else "?") +:+ " ORDER BY " +:+ col) [lo; hi] = Ok (rows, None)
    /\ rows ≡ₚ List.filter (inRange keyOf leb lo hi) T
}.

(** The bounds query at discovery, over a table whose keys in order are [ks]. *)
Definition findsBuckets {K R} (d : SqlDB K R) (q col : string) (n : nat) (ks : list K) : Prop :=
  exists rows,
    QueryContext d (BuildUniversalBoundsQuery q col (Z.of_nat n)) [] = Ok (rows, None)
    /\ Forall2 (fun r b => scanBounds d r = Ok b) rows (windowBuckets n ks).

(** A source whose breaker, if it has one, is closed. *)
Definition sourceReady {K R} (d : SqlDB K R) (s : GenericSQLSource K R) : Prop :=
  db s = Some d /\ match cb s with Some b => state b = StateClosed | None => True end.

Section SliceLemmas.
Context {K R : Type} `{UnicodeLower, GoQuote, GoTimeParseZ, GoParseFloat, GoFormatFloat}.

Lemma Execute_closed_Ok t0 t1 b : state b = StateClosed -> Execute t0 t1 None b = (None, b).
Proof.
  intros Hc. unfold Execute, Execute_enter, checkStateTransition, Execute_leave.
  rewrite !Hc. simpl. rewrite ?Hc. simpl. by rewrite ?Hc.
Qed.

Lemma query_ready ts (d : SqlDB K R) s q args rows :
  sourceReady d s -> QueryContext d q args = Ok rows ->
  queryWithCircuitBreaker ts s q args = (Ok rows, s).
Proof.
  intros [Hd Hb] Hq. unfold queryWithCircuitBreaker. rewrite Hd, Hq.
  destruct (cb s) as [b|] eqn:E; [|done]. rewrite Execute_closed_Ok by done.
  unfold withBreaker. by destruct s; simpl in *; simplify_eq.
Qed.

Lemma breakerOpen_ready ts (d : SqlDB K R) s : sourceReady d s -> breakerOpen ts s = (false, s).
Proof.
  intros [Hd Hb]. unfold breakerOpen. destruct (cb s) as [b|] eqn:E; [|done].
  unfold readState, checkStateTransition. rewrite Hb. simpl. rewrite Hb. simpl.
  unfold withBreaker. by destruct s; simpl in *; simplify_eq.
Qed.

Lemma scanRawBuckets_Ok (d : SqlDB K R) rows bs :
  Forall2 (fun r b => scanBounds d r = Ok b) rows bs -> scanRawBuckets d rows None = Ok bs.
Proof. induction 1 as [|r b rows bs Hr _ IH]; [done|]. simpl. by rewrite Hr, IH. Qed.

Lemma CalculateSlices_buckets ts (d : SqlDB K R) s cfg q n ks :
  sourceReady d s -> EffectiveQuery cfg = Ok q ->
  TrimSpace (PartitionColumn (DbPartition cfg)) <> "" -> BatchSize (DbPartition cfg) = Z.of_nat n ->
  findsBuckets d q (TrimSpace (PartitionColumn (DbPartition cfg))) n ks ->
  fst (CalculateSlices ts s cfg) = Ok (ConstructContiguousSlices (windowBuckets n ks)).
Proof.
  intros Hs Hq Hcol Hn (rows & Hrows & Hb). unfold CalculateSlices.
  rewrite (breakerOpen_ready ts d) by done. apply String.eqb_neq in Hcol. rewrite Hcol, Hq, Hn.
  rewrite (query_ready ts d s _ _ _ Hs Hrows). destruct Hs as [-> _]. simpl.
  by rewrite (scanRawBuckets_Ok _ _ _ Hb).
Qed.

Lemma readSliceRows_rows keyOf leb ts (d : SqlDB K R) s cfg q T slice :
  sourceReady d s -> EffectiveQuery cfg = Ok q ->
  readsTable keyOf leb d (TrimSpace q) (TrimSpace (PartitionColumn (DbPartition cfg))) (dollarStyle s) T ->
  exists rows, fst (readSliceRows ts s cfg slice) = Ok (rows, None)
  /\ rows ≡ₚ sliceRows keyOf leb T slice.
Proof.
  intros Hs Hq [Hall Hfrom Hbetween]. unfold readSliceRows.
  rewrite (breakerOpen_ready ts d) by done. rewrite Hq. unfold BuildWorkerSliceQuery, sliceRows.
  destruct ((IsFirst slice && IsLast slice) || _).
  - destruct Hall as (rows & Hr & Hp). exists rows. by rewrite (query_ready ts d s _ _ _ Hs Hr).
  - destruct (IsLast slice).
    + destruct (Hfrom (LowerBound slice)) as (rows & Hr & Hp). exists rows.
      by rewrite (query_ready ts d s _ _ _ Hs Hr).
    + destruct (Hbetween (LowerBound slice) (UpperBound slice)) as (rows & Hr & Hp). exists rows.
      by rewrite (query_ready ts d s _ _ _ Hs Hr).
Qed.

Lemma readSlices_rows keyOf leb ts (d : SqlDB K R) s cfg q T slices :
  sourceReady d s -> EffectiveQuery cfg = Ok q ->
  readsTable keyOf leb d (TrimSpace q) (TrimSpace (PartitionColumn (DbPartition cfg))) (dollarStyle s) T ->
  exists rowss, Forall2 (fun sl rows => fst (readSliceRows ts s cfg sl) = Ok (rows, None)) slices rowss
  /\ concat rowss ≡ₚ concat (map (sliceRows keyOf leb T) slices).
Proof.
  intros Hs Hq Ht. induction slices as [|sl slices (rowss & Hr & Hp)]; [by exists []|].
  destruct (readSliceRows_rows keyOf leb ts d s cfg q T sl Hs Hq Ht) as (rows & H1' & H2').
  exists (rows :: rowss). split; [by constructor|]. simpl. by rewrite H2', Hp.
Qed.
End SliceLemmas.

(** ** Lemmas: rows become records *)

(** The target a field's column is scanned into, and the cell it gives. *)
Definition targetFits (f : Field) (t : scanTarget) : Prop :=
  match t, newTarget f with
  | NullInt64 _, NullInt64 _ | NullFloat64 _, NullFloat64 _ | NullBool _, NullBool _
  | NullTime _, NullTime _ | RawBytes _, RawBytes _ | NullString _, NullString _ => True
  | _, _ => False
  end.
Definition targetCell (t : scanTarget) : FieldValue :=
  match t with
  | NullInt64 None => nullValue TypeInt64 | NullInt64 (Some v) => int64Value v
  | NullFloat64 None => nullValue TypeFloat64 | NullFloat64 (Some v) => float64Value v
  | NullBool None => nullValue TypeBool | NullBool (Some v) => boolValue v
  | NullTime None => nullValue TypeTimestamp | NullTime (Some v) => timestampValue v
  | RawBytes None => nullValue TypeBytes | RawBytes (Some v) => bytesValue v
  | NullString None => nullValue TypeString | NullString (Some v) => stringValue v
  end.
(** The type of the cells of a column. *)
Definition scannedType (f : Field) : DataType :=
  if (FType f =s TypeInt64) || (FType f =s TypeFloat64) || (FType f =s TypeBool)
     || (FType f =s TypeTimestamp) || (FType f =s TypeBytes)
  then FType f else TypeString.

Lemma newTarget_fits f : targetFits f (newTarget f).
Proof. unfold targetFits. by destruct (newTarget f). Qed.

Lemma targetCell_type f t : targetFits f t -> Type_ (targetCell t) = scannedType f.
Proof.
  unfold targetFits, scannedType, newTarget.
  destruct (String.eqb_spec (FType f) TypeInt64) as [->|]; [by destruct t as [[]| | | | | ]|].
  destruct (String.eqb_spec (FType f) TypeFloat64) as [->|]; [by destruct t as [|[]| | | | ]|].
  destruct (String.eqb_spec (FType f) TypeBool) as [->|]; [by destruct t as [| |[]| | | ]|].
  destruct (String.eqb_spec (FType f) TypeTimestamp) as [->|]; [by destruct t as [| | |[]| | ]|].
  destruct (String.eqb_spec (FType f) TypeBytes) as [->|]; [by destruct t as [| | | |[]| ]|].
  by destruct t as [| | | | |[]].
Qed.

Lemma mapColumn_spec targets (i : nat) f t rec pool :
  targets !! i = Some t -> targetFits f t -> (i < length (Values rec))%nat -> PoolOk pool ->
  exists pool', PoolOk pool' /\
  mapColumn targets (Z.of_nat i) f rec pool
  = Ok (mkGenericRecord (SchemaID rec) (<[i := targetCell t]> (Values rec)) (AuditFields rec), pool').
Proof.
  intros Ht Hf Hi Hp. unfold mapColumn. rewrite (go_index_Some _ _ _ Ht). cbn [mbind result_bind].
  assert (forall v, setValue rec (Z.of_nat i) v
    = Ok (mkGenericRecord (SchemaID rec) (<[i := v]> (Values rec)) (AuditFields rec))) as Hset.
  { intros v. rewrite setValue_in_range by (unfold zlen; lia). by rewrite Nat2Z.id. }
  unfold targetFits, newTarget in Hf.
  unfold SetNull, SetInt64, SetFloat64, SetBool, SetTimestamp, SetBytes, SetString.
  destruct (FType f =s TypeInt64); [destruct t as [[]| | | | | ]; try done; rewrite Hset; simpl; eauto|].
  destruct (FType f =s TypeFloat64); [destruct t as [|[]| | | | ]; try done; rewrite Hset; simpl; eauto|].
  destruct (FType f =s TypeBool); [destruct t as [| |[]| | | ]; try done; rewrite Hset; simpl; eauto|].
  destruct (FType f =s TypeTimestamp); [destruct t as [| | |[]| | ]; try done; rewrite Hset; simpl; eauto|].
  destruct (FType f =s TypeBytes); [destruct t as [| | | |[]| ]; try done; rewrite Hset; simpl; eauto|].
  destruct t as [| | | | |[v|]]; try done; [|rewrite Hset; simpl; eauto].
  destruct (intern_String_ok pool v Hp) as (p' & -> & Hp'). rewrite Hset. simpl. eauto.
Qed.

Lemma mapColumns_spec targets fs ts done_ rest rec pool :
  targets = done_ ++ ts -> Forall2 targetFits fs ts -> PoolOk pool ->
  Values rec = map targetCell done_ ++ rest -> length rest = length fs ->
  exists pool', PoolOk pool' /\
  mapColumns targets (zlen done_) fs rec pool
  = Ok (mkGenericRecord (SchemaID rec) (map targetCell targets) (AuditFields rec), pool').
Proof.
  intros -> Hf. revert done_ rest rec pool.
  induction Hf as [|f t fs ts Hft _ IH]; intros done_ rest rec pool Hp Hv Hl.
  - exists pool. split; [done|]. destruct rest; [|done]. rewrite app_nil_r in *.
    cbn. destruct rec. simpl in *. by rewrite Hv.
  - destruct rest as [|v rest]; [done|]. cbn [mapColumns].
    destruct (mapColumn_spec (done_ ++ t :: ts) (length done_) f t rec pool) as (p1 & Hp1 & E); try done.
    { by rewrite lookup_app_r, Nat.sub_diag by lia. }
    { rewrite Hv, length_app, length_map. simpl. lia. }
    unfold zlen. rewrite E. cbn [mbind result_bind].
    destruct (IH (done_ ++ [t]) rest (mkGenericRecord (SchemaID rec)
                (<[length done_ := targetCell t]> (Values rec)) (AuditFields rec)) p1) as (p2 & Hp2 & E2).
    { done. }
    { simpl. rewrite Hv, map_app. rewrite insert_app_r_alt by (rewrite length_map; lia).
      rewrite length_map, Nat.sub_diag. simpl. by rewrite <- app_assoc. }
    { simpl in Hl. lia. }
    exists p2. split; [done|]. rewrite <- app_assoc in E2. simpl in E2. rewrite <- E2. f_equal.
    rewrite zlen_app. done.
Qed.

Lemma ExtractRecord_spec now schema ts pool :
  Forall2 targetFits (Fields schema) ts -> PoolOk pool ->
  exists pool', PoolOk pool' /\ ExtractRecord now ts schema pool
  = Ok (mkGenericRecord "sql-schema" (map targetCell ts) {[ "_ingested_at" := now ]}, pool').
Proof.
  intros Hf Hp. unfold ExtractRecord.
  destruct (mapColumns_spec ts (Fields schema) ts [] (replicate (length (Fields schema)) zeroFieldValue)
    (NewGenericRecord "sql-schema" (length (Fields schema))) pool) as (p' & Hp' & E); try done.
  { by rewrite length_replicate. }
  change (zlen (@nil scanTarget)) with 0 in E. rewrite E. simpl. eauto.
Qed.

(** C37. Whatever rows a slice's query returns, streaming them never panics and
    sends one message per row in order, then the error that ended the rows: a
    record with one cell per column, of the column's scan type, when the row
    scans; an error when it does not. *)
Theorem streamRows_typed {K R : Type} (d : SqlDB K R) (now : string) (schema : Schema)
    (rows : list R) (endErr : option error) (pool : Pool) :
  PoolOk pool ->
  (forall r t t', Forall2 targetFits (Fields schema) t -> scanRow d r t = Ok t' ->
                  Forall2 targetFits (Fields schema) t') ->
  (forall r t, noPanic (scanRow d r t)) ->
  exists outs tl,
    streamRows d now schema rows endErr (NewScanTargetHolder schema) pool = Ok (outs ++ tl)
    /\ length outs = length rows
    /\ length tl = (match endErr with Some _ => 1 | None => 0 end)%nat /\ recordsOf tl = []
    /\ Forall (fun o => match o with
                        | SentRec rec =>
                            Forall2 (fun f v => Type_ v = scannedType f) (Fields schema) (Values rec)
                            /\ AuditFields rec = {[ "_ingested_at" := now ]}
                        | SentErr e => exists e', e = Errorf ("scan error: " +:+ Error e') [e']
                        end) outs.
Proof.
  intros Hp Hscan Hnp.
  assert (Forall2 targetFits (Fields schema) (NewScanTargetHolder schema)) as Ht.
  { unfold NewScanTargetHolder. apply Forall2_fmap_r, Forall_Forall2_diag, Forall_true. apply newTarget_fits. }
  revert Ht. generalize (NewScanTargetHolder schema). revert pool Hp.
  induction rows as [|r rows IH]; intros pool Hp t Ht; cbn [streamRows].
  - exists [], (match endErr with
                | Some e => [SentErr (Errorf ("rows iteration error: " +:+ Error e) [e])] | None => [] end).
    by destruct endErr; split_and!.
  - destruct (scanRow d r t) as [t'|e|m] eqn:E; [| |by destruct (Hnp r t m E)].
    + pose proof (Hscan r t t' Ht E) as Ht'.
      destruct (ExtractRecord_spec now schema t' pool Ht' Hp) as (p' & Hp' & ->).
      destruct (IH p' Hp' t' Ht') as (outs & tl & -> & Hl & Htl & Hr & Hall).
      eexists (_ :: outs), tl. split; [reflexivity|]. split_and!; [by simpl; rewrite Hl|done|done|].
      apply Forall_cons. split; [|done]. simpl. split; [|done].
      apply Forall2_fmap_r. eapply Forall2_impl; [exact Ht'|]. intros f x. apply targetCell_type.
    + destruct (IH pool Hp t Ht) as (outs & tl & -> & Hl & Htl & Hr & Hall).
      eexists (_ :: outs), tl. split; [reflexivity|]. split_and!; [by simpl; rewrite Hl|done|done|].
      apply Forall_cons. split; [eauto|done].
Qed.

(** C24. The goroutine that streams a slice and the worker that drains it: every
    run is finite; with at most 100 errors no run blocks before the worker
    returns, and it then has emitted every record, in order, and returns the first
    error, if any; with more than 100 errors no run ever returns (the reader waits
    for room in the error channel while the worker waits for records). *)
Theorem stream_delivers (idx : Z) (outs : list sent) (s : pipe) :
  rtc (slicePipe idx) (startPipe outs) s ->
  sn (slicePipe idx) s
  /\ (zlen (errorsOf outs) <= chanCap -> outcome s = None -> exists s', slicePipe idx s s')
  /\ (forall r, outcome s = Some r ->
      emitted s = recordsOf outs /\ r = streamResult (sliceError idx) (errorsOf outs))
  /\ (chanCap < zlen (errorsOf outs) -> outcome s = None).
Proof. by apply pipe_delivers. Qed.

(** ** What the code does not do

    Rows whose key is NULL at discovery: PostgreSQL orders them last. When they
    fill the last bucket, its slice has no bounds and reads the whole table again;
    when they share it with other keys, they are not read at all. *)
Definition nullTable : list (option Z) := [Some 1; Some 2; Some 3; Some 4; None; None].
Definition readBuckets (bs : list (RawBucket Z)) : list (option Z) :=
  concat (map (sliceRows (fun r => r) Z.leb nullTable) (ConstructContiguousSlices bs)).
Lemma null_keys_duplicate_rows :
  readBuckets [mkBucket 1 (Some 1) (Some 2); mkBucket 2 (Some 3) (Some 4); mkBucket 3 None None]
  = [Some 1; Some 2] ++ nullTable
  /\ readBuckets [mkBucket 1 (Some 1) (Some 3); mkBucket 2 (Some 4) (Some 4)]
     = [Some 1; Some 2; Some 3; Some 4].
Proof. vm_compute. done. Qed.

(** ** Witnesses *)
Section Witnesses.
#[local] Instance wLower : UnicodeLower := fun s => s.
#[local] Instance wQuote : GoQuote := fun s => s.
#[local] Instance wTime : GoTimeParseZ := fun _ _ => Err (Sentinel "time").
#[local] Instance wFloat : GoParseFloat := fun _ => Err (Sentinel "float").
#[local] Instance wFormat : GoFormatFloat := fun _ => "0".

(** A database over integers that understands the queries of one base query. *)
Definition sampleDB (T0 T : list Z) : SqlDB Z Z :=
  mkDB
    (fun query args =>
       if query =s BuildUniversalBoundsQuery "q" "id" 2 then Ok ([0; 1], None)
       else match args with
       | [] => Ok (T, None)
       | [lo] => Ok (List.filter (geKey Some Z.leb lo) T, None)
       | lo :: hi :: _ => Ok (List.filter (inRange Some Z.leb lo hi) T, None)
       end)
    (fun r => if r =? 0 then Ok (mkBucket 1 (Some 1) (Some 3)) else Ok (mkBucket 2 (Some 5) (Some 5)))
    (fun r t => if r =? 7 then Err (Sentinel "bad") else Ok [NullInt64 (Some r)]).
Definition sampleCfg : DatabaseSourceConfig :=
  mkDatabase "postgres" "uri" "" 0 "" "" "" "q" "" "" [] false (mkPartition "id" 2 0) (mkPool 0 0 0)
    sampleResilience (schemaOf [mkField "id" TypeInt64 false 0 ""]) None.

Lemma streamRows_typed_witness :
  exists outs tl,
    streamRows (sampleDB [] []) "now" (DbSchema sampleCfg) [3; 7] None
      (NewScanTargetHolder (DbSchema sampleCfg)) emptyPool = Ok (outs ++ tl)
    /\ length outs = 2%nat.
Proof.
  destruct (streamRows_typed (sampleDB [] []) "now" (DbSchema sampleCfg) [3; 7] None emptyPool)
    as (outs & tl & K1 & K2 & _).
  - apply emptyPool_ok.
  - intros r t t' _ Hs. simpl in Hs. destruct (r =? 7); [discriminate|]. injection Hs as <-.
    repeat constructor.
  - intros r t m. simpl. by destruct (r =? 7).
  - exists outs, tl. split; [exact K1|exact K2].
Defined.

Definition sampleOuts : list sent :=
  [SentRec (NewGenericRecord "a" 0); SentErr (Sentinel "scan"); SentRec (NewGenericRecord "b" 0)].
Lemma stream_delivers_witness :
  zlen (errorsOf sampleOuts) = 1 /\ exists s', slicePipe 4 (startPipe sampleOuts) s'.
Proof.
  split; [reflexivity|].
  destruct (stream_delivers 4 sampleOuts (startPipe sampleOuts) (rtc_refl _ _)) as (_ & Hp & _).
  apply Hp; [unfold chanCap; vm_compute; discriminate|reflexivity].
Defined.
End Witnesses.
