(* ===== verification/MongoSource.v ===== *)
(** * The MongoDB source

    Models [internal/adapters/partitions/mongo]: the ranges of object ids
    ([partitioner.go]), the filter each worker runs and the stream of documents
    ([mongo_source.go]), and the mapping of documents to records
    ([document_mapper.go]).

    A [bson.ObjectID] is the big-endian number of its twelve bytes, so that the
    server's order is the order of the numbers; its first four bytes are the
    seconds of its creation. Hexadecimal text, JSON and the server are given. *)
From S2P Require Import Prelude GoStr Float64 Schema Intern RecordModel FastNum Config SqlSource Pipe.

Definition ObjectID_ok (id : Z) : Prop := 0 <= id < 2 ^ 96.
(** [id.Timestamp().Unix()]. *)
Definition unixOf (id : Z) : Z := id / 2 ^ 64.

(** [ObjectID.Hex] and [bson.ObjectIDFromHex]. *)
Class ObjectIDHex := { Hex : Z -> string; ObjectIDFromHex : string -> option Z }.
Class ObjectIDHexLaw `{ObjectIDHex} : Prop :=
  ObjectIDFromHex_Hex : forall id, ObjectID_ok id -> ObjectIDFromHex (Hex id) = Some id.

(** The condition on [_id] of a slice; [V] is the type of the configured filter's
    conditions. *)
Inductive idFilter := LTE (up : Z) | GTE (low : Z) | GTELT (low up : Z).
Abbreviation filterOf V := (gmap string (V + idFilter)).

(** ** [partitioner.go] *)
Section Ranges.
Context `{ObjectIDHex}.

Definition buildSingleSlice (minID maxID : Z) : list (PartitionSlice string) :=
  [mkSlice 0 (Some (Hex minID)) (Some (Hex maxID)) true true ∅].
Definition calculateStep (minSec maxSec numPartitions : Z) : Z :=
  let step := Z.quot (i64 (maxSec - minSec)) numPartitions in
  if step <? 1 then 1 else step.
Definition calculateNextBound (minSec secStep idx : Z) (isLast : bool) (maxID : Z) : Z :=
  if isLast then maxID
  else let targetSec := i64 (minSec + i64 ((idx + 1) * secStep)) in u32 targetSec * 2 ^ 64.
(** The loop with [k] iterations left, at index [i]. *)
Fixpoint generateLoop (k : nat) (i currentMin maxID minSec secStep numPartitions : Z)
    : list (PartitionSlice string) :=
  match k with
  | O => []
  | S k' =>
      let isLast := i =? numPartitions - 1 in
      let nextBound := calculateNextBound minSec secStep i isLast maxID in
      mkSlice i (Some (Hex currentMin)) (Some (Hex nextBound)) (i =? 0) isLast ∅
      :: generateLoop k' (i + 1) nextBound maxID minSec secStep numPartitions
  end.
Definition generateSlices (minID maxID minSec secStep numPartitions : Z) : list (PartitionSlice string) :=
  generateLoop (Z.to_nat numPartitions) 0 minID maxID minSec secStep numPartitions.
Definition BuildObjectIDRanges (minID maxID numPartitions : Z) : list (PartitionSlice string) :=
  if numPartitions <=? 1 then buildSingleSlice minID maxID
  else
    let minSec := unixOf minID in
    let maxSec := unixOf maxID in
    if maxSec <=? minSec then buildSingleSlice minID maxID
    else generateSlices minID maxID minSec (calculateStep minSec maxSec numPartitions) numPartitions.

(** ** Filters ([buildFilter], [applySliceBounds])

    A filter is a Go map, nil or not. *)
Definition applySliceBounds {V} (filter : option (filterOf V)) (slice : PartitionSlice string)
    : result (option (filterOf V)) :=
  match LowerBound slice, UpperBound slice with
  | Some lo, Some up =>
      match ObjectIDFromHex lo, ObjectIDFromHex up with
      | Some lowOID, Some upOID =>
          let c := if IsFirst slice then LTE upOID
                   else if IsLast slice then GTE lowOID
                   else GTELT lowOID upOID in
          match filter with
          | None => Panic "assignment to entry in nil map"
          | Some m => Ok (Some (<["_id" := inr c]> m))
          end
      | _, _ => Ok filter
      end
  | _, _ => Ok filter
  end.
(** [unmarshal] is [json.Unmarshal] into the empty map: the text null sets it to nil. *)
Definition buildFilter {V} (unmarshal : string -> result (option (gmap string V))) (queryFilter : string)
    (slice : PartitionSlice string) : result (option (filterOf V)) :=
  filter ← (if negb (TrimSpace queryFilter =s "")
            then match unmarshal queryFilter with
                 | Err e => Err (Errorf ("invalid json/bson query_filter: " +:+ Error e) [e])
                 | Panic m => Panic m
                 | Ok m => Ok ((fun m => (inl <$> m) : filterOf V) <$> m)
                 end
            else Ok (Some (∅ : filterOf V)));
  applySliceBounds filter slice.

(** ** [CalculatePartitions]; [fetch] is the least and greatest [_id], when there
    are both and both are object ids. *)
Definition resolveDatabaseName (dbName : string) (cfg : DatabaseSourceConfig) : string :=
  if negb (dbName =s "") then dbName else Database cfg.
Definition Mongo_CalculatePartitions `{GoQuote} (dbName : string) (connected : bool)
    (fetch : string -> string -> option (Z * Z)) (cfg : DatabaseSourceConfig)
    : result (list (PartitionSlice string)) :=
  if Table cfg =s "" then Err (Errorf "mongo collection (table) cannot be empty" [])
  else
    let name := resolveDatabaseName dbName cfg in
    if name =s "" then Err (Errorf "mongo database name cannot be empty" [])
    else
      let numPartitions := NumPartitions (DbPartition cfg) in
      if numPartitions <=? 1 then Ok [singleSlice]
      else if negb connected then Err (Errorf "mongo client is not connected" [])
      else match fetch name (Table cfg) with
           | None => Ok [singleSlice]
           | Some (minOID, maxOID) => Ok (BuildObjectIDRanges minOID maxOID numPartitions)
           end.
End Ranges.

(** ** Documents ([document_mapper.go])

    The dynamic values of a decoded document. A [bson.M] lists its entries in
    the order a range over the map visits them. *)
Inductive bsonVal :=
  | BNil
  | BObjectID (id : Z)
  | BDateTime (ns : Z)
  | BBinary (data : list byte)
  | BM (m : list (string * bsonVal))
  | BD (d : list (string * bsonVal))
  | BA (l : list bsonVal)
  | BInt64 (n : Z)
  | BInt32 (n : Z)
  | BInt (n : Z)
  | BFloat64 (x : float64)
  | BFloat32 (x : float64)
  | BString (s : string)
  | BBool (b : bool)
  | BTime (ns : Z)
  | BBytes (b : list byte)
  | BOther (ty : string).

(** [FlattenDocument]: the writes to [out], in order. A [bson.D] is first copied
    to a map, where the last of the entries with one key wins. *)
Definition keyIn {A} (k : string) (kvs : list (string * A)) : bool :=
  existsb (fun kv => fst kv =s k) kvs.
Fixpoint flattenVal (fullKey : string) (v : bsonVal) : list (string * bsonVal) :=
  let sub := fix sub (dedup : bool) (kvs : list (string * bsonVal)) : list (string * bsonVal) :=
    match kvs with
    | [] => []
    | (k, v') :: kvs' =>
        (if dedup && keyIn k kvs' then []
         else flattenVal (if negb (fullKey =s "") then fullKey +:+ "." +:+ k else k) v')
        ++ sub dedup kvs'
    end in
  match v with
  | BM m => sub false m
  | BD d => sub true d
  | _ => [(fullKey, v)]
  end.
Fixpoint flattenEntries (prefix : string) (doc : list (string * bsonVal)) : list (string * bsonVal) :=
  match doc with
  | [] => []
  | (k, v) :: doc' =>
      flattenVal (if negb (prefix =s "") then prefix +:+ "." +:+ k else k) v ++ flattenEntries prefix doc'
  end.
(** Later writes win. *)
Definition writeAll (ws : list (string * bsonVal)) : gmap string bsonVal :=
  foldl (fun out kv => <[fst kv := snd kv]> out) ∅ ws.
Definition FlattenDocument (doc : list (string * bsonVal)) : gmap string bsonVal :=
  writeAll (flattenEntries "" doc).

(** [fmt.Sprintf("%v", v)] and [json.Marshal(v)] of a document value. *)
Class BsonText := { sprintV : bsonVal -> string; marshalV : bsonVal -> result string }.

(** What is stored in a cell: through [SetString], which interns, or another setter. *)
Inductive docCell := CellString (s : string) | CellValue (v : FieldValue).

Section Mapping.
Context `{ObjectIDHex, BsonText, GoQuote, UnicodeLower, GoTimeParse, FloatCvt}.

Definition incompatible {A} (val : bsonVal) (f : Field) (e : option error) : result A :=
  let msg := "incompatible value " +:+ sprintV val +:+ " for " +:+ FType f +:+ " field " +:+ Quote (Name f) in
  match e with
  | None => Err (Errorf msg [])
  | Some e => Err (Errorf (msg +:+ ": " +:+ Error e) [e])
  end.
(** The cell of a text that a coercion parses. *)
Definition parsedCell {A} (val : bsonVal) (f : Field) (mk : A -> FieldValue) (r : result A)
    : result docCell :=
  match r with
  | Ok a => Ok (CellValue (mk a))
  | Err e => incompatible val f (Some e)
  | Panic m => Panic m
  end.

Definition int64Cell (val : bsonVal) (f : Field) : result docCell :=
  match val with
  | BInt64 n | BInt32 n | BInt n => Ok (CellValue (int64Value n))
  | BFloat64 x => Ok (CellValue (int64Value (int64_trunc x)))
  | BString s => parsedCell val f int64Value (CoerceInt64Fast s)
  | _ => incompatible val f None
  end.
Definition float64Cell (val : bsonVal) (f : Field) : result docCell :=
  match val with
  | BFloat64 x | BFloat32 x => Ok (CellValue (float64Value x))
  | BInt64 n | BInt32 n | BInt n => Ok (CellValue (float64Value (of_int n)))
  | BString s => parsedCell val f float64Value (CoerceFloat64Fast s)
  | _ => incompatible val f None
  end.
Definition boolCell (val : bsonVal) (f : Field) : result docCell :=
  match val with
  | BBool b => Ok (CellValue (boolValue b))
  | BString s => parsedCell val f boolValue (CoerceBoolFast s)
  | _ => incompatible val f None
  end.
Definition timestampCell (val : bsonVal) (f : Field) : result docCell :=
  match val with
  | BTime ns => Ok (CellValue (timestampValue ns))
  | BString s => parsedCell val f timestampValue (CoerceTimestampFast s)
  | _ => incompatible val f None
  end.
Definition decimalCell (val : bsonVal) (f : Field) : result docCell :=
  let text := match val with BString s => s | _ => sprintV val end in
  parsedCell val f (fun ms => decimalValue (fst ms) (snd ms))
    (CoerceDecimalFast text (FScale f) (OnOverflow f)).
Definition bytesCell (val : bsonVal) (f : Field) : result docCell :=
  match val with
  | BBytes b | BBinary b => Ok (CellValue (bytesValue b))
  | _ => incompatible val f None
  end.
(** Strings: object ids by their text, documents and arrays as JSON. *)
Definition stringCell (val : bsonVal) (f : Field) : result docCell :=
  match val with
  | BObjectID id => Ok (CellString (Hex id))
  | BM _ | BD _ | BA _ =>
      match marshalV val with
      | Ok s => Ok (CellString s)
      | Err e => Err (Errorf ("failed serializing field " +:+ Quote (Name f) +:+ " to json: " +:+ Error e) [e])
      | Panic m => Panic m
      end
  | _ => Ok (CellString (sprintV val))
  end.

(** A value that is not nil. *)
Definition mapValue (val : bsonVal) (f : Field) : result docCell :=
  if FType f =s TypeString then stringCell val f
  else if FType f =s TypeInt64 then int64Cell val f
  else if FType f =s TypeFloat64 then float64Cell val f
  else if FType f =s TypeBool then boolCell val f
  else if FType f =s TypeTimestamp then
    match val with
    | BDateTime ns => Ok (CellValue (timestampValue ns))
    | _ => timestampCell val f
    end
  else if FType f =s TypeDecimal then decimalCell val f
  else if FType f =s TypeBytes then bytesCell val f
  else Ok (CellString (sprintV val)).

(** The value of a field: [id] and [_id] stand for each other. *)
Definition lookupField (lookup : gmap string bsonVal) (name : string) : bsonVal :=
  match lookup !! name with
  | Some v => v
  | None =>
      if (name =s "id") || (name =s "_id") then
        match default BNil (lookup !! "_id") with
        | BNil => default BNil (lookup !! "id")
        | v => v
        end
      else BNil
  end.

Definition mapField (lookup : gmap string bsonVal) (i : Z) (f : Field) (rec : GenericRecord) (pool : Pool)
    : result (GenericRecord * Pool) :=
  match lookupField lookup (Name f) with
  | BNil =>
      if negb (Nullable f)
      then Err (Errorf ("non-nullable field " +:+ Quote (Name f) +:+ " is missing or null") [])
      else (fun r => (r, pool)) <$> SetNull rec i (FType f)
  | val =>
      match mapValue val f with
      | Ok (CellString s) => let '(r, pool') := SetString pool rec i s in (fun x => (x, pool')) <$> r
      | Ok (CellValue v) => (fun r => (r, pool)) <$> setValue rec i v
      | Err e => Err e
      | Panic m => Panic m
      end
  end.
Fixpoint mapFields (lookup : gmap string bsonVal) (i : Z) (fs : list Field) (rec : GenericRecord)
    (pool : Pool) : result (GenericRecord * Pool) :=
  match fs with
  | [] => Ok (rec, pool)
  | f :: fs' => '(rec, pool) ← mapField lookup i f rec pool; mapFields lookup (i + 1) fs' rec pool
  end.
Definition MapBSONToRecord (doc : list (string * bsonVal)) (schema : Schema) (flattenNested : bool)
    (pool : Pool) : result (GenericRecord * Pool) :=
  let lookup := if flattenNested then FlattenDocument doc else writeAll doc in
  mapFields lookup 0 (Fields schema) (NewGenericRecord "" (length (Fields schema))) pool.

(** [streamRecords]: records until the first error. *)
Fixpoint streamRecords (docs : list (result (list (string * bsonVal)))) (cursorErr : option error)
    (schema : Schema) (flattenNested : bool) (pool : Pool) : result (list sent) :=
  match docs with
  | [] => Ok (match cursorErr with
              | Some e => [SentErr (Errorf ("cursor error during iteration: " +:+ Error e) [e])]
              | None => [] end)
  | Err e :: _ => Ok [SentErr (Errorf ("failed decoding mongo bson document: " +:+ Error e) [e])]
  | Panic m :: _ => Panic m
  | Ok doc :: docs' =>
      match MapBSONToRecord doc schema flattenNested pool with
      | Err e => Ok [SentErr (Errorf ("failed mapping bson to generic record: " +:+ Error e) [e])]
      | Panic m => Panic m
      | Ok (rec, pool') =>
          cons (SentRec rec) <$> streamRecords docs' cursorErr schema flattenNested pool'
      end
  end.

(** [ReadPartition]; [find] runs the query on the server. *)
Definition Mongo_ReadPartition {V} (unmarshal : string -> result (option (gmap string V))) (connected : bool)
    (find : option (filterOf V) -> result (list (result (list (string * bsonVal))) * option error))
    (cfg : DatabaseSourceConfig) (slice : PartitionSlice string) (pool : Pool) : result (list sent) :=
  filter ← buildFilter unmarshal (QueryFilter cfg) slice;
  if negb connected then Err (Errorf "mongo client is not connected" [])
  else
    '(docs, cursorErr) ← wrapErr "failed executing mongo find query: " (find filter);
    streamRecords docs cursorErr (DbSchema cfg) (FlattenNested cfg) pool.
End Mapping.

(** ** Lemmas: ranges of object ids *)

(** Which documents a filter selects by their object id. *)
Definition idMatches (c : idFilter) (d : Z) : bool :=
  match c with LTE up => d <=? up | GTE low => low <=? d | GTELT low up => (low <=? d) && (d <? up) end.
Definition sliceSelects `{ObjectIDHex} (s : PartitionSlice string) (d : Z) : bool :=
  match applySliceBounds (Some (∅ : filterOf Empty_set)) s with
  | Ok (Some m) => match m !! "_id" with Some (inr c) => idMatches c d | _ => true end
  | _ => true
  end.
(** The boundary between slices [i - 1] and [i]. *)
Definition boundary (minSec secStep i : Z) : Z := (minSec + i * secStep) * 2 ^ 64.

Lemma boundary_next minSec secStep i maxID :
  0 <= minSec -> 0 < secStep -> 0 <= i -> minSec + (i + 1) * secStep < 2 ^ 32 ->
  calculateNextBound minSec secStep i false maxID = boundary minSec secStep (i + 1).
Proof.
  intros H1 H2 H3 H4. unfold calculateNextBound, boundary.
  assert (0 <= (i + 1) * secStep) by nia.
  rewrite (i64_small ((i + 1) * secStep)) by (wunfold; lia).
  rewrite i64_small by (wunfold; lia). by rewrite u32_small by (wunfold; lia).
Qed.

Lemma boundary_ok minSec secStep i :
  0 <= minSec -> 0 < secStep -> 0 <= i -> minSec + i * secStep < 2 ^ 32 ->
  ObjectID_ok (boundary minSec secStep i).
Proof.
  intros. unfold ObjectID_ok, boundary. assert (0 <= i * secStep) by nia.
  change (2 ^ 96) with (2 ^ 32 * 2 ^ 64). nia.
Qed.

Definition countSel `{ObjectIDHex} (ss : list (PartitionSlice string)) (d : Z) : Z :=
  zlen (List.filter (fun s => sliceSelects s d) ss).

Section Coverage.
Context `{ObjectIDHexLaw}.

Lemma sliceSelects_spec i lo up first last d :
  ObjectID_ok lo -> ObjectID_ok up ->
  sliceSelects (mkSlice i (Some (Hex lo)) (Some (Hex up)) first last ∅) d
  = if first then d <=? up else if last then lo <=? d else (lo <=? d) && (d <? up).
Proof.
  intros Hl Hu. unfold sliceSelects, applySliceBounds.
  cbn [LowerBound UpperBound IsFirst IsLast]. rewrite !ObjectIDFromHex_Hex by done.
  rewrite lookup_insert_eq. by destruct first, last.
Qed.

Lemma countSel_cons s ss d : countSel (s :: ss) d = (if sliceSelects s d then 1 else 0) + countSel ss d.
Proof. unfold countSel. simpl. destruct (sliceSelects s d); unfold zlen; simpl; lia. Qed.

(** The slices after the first: those at or above their first boundary, once. *)
Lemma generateLoop_count k i minSec secStep n maxID d :
  0 <= minSec -> 0 < secStep -> 0 < i -> i + Z.of_nat (S k) = n ->
  minSec + n * secStep < 2 ^ 32 -> ObjectID_ok maxID ->
  countSel (generateLoop (S k) i (boundary minSec secStep i) maxID minSec secStep n) d
  = if boundary minSec secStep i <=? d then 1 else 0.
Proof.
  revert i. induction k as [|k IH]; intros i H1' H2' H3' H4' H5' H6'.
  - cbn [generateLoop]. rewrite (proj2 (Z.eqb_eq i (n - 1))) by lia.
    rewrite countSel_cons, sliceSelects_spec by (try done; apply boundary_ok; nia).
    rewrite (proj2 (Z.eqb_neq i 0)) by lia. unfold countSel. simpl. unfold zlen. simpl. lia.
  - remember (S k) as k1. cbn [generateLoop]. rewrite (proj2 (Z.eqb_neq i (n - 1))) by lia.
    rewrite boundary_next by nia. rewrite countSel_cons, sliceSelects_spec by (apply boundary_ok; nia).
    rewrite (proj2 (Z.eqb_neq i 0)) by lia. subst k1. rewrite (IH (i + 1)) by (done || lia).
    assert (boundary minSec secStep i < boundary minSec secStep (i + 1)) by (unfold boundary; nia).
    zcases; simpl; lia.
Qed.

Lemma step_bounds minSec maxSec n :
  0 <= minSec -> minSec < maxSec -> maxSec < 2 ^ 32 -> 2 <= n -> minSec + n < 2 ^ 32 ->
  0 < calculateStep minSec maxSec n /\ minSec + n * calculateStep minSec maxSec n < 2 ^ 32.
Proof.
  intros. unfold calculateStep. rewrite i64_small by (wunfold; lia).
  rewrite Z.quot_div_nonneg by lia.
  pose proof (Z.mul_div_le (maxSec - minSec) n ltac:(lia)). zcases; nia.
Qed.

Lemma unixOf_bound id : ObjectID_ok id -> 0 <= unixOf id < 2 ^ 32.
Proof.
  unfold ObjectID_ok, unixOf. change (2 ^ 96) with (2 ^ 32 * 2 ^ 64). intros [H1 H2]. split.
  - apply Z.div_pos; lia.
  - apply Z.div_lt_upper_bound; lia.
Qed.

Lemma generateSlices_count minID maxID minSec secStep n d :
  ObjectID_ok minID -> ObjectID_ok maxID -> 0 <= minSec -> 0 < secStep -> 2 <= n ->
  minSec + n * secStep < 2 ^ 32 ->
  countSel (generateSlices minID maxID minSec secStep n) d
  = if d =? boundary minSec secStep 1 then 2 else 1.
Proof.
  intros Hmin Hmax H1' H2' H3' H4'. unfold generateSlices.
  replace (Z.to_nat n) with (S (S (Z.to_nat (n - 2)))) by lia. cbn [generateLoop].
  rewrite (proj2 (Z.eqb_neq 0 (n - 1))) by lia. rewrite boundary_next by nia.
  rewrite countSel_cons, sliceSelects_spec by (try done; apply boundary_ok; nia).
  pose proof (generateLoop_count (Z.to_nat (n - 2)) 1 minSec secStep n maxID d) as E.
  cbn [generateLoop] in E. change (0 + 1) with 1. rewrite E by (done || lia). simpl.
  zcases; lia.
Qed.
End Coverage.

(** ** Lemmas: the mapping of documents *)
Section MappingFacts.
Context `{ObjectIDHex, BsonText, GoQuote, UnicodeLower, GoTimeParse, FloatCvt}.

(** The type of the cell of a field: the types [mapValue] has no case for become
    text. *)
Definition mappedType (f : Field) : DataType :=
  if bool_decide (FType f ∈ [TypeInt64; TypeFloat64; TypeBool; TypeTimestamp; TypeDecimal; TypeBytes])
  then FType f else TypeString.
Definition docCellType (c : docCell) : DataType :=
  match c with CellString _ => TypeString | CellValue v => Type_ v end.
Definition docCellNonNull (c : docCell) : Prop :=
  match c with CellString _ => True | CellValue v => IsNull v = false end.
(** A result of the type [t] or an error. *)
Definition cellFits (t : DataType) (r : result docCell) : Prop :=
  match r with Ok c => docCellType c = t /\ docCellNonNull c | Err _ => True | Panic _ => False end.

Lemma incompatible_fits t val f e : cellFits t (incompatible val f e).
Proof. by destruct e. Qed.
Lemma parsedCell_fits {A} t val f (mk : A -> FieldValue) r :
  noPanic r -> (forall a, Type_ (mk a) = t /\ IsNull (mk a) = false) -> cellFits t (parsedCell val f mk r).
Proof. intros Hn Hk. destruct r as [a|e|m]; simpl; [apply Hk|by destruct e|by destruct (Hn m)]. Qed.
#[local] Hint Resolve incompatible_fits parsedCell_fits CoerceInt64_noPanic CoerceFloat64_noPanic
  CoerceDecimal_noPanic CoerceBool_noPanic CoerceTimestamp_noPanic : gocode.

Lemma int64Cell_fits val f : cellFits TypeInt64 (int64Cell val f).
Proof. destruct val; simpl; auto with gocode. Qed.
Lemma float64Cell_fits val f : cellFits TypeFloat64 (float64Cell val f).
Proof. destruct val; simpl; auto with gocode. Qed.
Lemma boolCell_fits val f : cellFits TypeBool (boolCell val f).
Proof. destruct val; simpl; auto with gocode. Qed.
Lemma timestampCell_fits val f : cellFits TypeTimestamp (timestampCell val f).
Proof. destruct val; simpl; auto with gocode. Qed.
Lemma decimalCell_fits val f : cellFits TypeDecimal (decimalCell val f).
Proof. apply parsedCell_fits; auto with gocode. Qed.
Lemma bytesCell_fits val f : cellFits TypeBytes (bytesCell val f).
Proof. destruct val; simpl; auto with gocode. Qed.
Lemma stringCell_fits val f :
  (forall v, noPanic (marshalV v)) -> cellFits TypeString (stringCell val f).
Proof.
  intros Hm. destruct val; simpl; try done;
    (destruct (marshalV _) as [?|?|pm] eqn:E; simpl; [done|done|by destruct (Hm _ pm E)]).
Qed.

Lemma mapValue_fits val f :
  (forall v, noPanic (marshalV v)) -> cellFits (mappedType f) (mapValue val f).
Proof.
  intros Hm. unfold mapValue, mappedType.
  repeat match goal with
  | |- context [if FType f =s ?t then _ else _] =>
      destruct (String.eqb_spec (FType f) t) as [->|?]; [simpl|]
  end.
  all: auto using stringCell_fits, int64Cell_fits, float64Cell_fits, boolCell_fits, decimalCell_fits,
         bytesCell_fits.
  - destruct val; try done; apply timestampCell_fits.
  - rewrite bool_decide_eq_false_2; [done|]. rewrite !elem_of_cons, elem_of_nil. tauto.
Qed.

(** The specification of one field, without the record and the pool. *)
Definition cellOf (c : docCell) : FieldValue :=
  match c with CellString s => stringValue s | CellValue v => v end.
Definition mappedOk (lookup : gmap string bsonVal) (f : Field) (v : FieldValue) : Prop :=
  match lookupField lookup (Name f) with
  | BNil => Nullable f = true /\ v = nullValue (FType f)
  | val => (cellOf <$> mapValue val f) = Ok v /\ Type_ v = mappedType f /\ IsNull v = false
  end.
Definition mappedErr (lookup : gmap string bsonVal) (f : Field) (e : error) : Prop :=
  match lookupField lookup (Name f) with
  | BNil => Nullable f = false
            /\ e = Errorf ("non-nullable field " +:+ Quote (Name f) +:+ " is missing or null") []
  | val => mapValue val f = Err e
  end.

Lemma mapField_spec lookup i f rec pool :
  (forall v, noPanic (marshalV v)) -> (i < length (Values rec))%nat -> PoolOk pool ->
  match mapField lookup (Z.of_nat i) f rec pool with
  | Ok (rec', pool') => PoolOk pool' /\ exists v, mappedOk lookup f v
      /\ rec' = mkGenericRecord (SchemaID rec) (<[i := v]> (Values rec)) (AuditFields rec)
  | Err e => mappedErr lookup f e
  | Panic _ => False
  end.
Proof.
  intros Hm Hi Hp.
  assert (forall v, setValue rec (Z.of_nat i) v
    = Ok (mkGenericRecord (SchemaID rec) (<[i := v]> (Values rec)) (AuditFields rec))) as Hset.
  { intros v. rewrite setValue_in_range by (unfold zlen; lia). by rewrite Nat2Z.id. }
  unfold mapField, mappedOk, mappedErr, SetNull, SetString.
  destruct (lookupField lookup (Name f)) eqn:E;
    [ destruct (Nullable f); simpl; [rewrite Hset; simpl; eauto|done] |
      match goal with |- context [mapValue ?x f] => pose proof (mapValue_fits x f Hm) as Hf end;
      destruct (mapValue _ f) as [[t|w]|err|pm]; try done; simpl in Hf |- *;
      [ destruct (intern_String_ok pool t Hp) as (p' & -> & Hp'); rewrite Hset; simpl; intuition eauto
      | rewrite Hset; simpl; intuition eauto ] .. ].
Qed.

Lemma mapFields_spec lookup fs : forall done_ rest rec pool,
  (forall v, noPanic (marshalV v)) -> PoolOk pool ->
  Values rec = done_ ++ rest -> length rest = length fs ->
  match mapFields lookup (zlen done_) fs rec pool with
  | Ok (rec', pool') => PoolOk pool' /\ exists vs, Forall2 (mappedOk lookup) fs vs
      /\ rec' = mkGenericRecord (SchemaID rec) (done_ ++ vs) (AuditFields rec)
  | Err e => exists pre f post vs, fs = pre ++ f :: post
      /\ Forall2 (mappedOk lookup) pre vs /\ mappedErr lookup f e
  | Panic _ => False
  end.
Proof.
  induction fs as [|f fs IH]; intros done_ rest rec pool Hm Hp Hv Hl.
  - destruct rest; [|done]. split; [done|]. exists []. split; [done|]. rewrite <- Hv. by destruct rec.
  - destruct rest as [|v0 rest]; [done|]. cbn [mapFields].
    pose proof (mapField_spec lookup (length done_) f rec pool Hm) as Hf.
    rewrite Hv, length_app in Hf. specialize (Hf ltac:(simpl; lia) Hp). unfold zlen.
    destruct (mapField _ _ f rec pool) as [[rec1 p1]|e|m]; [|by exists [], f, fs, []|done].
    destruct Hf as (Hp1 & v & Hok & ->). cbn [mbind result_bind].
    rewrite insert_app_r_alt, Nat.sub_diag by lia. simpl list_insert.
    specialize (IH (done_ ++ [v]) rest
      (mkGenericRecord (SchemaID rec) (done_ ++ v :: rest) (AuditFields rec)) p1 Hm Hp1).
    rewrite zlen_app in IH. change (zlen [v]) with 1 in IH. unfold zlen in IH.
    rewrite <- !app_assoc in IH. specialize (IH eq_refl ltac:(simpl in Hl; lia)).
    simpl in IH |- *.
    destruct (mapFields _ _ _ _ p1) as [[rec2 p2]|e|m]; [| |done].
    + destruct IH as (? & vs & Hvs & ->). split; [done|]. exists (v :: vs).
      split; [by constructor|]. by rewrite <- app_assoc.
    + destruct IH as (pre & g & post & vs & -> & Hpre & He). exists (f :: pre), g, post, (v :: vs).
      split; [done|]. split; [by constructor|done].
Qed.
End MappingFacts.

(** ** Properties *)

(** C30. The partitions computed for a collection whose least and greatest ids are
    [minID] and [maxID]: with two partitions or more over two seconds or more,
    there are [n] of them and every document id, whether below [minID], between or
    above [maxID], is selected by exactly one, except the id that is the first
    boundary itself (zero after its seconds), which the first two select. When all
    ids share a second there is one partition, which selects the ids up to [maxID]
    only. *)
Theorem Mongo_partitions_cover `{ObjectIDHexLaw, GoQuote} (dbName : string)
    (fetch : string -> string -> option (Z * Z)) (cfg : DatabaseSourceConfig) (minID maxID : Z) :
  let n := NumPartitions (DbPartition cfg) in
  Table cfg <> "" -> resolveDatabaseName dbName cfg <> "" ->
  fetch (resolveDatabaseName dbName cfg) (Table cfg) = Some (minID, maxID) ->
  ObjectID_ok minID -> ObjectID_ok maxID -> minID <= maxID ->
  2 <= n -> unixOf minID + n < 2 ^ 32 ->
  exists ss, Mongo_CalculatePartitions dbName true fetch cfg = Ok ss
  /\ forall d, countSel ss d
     = if unixOf minID =? unixOf maxID then (if d <=? maxID then 1 else 0)
       else if d =? boundary (unixOf minID) (calculateStep (unixOf minID) (unixOf maxID) n) 1 then 2
       else 1.
Proof.
  intros n Ht Hd Hf Hmin Hmax Hle Hn Hb. eexists. split.
  - unfold Mongo_CalculatePartitions. rewrite (proj2 (String.eqb_neq _ _) Ht), (proj2 (String.eqb_neq _ _) Hd).
    fold n. rewrite (proj2 (Z.leb_gt n 1)) by lia. simpl negb. cbn iota. rewrite Hf. reflexivity.
  - intros d. unfold BuildObjectIDRanges. rewrite (proj2 (Z.leb_gt n 1)) by lia.
    pose proof (unixOf_bound _ Hmin). pose proof (unixOf_bound _ Hmax).
    assert (unixOf minID <= unixOf maxID) by (apply Z.div_le_mono; lia).
    destruct (Z.eqb_spec (unixOf minID) (unixOf maxID)) as [E|E].
    + rewrite (proj2 (Z.leb_le (unixOf maxID) (unixOf minID))) by lia. unfold buildSingleSlice.
      rewrite countSel_cons, sliceSelects_spec by done. unfold countSel, zlen. simpl. zcases; lia.
    + rewrite (proj2 (Z.leb_gt (unixOf maxID) (unixOf minID))) by lia.
      destruct (step_bounds (unixOf minID) (unixOf maxID) n) as [? ?]; try lia.
      apply generateSlices_count; done || lia.
Qed.

(** C38. Mapping a document to a record never panics. When it succeeds the record
    has one cell per field: null, only where the field allows it, exactly when the
    document has no value for the field; otherwise the cell the value maps to,
    of the field's type (text for the types without a case). When it fails the
    error is the one of the first field that cannot be mapped. *)
Theorem MapBSONToRecord_spec
    `{ObjectIDHex, BsonText, GoQuote, UnicodeLower, GoTimeParse, FloatCvt}
    (doc : list (string * bsonVal)) (schema : Schema) (flattenNested : bool) (pool : Pool) :
  (forall v, noPanic (marshalV v)) -> PoolOk pool ->
  let lookup := if flattenNested then FlattenDocument doc else writeAll doc in
  match MapBSONToRecord doc schema flattenNested pool with
  | Ok (rec, pool') =>
      PoolOk pool' /\ Forall2 (mappedOk lookup) (Fields schema) (Values rec)
  | Err e => exists pre f post vs, Fields schema = pre ++ f :: post
      /\ Forall2 (mappedOk lookup) pre vs /\ mappedErr lookup f e
  | Panic _ => False
  end.
Proof.
  intros Hm Hp lookup. unfold MapBSONToRecord. fold lookup.
  pose proof (mapFields_spec lookup (Fields schema) [] (replicate (length (Fields schema)) zeroFieldValue)
    (NewGenericRecord "" (length (Fields schema))) pool Hm Hp eq_refl) as E.
  rewrite length_replicate in E. specialize (E eq_refl). change (zlen (@nil FieldValue)) with 0 in E.
  destruct (mapFields _ _ _ _ _) as [[rec p']|e|m]; [|done|done].
  destruct E as (? & vs & Hvs & ->). done.
Qed.

(** ** Findings *)

(** A condition on [_id] in the configured filter is lost once there are bounds. *)
Lemma id_filter_overwritten `{ObjectIDHexLaw} {V} (unmarshal : string -> result (option (gmap string V)))
    (m : gmap string V) (q : string) (c : V) (i lo up : Z) (first last : bool) :
  TrimSpace q <> "" -> unmarshal q = Ok (Some m) -> ObjectID_ok lo -> ObjectID_ok up ->
  buildFilter unmarshal q (mkSlice i (Some (Hex lo)) (Some (Hex up)) first last ∅)
  = buildFilter (fun _ => Ok (Some (<["_id" := c]> m))) q (mkSlice i (Some (Hex lo)) (Some (Hex up)) first last ∅).
Proof.
  intros Hq Hu Hlo Hup. unfold buildFilter. rewrite (proj2 (String.eqb_neq _ _) Hq), Hu. simpl.
  unfold applySliceBounds. cbn [LowerBound UpperBound]. rewrite !ObjectIDFromHex_Hex by done.
  by rewrite fmap_insert, insert_insert_eq.
Qed.

(** The filter text null makes the reader write to a nil map. *)
Lemma null_filter_panics `{ObjectIDHexLaw} (i lo up : Z) (first last : bool) :
  ObjectID_ok lo -> ObjectID_ok up ->
  buildFilter (fun _ => Ok (None : option (gmap string Empty_set))) "null"
    (mkSlice i (Some (Hex lo)) (Some (Hex up)) first last ∅) = Panic "assignment to entry in nil map".
Proof.
  intros Hlo Hup. unfold buildFilter. simpl. unfold applySliceBounds. cbn [LowerBound UpperBound].
  by rewrite !ObjectIDFromHex_Hex.
Qed.

(** ** Witnesses *)
Section Witnesses.
(** Twenty-four digits in base sixteen, most significant first. *)
Definition hexDigit (n : Z) : ascii :=
  ascii_of_N (Z.to_N (if n <? 10 then n + 48 else n + 87)).
Definition hexValue (c : ascii) : Z :=
  let n := Z.of_N (N_of_ascii c) in if n <? 97 then n - 48 else n - 87.
Fixpoint hexText (k : nat) (n : Z) : list ascii :=
  match k with O => [] | S k' => hexText k' (n / 16) ++ [hexDigit (n mod 16)] end.
Definition hexParse (l : list ascii) : Z := foldl (fun acc c => acc * 16 + hexValue c) 0 l.

Lemma hexDigit_value n : 0 <= n < 16 -> hexValue (hexDigit n) = n.
Proof.
  intros Hn. assert (n ∈ seqZ 0 16) as Hi by (apply elem_of_seqZ; lia). revert Hi.
  assert (Forall (fun n => hexValue (hexDigit n) = n) (seqZ 0 16)) as Hf.
  { apply (bool_decide_unpack _). vm_compute. exact I. }
  rewrite Forall_forall in Hf. apply Hf.
Qed.
Lemma hexParse_text k : forall n, 0 <= n < 16 ^ Z.of_nat k -> hexParse (hexText k n) = n.
Proof.
  induction k as [|k IH]; intros n Hn; [change (16 ^ Z.of_nat 0) with 1 in Hn; cbn; lia|].
  cbn [hexText]. unfold hexParse in *. rewrite foldl_app, IH.
  - simpl. rewrite hexDigit_value by (apply Z.mod_pos_bound; lia).
    pose proof (Z.div_mod n 16 ltac:(lia)). lia.
  - rewrite Nat2Z.inj_succ, Z.pow_succ_r in Hn by lia. split; [apply Z.div_pos; lia|].
    apply Z.div_lt_upper_bound; lia.
Qed.
#[local] Instance wHex : ObjectIDHex :=
  {| Hex id := str (hexText 24 id); ObjectIDFromHex s := Some (hexParse (bytes s)) |}.
#[local] Instance wHexLaw : ObjectIDHexLaw.
Proof.
  intros id Hid. change (Some (hexParse (bytes (str (hexText 24 id)))) = Some id).
  by rewrite bytes_str, hexParse_text.
Qed.
#[local] Instance wQuote : GoQuote := fun s => s.
#[local] Instance wLower : UnicodeLower := fun s => s.
#[local] Instance wTime : GoTimeParse := fun _ _ => None.
#[local] Instance wCvt : FloatCvt := fun _ => 0.
#[local] Instance wText : BsonText := {| sprintV _ := "v"; marshalV _ := Ok "{}" |}.

Definition mongoCfg : DatabaseSourceConfig :=
  mkDatabase "mongodb" "uri" "" 0 "db" "" "" "" "users" "" [] false (mkPartition "_id" 0 2) (mkPool 0 0 0)
    sampleResilience (schemaOf [mkField "_id" TypeString false 0 ""; mkField "n" TypeInt64 true 0 ""]) None.

Lemma Mongo_partitions_cover_witness :
  exists ss, Mongo_CalculatePartitions "" true (fun _ _ => Some (5 * 2 ^ 64 + 1, 9 * 2 ^ 64)) mongoCfg = Ok ss
  /\ countSel ss (7 * 2 ^ 64) = 2 /\ countSel ss (7 * 2 ^ 64 + 1) = 1 /\ countSel ss (20 * 2 ^ 64) = 1.
Proof.
  destruct (Mongo_partitions_cover "" (fun _ _ => Some (5 * 2 ^ 64 + 1, 9 * 2 ^ 64)) mongoCfg
    (5 * 2 ^ 64 + 1) (9 * 2 ^ 64)) as (ss & E & K).
  - discriminate.
  - discriminate.
  - reflexivity.
  - unfold ObjectID_ok. lia.
  - unfold ObjectID_ok. lia.
  - lia.
  - vm_compute. discriminate.
  - vm_compute. reflexivity.
  - exists ss. split; [exact E|]. rewrite !K. vm_compute. done.
Defined.

Lemma MapBSONToRecord_spec_witness :
  match MapBSONToRecord [("_id", BObjectID 255); ("a", BM [("n", BString "7")])]
          (schemaOf [mkField "id" TypeString false 0 ""; mkField "a.n" TypeInt64 true 0 ""]) true emptyPool with
  | Ok (rec, _) => Values rec = [stringValue "0000000000000000000000ff"; int64Value 7]
  | _ => False
  end
  /\ match MapBSONToRecord [] (schemaOf [mkField "id" TypeString false 0 ""]) true emptyPool with
     | Err _ => True
     | _ => False
     end.
Proof.
  pose proof (MapBSONToRecord_spec [] (schemaOf [mkField "id" TypeString false 0 ""]) true emptyPool) as K.
  split; [vm_compute; reflexivity|].
  destruct (MapBSONToRecord [] _ _ _) as [[rec p]|e|m].
  - destruct K as (_ & K); [by intros v m|apply emptyPool_ok|]. simpl in K.
    inversion K as [|f v fs vs Hv _]; subst. vm_compute in Hv. by destruct Hv.
  - exact I.
  - apply K; [by intros v m'|apply emptyPool_ok].
Defined.
End Witnesses.
