(* ===== verification/Storage.v ===== *)
(** * Storage

    Models [internal/ports/storage.go] (the writer interface, here a class with
    its laws), [internal/adapters/storage/local_storage.go] over a file system
    whose calls may fail, [uri_parser.go], [storage_resolver.go], and the staging
    protocol of [gcs_storage.go] over an object store.

    A sink writes a staging file, then publishes it under its final name. What
    readers see of a storage is [visible]: its files less the staging files. The
    laws say that only a commit changes it. *)
From S2P Require Import Prelude GoStr Float64 Schema RecordModel Metrics Watermark Config.

(** ** The interface ([ports.StorageWriter])

    [CreateTemp] returns the URI of the staging file, which also stands for the
    open [io.WriteCloser]; [FileWrite] and [FileClose] are its methods. *)
Class StorageWriter (W : Type) := {
  CreateTemp : string -> W -> (string + error) * W;
  FileWrite : string -> list byte -> W -> (Z * option error) * W;
  FileClose : string -> W -> option error * W;
  CommitTemp : string -> string -> W -> option error * W;
  AbortTemp : string -> W -> option error * W
}.

(** The contract. [visible w] maps the published names to contents, [staged w t] is the
    content of the staging file [t], and [finalOK u] says that [u] can be published. *)
Class StorageLaws (W : Type) `{StorageWriter W} := {
  visible : W -> gmap string (list byte);
  staged : W -> string -> option (list byte);
  finalOK : string -> Prop;
  create_spec : forall u w, finalOK u ->
    visible (snd (CreateTemp u w)) = visible w
    /\ match fst (CreateTemp u w) with
       | inl t => t <> "" /\ staged (snd (CreateTemp u w)) t = Some []
       | inr _ => True
       end;
  write_spec : forall t p w b, staged w t = Some b ->
    let '((n, e), w') := FileWrite t p w in
    visible w' = visible w /\ 0 <= n <= zlen p
    /\ staged w' t = Some (b ++ take (Z.to_nat n) p) /\ (e = None -> n = zlen p);
  close_spec : forall t w b, staged w t = Some b ->
    visible (snd (FileClose t w)) = visible w /\ staged (snd (FileClose t w)) t = Some b;
  commit_spec : forall t u w b, finalOK u -> staged w t = Some b ->
    match fst (CommitTemp t u w) with
    | None => visible (snd (CommitTemp t u w)) = <[u := b]> (visible w)
    | Some _ => (visible (snd (CommitTemp t u w)) = visible w
                 \/ visible (snd (CommitTemp t u w)) = <[u := b]> (visible w))
                /\ staged (snd (CommitTemp t u w)) t = Some b
    end;
  abort_spec : forall t b w, staged w t = Some b ->
    visible (snd (AbortTemp t w)) = visible w
}.
(** A commit that fails leaves what is published as it was. *)
Class AtomicCommit (W : Type) `{StorageLaws W} : Prop :=
  commit_atomic : forall t u w b e, finalOK u -> staged w t = Some b ->
    fst (CommitTemp t u w) = Some e -> visible (snd (CommitTemp t u w)) = visible w.

(** ** Paths *)
(** What follows the last slash. *)
Fixpoint lastAfter (l : list byte) : list byte :=
  match l with
  | [] => []
  | c :: l' =>
      if existsb (fun x => bool_decide (x = slash)) l' then lastAfter l'
      else if bool_decide (c = slash) then l' else l
  end.
Definition lastElem (path : string) : string := str (lastAfter (bytes path)).
(** [filepath.Base]. *)
Definition Base (path : string) : string :=
  if path =s "" then "."
  else
    let l := lastElem (TrimRight path (fun c => bool_decide (c = slash))) in
    if l =s "" then "/" else l.

Example Base_ex : map Base ["/a/b.csv"; "a/"; "//"; ""; "x"] = ["b.csv"; "a"; "/"; "."; "x"].
Proof. reflexivity. Qed.

(** ** A file system

    Every call takes the next entry of [faults], a script of which calls fail: a
    failing write first stores a part of its bytes. [drawn] counts the random ids. *)
Inductive osFault := FOk | FErr (stored : nat) (e : error).
Record Disk := mkDisk { files : gmap string (list byte); faults : list osFault; drawn : nat }.
(** [uuid.NewString]: hexadecimal digits and dashes. *)
Class GoUUID := NewString : nat -> string.
Class GoUUIDLaw `{GoUUID} : Prop := NewString_noslash : forall n, slash ∉ bytes (NewString n).

Definition nextFault (d : Disk) : osFault * Disk :=
  match faults d with
  | [] => (FOk, d)
  | f :: fs => (f, mkDisk (files d) fs (drawn d))
  end.
Definition withFiles (d : Disk) (fs : gmap string (list byte)) : Disk := mkDisk fs (faults d) (drawn d).
(** Directories are not represented: making one only may fail. *)
Definition os_MkdirAll (d : Disk) : option error * Disk :=
  match nextFault d with (FOk, d) => (None, d) | (FErr _ e, d) => (Some e, d) end.
Definition os_Create (path : string) (d : Disk) : option error * Disk :=
  match nextFault d with
  | (FOk, d) => (None, withFiles d (<[path := []]> (files d)))
  | (FErr _ e, d) => (Some e, d)
  end.
Definition file_Write (path : string) (p : list byte) (d : Disk) : (Z * option error) * Disk :=
  match nextFault d with
  | (FOk, d) => ((zlen p, None), withFiles d (alter (fun b => b ++ p) path (files d)))
  | (FErr k e, d) =>
      let n := Nat.min k (length p) in
      ((Z.of_nat n, Some e), withFiles d (alter (fun b => b ++ take n p) path (files d)))
  end.
Definition file_Close (d : Disk) : option error * Disk :=
  match nextFault d with (FOk, d) => (None, d) | (FErr _ e, d) => (Some e, d) end.
Definition ErrNotExist : error := Sentinel "file does not exist".
Definition os_Rename (a b : string) (d : Disk) : option error * Disk :=
  match nextFault d with
  | (FOk, d) =>
      match files d !! a with
      | None => (Some ErrNotExist, d)
      | Some c => (None, withFiles d (<[b := c]> (delete a (files d))))
      end
  | (FErr _ e, d) => (Some e, d)
  end.
Definition os_Remove (path : string) (d : Disk) : option error * Disk :=
  match nextFault d with
  | (FOk, d) =>
      match files d !! path with
      | None => (Some ErrNotExist, d)
      | Some _ => (None, withFiles d (delete path (files d)))
      end
  | (FErr _ e, d) => (Some e, d)
  end.
Definition os_IsNotExist (e : error) : bool := errors_Is "file does not exist" e.

(** ** [local_storage.go] *)
Section Local.
Context `{GoUUID}.

Definition Local_tempName (d : Disk) (finalURI : string) : string :=
  ".temp-" +:+ NewString (drawn d) +:+ "-" +:+ Base finalURI.
Definition Local_CreateTemp (finalURI : string) (d : Disk) : (string + error) * Disk :=
  let dir := Dir finalURI in
  let '(e, d) := os_MkdirAll d in
  match e with
  | Some e => (inr (Errorf ("failed to create directory " +:+ dir +:+ ": " +:+ Error e) [e]), d)
  | None =>
      let tempURI := Join2 dir (Local_tempName d finalURI) in
      let d := mkDisk (files d) (faults d) (S (drawn d)) in
      let '(e, d) := os_Create tempURI d in
      match e with
      | Some e => (inr (Errorf ("failed to create temp file " +:+ tempURI +:+ ": " +:+ Error e) [e]), d)
      | None => (inl tempURI, d)
      end
  end.
Definition Local_CommitTemp (tempURI finalURI : string) (d : Disk) : option error * Disk :=
  let '(e, d) := os_MkdirAll d in
  match e with
  | Some e => (Some (Errorf ("failed to create target dir " +:+ Dir finalURI +:+ ": " +:+ Error e) [e]), d)
  | None =>
      let '(e, d) := os_Rename tempURI finalURI d in
      match e with
      | Some e => (Some (Errorf ("failed to rename temp file " +:+ tempURI +:+ " to " +:+ finalURI
                                 +:+ ": " +:+ Error e) [e]), d)
      | None => (None, d)
      end
  end.
Definition Local_AbortTemp (tempURI : string) (d : Disk) : option error * Disk :=
  let '(e, d) := os_Remove tempURI d in
  match e with
  | Some e =>
      if os_IsNotExist e then (None, d)
      else (Some (Errorf ("failed to remove temp file " +:+ tempURI +:+ ": " +:+ Error e) [e]), d)
  | None => (None, d)
  end.
Definition Local_Open (uri : string) (d : Disk) : (list byte + error) * Disk :=
  match nextFault d with
  | (FErr _ e, d) => (inr e, d)
  | (FOk, d) => (match files d !! uri with Some b => inl b | None => inr ErrNotExist end, d)
  end.
Definition Local_Size `{GoQuote} (uri : string) (d : Disk) : (Z + error) * Disk :=
  match Local_Open (Clean uri) d with
  | (inl b, d) => (inl (zlen b), d)
  | (inr e, d) => (inr (Errorf ("failed stating local file " +:+ Quote uri +:+ ": " +:+ Error e) [e]), d)
  end.
(** [List]; [glob] is [filepath.Glob]. *)
Definition Local_List (glob : string -> Disk -> result (list string)) (pattern : string) (d : Disk)
    : result (list string) * Disk :=
  match glob pattern d with
  | Err e => (Err (Errorf ("failed to glob files with pattern " +:+ pattern +:+ ": " +:+ Error e) [e]), d)
  | Panic m => (Panic m, d)
  | Ok [] =>
      match Local_Open pattern d with
      | (inl _, d) => (Ok [pattern], d)
      | (inr _, d) => (Ok [], d)
      end
  | Ok ms => (Ok ms, d)
  end.

#[export] Instance Local_writer : StorageWriter Disk := {|
  CreateTemp := Local_CreateTemp; FileWrite := file_Write; FileClose _ := file_Close;
  CommitTemp := Local_CommitTemp; AbortTemp := Local_AbortTemp |}.
End Local.

(** ** Lemmas: the last element of a joined path *)
Lemma existsb_slash l : existsb (fun x => bool_decide (x = slash)) l = bool_decide (slash ∈ l).
Proof.
  induction l as [|c l IH]; simpl; [done|]. rewrite IH.
  destruct (decide (c = slash)) as [->|Hc].
  - rewrite bool_decide_eq_true_2 by done. symmetry. apply bool_decide_eq_true_2, list_elem_of_here.
  - rewrite bool_decide_eq_false_2 by done. simpl. apply bool_decide_ext. set_solver.
Qed.

Lemma lastAfter_app pre name : slash ∉ name -> lastAfter (pre ++ slash :: name) = name.
Proof.
  intros Hn. induction pre as [|c pre IH]; cbn [app lastAfter]; rewrite existsb_slash.
  - rewrite bool_decide_eq_false_2 by done. by rewrite bool_decide_eq_true_2.
  - rewrite bool_decide_eq_true_2 by set_solver. apply IH.
Qed.
Lemma lastAfter_plain name : slash ∉ name -> lastAfter name = name.
Proof.
  intros Hn. destruct name as [|c name]; [done|]. cbn [lastAfter]. rewrite existsb_slash.
  rewrite !bool_decide_eq_false_2; set_solver.
Qed.
Lemma lastAfter_noslash l : slash ∉ lastAfter l.
Proof.
  induction l as [|c l IH]; [set_solver|]. cbn [lastAfter]. rewrite existsb_slash.
  case_bool_decide; [done|]. case_bool_decide; set_solver.
Qed.

Lemma splitOn_nonnil sep l : splitOn sep l <> [].
Proof. destruct l as [|c l]; simpl; [done|]. case_bool_decide; [done|]. by destruct (splitOn sep l). Qed.

Lemma splitOn_app l name : slash ∉ name -> splitOn slash (l ++ slash :: name) = splitOn slash l ++ [name].
Proof.
  intros Hn. assert (splitOn slash name = [name]) as E.
  { clear l. induction name as [|c name IH]; [done|]. simpl.
    rewrite bool_decide_eq_false_2 by set_solver. by rewrite IH by set_solver. }
  induction l as [|c l IH]; simpl; [by rewrite E|]. rewrite IH. case_bool_decide; [done|].
  destruct (splitOn slash l) eqn:E2; [by destruct (splitOn_nonnil slash l)|done].
Qed.

Definition properElem (e : string) : Prop := e <> "" /\ e <> "." /\ e <> "..".
Lemma cleanElems_snoc rooted es e out : properElem e ->
  cleanElems rooted (es ++ [e]) out = e :: cleanElems rooted es out.
Proof.
  intros (H1 & H2 & H3). revert out. induction es as [|x es IH]; intros out; simpl.
  - rewrite (proj2 (String.eqb_neq e "")), (proj2 (String.eqb_neq e ".")), (proj2 (String.eqb_neq e "..")) by done.
    done.
  - destruct ((x =s "") || (x =s ".")); [apply IH|]. destruct (x =s ".."); [|apply IH].
    destruct out as [|y out]; [apply IH|]. destruct (y =s ".."); apply IH.
Qed.

Lemma joinWith_snoc l e :
  bytes (joinWith "/" (l ++ [e])) = (match l with [] => [] | _ => bytes (joinWith "/" l) ++ [slash] end) ++ bytes e.
Proof.
  induction l as [|x l IH]; [done|]. destruct l as [|y l].
  - simpl. rewrite !bytes_app. simpl. by rewrite <- app_assoc.
  - change (joinWith "/" ((x :: y :: l) ++ [e])) with (x +:+ "/" +:+ joinWith "/" ((y :: l) ++ [e])).
    change (joinWith "/" (x :: y :: l)) with (x +:+ "/" +:+ joinWith "/" (y :: l)).
    rewrite !bytes_app, IH, <- !app_assoc. done.
Qed.

Lemma lastElem_Clean dir name : properElem name -> slash ∉ bytes name ->
  lastElem (Clean (dir +:+ "/" +:+ name)) = name.
Proof.
  intros Hp Hn. unfold Clean. rewrite !bytes_app.
  change (bytes "/" ++ bytes name) with (slash :: bytes name). rewrite splitOn_app by done.
  rewrite map_app. simpl map. rewrite str_bytes, cleanElems_snoc by done. simpl rev.
  set (l := rev (cleanElems _ _ [])). set (pre := if HasPrefix _ _ then "/" else "").
  assert (lastElem (pre +:+ joinWith "/" (l ++ [name])) = name) as E.
  { unfold lastElem. rewrite bytes_app, joinWith_snoc, app_assoc.
    assert (forall p, str (lastAfter ((p ++ [slash]) ++ bytes name)) = name) as Hs.
    { intros p. rewrite <- app_assoc. simpl. by rewrite lastAfter_app, str_bytes. }
    destruct l as [|x l]; [|rewrite app_assoc; apply Hs].
    subst pre. destruct (HasPrefix _ _); [apply (Hs [])|]. simpl. by rewrite lastAfter_plain, str_bytes. }
  destruct (_ =s "") eqn:Ee; [|done]. apply String.eqb_eq in Ee. rewrite Ee in E.
  change (lastElem "") with "" in E. by destruct Hp as [[] _].
Qed.

(** ** Lemmas: local storage *)
Definition isTemp (path : string) : bool := HasPrefix (lastElem path) ".temp-".
Definition published (fs : gmap string (list byte)) : gmap string (list byte) :=
  filter (fun pb => isTemp pb.1 = false) fs.
Definition Local_finalOK (u : string) : Prop := lastElem u <> "" /\ isTemp u = false.

Lemma published_insert_temp t b fs : isTemp t = true -> published (<[t := b]> fs) = published fs.
Proof.
  intros Ht. unfold published. rewrite map_filter_insert_False by (simpl; congruence).
  apply map_filter_delete_not. simpl. intros; congruence.
Qed.
Lemma published_insert_final u b fs : isTemp u = false -> published (<[u := b]> fs) = <[u := b]> (published fs).
Proof. intros Hu. unfold published. by rewrite map_filter_insert_True. Qed.
Lemma published_delete_temp t fs : isTemp t = true -> published (delete t fs) = published fs.
Proof. intros Ht. unfold published. apply map_filter_delete_not. simpl. intros; congruence. Qed.
Lemma published_alter_temp t f fs : isTemp t = true -> published (alter f t fs) = published fs.
Proof.
  intros Ht. destruct (fs !! t) as [b|] eqn:E.
  - assert (alter f t fs = <[t := f b]> fs) as ->; [|by apply published_insert_temp].
    apply map_eq. intros i. destruct (decide (i = t)) as [->|].
    + by rewrite lookup_alter_eq, lookup_insert_eq, E.
    + by rewrite lookup_alter_ne, lookup_insert_ne by done.
  - f_equal. apply map_eq. intros i. destruct (decide (i = t)) as [->|].
    + by rewrite lookup_alter_eq, E.
    + by rewrite lookup_alter_ne by done.
Qed.

Lemma Clean_nonempty p : Clean p <> "".
Proof. unfold Clean. destruct (_ =s "") eqn:E; [done|]. by apply String.eqb_neq. Qed.

Lemma Base_lastElem u : lastElem u <> "" -> Base u = lastElem u.
Proof.
  intros Hu. unfold Base. destruct (u =s "") eqn:E; [apply String.eqb_eq in E; by subst|].
  assert (TrimRight u (fun c => bool_decide (c = slash)) = u) as ->.
  { unfold TrimRight. destruct (rev (bytes u)) as [|c r] eqn:Er.
    - apply (f_equal (@rev _)) in Er. rewrite rev_involutive in Er. simpl in *.
      rewrite <- (str_bytes u), Er. done.
    - pose proof (f_equal (@rev _) Er) as Eu. rewrite rev_involutive in Eu. simpl in Eu.
      simpl. case_bool_decide as Hc.
      + subst c. destruct Hu. unfold lastElem. rewrite Eu, lastAfter_app; set_solver.
      + change (str (rev (c :: r)) = u). by rewrite <- Er, rev_involutive, str_bytes. }
  by rewrite (proj2 (String.eqb_neq _ _) Hu).
Qed.

Section LocalLaws.
Context `{GoUUIDLaw}.

Lemma tempURI_isTemp d u : Local_finalOK u ->
  isTemp (Join2 (Dir u) (Local_tempName d u)) = true /\ Join2 (Dir u) (Local_tempName d u) <> "".
Proof.
  intros [Hu _]. unfold Join2. rewrite (proj2 (String.eqb_neq (Dir u) "")) by apply Clean_nonempty.
  split; [|apply Clean_nonempty]. unfold isTemp. rewrite lastElem_Clean.
  - unfold Local_tempName, HasPrefix. simpl. by destruct (_ +:+ _).
  - unfold Local_tempName. by split_and!.
  - unfold Local_tempName. rewrite !bytes_app, Base_lastElem by done.
    rewrite !not_elem_of_app. split_and!; [set_solver| apply NewString_noslash|set_solver|].
    unfold lastElem. rewrite bytes_str. apply lastAfter_noslash.
Qed.

Lemma Local_create_spec u w : Local_finalOK u ->
  published (files (snd (Local_CreateTemp u w))) = published (files w)
  /\ match fst (Local_CreateTemp u w) with
     | inl t => t <> "" /\ isTemp t = true /\ files (snd (Local_CreateTemp u w)) !! t = Some []
     | inr _ => True
     end.
Proof.
  intros Hu. unfold Local_CreateTemp, os_MkdirAll, os_Create, nextFault.
  destruct w as [fs [|[|k e] faults] dr]; simpl;
    [| destruct faults as [|[|k' e'] faults]; simpl |done]; try done;
    match goal with |- context [<[?t := _]> fs] =>
      destruct (tempURI_isTemp (mkDisk fs faults dr) u Hu) as [Ht Hn]
    end || destruct (tempURI_isTemp (mkDisk fs [] dr) u Hu) as [Ht Hn];
    (split; [by apply published_insert_temp|]); split_and!; try done; by rewrite lookup_insert_eq.
Qed.

Definition Local_staged (w : Disk) (t : string) : option (list byte) :=
  if isTemp t then files w !! t else None.
Lemma Local_staged_Some w t b : Local_staged w t = Some b -> isTemp t = true /\ files w !! t = Some b.
Proof. unfold Local_staged. by destruct (isTemp t). Qed.

Lemma Local_write_spec t p w b : Local_staged w t = Some b ->
  let '((n, e), w') := file_Write t p w in
  published (files w') = published (files w) /\ 0 <= n <= zlen p
  /\ Local_staged w' t = Some (b ++ take (Z.to_nat n) p) /\ (e = None -> n = zlen p).
Proof.
  intros [Ht Hb]%Local_staged_Some. unfold file_Write, nextFault, Local_staged.
  destruct w as [fs [|[|k e] faults] dr]; simpl in *; rewrite Ht, published_alter_temp by done;
    (split; [done|]); rewrite lookup_alter_eq, Hb; simpl; unfold zlen; split_and!; try lia; try done.
  1, 2: by rewrite take_ge by lia.
  by rewrite Nat2Z.id.
Qed.

Lemma Local_commit_spec t u w b : Local_finalOK u -> Local_staged w t = Some b ->
  match fst (Local_CommitTemp t u w) with
  | None => published (files (snd (Local_CommitTemp t u w))) = <[u := b]> (published (files w))
  | Some _ => files (snd (Local_CommitTemp t u w)) = files w
  end.
Proof.
  intros [_ Hu] [Ht Hb]%Local_staged_Some. unfold Local_CommitTemp, os_MkdirAll, os_Rename, nextFault.
  destruct w as [fs [|[|k e] faults] dr]; simpl in *; [| destruct faults as [|[|k' e'] faults]; simpl |done];
    try done; rewrite Hb; simpl; by rewrite published_insert_final, published_delete_temp.
Qed.

Lemma Local_abort_spec t b w : Local_staged w t = Some b ->
  published (files (snd (Local_AbortTemp t w))) = published (files w).
Proof.
  intros [Ht Hb]%Local_staged_Some. unfold Local_AbortTemp, os_Remove, nextFault.
  destruct w as [fs [|[|k e] faults] dr]; simpl in *; try rewrite Hb; simpl;
    [by apply published_delete_temp..|]. by destruct (os_IsNotExist e).
Qed.

#[export] Instance Local_laws : StorageLaws Disk.
Proof.
  refine {| visible w := published (files w); staged := Local_staged; finalOK := Local_finalOK;
            create_spec := _; write_spec := _; close_spec := _; commit_spec := _; abort_spec := _ |}.
  - intros u w Hu. destruct (Local_create_spec u w Hu) as [H1 H2]. split; [exact H1|].
    simpl in *. destruct (fst (Local_CreateTemp u w)); [|done]. destruct H2 as (? & Ht & ?).
    split; [done|]. unfold Local_staged. by rewrite Ht.
  - apply Local_write_spec.
  - intros t [fs [|[|k e] faults] dr] b Hb; done.
  - intros t u w b Hu Hb. pose proof (Local_commit_spec t u w b Hu Hb) as E. simpl.
    destruct (fst (Local_CommitTemp t u w)); [|done]. unfold Local_staged in *. by rewrite E; auto.
  - apply Local_abort_spec.
Defined.

#[export] Instance Local_atomic : AtomicCommit Disk.
Proof.
  intros t u w b e Hu Hb He. pose proof (Local_commit_spec t u w b Hu Hb) as E. simpl in *.
  rewrite He in E. by rewrite E.
Qed.
End LocalLaws.

(** ** [uri_parser.go] *)
Record GCSPath := mkGCSPath { Bucket : string; Object : string }.
(** [strings.SplitN(s, sep, 2)] for a one-byte separator. *)
Fixpoint cutAt (sep : byte) (l acc : list byte) : option (string * string) :=
  match l with
  | [] => None
  | c :: l' => if bool_decide (c = sep) then Some (str (rev acc), str l') else cutAt sep l' (c :: acc)
  end.
Definition backslash : string := str ["092"%char].
Definition ParseGCSURI `{GoQuote} (rawURI : string) : GCSPath + error :=
  let normalized := ReplaceAll rawURI backslash "/" in
  if negb (HasPrefix normalized "gs://") then
    inr (Errorf ("invalid gcs uri " +:+ Quote rawURI +:+ ": must start with 'gs://'") [])
  else
    match cutAt slash (bytes (TrimPrefix normalized "gs://")) [] with
    | Some (bucket, object) =>
        if (bucket =s "") || (TrimSpace object =s "")
        then inr (Errorf ("invalid gcs uri " +:+ Quote rawURI +:+ ": missing bucket or object key") [])
        else inl (mkGCSPath bucket object)
    | None => inr (Errorf ("invalid gcs uri " +:+ Quote rawURI +:+ ": missing bucket or object key") [])
    end.

(** ** [gcs_storage.go]

    The client: an object is written through a writer and appears when the writer
    is closed; copies and deletions are calls of the server. *)
Class GCSClient (W : Type) := {
  obj_Write : GCSPath -> list byte -> W -> (Z * option error) * W;
  obj_Close : GCSPath -> W -> option error * W;
  obj_Copy : GCSPath -> GCSPath -> W -> option error * W;
  obj_Delete : GCSPath -> W -> option error * W;
  obj_Attrs : GCSPath -> W -> (Z + error) * W;
  obj_Next : GCSPath -> W -> list (string + error);
  obj_Read : GCSPath -> W -> (list byte + error) * W;
  obj_uuid : W -> string * W
}.
(** [path.Dir] and [path.Base] are those of [filepath] on Unix. *)
Definition gsURI (p : GCSPath) : string := "gs://" +:+ Bucket p +:+ "/" +:+ Object p.

Section GCS.
Context {W : Type} `{GCSClient W, GoQuote}.

Definition GCS_tempObject (id : string) (object : string) : string :=
  let dir := Dir object in
  let name := ".temp-" +:+ id +:+ "-" +:+ Base object in
  if negb (dir =s ".") && negb (dir =s "/") then Join2 dir name else name.
Definition GCS_CreateTemp (finalURI : string) (w : W) : (string + error) * W :=
  match ParseGCSURI finalURI with
  | inr e => (inr e, w)
  | inl parsed =>
      let '(id, w) := obj_uuid w in
      (inl (gsURI (mkGCSPath (Bucket parsed) (GCS_tempObject id (Object parsed)))), w)
  end.
Definition GCS_CommitTemp (tempURI finalURI : string) (w : W) : option error * W :=
  match ParseGCSURI tempURI, ParseGCSURI finalURI with
  | inr e, _ | _, inr e => (Some e, w)
  | inl src, inl dst =>
      let '(e, w) := obj_Copy src dst w in
      match e with
      | Some e => (Some (Errorf ("failed server-side copy from " +:+ Quote tempURI +:+ " to "
                                 +:+ Quote finalURI +:+ ": " +:+ Error e) [e]), w)
      | None =>
          let '(e, w) := obj_Delete src w in
          match e with
          | Some e => (Some (Errorf ("failed cleaning up staging object " +:+ Quote tempURI
                                     +:+ ": " +:+ Error e) [e]), w)
          | None => (None, w)
          end
      end
  end.
Definition GCS_AbortTemp (tempURI : string) (w : W) : option error * W :=
  match ParseGCSURI tempURI with
  | inr e => (Some e, w)
  | inl parsed =>
      let '(e, w) := obj_Delete parsed w in
      match e with
      | Some e =>
          if Contains (Error e) "object doesn't exist" then (None, w)
          else (Some (Errorf ("failed aborting staging object " +:+ Quote tempURI +:+ ": " +:+ Error e) [e]), w)
      | None => (None, w)
      end
  end.
Definition GCS_Size (uri : string) (w : W) : (Z + error) * W :=
  match ParseGCSURI uri with
  | inr e => (inr e, w)
  | inl parsed =>
      match obj_Attrs parsed w with
      | (inl n, w) => (inl n, w)
      | (inr e, w) => (inr (Errorf ("failed fetching gcs object attrs for " +:+ Quote uri
                                    +:+ ": " +:+ Error e) [e]), w)
      end
  end.
Definition GCS_Open (uri : string) (w : W) : (list byte + error) * W :=
  match ParseGCSURI uri with
  | inr e => (inr e, w)
  | inl parsed =>
      match obj_Read parsed w with
      | (inl b, w) => (inl b, w)
      | (inr e, w) => (inr (Errorf ("failed opening gcs object " +:+ Quote uri +:+ ": " +:+ Error e) [e]), w)
      end
  end.
(** The names the iterator gives, up to its first error. *)
Fixpoint gcsMatches (bucket pattern : string) (it : list (string + error)) : list string + error :=
  match it with
  | [] => inl []
  | inr e :: _ => inr (Errorf ("failed listing gcs objects with pattern " +:+ Quote pattern
                               +:+ ": " +:+ Error e) [e])
  | inl name :: it' =>
      match gcsMatches bucket pattern it' with
      | inl ms => inl (gsURI (mkGCSPath bucket name) :: ms)
      | inr e => inr e
      end
  end.
Definition GCS_List (pattern : string) (w : W) : list string + error :=
  match ParseGCSURI pattern with
  | inr e => inr e
  | inl parsed => gcsMatches (Bucket parsed) pattern (obj_Next parsed w)
  end.
End GCS.

(** ** [storage_resolver.go]: the backend is chosen by the scheme of the URI. *)
Definition ErrBackendNotConfigured : error :=
  Sentinel "storage backend not configured for this scheme".
Section Resolver.
Context {B : Type} `{GoQuote}.
Record StorageResolver := mkResolver { rs_local : option B; rs_gcs : option B }.
Definition backendErr (msg : string) : B + error :=
  inr (Errorf (Error ErrBackendNotConfigured +:+ ": " +:+ msg) [ErrBackendNotConfigured]).
Definition selectBackend (r : StorageResolver) (uri : string) : B + error :=
  if HasPrefix uri "gs://" || HasPrefix uri ("gs:" +:+ backslash) then
    match rs_gcs r with
    | Some b => inl b
    | None => backendErr ("gcs storage requested for " +:+ Quote uri)
    end
  else if Contains uri "://" then backendErr ("unsupported scheme for " +:+ Quote uri)
  else match rs_local r with
       | Some b => inl b
       | None => backendErr ("local storage requested for " +:+ Quote uri)
       end.
End Resolver.
Arguments StorageResolver B : clear implicits.

(** [ports.StorageBackend]: the operations of a backend on the world [W]. *)
Record StorageBackend (W : Type) := mkBackend {
  be_Open : string -> W -> (list byte + error) * W;
  be_List : string -> W -> (list string + error) * W;
  be_Size : string -> W -> (Z + error) * W;
  be_CreateTemp : string -> W -> (string + error) * W;
  be_CommitTemp : string -> string -> W -> option error * W;
  be_AbortTemp : string -> W -> option error * W }.
Arguments be_Open {W} _ _ _.
Arguments be_List {W} _ _ _.
Arguments be_Size {W} _ _ _.
Arguments be_CreateTemp {W} _ _ _.
Arguments be_CommitTemp {W} _ _ _ _.
Arguments be_AbortTemp {W} _ _ _.
Definition GCS_backend {W} `{GCSClient W, GoQuote} : StorageBackend W :=
  mkBackend W GCS_Open (fun p w => (GCS_List p w, w)) GCS_Size GCS_CreateTemp GCS_CommitTemp GCS_AbortTemp.

Section Delegation.
Context {W : Type} `{GoQuote} (r : StorageResolver (StorageBackend W)).
Definition delegate {A} (op : StorageBackend W -> W -> (A + error) * W) (uri : string) (w : W) : (A + error) * W :=
  match selectBackend r uri with inl b => op b w | inr e => (inr e, w) end.
Definition Resolver_Open (uri : string) := delegate (fun b => be_Open b uri) uri.
Definition Resolver_List (pattern : string) := delegate (fun b => be_List b pattern) pattern.
Definition Resolver_Size (uri : string) := delegate (fun b => be_Size b uri) uri.
Definition Resolver_CreateTemp (finalURI : string) := delegate (fun b => be_CreateTemp b finalURI) finalURI.
Definition Resolver_CommitTemp (tempURI finalURI : string) (w : W) : option error * W :=
  match selectBackend r finalURI with inl b => be_CommitTemp b tempURI finalURI w | inr e => (Some e, w) end.
Definition Resolver_AbortTemp (tempURI : string) (w : W) : option error * W :=
  match selectBackend r tempURI with inl b => be_AbortTemp b tempURI w | inr e => (Some e, w) end.
End Delegation.
(** The staging file of a bucket's file goes back to the bucket's backend, whichever of
    the two URIs chooses. *)
Lemma GCS_staging_stays {W} `{GCSClient W, GoQuote} (r : StorageResolver (StorageBackend W)) (finalURI t : string) (w w' : W) :
  GCS_CreateTemp finalURI w = (inl t, w') -> rs_gcs r = Some GCS_backend ->
  selectBackend r t = inl GCS_backend.
Proof.
  unfold GCS_CreateTemp. destruct (ParseGCSURI finalURI) as [p|]; [|done]. destruct (obj_uuid w) as [id w1].
  intros [= <- _] Hg. unfold selectBackend, gsURI. rewrite Hg.
  by destruct (Bucket _ +:+ "/" +:+ Object _).
Qed.

(** ** Findings *)

(** A commit to GCS whose last call, the deletion of the staging object, fails
    reports an error although the final object is in place. *)
Lemma gcs_commit_error_publishes {W : Type} `{GCSClient W, GoQuote} (t u : string) (src dst : GCSPath)
    (w w1 w2 : W) (e : error) :
  ParseGCSURI t = inl src -> ParseGCSURI u = inl dst ->
  obj_Copy src dst w = (None, w1) -> obj_Delete src w1 = (Some e, w2) ->
  exists e', GCS_CommitTemp t u w = (Some e', w2).
Proof. intros Ht Hu Hc Hd. unfold GCS_CommitTemp. rewrite Ht, Hu, Hc, Hd. eauto. Qed.

Example ParseGCSURI_ex :
  let _ : GoQuote := fun s => s in
  ParseGCSURI ("gs:" +:+ backslash +:+ backslash +:+ "b/x/y.csv") = inl (mkGCSPath "b" "x/y.csv").
Proof. vm_compute. reflexivity. Qed.
