(* ===== verification/FileSink.v ===== *)
(** * File sinks

    Models [internal/beam/core/stager.go] (the staging of a bundle's shard),
    [pkg/ioutils/hash_writer.go] and [stream_pipeline.go] (the writer that hashes,
    encrypts and compresses), and the sinks built on them:
    [internal/beam/streams/stream_file_sink.go], [internal/beam/core/dlq_sink.go],
    [audit_sink.go], [metrics_sink.go] and
    [internal/adapters/streams/formatters/file_sink.go].

    The storage is any implementation of [StorageWriter]; every operation takes the
    state of the storage and returns the new one. *)
From S2P Require Import Prelude GoStr Float64 Schema RecordModel Metrics Watermark Config Storage.

(** ** [BundleFileStager]

    [hasStorage]: the storage has been injected or made by the factory. *)
Record Stager := mkStager {
  OutputDir : string; Format : string; Compression : string; EncryptionName : string; SingleFile : bool;
  hasStorage : bool; tempURI : string; finalURI : string; writer : option string; recordCount : Z }.

(** The shard id and the clock [BuildOutputURI] reads, as a function of the state. *)
Class ShardNames (W : Type) := { shardID : W -> string; unixNano : W -> Z }.

Definition trimSlash (s : string) : string := TrimRight s (fun c => bool_decide (c = slash)).
Definition NewBundleFileStager `{UnicodeLower} (storage : bool)
    (outputDir format compression encryption : string) (singleFile : bool) : Stager :=
  mkStager (trimSlash outputDir) (ToLower format) (ToLower compression) (ToLower encryption) singleFile
    storage "" "" None 0.
(** [factory]: a process-level storage factory is set. *)
Definition Stager_Setup (factory : bool) (s : Stager) : Stager :=
  mkStager (OutputDir s) (Format s) (Compression s) (EncryptionName s) (SingleFile s)
    (hasStorage s || factory) (tempURI s) (finalURI s) (writer s) (recordCount s).
Definition Stager_StartBundle (s : Stager) : Stager :=
  mkStager (OutputDir s) (Format s) (Compression s) (EncryptionName s) (SingleFile s) (hasStorage s) "" "" None 0.
Definition opened (s : Stager) (final temp : string) : Stager :=
  mkStager (OutputDir s) (Format s) (Compression s) (EncryptionName s) (SingleFile s) (hasStorage s)
    temp final (Some temp) (recordCount s).
Definition withFinal (s : Stager) (final : string) : Stager :=
  mkStager (OutputDir s) (Format s) (Compression s) (EncryptionName s) (SingleFile s) (hasStorage s)
    (tempURI s) final (writer s) (recordCount s).
Definition noWriter (s : Stager) : Stager :=
  mkStager (OutputDir s) (Format s) (Compression s) (EncryptionName s) (SingleFile s) (hasStorage s)
    (tempURI s) (finalURI s) None (recordCount s).
Definition IncrementRecord (s : Stager) : Stager :=
  mkStager (OutputDir s) (Format s) (Compression s) (EncryptionName s) (SingleFile s) (hasStorage s)
    (tempURI s) (finalURI s) (writer s) (i64 (recordCount s + 1)).

Section Stager.
Context {W : Type} `{StorageWriter W, ShardNames W, UnicodeLower} (factory : bool).

Definition outputURI (s : Stager) (w : W) : string :=
  BuildOutputURI (shardID w) (unixNano w) (OutputDir s) (Format s) (Compression s) (EncryptionName s)
    (SingleFile s).
Definition EnsureOpen (s : Stager) (w : W) : (string + error) * Stager * W :=
  match writer s with
  | Some h => (inl h, s, w)
  | None =>
      let s := Stager_Setup factory s in
      if negb (hasStorage s) then (inr (Errorf "storage writer is not initialized" []), s, w)
      else
        let s := withFinal s (outputURI s w) in
        match CreateTemp (finalURI s) w with
        | (inr e, w) => (inr (Errorf ("failed creating temp staging file: " +:+ Error e) [e]), s, w)
        | (inl t, w) => (inl t, opened s (finalURI s) t, w)
        end
  end.

Definition Abort (s : Stager) (w : W) : option error * Stager * W :=
  let '(s, w) := match writer s with
                 | Some h => (noWriter s, snd (FileClose h w))
                 | None => (s, w)
                 end in
  if negb (tempURI s =s "") && hasStorage s
  then let '(e, w) := AbortTemp (tempURI s) w in (e, s, w)
  else (None, s, w).

(** [CommitOrAbort]; [closer] is the state of the writer's wrapper, if there is one,
    and [close] closes it. *)
Definition CommitOrAbort {C} (close : C -> W -> option error * C * W) (closer : option C)
    (s : Stager) (w : W) : option error * option C * Stager * W :=
  match writer s with
  | None => (None, closer, s, w)
  | Some h =>
      let '(ce, closer, w) := match closer with
                              | Some c => let '(e, c, w) := close c w in (e, Some c, w)
                              | None => (None, None, w)
                              end in
      match ce with
      | Some e =>
          let '(_, s, w) := Abort s w in
          (Some (Errorf ("failed closing staging wrapper: " +:+ Error e) [e]), closer, s, w)
      | None =>
          let '(we, w) := FileClose h w in
          match we with
          | Some e =>
              let '(_, s, w) := Abort s w in
              (Some (Errorf ("failed closing staging writer: " +:+ Error e) [e]), closer, s, w)
          | None =>
              let s := noWriter s in
              if recordCount s =? 0
              then let '(e, w) := AbortTemp (tempURI s) w in (e, closer, s, w)
              else
                let '(e, w) := CommitTemp (tempURI s) (finalURI s) w in
                match e with
                | Some e => (Some (Errorf ("failed committing staging file: " +:+ Error e) [e]),
                             closer, s, snd (AbortTemp (tempURI s) w))
                | None => (None, closer, s, w)
                end
          end
      end
  end.
(** A commit with no wrapper to close. *)
Definition commitPlain (s : Stager) (w : W) : option error * Stager * W :=
  let '(e, _, s, w) := CommitOrAbort (C := unit) (fun c w => (None, c, w)) None s w in (e, s, w).
Definition Stager_Drain (s : Stager) (w : W) : option error * Stager * W := commitPlain s w.
End Stager.

(** ** [CountingHashWriter] and [DecoratedStreamWriter]

    A compressor or an encryptor is given by what it emits for each write, as a
    function of the chunks (of bytes, or of rows) written before, and what it emits
    when closed. *)
Record Codec (A : Type) := mkCodec { emit : list A -> A -> list byte; trailer : list A -> list byte }.
Arguments mkCodec {A} _ _.
Arguments emit {A} _ _ _.
Arguments trailer {A} _ _.
(** A codec of bytes may also write when it is made, as an encryptor writes its header. *)
Record byteCodec := mkByteCodec { preamble : list byte; coded :> Codec (list byte) }.
(** [sha256.Sum256] in hexadecimal. *)
Class GoSha256 := sha256Hex : list byte -> string.

(** The hash writer keeps what it fed to the hasher; the codecs keep their history. *)
Record CountingHashWriter := mkHashW { hashed : list byte; written : Z }.
Record DecoratedStreamWriter := mkStreamW {
  target : string;
  hashW : CountingHashWriter;
  encLayer : option (byteCodec * list (list byte));
  compLayer : option (byteCodec * list (list byte)) }.
Definition HexSum `{GoSha256} (d : DecoratedStreamWriter) : string := sha256Hex (hashed (hashW d)).
Definition BytesWritten (d : DecoratedStreamWriter) : Z := written (hashW d).

Section Layers.
Context {W : Type} `{StorageWriter W}.

Definition hashWrite (p : list byte) (d : DecoratedStreamWriter) (w : W)
    : option error * DecoratedStreamWriter * W :=
  let '((n, e), w) := FileWrite (target d) p w in
  let h := if 0 <? n
           then mkHashW (hashed (hashW d) ++ take (Z.to_nat n) p) (i64 (written (hashW d) + n))
           else hashW d in
  (e, mkStreamW (target d) h (encLayer d) (compLayer d), w).
(** A codec writes below what it emits, when it emits something. *)
Definition lowWrite (p : list byte) (d : DecoratedStreamWriter) (w : W) :=
  match p with [] => (None, d, w) | _ => hashWrite p d w end.
Definition encWrite (p : list byte) (d : DecoratedStreamWriter) (w : W)
    : option error * DecoratedStreamWriter * W :=
  match encLayer d with
  | None => hashWrite p d w
  | Some (c, hist) =>
      lowWrite (emit c hist p) (mkStreamW (target d) (hashW d) (Some (c, hist ++ [p])) (compLayer d)) w
  end.
Definition midWrite (p : list byte) (d : DecoratedStreamWriter) (w : W) :=
  match p with [] => (None, d, w) | _ => encWrite p d w end.
Definition Stream_Write (p : list byte) (d : DecoratedStreamWriter) (w : W)
    : option error * DecoratedStreamWriter * W :=
  match compLayer d with
  | None => encWrite p d w
  | Some (c, hist) =>
      midWrite (emit c hist p) (mkStreamW (target d) (hashW d) (encLayer d) (Some (c, hist ++ [p]))) w
  end.
(** Making a codec on top of the writer below it, which writes its preamble; a provider
    returns the error of that write. *)
Definition startEnc (c : option byteCodec) (d : DecoratedStreamWriter) (w : W)
    : option error * DecoratedStreamWriter * W :=
  match c with
  | None => (None, d, w)
  | Some c => lowWrite (preamble c) (mkStreamW (target d) (hashW d) (Some (c, [])) (compLayer d)) w
  end.
Definition startComp (c : option byteCodec) (d : DecoratedStreamWriter) (w : W)
    : option error * DecoratedStreamWriter * W :=
  match c with
  | None => (None, d, w)
  | Some c => midWrite (preamble c) (mkStreamW (target d) (hashW d) (encLayer d) (Some (c, []))) w
  end.
Definition closeEncryptor (d : DecoratedStreamWriter) (w : W) : option error * DecoratedStreamWriter * W :=
  match encLayer d with
  | Some (c, hist) => lowWrite (trailer c hist) d w
  | None => (None, d, w)
  end.
(** [CloserChain.Close]: the compressor, then the encryptor, whatever the first
    returns; the first error is reported. *)
Definition Stream_Close (d : DecoratedStreamWriter) (w : W) : option error * DecoratedStreamWriter * W :=
  let '(e1, d, w) := match compLayer d with
                     | Some (c, hist) => midWrite (trailer c hist) d w
                     | None => (None, d, w)
                     end in
  let '(e2, d, w) := closeEncryptor d w in
  (match e1 with Some e => Some e | None => e2 end, d, w).
End Layers.

(** The providers: a compressor may be the identity ([None]). *)
Definition named (s : string) : bool := negb (s =s "") && negb (s =s "none").
Definition addCompressor {W} `{StorageWriter W} (compression : string)
    (compressorFn : option (string -> option byteCodec + error)) (d : DecoratedStreamWriter) (w : W)
    : (DecoratedStreamWriter + error) * W :=
  let failed e d w :=
    (inr (Errorf ("failed initializing stream compression: " +:+ Error e) [e]), snd (closeEncryptor d w)) in
  match compressorFn with
  | Some f =>
      if named compression then
        match f compression with
        | inr e => failed e d w
        | inl c =>
            let '(e, d, w) := startComp c d w in
            match e with Some e => failed e d w | None => (inl d, w) end
        end
      else (inl d, w)
  | None => (inl d, w)
  end.
Definition BuildDecoratedStreamWriter {W} `{StorageWriter W, GoQuote}
    (raw compression encryptionType : string) (encryptorFn : option (byteCodec + error))
    (compressorFn : option (string -> option byteCodec + error)) (w : W)
    : (DecoratedStreamWriter + error) * W :=
  let enc :=
    if named encryptionType then
      match encryptorFn with
      | None => inr (Errorf ("stream encryptor not configured for encryption type " +:+ Quote encryptionType) [])
      | Some (inr e) => inr (Errorf ("failed initializing stream encryption: " +:+ Error e) [e])
      | Some (inl c) => inl (Some c)
      end
    else inl None in
  match enc with
  | inr e => (inr e, w)
  | inl enc =>
      let '(e, d, w) := startEnc enc (mkStreamW raw (mkHashW [] 0) None None) w in
      match e with
      | Some e => (inr (Errorf ("failed initializing stream encryption: " +:+ Error e) [e]), w)
      | None => addCompressor compression compressorFn d w
      end
  end.

(** ** [StreamFileSinkDoFn] *)
Record RecordFormatter := mkFormatter {
  FormatHeader : Schema -> list byte + error;
  FormatRecord : option GenericRecord -> Schema -> list byte + error }.
Record StreamFileSink := mkStreamSink {
  sf_OutputDir : string; sf_Format : string; sf_Compression : string; sf_Encryption : EncryptionConfig;
  sf_Options : FormatOptions; sf_SingleFile : bool; sf_Schema : Schema;
  sf_stager : option Stager; sf_formatter : option RecordFormatter; sf_streamW : option DecoratedStreamWriter }.
(** The process-level providers of a worker. *)
Record SinkProviders := mkProviders {
  storageFactory : bool;
  formatterProvider : option (string -> FormatOptions -> Schema -> option RecordFormatter);
  compressorProvider : option (string -> option byteCodec + error);
  encryptorProvider : option (EncryptionConfig -> byteCodec + error) }.

Definition withStager (fn : StreamFileSink) (s : Stager) : StreamFileSink :=
  mkStreamSink (sf_OutputDir fn) (sf_Format fn) (sf_Compression fn) (sf_Encryption fn) (sf_Options fn)
    (sf_SingleFile fn) (sf_Schema fn) (Some s) (sf_formatter fn) (sf_streamW fn).
Definition withStream (fn : StreamFileSink) (d : option DecoratedStreamWriter) : StreamFileSink :=
  mkStreamSink (sf_OutputDir fn) (sf_Format fn) (sf_Compression fn) (sf_Encryption fn) (sf_Options fn)
    (sf_SingleFile fn) (sf_Schema fn) (sf_stager fn) (sf_formatter fn) d.
Definition withFormatter (fn : StreamFileSink) (f : option RecordFormatter) : StreamFileSink :=
  mkStreamSink (sf_OutputDir fn) (sf_Format fn) (sf_Compression fn) (sf_Encryption fn) (sf_Options fn)
    (sf_SingleFile fn) (sf_Schema fn) (sf_stager fn) f (sf_streamW fn).

Section StreamSink.
Context {W : Type} `{StorageWriter W, ShardNames W, UnicodeLower, GoQuote} (env : SinkProviders).

Definition NewStreamFileSink (storage : bool) (formatter : option RecordFormatter)
    (outputDir format compression : string) (encryption : EncryptionConfig) (singleFile : bool)
    (opts : FormatOptions) (schema : Schema) : StreamFileSink :=
  mkStreamSink (trimSlash outputDir) (ToLower format) (ToLower compression) encryption opts singleFile schema
    (Some (NewBundleFileStager storage outputDir format compression (EncType encryption) singleFile))
    formatter None.
Definition stagerOf (fn : StreamFileSink) : Stager :=
  match sf_stager fn with
  | Some s => s
  | None => NewBundleFileStager false (sf_OutputDir fn) (sf_Format fn) (sf_Compression fn)
              (EncType (sf_Encryption fn)) (sf_SingleFile fn)
  end.
Definition StreamSink_Setup (fn : StreamFileSink) : StreamFileSink :=
  withStager fn (Stager_Setup (storageFactory env) (stagerOf fn)).
Definition StreamSink_StartBundle (fn : StreamFileSink) : StreamFileSink :=
  let fn := withStager fn (Stager_StartBundle (stagerOf fn)) in
  let f := match sf_formatter fn, formatterProvider env with
           | None, Some p => p (sf_Format fn) (sf_Options fn) (sf_Schema fn)
           | f, _ => f
           end in
  withStream (withFormatter fn f) None.

Definition StreamSink_abort (fn : StreamFileSink) (w : W) : StreamFileSink * W :=
  let '(fn, w) := match sf_streamW fn with
                  | Some d => (withStream fn None, snd (Stream_Close d w))
                  | None => (fn, w)
                  end in
  match sf_stager fn with
  | Some s => let '(_, s, w) := Abort s w in (withStager fn s, w)
  | None => (fn, w)
  end.

Definition encryptorFn (fn : StreamFileSink) : option (byteCodec + error) :=
  if named (EncType (sf_Encryption fn)) then
    Some match encryptorProvider env with
         | None => inr (Errorf ("stream encryptor provider not initialized for encryption type "
                                +:+ Quote (EncType (sf_Encryption fn))) [])
         | Some p => p (sf_Encryption fn)
         end
  else None.
(** The header of a new file. *)
Definition writeHeader (d : DecoratedStreamWriter) (fn : StreamFileSink) (w : W)
    : option error * StreamFileSink * W :=
  match sf_formatter fn with
  | None => (None, fn, w)
  | Some f =>
      match FormatHeader f (sf_Schema fn) with
      | inr e =>
          let '(fn, w) := StreamSink_abort fn w in
          (Some (Errorf ("failed formatting header: " +:+ Error e) [e]), fn, w)
      | inl [] => (None, fn, w)
      | inl header =>
          let '(e, d, w) := Stream_Write header d w in
          let fn := withStream fn (Some d) in
          match e with
          | Some e =>
              let '(fn, w) := StreamSink_abort fn w in
              (Some (Errorf ("failed writing header: " +:+ Error e) [e]), fn, w)
          | None => (None, fn, w)
          end
      end
  end.
Definition lazyOpen (fn : StreamFileSink) (w : W) : option error * StreamFileSink * W :=
  match sf_streamW fn with
  | Some _ => (None, fn, w)
  | None =>
      let '(r, s, w) := EnsureOpen (storageFactory env) (stagerOf fn) w in
      let fn := withStager fn s in
      match r with
      | inr e => (Some e, fn, w)
      | inl h =>
          let '(r, w) := BuildDecoratedStreamWriter h (sf_Compression fn) (EncType (sf_Encryption fn))
                           (encryptorFn fn) (compressorProvider env) w in
          match r with
          | inr e => let '(_, s, w) := Abort s w in (Some e, withStager fn s, w)
          | inl d => writeHeader d (withStream fn (Some d)) w
          end
      end
  end.

Definition StreamSink_ProcessElement (rec : option GenericRecord) (fn : StreamFileSink) (w : W)
    : option error * StreamFileSink * W :=
  let '(e, fn, w) := lazyOpen fn w in
  match e with
  | Some e => (Some e, fn, w)
  | None =>
      match sf_formatter fn with
      | None => (Some (Errorf "record formatter is not initialized" []), fn, w)
      | Some f =>
          match FormatRecord f rec (sf_Schema fn) with
          | inr e =>
              let '(fn, w) := StreamSink_abort fn w in
              (Some (Errorf ("failed formatting record: " +:+ Error e) [e]), fn, w)
          | inl row =>
              let '(e, fn, w) :=
                match row, sf_streamW fn with
                | [], _ | _, None => (None, fn, w)
                | _, Some d => let '(e, d, w) := Stream_Write row d w in (e, withStream fn (Some d), w)
                end in
              match e with
              | Some e =>
                  let '(fn, w) := StreamSink_abort fn w in
                  (Some (Errorf ("failed writing record: " +:+ Error e) [e]), fn, w)
              | None => (None, withStager fn (IncrementRecord (stagerOf fn)), w)
              end
          end
      end
  end.

Definition StreamSink_FinishBundle (fn : StreamFileSink) (w : W) : option error * StreamFileSink * W :=
  match sf_stager fn with
  | None => (None, fn, w)
  | Some s =>
      if recordCount s =? 0 then (None, fn, w)
      else
        let '(e, d, s, w) := CommitOrAbort Stream_Close (sf_streamW fn) s w in
        (e, withStream (withStager fn s) d, w)
  end.
Definition Checksum `{GoSha256} (fn : StreamFileSink) : string :=
  match sf_streamW fn with Some d => HexSum d | None => "" end.

(** The calls a runner makes for one bundle; the first error ends it. *)
Fixpoint StreamSink_records (recs : list (option GenericRecord)) (fn : StreamFileSink) (w : W)
    : option error * StreamFileSink * W :=
  match recs with
  | [] => (None, fn, w)
  | r :: recs' =>
      let '(e, fn, w) := StreamSink_ProcessElement r fn w in
      match e with Some _ => (e, fn, w) | None => StreamSink_records recs' fn w end
  end.
Definition StreamSink_bundle (recs : list (option GenericRecord)) (fn : StreamFileSink) (w : W)
    : option error * StreamFileSink * W :=
  let '(e, fn, w) := StreamSink_records recs (StreamSink_StartBundle fn) w in
  match e with Some _ => (e, fn, w) | None => StreamSink_FinishBundle fn w end.
End StreamSink.

(** ** The JSON-lines sinks ([DLQSinkDoFn], [AuditSinkDoFn])

    They differ in the records they marshal and in the texts of their errors. *)
Class GoMarshal (R : Type) := marshalJSON : R -> list byte + error.
Definition newline : byte := "010"%char.
Record JSONLSink := mkJSONLSink { js_dir : string; js_stager : option Stager }.

Section JSONLSinks.
Context {W : Type} `{StorageWriter W, ShardNames W, UnicodeLower} (factory : bool).

Definition newJSONLStager (storage : bool) (dir : string) : Stager :=
  NewBundleFileStager storage dir "jsonl" "none" "none" false.
Definition NewJSONLSink (storage : bool) (dir : string) : JSONLSink :=
  mkJSONLSink (trimSlash dir) (Some (newJSONLStager storage dir)).
Definition js_stagerOf (fn : JSONLSink) : Stager :=
  match js_stager fn with Some s => s | None => newJSONLStager false (js_dir fn) end.
Definition JSONL_Setup (fn : JSONLSink) : JSONLSink :=
  mkJSONLSink (js_dir fn) (Some (Stager_Setup factory (js_stagerOf fn))).
Definition JSONL_StartBundle (fn : JSONLSink) : JSONLSink :=
  mkJSONLSink (js_dir fn) (Some (Stager_StartBundle (js_stagerOf fn))).
Definition JSONL_ProcessElement {R} `{GoMarshal R} (marshalMsg writeMsg : string) (rec : R)
    (fn : JSONLSink) (w : W) : option error * JSONLSink * W :=
  let '(r, s, w) := EnsureOpen factory (js_stagerOf fn) w in
  let with_ s := mkJSONLSink (js_dir fn) (Some s) in
  match r with
  | inr e => (Some e, with_ s, w)
  | inl h =>
      match marshalJSON rec with
      | inr e =>
          let '(_, s, w) := Abort s w in (Some (Errorf (marshalMsg +:+ Error e) [e]), with_ s, w)
      | inl data =>
          let '((_, e), w) := FileWrite h (data ++ [newline]) w in
          match e with
          | Some e => let '(_, s, w) := Abort s w in (Some (Errorf (writeMsg +:+ Error e) [e]), with_ s, w)
          | None => (None, with_ (IncrementRecord s), w)
          end
      end
  end.
Definition JSONL_FinishBundle (fn : JSONLSink) (w : W) : option error * JSONLSink * W :=
  match js_stager fn with
  | None => (None, fn, w)
  | Some s => let '(e, s, w) := commitPlain s w in (e, mkJSONLSink (js_dir fn) (Some s), w)
  end.
Definition DLQSink_ProcessElement `{GoMarshal DeadLetterRecord} (rec : DeadLetterRecord) :=
  JSONL_ProcessElement "failed marshaling DLQ record: " "failed writing DLQ record: " rec.
Definition AuditSink_ProcessElement `{GoMarshal AuditRecord} (rec : AuditRecord) :=
  JSONL_ProcessElement "audit sink: failed marshaling record: " "audit sink: failed writing record: " rec.

Fixpoint JSONL_records {R} (process : R -> JSONLSink -> W -> option error * JSONLSink * W) (recs : list R)
    (fn : JSONLSink) (w : W) : option error * JSONLSink * W :=
  match recs with
  | [] => (None, fn, w)
  | r :: recs' =>
      let '(e, fn, w) := process r fn w in
      match e with Some _ => (e, fn, w) | None => JSONL_records process recs' fn w end
  end.
Definition JSONL_bundle {R} (process : R -> JSONLSink -> W -> option error * JSONLSink * W) (recs : list R)
    (fn : JSONLSink) (w : W) : option error * JSONLSink * W :=
  let '(e, fn, w) := JSONL_records process recs (JSONL_StartBundle fn) w in
  match e with Some _ => (e, fn, w) | None => JSONL_FinishBundle fn w end.

(** ** [MetricsSinkDoFn] *)
Record MetricsSink := mkMetricsSink { ms_OutputDir : string; ms_storage : bool }.
Definition NewMetricsSink (storage : bool) (outputDir : string) : MetricsSink :=
  mkMetricsSink (trimSlash outputDir) storage.
Definition MetricsSink_Setup (fn : MetricsSink) : MetricsSink :=
  mkMetricsSink (ms_OutputDir fn) (ms_storage fn || factory).
Definition metricsURI (fn : MetricsSink) : string :=
  let dir := TrimRight (ms_OutputDir fn) (fun c => bool_decide (c = slash) || bool_decide (c = "092"%char)) in
  (if negb (Ext dir =s "") then Dir dir else dir) +:+ "/pipeline_metrics.json".
Definition MetricsSink_ProcessElement `{GoMarshal PipelineMetrics} (m : PipelineMetrics) (fn : MetricsSink) (w : W)
    : option error * MetricsSink * W :=
  let fn := MetricsSink_Setup fn in
  let fail msg e := Some (Errorf ("MetricsSinkDoFn: " +:+ msg +:+ ": " +:+ Error e) [e]) in
  if negb (ms_storage fn)
  then (Some (Errorf "MetricsSinkDoFn: storage not initialized — call Setup first" []), fn, w)
  else match marshalJSON m with
  | inr e => (fail "marshal" e, fn, w)
  | inl data =>
      match CreateTemp (metricsURI fn) w with
      | (inr e, w) => (fail "CreateTemp" e, fn, w)
      | (inl t, w) =>
          let '((_, e), w) := FileWrite t data w in
          match e with
          | Some e => (fail "write" e, fn, snd (AbortTemp t w))
          | None =>
              let '(e, w) := FileClose t w in
              match e with
              | Some e => (fail "close writer" e, fn, snd (AbortTemp t w))
              | None =>
                  let '(e, w) := CommitTemp t (metricsURI fn) w in
                  (match e with Some e => fail "CommitTemp" e | None => None end, fn, w)
              end
          end
      end
  end.
End JSONLSinks.

(** ** [DelimitedFileWriter] of [file_sink.go] *)
Record FileWriterContext := mkFileCtx {
  fc_finalURI : string; fc_tempURI : string; fc_stream : DecoratedStreamWriter; fc_schema : Schema; fc_count : Z }.

Section DelimitedFiles.
Context {W : Type} `{StorageWriter W, UnicodeLower, GoSha256}.
Variables (wrap : string -> option byteCodec + error) (formatter : RecordFormatter) (compression : string).

Definition File_abort (c : FileWriterContext) (w : W) : option error * W :=
  let '(_, _, w) := Stream_Close (fc_stream c) w in
  AbortTemp (fc_tempURI c) (snd (FileClose (fc_tempURI c) w)).
Definition File_Open (final : string) (schema : Schema) (w : W) : (FileWriterContext + error) * W :=
  match CreateTemp final w with
  | (inr e, w) => (inr (Errorf ("failed creating temp file: " +:+ Error e) [e]), w)
  | (inl t, w) =>
      match wrap (ToLower compression) with
      | inr e => (inr e, snd (AbortTemp t (snd (FileClose t w))))
      | inl k =>
          let '(e, d, w) := startComp k (mkStreamW t (mkHashW [] 0) None None) w in
          match e with
          | Some e => (inr e, snd (AbortTemp t (snd (FileClose t w))))
          | None =>
              let c := mkFileCtx final t d schema 0 in
              match FormatHeader formatter schema with
              | inr e => (inr (Errorf ("failed formatting header: " +:+ Error e) [e]), snd (File_abort c w))
              | inl [] => (inl c, w)
              | inl header =>
                  let '(e, d, w) := Stream_Write header d w in
                  let c := mkFileCtx final t d schema 0 in
                  match e with
                  | Some e => (inr (Errorf ("failed writing header: " +:+ Error e) [e]), snd (File_abort c w))
                  | None => (inl c, w)
                  end
              end
          end
      end
  end.
Definition File_Write (c : FileWriterContext) (rec : option GenericRecord) (w : W)
    : option error * FileWriterContext * W :=
  match FormatRecord formatter rec (fc_schema c) with
  | inr e => (Some (Errorf ("failed formatting record: " +:+ Error e) [e]), c, w)
  | inl row =>
      let '(e, d, w) := match row with [] => (None, fc_stream c, w) | _ => Stream_Write row (fc_stream c) w end in
      let with_ n := mkFileCtx (fc_finalURI c) (fc_tempURI c) d (fc_schema c) n in
      match e with
      | Some e => (Some (Errorf ("failed writing record: " +:+ Error e) [e]), with_ (fc_count c), w)
      | None => (None, with_ (i64 (fc_count c + 1)), w)
      end
  end.
Definition File_Close (c : FileWriterContext) (w : W) : (SinkMetrics + error) * W :=
  let '(e, d, w) := Stream_Close (fc_stream c) w in
  match e with
  | Some e => (inr (Errorf ("failed closing compression writer: " +:+ Error e) [e]), snd (File_abort c w))
  | None =>
      let '(e, w) := FileClose (fc_tempURI c) w in
      match e with
      | Some e => (inr (Errorf ("failed closing storage writer: " +:+ Error e) [e]), snd (File_abort c w))
      | None =>
          if fc_count c =? 0 then (inl (mkSinkMetrics 0 0 0 ""), snd (AbortTemp (fc_tempURI c) w))
          else
            let '(e, w) := CommitTemp (fc_tempURI c) (fc_finalURI c) w in
            match e with
            | Some e => (inr (Errorf ("failed committing temp file: " +:+ Error e) [e]),
                         snd (AbortTemp (fc_tempURI c) w))
            | None => (inl (mkSinkMetrics (fc_count c) (BytesWritten d) 1 (HexSum d)), w)
            end
      end
  end.
End DelimitedFiles.

(** ** Specification of the layers: what the storage receives *)
Definition layers : Type := option (byteCodec * list (list byte)) * option (byteCodec * list (list byte)).
Definition layersOf (d : DecoratedStreamWriter) : layers := (encLayer d, compLayer d).
Definition pushEnc (enc : option (byteCodec * list (list byte))) (p : list byte) :=
  match enc with
  | None => (None, p)
  | Some (c, h) => (Some (c, h ++ [p]), emit c h p)
  end.
Definition push (ls : layers) (p : list byte) : layers * list byte :=
  match snd ls with
  | None => let '(enc, out) := pushEnc (fst ls) p in ((enc, None), out)
  | Some (c, h) =>
      match emit c h p with
      | [] => ((fst ls, Some (c, h ++ [p])), [])
      | q => let '(enc, out) := pushEnc (fst ls) q in ((enc, Some (c, h ++ [p])), out)
      end
  end.
(** Closing the compressor, then the encryptor. *)
Definition closeComp (ls : layers) :=
  match snd ls with
  | None => (fst ls, [])
  | Some (c, h) => match trailer c h with [] => (fst ls, []) | q => pushEnc (fst ls) q end
  end.
Definition closeEnc (enc : option (byteCodec * list (list byte))) : list byte :=
  match enc with Some (c, h) => trailer c h | None => [] end.
Definition finish (ls : layers) : list byte := snd (closeComp ls) ++ closeEnc (fst (closeComp ls)).
(** What the layers have written once made: the encryptor, then the compressor. *)
Definition openEnc (enc : option byteCodec) : list byte :=
  match enc with Some c => preamble c | None => [] end.
Definition openComp (enc : option (byteCodec * list (list byte))) (comp : option byteCodec) : layers * list byte :=
  match comp with
  | None => ((enc, None), [])
  | Some c => match preamble c with
              | [] => ((enc, Some (c, [])), [])
              | q => let '(enc, out) := pushEnc enc q in ((enc, Some (c, [])), out)
              end
  end.
(** The bytes that writing [chunks] and closing add. *)
Fixpoint encode (ls : layers) (chunks : list (list byte)) : list byte :=
  match chunks with
  | [] => finish ls
  | p :: ps => let '(ls', out) := push ls p in out ++ encode ls' ps
  end.

(** The content of a file written in [chunks] through an encryptor and a compressor. *)
Definition fileBytes (enc comp : option byteCodec) (chunks : list (list byte)) : list byte :=
  let '(ls, out) := openComp ((fun c => (c, [])) <$> enc) comp in openEnc enc ++ out ++ encode ls chunks.

Lemma encode_plain chunks : encode (None, None) chunks = concat chunks.
Proof. induction chunks as [|p ps IH]; [done|]. simpl. by rewrite IH. Qed.

(** ** Lemmas: the decorated writer *)
Section StreamFacts.
Context {W : Type} `{StorageLaws W}.

(** The staging file holds what has been hashed. *)
Definition streamOk (d : DecoratedStreamWriter) (w : W) : Prop :=
  staged w (target d) = Some (hashed (hashW d)).
Definition wrote (d : DecoratedStreamWriter) (w : W) (ls : layers) (out : list byte)
    (r : option error * DecoratedStreamWriter * W) : Prop :=
  let '(e, d', w') := r in
  visible w' = visible w /\ target d' = target d /\ streamOk d' w'
  /\ (e = None -> layersOf d' = ls /\ hashed (hashW d') = hashed (hashW d) ++ out).

Lemma hashWrite_spec p d w : streamOk d w -> wrote d w (layersOf d) p (hashWrite p d w).
Proof.
  intros Hd. unfold hashWrite. pose proof (write_spec (target d) p w _ Hd) as Hw.
  destruct (FileWrite (target d) p w) as [[n e] w']. destruct Hw as (Hv & Hn & Hs & He).
  assert (hashed (if 0 <? n
           then mkHashW (hashed (hashW d) ++ take (Z.to_nat n) p) (i64 (written (hashW d) + n))
           else hashW d) = hashed (hashW d) ++ take (Z.to_nat n) p) as Eh.
  { zcases; [done|]. replace (Z.to_nat n) with 0%nat by lia. by rewrite app_nil_r. }
  split_and!; [done|done|unfold streamOk; cbn [target hashW]; by rewrite Eh|].
  intros He0. split; [done|]. cbn [hashW]. rewrite Eh. f_equal. apply take_ge.
  rewrite (He He0). unfold zlen. lia.
Qed.

Lemma lowWrite_spec p d w : streamOk d w -> wrote d w (layersOf d) p (lowWrite p d w).
Proof.
  intros Hd. destruct p as [|c p]; [|by apply hashWrite_spec].
  unfold lowWrite, wrote. split_and!; try done. by rewrite app_nil_r.
Qed.

Lemma encWrite_spec p d w : streamOk d w ->
  wrote d w (fst (pushEnc (encLayer d) p), compLayer d) (snd (pushEnc (encLayer d) p)) (encWrite p d w).
Proof.
  intros Hd. unfold encWrite, pushEnc. destruct (encLayer d) as [[c h]|] eqn:E; cbn [fst snd].
  - apply (lowWrite_spec (emit c h p) (mkStreamW (target d) (hashW d) (Some (c, h ++ [p])) (compLayer d)) w Hd).
  - pose proof (hashWrite_spec p d w Hd) as K. unfold layersOf in K. by rewrite E in K.
Qed.

Lemma midWrite_spec p d w : streamOk d w ->
  let r := match p with [] => (encLayer d, []) | _ => pushEnc (encLayer d) p end in
  wrote d w (fst r, compLayer d) (snd r) (midWrite p d w).
Proof.
  intros Hd. destruct p as [|c p]; [|by apply encWrite_spec].
  unfold midWrite, wrote. cbn [fst snd]. split_and!; try done. by rewrite app_nil_r.
Qed.

Lemma startEnc_spec c d w : streamOk d w -> encLayer d = None ->
  wrote d w ((fun c => (c, [])) <$> c, compLayer d) (openEnc c) (startEnc c d w).
Proof.
  intros Hd E. destruct c as [c|]; cbn.
  - exact (lowWrite_spec (preamble c) (mkStreamW (target d) (hashW d) (Some (c, [])) (compLayer d)) w Hd).
  - unfold wrote, layersOf. rewrite E. split_and!; try done. by rewrite app_nil_r.
Qed.
Lemma startComp_spec c d w : streamOk d w -> compLayer d = None ->
  wrote d w (fst (openComp (encLayer d) c)) (snd (openComp (encLayer d) c)) (startComp c d w).
Proof.
  intros Hd E. destruct c as [c|]; cbn [startComp openComp].
  - pose proof (midWrite_spec (preamble c) (mkStreamW (target d) (hashW d) (encLayer d) (Some (c, []))) w Hd) as K.
    cbn zeta in K. cbn [encLayer compLayer] in K. destruct (preamble c) as [|x q]; [exact K|].
    by destruct (pushEnc (encLayer d) (x :: q)).
  - unfold wrote, layersOf. rewrite E. split_and!; try done. by rewrite app_nil_r.
Qed.

Lemma Stream_Write_spec p d w : streamOk d w ->
  wrote d w (fst (push (layersOf d) p)) (snd (push (layersOf d) p)) (Stream_Write p d w).
Proof.
  intros Hd. unfold Stream_Write, push, layersOf. cbn [fst snd].
  destruct (compLayer d) as [[c h]|] eqn:E.
  - pose proof (midWrite_spec (emit c h p) (mkStreamW (target d) (hashW d) (encLayer d) (Some (c, h ++ [p])))
      w Hd) as K. cbn zeta in K. destruct (emit c h p) as [|x q]; [exact K|].
    cbn [encLayer compLayer] in K. by destruct (pushEnc (encLayer d) (x :: q)).
  - pose proof (encWrite_spec p d w Hd) as K. rewrite E in K. by destruct (pushEnc (encLayer d) p).
Qed.

Lemma closeComp_spec d w : streamOk d w ->
  wrote d w (fst (closeComp (layersOf d)), compLayer d) (snd (closeComp (layersOf d)))
    (match compLayer d with Some (c, h) => midWrite (trailer c h) d w | None => (None, d, w) end).
Proof.
  intros Hd. unfold closeComp, layersOf. cbn [fst snd]. destruct (compLayer d) as [[c h]|] eqn:E.
  - pose proof (midWrite_spec (trailer c h) d w Hd) as K. rewrite E in K. by destruct (trailer c h).
  - unfold wrote, layersOf. split_and!; try done. rewrite E. by rewrite app_nil_r.
Qed.

Lemma closeEnc_spec d w : streamOk d w ->
  wrote d w (layersOf d) (closeEnc (encLayer d)) (closeEncryptor d w).
Proof.
  intros Hd. unfold closeEncryptor. destruct (encLayer d) as [[c h]|] eqn:E; [by apply lowWrite_spec|].
  unfold wrote. split_and!; try done. by rewrite app_nil_r.
Qed.

Lemma Stream_Close_spec d w : streamOk d w ->
  let '(e, d', w') := Stream_Close d w in
  visible w' = visible w /\ target d' = target d /\ streamOk d' w'
  /\ (e = None -> hashed (hashW d') = hashed (hashW d) ++ finish (layersOf d)).
Proof.
  intros Hd. unfold Stream_Close. pose proof (closeComp_spec d w Hd) as K1.
  destruct (match compLayer d with Some _ => _ | None => _ end) as [[e1 d1] w1].
  destruct K1 as (Hv1 & Ht1 & Hs1 & He1). pose proof (closeEnc_spec d1 w1 Hs1) as K2.
  destruct (closeEncryptor d1 w1) as [[e2 d2] w2].
  destruct K2 as (Hv2 & Ht2 & Hs2 & He2). split_and!; [congruence|congruence|done|].
  destruct e1; [done|]. intros ->. destruct (He2 eq_refl) as [_ ->]. destruct (He1 eq_refl) as [El ->].
  unfold finish. rewrite <- app_assoc. do 2 f_equal.
  apply (f_equal fst) in El. simpl in El. by rewrite El.
Qed.
End StreamFacts.

(** ** Lemmas: the stager *)
Section StagerFacts.
Context {W : Type} `{StorageLaws W, ShardNames W, UnicodeLower} (factory : bool).

(** An open shard for [u] with content [b], while [v] is published. *)
Definition stagedAt (s : Stager) (w : W) (v : gmap string (list byte)) (u : string) (b : list byte) : Prop :=
  writer s = Some (tempURI s) /\ tempURI s <> "" /\ finalURI s = u /\ hasStorage s = true
  /\ finalOK u /\ visible w = v /\ staged w (tempURI s) = Some b.
(** The fields an operation keeps. *)
Definition sameShard (s s' : Stager) : Prop :=
  OutputDir s' = OutputDir s /\ Format s' = Format s /\ Compression s' = Compression s
  /\ EncryptionName s' = EncryptionName s /\ SingleFile s' = SingleFile s.

Lemma outputURI_same s s' (w : W) : sameShard s s' -> outputURI s' w = outputURI s w.
Proof.
  intros (E1 & E2 & E3 & E4 & E5). unfold outputURI. by rewrite E1, E2, E3, E4, E5.
Qed.

Lemma EnsureOpen_spec s w :
  writer s = None -> finalOK (outputURI s w) ->
  let '(r, s', w') := EnsureOpen factory s w in
  sameShard s s' /\ recordCount s' = recordCount s /\ visible w' = visible w
  /\ match r with
     | inl h => h = tempURI s' /\ stagedAt s' w' (visible w) (outputURI s w) []
     | inr _ => writer s' = None
     end.
Proof.
  intros Hw Hok. unfold EnsureOpen. rewrite Hw. set (s1 := Stager_Setup factory s).
  destruct (hasStorage s1) eqn:Hst; simpl; [|by split_and!].
  change (outputURI s1 w) with (outputURI s w). pose proof (create_spec _ w Hok) as [Hv Hc].
  destruct (CreateTemp (outputURI s w) w) as [[t|e] w1]; simpl in *; [|by split_and!].
  destruct Hc. by split_and!.
Qed.

Lemma Abort_spec s w v u b : stagedAt s w v u b -> visible (snd (Abort s w)) = v.
Proof.
  intros (Hw & Ht & _ & Hs & _ & Hv & Hb). unfold Abort. rewrite Hw.
  destruct (close_spec (tempURI s) w b Hb) as [Hv1 Hb1]. simpl.
  rewrite (proj2 (String.eqb_neq _ _) Ht), Hs. simpl.
  pose proof (abort_spec (tempURI s) b _ Hb1) as Ha.
  destruct (AbortTemp (tempURI s) (snd (FileClose (tempURI s) w))). simpl in *. congruence.
Qed.

Lemma Abort_same s w : sameShard s (snd (fst (Abort s w))).
Proof.
  unfold Abort. destruct (writer s); [|by destruct (negb _ && _); [destruct (AbortTemp _ _)|]].
  by destruct (negb _ && _); [destruct (AbortTemp _ _)|].
Qed.

(** What a commit does, given what closing the wrapper does. *)
Lemma CommitOrAbort_spec `{!AtomicCommit W} {C} (close : C -> W -> option error * C * W) closer s w v u b
    (Q : option C -> list byte -> Prop) :
  stagedAt s w v u b ->
  match closer with
  | None => Q None b
  | Some c => let '(e, c', w1) := close c w in
      visible w1 = visible w /\ exists b1, staged w1 (tempURI s) = Some b1 /\ (e = None -> Q (Some c') b1)
  end ->
  let '(e, c', s', w') := CommitOrAbort close closer s w in
  sameShard s s' /\
  match e with
  | Some _ => visible w' = v
  | None => exists b1, Q c' b1 /\ visible w' = if recordCount s =? 0 then v else <[u := b1]> v
  end.
Proof.
  intros Hs Hc. pose proof Hs as (Hw & Ht & Hu & Hst & Hok & Hv & Hb).
  unfold CommitOrAbort. rewrite Hw.
  assert (exists ce c' w1 b1, (match closer with
      | Some c => let '(e, c, w) := close c w in (e, Some c, w)
      | None => (None, None, w) end) = (ce, c', w1)
    /\ stagedAt s w1 v u b1 /\ (ce = None -> Q c' b1)) as (ce & c' & w1 & b1 & -> & Hs1 & HQ).
  { destruct closer as [c|]; [|by exists None, None, w, b].
    destruct (close c w) as [[e c'] w1]. destruct Hc as (Hv1 & b1 & Hb1 & HQ).
    exists e, (Some c'), w1, b1. split_and!; try done. unfold stagedAt. split_and!; congruence. }
  destruct ce as [e|].
  { pose proof (Abort_spec s w1 v u b1 Hs1) as Ha. pose proof (Abort_same s w1) as Hsm.
    by destruct (Abort s w1) as [[? s'] w']. }
  pose proof Hs1 as (_ & _ & _ & _ & _ & Hv1 & Hb1).
  destruct (close_spec (tempURI s) w1 b1 Hb1) as [Hv2 Hb2].
  destruct (FileClose (tempURI s) w1) as [[e|] w2]; simpl in Hv2, Hb2.
  { assert (stagedAt s w2 v u b1) as Hs2 by (unfold stagedAt; split_and!; congruence).
    pose proof (Abort_spec s w2 v u b1 Hs2) as Ha. pose proof (Abort_same s w2) as Hsm.
    by destruct (Abort s w2) as [[? s'] w']. }
  cbn [noWriter recordCount tempURI finalURI]. destruct (recordCount s =? 0).
  - pose proof (abort_spec (tempURI s) b1 w2 Hb2) as Ha. destruct (AbortTemp (tempURI s) w2) as [[e|] w3];
      simpl in *; (split; [done|]); [congruence|exists b1]. split; [auto|congruence].
  - rewrite Hu. pose proof (commit_spec (tempURI s) u w2 b1 Hok Hb2) as Hcm.
    pose proof (commit_atomic (tempURI s) u w2 b1) as Hat.
    destruct (CommitTemp (tempURI s) u w2) as [[e|] w3]; simpl in *; (split; [done|]).
    + destruct Hcm as [_ Hb3]. rewrite (abort_spec (tempURI s) b1 w3 Hb3), (Hat e); congruence.
    + exists b1. split; [auto|]. rewrite Hcm. congruence.
Qed.
End StagerFacts.

(** ** Lemmas: a bundle of the stream sink *)

(** A chunk is written only when it is not empty. *)
Definition chunk (p : list byte) : list (list byte) := match p with [] => [] | _ => [p] end.

Section StreamSinkFacts.
Context {W : Type} `{AtomicCommit W, ShardNames W, UnicodeLower, GoQuote} (env : SinkProviders).

(** The codecs a configuration asks for. *)
Definition encryptorFor (fn : StreamFileSink) (enc : option byteCodec) : Prop :=
  if named (EncType (sf_Encryption fn))
  then exists p c, encryptorProvider env = Some p /\ p (sf_Encryption fn) = inl c /\ enc = Some c
  else enc = None.
Definition compressorFor (fn : StreamFileSink) (comp : option byteCodec) : Prop :=
  match compressorProvider env with
  | Some f => if named (sf_Compression fn) then f (sf_Compression fn) = inl comp else comp = None
  | None => comp = None
  end.
Definition layersFor (fn : StreamFileSink) (enc comp : option byteCodec) : Prop :=
  encryptorFor fn enc /\ compressorFor fn comp.
Definition sameSink (fn fn' : StreamFileSink) : Prop :=
  sf_formatter fn' = sf_formatter fn /\ sf_Schema fn' = sf_Schema fn
  /\ sf_Compression fn' = sf_Compression fn /\ sf_Encryption fn' = sf_Encryption fn.

(** An open shard: the chunks [cs] written so far went through the codecs [enc] and [comp],
    [n] records counted. *)
Record sinkAt (fn : StreamFileSink) (w : W) (v : gmap string (list byte)) (u : string) (enc comp : option byteCodec)
    (cs : list (list byte)) (n : Z) : Prop := {
  at_stager : sf_stager fn <> None;
  at_stream : exists d, sf_streamW fn = Some d /\ target d = tempURI (stagerOf fn)
    /\ stagedAt (stagerOf fn) w v u (hashed (hashW d))
    /\ forall rest, fileBytes enc comp (cs ++ rest) = hashed (hashW d) ++ encode (layersOf d) rest;
  at_count : recordCount (stagerOf fn) = n }.

Lemma StreamSink_abort_spec fn w v u d b :
  sf_streamW fn = Some d -> sf_stager fn <> None -> target d = tempURI (stagerOf fn) ->
  stagedAt (stagerOf fn) w v u b -> b = hashed (hashW d) ->
  visible (snd (StreamSink_abort fn w)) = v.
Proof.
  intros Hd Hs Ht Hst ->. unfold StreamSink_abort. rewrite Hd.
  pose proof Hst as (E1 & E2 & E3 & E4 & E5 & E6 & E7).
  assert (streamOk d w) as Hok by (unfold streamOk; congruence).
  pose proof (Stream_Close_spec d w Hok) as Hc. destruct (Stream_Close d w) as [[e d'] w1].
  destruct Hc as (Hv & Ht' & Hok' & _). simpl. unfold stagerOf in *.
  destruct (sf_stager fn) as [s|]; [|done].
  assert (stagedAt s w1 v u (hashed (hashW d'))) as Hst1.
  { unfold stagedAt. unfold streamOk in Hok'. split_and!; congruence. }
  pose proof (Abort_spec s w1 v u _ Hst1) as Ha. by destruct (Abort s w1) as [[? ?] ?].
Qed.

Lemma StreamSink_abort_same fn (w : W) : sameSink fn (fst (StreamSink_abort fn w)).
Proof.
  unfold StreamSink_abort, sameSink. destruct (sf_streamW fn); destruct (sf_stager fn) eqn:Es; simpl; rewrite ?Es;
    try done; by destruct (Abort _ _) as [[? ?] ?].
Qed.

(** Writing one chunk to an open shard. *)
Lemma push_spec fn w v u enc comp cs n d p :
  sinkAt fn w v u enc comp cs n -> sf_streamW fn = Some d ->
  let '(e, d', w') := Stream_Write p d w in
  stagedAt (stagerOf fn) w' v u (hashed (hashW d')) /\ target d' = tempURI (stagerOf fn)
  /\ (e = None -> sinkAt (withStream fn (Some d')) w' v u enc comp (cs ++ [p]) n).
Proof.
  intros [Hs (d0 & Hd0 & Ht & Hst & Hcs) Hn] Hd. rewrite Hd in Hd0. injection Hd0 as <-.
  pose proof Hst as (E1 & E2 & E3 & E4 & E5 & E6 & E7).
  assert (streamOk d w) as Hok by (unfold streamOk; congruence).
  pose proof (Stream_Write_spec p d w Hok) as K. destruct (Stream_Write p d w) as [[e d'] w'].
  destruct K as (Hv & Ht' & Hok' & Hl). unfold streamOk in Hok'.
  assert (stagedAt (stagerOf fn) w' v u (hashed (hashW d'))) as Hst'.
  { unfold stagedAt. split_and!; congruence. }
  split_and!; [done|congruence|]. intros ->. destruct (Hl eq_refl) as [El Eh]. split; [exact Hs| |exact Hn].
  exists d'. split_and!; [done|by rewrite Ht'|exact Hst'|]. intros rest.
  rewrite <- app_assoc, Hcs, Eh, El. simpl. destruct (push (layersOf d) p). simpl. by rewrite app_assoc.
Qed.

Lemma writeHeader_spec fn w v u enc comp d :
  sinkAt fn w v u enc comp [] 0 -> sf_streamW fn = Some d ->
  let '(e, fn', w') := writeHeader d fn w in
  sameSink fn fn' /\
  match e with
  | Some _ => visible w' = v
  | None => exists h, match sf_formatter fn with
                      | Some f => FormatHeader f (sf_Schema fn) = inl h | None => h = [] end
            /\ sinkAt fn' w' v u enc comp (chunk h) 0
  end.
Proof.
  intros Hat Hd. unfold writeHeader. destruct (sf_formatter fn) as [f|] eqn:Ef; [|by split; [|exists []]].
  pose proof Hat as [Hs (d0 & Hd0 & Ht & Hst & _) _]. rewrite Hd in Hd0. injection Hd0 as <-.
  destruct (FormatHeader f (sf_Schema fn)) as [h|err] eqn:Eh.
  - destruct h as [|c h]; [by split; [|exists []]|].
    pose proof (push_spec fn w v u enc comp [] 0 d (c :: h) Hat Hd) as K.
    destruct (Stream_Write (c :: h) d w) as [[e d'] w']. destruct K as (Hst' & Ht' & Hok).
    destruct e as [e|]; [|split; [done|]; exists (c :: h); split; [done|by apply Hok]].
    pose proof (StreamSink_abort_spec (withStream fn (Some d')) w' v u d' _ eq_refl Hs Ht' Hst' eq_refl) as Ha.
    pose proof (StreamSink_abort_same (withStream fn (Some d')) w') as Hsm.
    by destruct (StreamSink_abort _ w').
  - pose proof (StreamSink_abort_spec fn w v u d _ Hd Hs Ht Hst eq_refl) as Ha.
    pose proof (StreamSink_abort_same fn w) as Hsm. by destruct (StreamSink_abort fn w).
Qed.

(** The decorated writer that is built has written the preambles of its codecs. *)
Definition built (fn : StreamFileSink) (h : string) (w w' : W) (r : DecoratedStreamWriter + error) : Prop :=
  visible w' = visible w
  /\ match r with
     | inl d => target d = h /\ streamOk d w' /\ exists enc comp, layersFor fn enc comp
         /\ forall rest, fileBytes enc comp rest = hashed (hashW d) ++ encode (layersOf d) rest
     | inr _ => exists b, staged w' h = Some b
     end.
(** A writer with its encryptor. *)
Definition encryptedBy (enc : option byteCodec) (d : DecoratedStreamWriter) (w : W) : Prop :=
  streamOk d w /\ layersOf d = ((fun c => (c, [])) <$> enc, None) /\ hashed (hashW d) = openEnc enc.
Lemma startComp_built fn enc comp d w : encryptedBy enc d w -> layersFor fn enc comp ->
  let '(e, d', w') := startComp comp d w in
  visible w' = visible w /\ target d' = target d /\ streamOk d' w'
  /\ (e = None -> built fn (target d) w w' (inl d')).
Proof.
  intros (Hd & El & Eh) Hf. injection El as El1 El2. pose proof (startComp_spec comp d w Hd El2) as K.
  destruct (startComp comp d w) as [[e d'] w']. destruct K as (Hv & Ht & Hok & He). split_and!; try done.
  intros ->. destruct (He eq_refl) as [Hl Hh]. split; [done|]. split; [done|]. split; [done|]. exists enc, comp.
  split; [done|]. intros rest. unfold fileBytes.
  rewrite El1 in Hl. rewrite El1, Eh in Hh. rewrite Hl, Hh. clear. destruct (openComp _ comp) as [ls out]. by rewrite <- app_assoc.
Qed.
Lemma closeEncryptor_keeps d w : streamOk d w ->
  visible (snd (closeEncryptor d w)) = visible w
  /\ exists b, staged (snd (closeEncryptor d w)) (target d) = Some b.
Proof.
  intros Hd. pose proof (closeEnc_spec d w Hd) as K. destruct (closeEncryptor d w) as [[e d'] w'].
  destruct K as (Hv & Ht & Hok & _). split; [done|]. cbn. unfold streamOk in Hok. rewrite Ht in Hok. by eexists.
Qed.

Lemma addCompressor_spec fn enc d w : encryptedBy enc d w -> encryptorFor fn enc ->
  let '(r, w') := addCompressor (sf_Compression fn) (compressorProvider env) d w in
  built fn (target d) w w' r.
Proof.
  intros Hd Henc. pose proof (startComp_built fn enc) as K. unfold layersFor, compressorFor in K.
  pose proof Hd as (Hok & _). unfold addCompressor.
  destruct (compressorProvider env) as [f|]; [|by apply (K None d w)].
  destruct (named (sf_Compression fn)); [|by apply (K None d w)].
  destruct (f (sf_Compression fn)) as [c|e]; [|by apply closeEncryptor_keeps].
  specialize (K c d w Hd (conj Henc eq_refl)).
  destruct (startComp c d w) as [[[e|] d2] w2]; destruct K as (Hv & Ht & Hok2 & K); [|by apply K].
  destruct (closeEncryptor_keeps d2 w2 Hok2) as [Hv3 Hb]. rewrite Ht in Hb. split; [congruence|done].
Qed.

Lemma Build_spec fn h w :
  staged w h = Some [] ->
  let '(r, w') := BuildDecoratedStreamWriter h (sf_Compression fn) (EncType (sf_Encryption fn))
                    (encryptorFn env fn) (compressorProvider env) w in
  built fn h w w' r.
Proof.
  intros Hh. unfold BuildDecoratedStreamWriter, encryptorFn. set (d0 := mkStreamW h (mkHashW [] 0) None None).
  assert (forall enc, encryptorFor fn enc ->
    let '(r, w') := let '(e, d, w) := startEnc enc d0 w in
      match e with
      | Some e => (inr (Errorf ("failed initializing stream encryption: " +:+ Error e) [e]), w)
      | None => addCompressor (sf_Compression fn) (compressorProvider env) d w
      end in built fn h w w' r) as K.
  { intros enc Henc. pose proof (startEnc_spec enc d0 w Hh eq_refl) as K.
    destruct (startEnc enc d0 w) as [[[e|] d] w1]; destruct K as (Hv & Ht & Hok & He).
    { split; [done|]. unfold streamOk in Hok. rewrite Ht in Hok. by eexists. }
    destruct (He eq_refl) as [El Eh].
    pose proof (addCompressor_spec fn enc d w1 ltac:(by split_and!) Henc) as K.
    destruct (addCompressor _ _ d w1) as [r w2]. destruct K as [Hv2 K]. rewrite Ht in K. split; [congruence|exact K]. }
  unfold encryptorFor in K. destruct (named (EncType (sf_Encryption fn))); [|by apply K].
  destruct (encryptorProvider env) as [p|]; [|split; [done|by eexists]].
  destruct (p (sf_Encryption fn)) as [c|e] eqn:Ec; [|split; [done|by eexists]].
  apply (K (Some c)). by exists p, c.
Qed.

(** A sink at the start of a bundle. *)
Definition fresh (fn : StreamFileSink) : Prop :=
  sf_stager fn <> None /\ sf_streamW fn = None /\ writer (stagerOf fn) = None /\ recordCount (stagerOf fn) = 0.

Lemma lazyOpen_spec fn w :
  fresh fn -> finalOK (outputURI (stagerOf fn) w) ->
  let '(e, fn', w') := lazyOpen env fn w in
  sameSink fn fn' /\
  match e with
  | Some _ => visible w' = visible w
  | None => exists enc comp h, layersFor fn enc comp
      /\ match sf_formatter fn with Some f => FormatHeader f (sf_Schema fn) = inl h | None => h = [] end
      /\ sinkAt fn' w' (visible w) (outputURI (stagerOf fn) w) enc comp (chunk h) 0
  end.
Proof.
  intros (Hs & Hd & Hw & Hn) Hok. unfold lazyOpen. rewrite Hd.
  pose proof (EnsureOpen_spec (storageFactory env) (stagerOf fn) w Hw Hok) as K.
  destruct (EnsureOpen (storageFactory env) (stagerOf fn) w) as [[r s'] w1].
  destruct K as (Hsm & Hc & Hv & Hr). destruct r as [h|e]; [|by split].
  destruct Hr as [-> Hst]. pose proof Hst as (E1 & E2 & E3 & E4 & E5 & E6 & E7).
  pose proof (Build_spec (withStager fn s') (tempURI s') w1 E7) as B.
  change (sf_Compression (withStager fn s')) with (sf_Compression fn) in *.
  change (sf_Encryption (withStager fn s')) with (sf_Encryption fn) in *.
  destruct (BuildDecoratedStreamWriter _ _ _ _ _ w1) as [[d|e] w2]; destruct B as [Hv2 Hr2].
  - destruct Hr2 as (Ht & Hok2 & enc & comp & Hl & Hcs).
    assert (sinkAt (withStream (withStager fn s') (Some d)) w2 (visible w) (outputURI (stagerOf fn) w)
              enc comp [] 0) as Hat.
    { split; [done| |change (recordCount s' = 0); congruence]. exists d. split_and!; [done..| |done].
      unfold streamOk in Hok2. rewrite Ht in Hok2.
      change (stagerOf (withStream (withStager fn s') (Some d))) with s'. unfold stagedAt. split_and!; congruence. }
    pose proof (writeHeader_spec _ w2 _ _ _ _ d Hat eq_refl) as Kh.
    destruct (writeHeader d (withStream (withStager fn s') (Some d)) w2) as [[e fn'] w3].
    destruct Kh as (Hsm' & Kh). split; [exact Hsm'|]. destruct e; [done|].
    destruct Kh as (h & Hh' & Hat'). exists enc, comp, h. by split_and!.
  - destruct Hr2 as [b Hb]. assert (stagedAt s' w2 (visible w) (outputURI (stagerOf fn) w) b) as Hst2.
    { unfold stagedAt. split_and!; congruence. }
    pose proof (Abort_spec s' w2 _ _ _ Hst2) as Ha. by destruct (Abort s' w2) as [[? ?] ?].
Qed.

(** One record on an open shard; [row] is what the formatter gives. *)
Lemma ProcessElement_open fn w v u enc comp cs n rec f :
  sinkAt fn w v u enc comp cs n -> sf_formatter fn = Some f -> in_i64 (n + 1) ->
  let '(e, fn', w') := StreamSink_ProcessElement env rec fn w in
  sameSink fn fn' /\
  match e with
  | Some _ => visible w' = v
  | None => exists row, FormatRecord f rec (sf_Schema fn) = inl row
            /\ sinkAt fn' w' v u enc comp (cs ++ chunk row) (n + 1)
  end.
Proof.
  intros Hat Hf Hi. pose proof Hat as [Hs (d & Hd & Ht & Hst & Hcs) Hn].
  unfold StreamSink_ProcessElement, lazyOpen. rewrite Hd, Hf.
  destruct (FormatRecord f rec (sf_Schema fn)) as [row|e] eqn:Er.
  2: { pose proof (StreamSink_abort_spec fn w v u d _ Hd Hs Ht Hst eq_refl) as Ha.
       pose proof (StreamSink_abort_same fn w) as Hsm. by destruct (StreamSink_abort fn w). }
  destruct row as [|c row].
  { split; [done|]. exists []. split; [done|]. rewrite app_nil_r. split; [done| |].
    - exists d. by split_and!.
    - change (i64 (recordCount (stagerOf fn) + 1) = n + 1). by rewrite Hn, i64_small. }
  cbn iota beta. rewrite Hd. pose proof (push_spec fn w v u enc comp cs n d (c :: row) Hat Hd) as K.
  destruct (Stream_Write (c :: row) d w) as [[e d'] w']. destruct K as (Hst' & Ht' & Hok').
  destruct e as [e|].
  - pose proof (StreamSink_abort_spec (withStream fn (Some d')) w' v u d' _ eq_refl Hs Ht' Hst' eq_refl) as Ha.
    pose proof (StreamSink_abort_same (withStream fn (Some d')) w') as Hsm.
    by destruct (StreamSink_abort _ w').
  - split; [done|]. exists (c :: row). split; [done|]. destruct (Hok' eq_refl) as [Hs2 Hd2 Hn2]. split; [done| |].
    + destruct Hd2 as (d2 & E2 & Ht2 & Hst2 & Hcs2). exists d2. split_and!; try done.
    + change (i64 (recordCount (stagerOf fn) + 1) = n + 1). by rewrite Hn, i64_small.
Qed.

Definition rowsOf (f : RecordFormatter) (schema : Schema) (recs : list (option GenericRecord))
    (rows : list (list byte)) : Prop :=
  Forall2 (fun r row => FormatRecord f r schema = inl row) recs rows.

Lemma records_open f recs : forall fn w v u enc comp cs n,
  sinkAt fn w v u enc comp cs n -> sf_formatter fn = Some f -> 0 <= n -> n + zlen recs < 2 ^ 62 ->
  let '(e, fn', w') := StreamSink_records env recs fn w in
  match e with
  | Some _ => visible w' = v
  | None => exists rows, rowsOf f (sf_Schema fn) recs rows
            /\ sinkAt fn' w' v u enc comp (cs ++ concat (map chunk rows)) (n + zlen recs)
  end.
Proof.
  induction recs as [|r recs IH]; intros fn w v u enc comp cs n Hat Hf Hn Hl; cbn [StreamSink_records].
  - exists []. split; [constructor|]. simpl. by rewrite app_nil_r, Z.add_0_r.
  - assert (zlen (r :: recs) = zlen recs + 1) as El by (unfold zlen; simpl; lia). rewrite El in Hl |- *.
    pose proof (zlen_nonneg recs).
    pose proof (ProcessElement_open fn w v u enc comp cs n r f Hat Hf ltac:(wunfold; lia)) as K.
    destruct (StreamSink_ProcessElement env r fn w) as [[e fn1] w1]. destruct K as ((E1 & E2 & _) & K).
    destruct e as [e|]; [done|]. destruct K as (row & Hrow & Hat1).
    pose proof (IH fn1 w1 v u enc comp _ (n + 1) Hat1 ltac:(congruence) ltac:(lia) ltac:(lia)) as K2.
    destruct (StreamSink_records env recs fn1 w1) as [[e2 fn2] w2]. destruct e2; [done|].
    destruct K2 as (rows & Hrows & Hat2). exists (row :: rows). rewrite E2 in Hrows.
    split; [by constructor|]. simpl. rewrite app_assoc.
    by replace (n + (zlen recs + 1)) with (n + 1 + zlen recs) by lia.
Qed.

Lemma ProcessElement_opened rec fn w fn1 w1 d :
  lazyOpen env fn w = (None, fn1, w1) -> sf_streamW fn1 = Some d ->
  StreamSink_ProcessElement env rec fn w = StreamSink_ProcessElement env rec fn1 w1.
Proof.
  intros E Hd. assert (lazyOpen env fn1 w1 = (None, fn1, w1)) as E1 by (unfold lazyOpen; by rewrite Hd).
  unfold StreamSink_ProcessElement. by rewrite E, E1.
Qed.

Lemma FinishBundle_open `{GoSha256} fn w v u enc comp cs n :
  sinkAt fn w v u enc comp cs n -> n <> 0 ->
  let '(e, fn', w') := StreamSink_FinishBundle fn w in
  match e with
  | Some _ => visible w' = v
  | None => visible w' = <[u := fileBytes enc comp cs]> v /\ Checksum fn' = sha256Hex (fileBytes enc comp cs)
  end.
Proof.
  intros [Hs (d & Hd & Ht & Hst & Hcs) Hn] Hn0. unfold StreamSink_FinishBundle, stagerOf in *.
  destruct (sf_stager fn) as [s|]; [|done]. rewrite Hn, (proj2 (Z.eqb_neq n 0)) by done.
  pose proof Hst as (_ & _ & _ & _ & _ & E6 & E7).
  pose proof (CommitOrAbort_spec Stream_Close (sf_streamW fn) s w v u _
    (fun c b => b = fileBytes enc comp cs /\ exists d', c = Some d' /\ hashed (hashW d') = b) Hst) as K.
  rewrite Hd in K |- *. specialize (Hcs []). rewrite app_nil_r in Hcs. simpl in Hcs.
  assert (streamOk d w) as Hok by (unfold streamOk; by rewrite Ht).
  pose proof (Stream_Close_spec d w Hok) as Hc. destruct (Stream_Close d w) as [[ce d'] w1].
  destruct Hc as (Hv & Ht' & Hok' & Hh).
  assert (visible w1 = visible w /\ exists b1, staged w1 (tempURI s) = Some b1
    /\ (ce = None -> b1 = fileBytes enc comp cs /\ exists d2, Some d' = Some d2 /\ hashed (hashW d2) = b1)) as Hpre.
  { split; [done|]. exists (hashed (hashW d')). unfold streamOk in Hok'. split; [congruence|].
    intros Hce. specialize (Hh Hce). split; [congruence|]. by exists d'. }
  specialize (K Hpre). destruct (CommitOrAbort Stream_Close (Some d) s w) as [[[e c'] s'] w'].
  destruct K as [_ K]. destruct e as [e|]; [done|]. destruct K as (b1 & (-> & d2 & -> & Hh2) & Hvis).
  rewrite Hn, (proj2 (Z.eqb_neq n 0)) in Hvis by done. split; [done|].
  unfold Checksum, HexSum. simpl. by rewrite Hh2.
Qed.

Lemma StartBundle_fresh fn : fresh (StreamSink_StartBundle env fn).
Proof. by split_and!. Qed.
End StreamSinkFacts.

(** ** Lemmas: a bundle of a JSON-lines sink *)
Section JSONLFacts.
Context {W : Type} `{AtomicCommit W, ShardNames W, UnicodeLower} (factory : bool).
Context {R : Type} `{GoMarshal R} (m1 m2 : string).

Definition jsonLine (data : list byte) : list byte := data ++ [newline].
Definition linesOf (recs : list R) (datas : list (list byte)) : Prop :=
  Forall2 (fun r d => marshalJSON r = inl d) recs datas.
(** An open shard of [n] records, or none opened yet. *)
Definition jsonlAt (fn : JSONLSink) (w : W) (v : gmap string (list byte)) (u : string) (b : list byte) (n : Z) : Prop :=
  js_stager fn = Some (js_stagerOf fn) /\ recordCount (js_stagerOf fn) = n
  /\ (stagedAt (js_stagerOf fn) w v u b
      \/ (writer (js_stagerOf fn) = None /\ n = 0 /\ b = [] /\ visible w = v /\ finalOK u
          /\ outputURI (js_stagerOf fn) w = u)).

Lemma ensure_spec fn w v u b n : jsonlAt fn w v u b n ->
  let '(r, s, w') := EnsureOpen factory (js_stagerOf fn) w in
  match r with
  | inl h => h = tempURI s /\ stagedAt s w' v u b /\ recordCount s = n
  | inr _ => visible w' = v
  end.
Proof.
  intros (Hs & Hn & [Hst|(Hw & -> & -> & Hv & Hok & Hu)]).
  - unfold EnsureOpen. pose proof Hst as (-> & _). by split_and!.
  - rewrite <- Hu in Hok. pose proof (EnsureOpen_spec factory (js_stagerOf fn) w Hw Hok) as K.
    destruct (EnsureOpen factory (js_stagerOf fn) w) as [[r s] w']. destruct K as (_ & Hc & Hv' & K).
    rewrite Hu, Hv in K. destruct r; [|congruence]. destruct K. split_and!; congruence.
Qed.

Lemma JSONL_step fn w v u b n r : jsonlAt fn w v u b n -> in_i64 (n + 1) ->
  let '(e, fn', w') := JSONL_ProcessElement factory m1 m2 r fn w in
  match e with
  | Some _ => visible w' = v
  | None => exists d, marshalJSON r = inl d
            /\ jsonlAt fn' w' v u (b ++ jsonLine d) (n + 1) /\ stagedAt (js_stagerOf fn') w' v u (b ++ jsonLine d)
  end.
Proof.
  intros Hat Hi. unfold JSONL_ProcessElement. pose proof (ensure_spec fn w v u b n Hat) as K.
  destruct (EnsureOpen factory (js_stagerOf fn) w) as [[[h|e] s] w1]; [|done].
  destruct K as (-> & Hst & Hn). pose proof Hst as (E1 & E2 & E3 & E4 & E5 & E6 & E7).
  destruct (marshalJSON r) as [d|e]; [|pose proof (Abort_spec s w1 v u b Hst); by destruct (Abort s w1) as [[? ?] ?]].
  pose proof (write_spec (tempURI s) (d ++ [newline]) w1 b E7) as Hw.
  destruct (FileWrite (tempURI s) (d ++ [newline]) w1) as [[k e] w2]. destruct Hw as (Hv & Hk & Hb & He).
  destruct e as [e|].
  - assert (stagedAt s w2 v u (b ++ take (Z.to_nat k) (d ++ [newline]))) as Hst2
      by (unfold stagedAt; split_and!; congruence).
    pose proof (Abort_spec s w2 v u _ Hst2). by destruct (Abort s w2) as [[? ?] ?].
  - rewrite (He eq_refl), take_ge in Hb by (unfold zlen; lia). exists d. split; [done|].
    assert (stagedAt (IncrementRecord s) w2 v u (b ++ jsonLine d)) as Hst2
      by (unfold stagedAt, jsonLine; cbn; split_and!; congruence).
    split; [|done]. split_and!; [done|change (i64 (recordCount s + 1) = n + 1); by rewrite Hn, i64_small|by left].
Qed.

Lemma JSONL_records_spec recs : forall fn w v u b n,
  jsonlAt fn w v u b n -> 0 <= n -> n + zlen recs < 2 ^ 62 ->
  let '(e, fn', w') := JSONL_records (JSONL_ProcessElement factory m1 m2) recs fn w in
  match e with
  | Some _ => visible w' = v
  | None => exists datas, linesOf recs datas
      /\ jsonlAt fn' w' v u (b ++ concat (map jsonLine datas)) (n + zlen recs)
      /\ (recs <> [] -> stagedAt (js_stagerOf fn') w' v u (b ++ concat (map jsonLine datas)))
  end.
Proof.
  induction recs as [|r recs IH]; intros fn w v u b n Hat Hn Hl; cbn [JSONL_records].
  - exists []. simpl. rewrite app_nil_r, Z.add_0_r. split_and!; [constructor|done|done].
  - assert (zlen (r :: recs) = zlen recs + 1) as El by (unfold zlen; simpl; lia). rewrite El in Hl |- *.
    pose proof (zlen_nonneg recs). pose proof (JSONL_step fn w v u b n r Hat ltac:(wunfold; lia)) as K.
    destruct (JSONL_ProcessElement factory m1 m2 r fn w) as [[e fn1] w1]. destruct e as [e|]; [done|].
    destruct K as (d & Hd & Hat1 & Hst1).
    pose proof (IH fn1 w1 v u _ (n + 1) Hat1 ltac:(lia) ltac:(lia)) as K2.
    destruct (JSONL_records _ recs fn1 w1) as [[e2 fn2] w2] eqn:Er. destruct e2; [done|].
    destruct K2 as (datas & Hds & Hat2 & Hst2). exists (d :: datas). split; [by constructor|].
    simpl. rewrite app_assoc. replace (n + (zlen recs + 1)) with (n + 1 + zlen recs) by lia. split; [done|].
    intros _. destruct recs as [|r' recs]; [|by apply Hst2].
    inversion Hds; subst. simpl in Er. injection Er as <- <-. by rewrite app_nil_r.
Qed.
End JSONLFacts.

(** ** Properties *)

(** C5. A bundle of the stream file sink is all or nothing, on any storage whose
    commits are atomic and whatever calls of it fail: when the bundle returns an
    error, what is published has not changed; when it succeeds with records, the
    shard's file is published with exactly the header and the rows of the records,
    in order, through the compressor and the encryptor of the configuration (with
    what these write when they are made and closed), and the reported checksum is
    the one of its bytes; an empty bundle publishes nothing. *)
Theorem StreamSink_bundle_atomic
    {W : Type} `{AtomicCommit W, ShardNames W, UnicodeLower, GoQuote, GoSha256} (env : SinkProviders)
    (recs : list (option GenericRecord)) (fn : StreamFileSink) (w : W) :
  finalOK (outputURI (stagerOf fn) w) -> zlen recs < 2 ^ 62 ->
  let '(e, fn', w') := StreamSink_bundle env recs fn w in
  match e with
  | Some _ => visible w' = visible w
  | None =>
      (recs = [] /\ visible w' = visible w)
      \/ exists f enc comp h rows,
           sf_formatter (StreamSink_StartBundle env fn) = Some f /\ layersFor env fn enc comp
           /\ FormatHeader f (sf_Schema fn) = inl h /\ rowsOf f (sf_Schema fn) recs rows
           /\ visible w' = <[outputURI (stagerOf fn) w := fileBytes enc comp (concat (map chunk (h :: rows)))]> (visible w)
           /\ Checksum fn' = sha256Hex (fileBytes enc comp (concat (map chunk (h :: rows))))
  end.
Proof.
  intros Hok Hl. unfold StreamSink_bundle. destruct recs as [|r recs].
  - simpl. by left.
  - pose proof (lazyOpen_spec env (StreamSink_StartBundle env fn) w (StartBundle_fresh env fn) Hok) as K.
    assert (StreamSink_records env (r :: recs) (StreamSink_StartBundle env fn) w
      = let '(e, fn1, w1) := StreamSink_ProcessElement env r (StreamSink_StartBundle env fn) w in
        match e with Some _ => (e, fn1, w1) | None => StreamSink_records env recs fn1 w1 end) as Erec by done.
    destruct (lazyOpen env (StreamSink_StartBundle env fn) w) as [[e0 fn1] w1] eqn:Eo.
    destruct K as ((Ef & Es & _) & K). destruct e0 as [e0|].
    { rewrite Erec. unfold StreamSink_ProcessElement. by rewrite Eo. }
    destruct K as (enc & comp & h & Hls & Hh & Hat). destruct (at_stream _ _ _ _ _ _ _ _ Hat) as (d & Hd & _ & Hst & _).
    rewrite (ProcessElement_opened env r _ w fn1 w1 d Eo Hd) in Erec.
    change (StreamSink_records env (r :: recs) (StreamSink_StartBundle env fn) w
      = StreamSink_records env (r :: recs) fn1 w1) in Erec. rewrite Erec.
    destruct (sf_formatter (StreamSink_StartBundle env fn)) as [f|] eqn:Ef0.
    2: { cbn [StreamSink_records]. unfold StreamSink_ProcessElement, lazyOpen. rewrite Hd, Ef.
         by destruct Hst as (_ & _ & _ & _ & _ & Hv & _). }
    pose proof (records_open env f (r :: recs) fn1 w1 _ _ enc comp (chunk h) 0 Hat ltac:(congruence) ltac:(lia) Hl) as K.
    destruct (StreamSink_records env (r :: recs) fn1 w1) as [[e2 fn2] w2]. destruct e2 as [e2|]; [done|].
    destruct K as (rows & Hrows & Hat2).
    pose proof (FinishBundle_open fn2 w2 _ _ enc comp _ _ Hat2) as Kf.
    assert (0 + zlen (r :: recs) <> 0) as Hn0 by (unfold zlen; simpl; lia). specialize (Kf Hn0).
    destruct (StreamSink_FinishBundle fn2 w2) as [[e3 fn3] w3]. destruct e3 as [e3|]; [done|].
    right. exists f, enc, comp, h, rows. rewrite Es in Hrows. by destruct Kf.
Qed.

(** A bundle of the dead-letter sink or of the audit sink is all or nothing:
    on an error nothing is published; otherwise one file with one JSON line per
    record, in order, or nothing for an empty bundle. *)
Theorem JSONL_bundle_atomic
    {W : Type} `{AtomicCommit W, ShardNames W, UnicodeLower} {R : Type} `{GoMarshal R}
    (factory : bool) (marshalMsg writeMsg : string) (recs : list R) (fn : JSONLSink) (w : W) :
  finalOK (outputURI (js_stagerOf fn) w) -> zlen recs < 2 ^ 62 ->
  let '(e, fn', w') := JSONL_bundle (JSONL_ProcessElement factory marshalMsg writeMsg) recs fn w in
  match e with
  | Some _ => visible w' = visible w
  | None =>
      exists datas, linesOf recs datas
      /\ visible w' = match recs with
                      | [] => visible w
                      | _ => <[outputURI (js_stagerOf fn) w := concat (map jsonLine datas)]> (visible w)
                      end
  end.
Proof.
  intros Hok Hl. unfold JSONL_bundle. pose proof (zlen_nonneg recs).
  assert (jsonlAt (JSONL_StartBundle fn) w (visible w) (outputURI (js_stagerOf fn) w) [] 0) as Hat.
  { split_and!; [done|done|]. right. by split_and!. }
  pose proof (JSONL_records_spec factory marshalMsg writeMsg recs _ w _ _ [] 0 Hat ltac:(lia) Hl) as K.
  destruct (JSONL_records _ recs (JSONL_StartBundle fn) w) as [[e fn1] w1]. destruct e as [e|]; [done|].
  destruct K as (datas & Hds & (Hs & Hn & Hw) & Hst). unfold JSONL_FinishBundle, commitPlain. rewrite Hs.
  destruct recs as [|r recs].
  - destruct Hw as [Hw|(Hw & _ & _ & Hv & _)].
    + pose proof (CommitOrAbort_spec (C := unit) (fun c w => (None, c, w)) None _ w1 _ _ _ (fun _ _ => True) Hw I) as K.
      destruct (CommitOrAbort _ _ _ w1) as [[[e c] s] w']. destruct K as [_ K]. rewrite Hn in K.
      destruct e; [done|]. destruct K as (? & _ & ->). by exists datas.
    + unfold CommitOrAbort. rewrite Hw. by exists datas.
  - specialize (Hst ltac:(done)).
    pose proof (CommitOrAbort_spec (C := unit) (fun c w => (None, c, w)) None _ w1 _ _ _
      (fun _ b => b = concat (map jsonLine datas)) Hst eq_refl) as K.
    destruct (CommitOrAbort _ _ _ w1) as [[[e c] s] w']. destruct K as [_ K]. rewrite Hn in K.
    destruct e; [done|]. destruct K as (? & -> & Hv). exists datas. split; [done|].
    rewrite Hv. rewrite (proj2 (Z.eqb_neq (0 + zlen (r :: recs)) 0)); [done|]. unfold zlen. simpl. lia.
Qed.

(** ** Findings and witnesses *)
Section Samples.
#[local] Instance wUUID : GoUUID := fun _ => "0".
#[local] Instance wUUIDLaw : GoUUIDLaw.
Proof. intros n. apply (bool_decide_unpack _). vm_compute. exact I. Qed.
#[local] Instance wNames : ShardNames Disk := {| shardID _ := "abc"; unixNano d := Z.of_nat (drawn d) |}.
#[local] Instance wLower : UnicodeLower := fun s => s.
#[local] Instance wQuote : GoQuote := fun s => s.
#[local] Instance wSha : GoSha256 := fun b => str b.
#[local] Instance wMarshal : GoMarshal DeadLetterRecord := fun d => inl (bytes (RawPayload d)).

Definition sampleFormatter : RecordFormatter :=
  mkFormatter (fun _ => inl (bytes "h;"))
    (fun r _ => match r with Some r => inl (bytes (SchemaID r)) | None => inr (Sentinel "nil record") end).
(** A compressor that copies and ends the stream with a mark. *)
Definition sampleCodec : byteCodec := mkByteCodec [] (mkCodec (fun _ p => p) (fun _ => bytes "END")).
(** An encryptor with a header below a compressor with another. *)
Example fileBytes_ex :
  fileBytes (Some (mkByteCodec (bytes "E") (mkCodec (fun _ p => bytes "." ++ p) (fun _ => bytes "e"))))
    (Some (mkByteCodec (bytes "C") sampleCodec)) [bytes "ab"; bytes "c"] = bytes "E.C.ab.c.ENDe".
Proof. reflexivity. Qed.
Definition sampleEnv : SinkProviders := mkProviders true None (Some (fun _ => inl (Some sampleCodec))) None.
Definition sampleSink (single : bool) : StreamFileSink :=
  NewStreamFileSink true (Some sampleFormatter) "/out/" "csv" "gzip" (mkEncryption "none" "" "") single
    (mkFormatOptions "" false "" "" false) (schemaOf []).
Definition sampleRec (s : string) : option GenericRecord := Some (NewGenericRecord s 0).
Definition emptyDisk : Disk := mkDisk ∅ [] 0.

(** With [single_file] every bundle publishes under the same name: the second of
    two bundles replaces the records of the first. *)
Lemma single_file_overwrites :
  let '(e1, _, w1) := StreamSink_bundle sampleEnv [sampleRec "a"] (sampleSink true) emptyDisk in
  let '(e2, _, w2) := StreamSink_bundle sampleEnv [sampleRec "b"] (sampleSink true) w1 in
  e1 = None /\ e2 = None /\ files w2 = {[ "/out/output.csv.gz" := bytes "h;bEND" ]}.
Proof. vm_compute. repeat split. Qed.

(** [Drain] in the middle of a bundle publishes a file without the end of its
    compressed stream. *)
Lemma drain_truncates :
  let fn := StreamSink_StartBundle sampleEnv (sampleSink true) in
  let '(_, fn, w) := StreamSink_ProcessElement sampleEnv (sampleRec "a") fn emptyDisk in
  let '(e, _, w) := Stager_Drain (stagerOf fn) w in
  e = None /\ files w = {[ "/out/output.csv.gz" := bytes "h;a" ]}.
Proof. vm_compute. repeat split. Qed.

Lemma StreamSink_bundle_atomic_witness :
  (let '(e, fn, w) := StreamSink_bundle sampleEnv [sampleRec "a"; sampleRec "b"] (sampleSink false) emptyDisk in
   e = None /\ visible w = {[ "/out/shard-abc-0.csv.gz" := bytes "h;abEND" ]} /\ Checksum fn = "h;abEND")
  /\ (let '(e, _, w) := StreamSink_bundle sampleEnv [sampleRec "a"; sampleRec "b"] (sampleSink false)
                          (mkDisk ∅ [FOk; FOk; FOk; FErr 1 (Sentinel "disk full")] 0) in
      e <> None /\ visible w = ∅).
Proof.
  split.
  - pose proof (StreamSink_bundle_atomic sampleEnv [sampleRec "a"; sampleRec "b"] (sampleSink false) emptyDisk) as K.
    destruct (StreamSink_bundle _ _ _ _) as [[e fn] w] eqn:E.
    vm_compute in E. injection E as <- <- <-. split; [reflexivity|].
    destruct K as [[? _]|(f & enc & comp & h & rows & _)]; [split; [vm_compute; discriminate|reflexivity]
      |reflexivity|discriminate|]. by vm_compute.
  - pose proof (StreamSink_bundle_atomic sampleEnv [sampleRec "a"; sampleRec "b"] (sampleSink false)
      (mkDisk ∅ [FOk; FOk; FOk; FErr 1 (Sentinel "disk full")] 0)) as K.
    destruct (StreamSink_bundle _ _ _ _) as [[e fn] w] eqn:E.
    assert (e <> None) as He by (apply (f_equal (fun r => fst (fst r))) in E; vm_compute in E; by subst e).
    split; [exact He|]. destruct e as [e|]; [|done].
    rewrite K; [by vm_compute|split; [vm_compute; discriminate|reflexivity]|reflexivity].
Defined.

Definition sampleDead (s : string) : DeadLetterRecord := mkDeadLetterRecord s "" "" "" 0.
Lemma JSONL_bundle_atomic_witness :
  let '(e, _, w) := JSONL_bundle (DLQSink_ProcessElement true) [sampleDead "x"; sampleDead "y"]
                      (NewJSONLSink true "/dlq") emptyDisk in
  e = None /\ visible w = {[ "/dlq/shard-abc-0.jsonl" := bytes "x" ++ [newline] ++ bytes "y" ++ [newline] ]}.
Proof.
  pose proof (JSONL_bundle_atomic true "failed marshaling DLQ record: " "failed writing DLQ record: "
    [sampleDead "x"; sampleDead "y"] (NewJSONLSink true "/dlq") emptyDisk) as K.
  unfold DLQSink_ProcessElement. destruct (JSONL_bundle _ _ _ _) as [[e fn] w] eqn:E.
  assert (e = None) as -> by (apply (f_equal (fun r => fst (fst r))) in E; by vm_compute in E).
  split; [done|]. destruct K as (datas & Hd & ->); [split; [vm_compute; discriminate|reflexivity]|reflexivity|].
  inversion Hd as [|? d1 ? l1 E1 Hd1]; subst. inversion Hd1 as [|? d2 ? l2 E2 Hd2]; subst.
  inversion Hd2; subst. vm_compute in E1, E2. injection E1 as <-. injection E2 as <-. by vm_compute.
Defined.
End Samples.
