(* ===== verification/ParquetSink.v ===== *)
(** * The Parquet sink

    Models [internal/beam/streams/parquet_schema.go] (the columns of a schema, the
    mapping of a record to a row map, and the encoder that writes a record's cells
    directly into a reused row buffer) and [parquet_sink.go] (the sink of a bundle).

    The Parquet library is given: the layout of a schema's columns, and the bytes
    its writer emits. *)
From S2P Require Import Prelude GoStr Float64 Schema RecordModel Metrics Watermark Config Storage FileSink.

(** ** Columns ([BuildParquetSchema]) *)
Inductive pqLeaf := LInt64 | LDouble | LBoolean | LByteArray | LDecimal (scale precision : Z) | LString.
Record pqNode := mkNode { leaf : pqLeaf; optional : bool }.

(** [parquet.Decimal] takes the scale first: the code passes 18 as the scale and the
    field's scale as the precision. *)
Definition leafOf (f : Field) : pqLeaf :=
  if FType f =s TypeInt64 then LInt64
  else if FType f =s TypeFloat64 then LDouble
  else if FType f =s TypeBool then LBoolean
  else if FType f =s TypeTimestamp then LInt64
  else if FType f =s TypeBytes then LByteArray
  else if FType f =s TypeDecimal then LDecimal 18 (FScale f)
  else LString.
Definition addColumn (fields : gmap string pqNode) (f : Field) : gmap string pqNode :=
  <[Name f := mkNode (leafOf f) (Nullable f)]> fields.
Definition BuildParquetSchema (s : Schema) (withSourceFile : bool) : gmap string pqNode :=
  let fields := foldl addColumn ∅ (Fields s) in
  let fields := <["_ingested_at" := mkNode LString false]> fields in
  if withSourceFile then <["_source_file" := mkNode LString false]> fields else fields.

(** The position of a column; its definition level is 1 when it is optional. *)
Class ParquetLayout := columnIndex : gmap string pqNode -> string -> option nat.
Class ParquetLayoutLaws `{ParquetLayout} : Prop := {
  columnIndex_dom : forall m name, is_Some (columnIndex m name) <-> is_Some (m !! name);
  columnIndex_bound : forall m name k, columnIndex m name = Some k -> (k < size m)%nat;
  columnIndex_inj : forall m n1 n2 k, columnIndex m n1 = Some k -> columnIndex m n2 = Some k -> n1 = n2
}.
Record pqColumn := mkColumn { colIdx : nat; maxDef : Z }.
Definition Lookup `{ParquetLayout} (m : gmap string pqNode) (name : string) : option pqColumn :=
  match columnIndex m name, m !! name with
  | Some k, Some nd => Some (mkColumn k (if optional nd then 1 else 0))
  | _, _ => None
  end.

(** ** Cells and rows *)
Inductive pqPrim := PNull | PInt (n : Z) | PDbl (x : float64) | PBoolean (b : bool) | PByteArray (b : list byte).
Record pqCell := mkCell { prim : pqPrim; defLevel : Z; cellCol : nat }.
(** The zero [parquet.Value]. *)
Definition zeroCell : pqCell := mkCell PNull 0 0.

(** [TimeVal().UnixMicro()]. *)
Definition unixMicros (v : FieldValue) : Z := TimeVal v / 1000.

(** ** [CompileParquetRowMapper]: the reference mapping to a Go map *)
Definition extractAny (f : Field) (v : FieldValue) : any :=
  if (FType f =s TypeInt64) || (FType f =s TypeDecimal) then AInt64 (Int64Val v)
  else if FType f =s TypeFloat64 then AFloat64 (Float64Val v)
  else if FType f =s TypeBool then ABool (BoolVal v)
  else if FType f =s TypeTimestamp then AInt64 (unixMicros v)
  else if FType f =s TypeBytes then ABytes (BytesVal v)
  else AString (StringVal v).
Fixpoint extractAll (i : nat) (fs : list Field) (values : list FieldValue) (m : gmap string any) : gmap string any :=
  match fs with
  | [] => m
  | f :: fs' =>
      let m := match values !! i with
               | Some v => if IsNull v then m else <[Name f := extractAny f v]> m
               | None => m
               end in
      extractAll (S i) fs' values m
  end.
Definition auditOr (rec : GenericRecord) (key fallback : string) : string :=
  match AuditFields rec !! key with
  | Some s => if s =s "" then fallback else s
  | None => fallback
  end.
Definition RecordToParquetRow (now : Z) (s : Schema) (withSourceFile : bool) (rec : GenericRecord) : gmap string any :=
  let m := extractAll 0 (Fields s) (Values rec) ∅ in
  let m := <["_ingested_at" := AString (auditOr rec "_ingested_at" (formatRFC3339 now))]> m in
  if withSourceFile then <["_source_file" := AString (auditOr rec "_source_file" "unknown")]> m else m.

(** ** [CompileParquetDirectRowEncoder] *)
Definition encodePrim (f : Field) (v : FieldValue) : pqPrim :=
  if (FType f =s TypeInt64) || (FType f =s TypeDecimal) then PInt (Int64Val v)
  else if FType f =s TypeFloat64 then PDbl (Float64Val v)
  else if FType f =s TypeBool then PBoolean (BoolVal v)
  else if FType f =s TypeTimestamp then PInt (unixMicros v)
  else if FType f =s TypeBytes then PByteArray (BytesVal v)
  else PByteArray (bytes (StringVal v)).
Definition encodeCell (f : Field) (c : pqColumn) (v : FieldValue) : pqCell :=
  if IsNull v then mkCell PNull 0 (colIdx c) else mkCell (encodePrim f v) (maxDef c) (colIdx c).
(** [dest[i] = v]. *)
Definition setCell (dest : list pqCell) (k : nat) (v : pqCell) : result (list pqCell) :=
  if (k <? length dest)%nat then Ok (<[k := v]> dest) else Panic "index out of range".

Section Encoder.
Context `{ParquetLayout}.

(** The compiled encoders of the fields; [None] is the nil closure. *)
Definition compileEncoders (m : gmap string pqNode) (fs : list Field) : list (Field * option pqColumn) :=
  map (fun f => (f, Lookup m (Name f))) fs.
Fixpoint runEncoders (encs : list (Field * option pqColumn)) (i : nat) (values : list FieldValue)
    (dest : list pqCell) : result (list pqCell) :=
  match encs with
  | [] => Ok dest
  | (f, c) :: encs' =>
      dest ← match values !! i, c with
             | Some v, Some c => setCell dest (colIdx c) (encodeCell f c v)
             | Some _, None => Panic "nil function"
             | None, _ => Ok dest
             end;
      runEncoders encs' (S i) values dest
  end.
Definition stringCol (c : option pqColumn) (s : string) (dest : list pqCell) : result (list pqCell) :=
  let c := default (mkColumn 0 0) c in
  setCell dest (colIdx c) (mkCell (PByteArray (bytes s)) (maxDef c) (colIdx c)).
(** A row, written over [dest] when it is long enough. *)
Definition encodeRow (now : Z) (s : Schema) (withSourceFile : bool) (rec : GenericRecord) (dest : list pqCell)
    : result (list pqCell) :=
  let m := BuildParquetSchema s withSourceFile in
  let numCols := size m in
  let dest := if (length dest <? numCols)%nat then replicate numCols zeroCell else take numCols dest in
  dest ← runEncoders (compileEncoders m (Fields s)) 0 (Values rec) dest;
  dest ← stringCol (Lookup m "_ingested_at") (auditOr rec "_ingested_at" (formatRFC3339 now)) dest;
  match Lookup m "_source_file" with
  | Some c => stringCol (Some c) (auditOr rec "_source_file" "unknown") dest
  | None => Ok dest
  end.
End Encoder.

(** ** [ParquetSinkDoFn]

    The library's writer is a codec of rows; what it emits goes to the staging file. *)
Class ParquetLib := pqCodec : gmap string pqNode -> Codec (list pqCell).
Record ParquetSink := mkParquetSink {
  pk_OutputDir : string; pk_Compression : string; pk_Encryption : string; pk_IncludeSourceFile : bool;
  pk_Schema : Schema; pk_stager : option Stager; pk_writer : option (string * list (list pqCell));
  pk_numCols : option nat; pk_rowBuffer : list pqCell }.

Section Sink.
Context {W : Type} `{StorageWriter W, ShardNames W, UnicodeLower, ParquetLayout, ParquetLib} (factory : bool).

Definition NewParquetSink (storage : bool) (outputDir compression encryption : string) (schema : Schema) : ParquetSink :=
  mkParquetSink (trimSlash outputDir) compression encryption true schema
    (Some (NewBundleFileStager storage outputDir "parquet" compression encryption false)) None None [].
Definition pk_stagerOf (fn : ParquetSink) : Stager :=
  match pk_stager fn with
  | Some s => s
  | None => NewBundleFileStager false (pk_OutputDir fn) "parquet" (pk_Compression fn) (pk_Encryption fn) false
  end.
Definition pk_columns (fn : ParquetSink) : gmap string pqNode :=
  BuildParquetSchema (pk_Schema fn) (pk_IncludeSourceFile fn).
Definition pk_with (fn : ParquetSink) (s : Stager) (pw : option (string * list (list pqCell))) : ParquetSink :=
  mkParquetSink (pk_OutputDir fn) (pk_Compression fn) (pk_Encryption fn) (pk_IncludeSourceFile fn) (pk_Schema fn)
    (Some s) pw (pk_numCols fn) (pk_rowBuffer fn).
Definition pk_withBuffer (fn : ParquetSink) (n : option nat) (buf : list pqCell) : ParquetSink :=
  mkParquetSink (pk_OutputDir fn) (pk_Compression fn) (pk_Encryption fn) (pk_IncludeSourceFile fn) (pk_Schema fn)
    (pk_stager fn) (pk_writer fn) n buf.
Definition pk_compile (fn : ParquetSink) : ParquetSink :=
  pk_withBuffer fn (Some (size (pk_columns fn))) (replicate (size (pk_columns fn)) zeroCell).
Definition ParquetSink_Setup (fn : ParquetSink) : ParquetSink :=
  let fn := pk_compile fn in pk_with fn (Stager_Setup factory (pk_stagerOf fn)) (pk_writer fn).
Definition ParquetSink_StartBundle (fn : ParquetSink) : ParquetSink :=
  let fn := pk_with fn (Stager_StartBundle (pk_stagerOf fn)) None in
  match pk_numCols fn with
  | Some n => if (0 <? n)%nat && (length (pk_rowBuffer fn) <? n)%nat
              then pk_withBuffer fn (Some n) (replicate n zeroCell) else fn
  | None => fn
  end.
Definition pk_lazyOpen (fn : ParquetSink) (w : W) : option error * ParquetSink * W :=
  match pk_writer fn with
  | Some _ => (None, fn, w)
  | None =>
      let '(r, s, w) := EnsureOpen factory (pk_stagerOf fn) w in
      match r with
      | inr e => (Some e, pk_with fn s None, w)
      | inl h => (None, pk_with fn s (Some (h, [])), w)
      end
  end.
(** [WriteRows] of one row. *)
Definition pk_writeRow (row : list pqCell) (fn : ParquetSink) (w : W) : option error * ParquetSink * W :=
  match pk_writer fn with
  | None => (None, fn, w)
  | Some (h, rows) =>
      let fn' := pk_with fn (pk_stagerOf fn) (Some (h, rows ++ [row])) in
      match emit (pqCodec (pk_columns fn)) rows row with
      | [] => (None, fn', w)
      | out => let '((_, e), w) := FileWrite h out w in (e, fn', w)
      end
  end.
Definition ParquetSink_ProcessElement (rec : GenericRecord) (fn : ParquetSink) (w : W)
    : result unit * ParquetSink * W :=
  let '(e, fn, w) := pk_lazyOpen fn w in
  match e with
  | Some e => (Err e, fn, w)
  | None =>
      let fn := match pk_numCols fn with None => pk_compile fn | Some _ => fn end in
      match encodeRow (unixNano w) (pk_Schema fn) (pk_IncludeSourceFile fn) rec (pk_rowBuffer fn) with
      | Panic m => (Panic m, fn, w)
      | Err e => (Err e, fn, w)
      | Ok row =>
          let n := length row in
          let buf := if (length (pk_rowBuffer fn) <? n)%nat then pk_rowBuffer fn
                     else row ++ drop n (pk_rowBuffer fn) in
          let fn := pk_withBuffer fn (pk_numCols fn) buf in
          let '(e, fn, w) := pk_writeRow row fn w in
          match e with
          | Some e =>
              let '(_, s, w) := Abort (pk_stagerOf fn) w in
              (Err (Errorf ("parquet write row failed: " +:+ Error e) [e]), pk_with fn s (pk_writer fn), w)
          | None => (Ok tt, pk_with fn (IncrementRecord (pk_stagerOf fn)) (pk_writer fn), w)
          end
      end
  end.
(** [pqWriter.Close]. *)
Definition pk_close (c : Codec (list pqCell)) (pw : string * list (list pqCell)) (w : W)
    : option error * (string * list (list pqCell)) * W :=
  match trailer c (snd pw) with
  | [] => (None, pw, w)
  | out => let '((_, e), w) := FileWrite (fst pw) out w in (e, pw, w)
  end.
Definition ParquetSink_FinishBundle (fn : ParquetSink) (w : W) : option error * ParquetSink * W :=
  match pk_stager fn with
  | None => (None, fn, w)
  | Some s =>
      if recordCount s =? 0 then (None, fn, w)
      else
        let '(e, pw, s, w) := CommitOrAbort (pk_close (pqCodec (pk_columns fn))) (pk_writer fn) s w in
        (e, pk_with fn s pw, w)
  end.

(** The calls a runner makes for one bundle. *)
Fixpoint ParquetSink_records (recs : list GenericRecord) (fn : ParquetSink) (w : W)
    : result unit * ParquetSink * W :=
  match recs with
  | [] => (Ok tt, fn, w)
  | r :: recs' =>
      let '(e, fn, w) := ParquetSink_ProcessElement r fn w in
      match e with Ok _ => ParquetSink_records recs' fn w | _ => (e, fn, w) end
  end.
Definition ParquetSink_bundle (recs : list GenericRecord) (fn : ParquetSink) (w : W)
    : result unit * ParquetSink * W :=
  let '(e, fn, w) := ParquetSink_records recs (ParquetSink_StartBundle fn) w in
  match e with
  | Ok _ => let '(e, fn, w) := ParquetSink_FinishBundle fn w in
            (match e with Some e => Err e | None => Ok tt end, fn, w)
  | _ => (e, fn, w)
  end.
End Sink.

(** ** Lemmas: the layout *)
(** The cell the library makes of an entry of the row map. *)
Definition primOf (a : any) : pqPrim :=
  match a with
  | ANil => PNull
  | AString s => PByteArray (bytes s)
  | AInt64 n | ATime n => PInt n
  | AFloat64 x => PDbl x
  | ABool b => PBoolean b
  | ABytes b => PByteArray b
  end.
Definition cellOf (c : pqColumn) (a : option any) : pqCell :=
  match a with
  | None => mkCell PNull 0 (colIdx c)
  | Some a => mkCell (primOf a) (maxDef c) (colIdx c)
  end.

Lemma encodePrim_extract f v : encodePrim f v = primOf (extractAny f v).
Proof.
  unfold encodePrim, extractAny. destruct (_ || _); [done|].
  repeat match goal with |- context [if FType f =s ?t then _ else _] => destruct (FType f =s t) end; done.
Qed.

Section EncoderFacts.
Context `{ParquetLayoutLaws}.

Lemma Lookup_Some m name : is_Some (m !! name) -> exists c, Lookup m name = Some c /\ (colIdx c < size m)%nat.
Proof.
  intros Hm. destruct (proj2 (columnIndex_dom m name) Hm) as [k Hk]. destruct Hm as [nd Hn].
  unfold Lookup. rewrite Hk, Hn. eexists. split; [done|]. by apply columnIndex_bound in Hk.
Qed.
Lemma Lookup_index m name c : Lookup m name = Some c -> columnIndex m name = Some (colIdx c).
Proof. unfold Lookup. destruct (columnIndex m name), (m !! name); try done. by intros [= <-]. Qed.
Lemma Lookup_inj m n1 n2 c1 c2 :
  Lookup m n1 = Some c1 -> Lookup m n2 = Some c2 -> colIdx c1 = colIdx c2 -> n1 = n2.
Proof.
  intros E1%Lookup_index E2%Lookup_index E. rewrite E in E1. by eapply columnIndex_inj.
Qed.

Lemma addColumn_dom fs m name :
  is_Some (foldl addColumn m fs !! name) <-> name ∈ map Name fs \/ is_Some (m !! name).
Proof.
  revert m. induction fs as [|f fs IH]; intros m; simpl; [set_solver|].
  rewrite IH. unfold addColumn. destruct (decide (Name f = name)) as [->|Hn].
  - rewrite lookup_insert_eq. split; [intros _; left; set_solver|eauto].
  - rewrite lookup_insert_ne by done. rewrite elem_of_cons. naive_solver.
Qed.
Lemma BuildParquetSchema_dom s sf name :
  is_Some (BuildParquetSchema s sf !! name)
  <-> name ∈ map Name (Fields s) \/ name = "_ingested_at" \/ (sf = true /\ name = "_source_file").
Proof.
  assert (is_Some (foldl addColumn ∅ (Fields s) !! name) <-> name ∈ map Name (Fields s)) as Ef.
  { rewrite addColumn_dom, lookup_empty. split; [intros [?|[? ?]]; done|auto]. }
  unfold BuildParquetSchema. destruct sf.
  - destruct (decide (name = "_source_file")) as [->|H1]; [rewrite lookup_insert_eq; naive_solver|].
    rewrite lookup_insert_ne by done.
    destruct (decide (name = "_ingested_at")) as [->|H2]; [rewrite lookup_insert_eq; naive_solver|].
    rewrite lookup_insert_ne, Ef by done. naive_solver.
  - destruct (decide (name = "_ingested_at")) as [->|H2]; [rewrite lookup_insert_eq; naive_solver|].
    rewrite lookup_insert_ne, Ef by done. naive_solver.
Qed.

(** Every position of a row belongs to a column. *)
Lemma column_at m k : (k < size m)%nat -> exists name c, Lookup m name = Some c /\ colIdx c = k.
Proof.
  intros Hk. set (names := map fst (map_to_list m)).
  assert (forall name, name ∈ names -> is_Some (m !! name)) as Hin.
  { intros name ([n v] & -> & Hv)%list_elem_of_fmap. apply elem_of_map_to_list in Hv. by exists v. }
  assert (NoDup names) as Hnd by apply NoDup_fst_map_to_list.
  assert (length names = size m) as Hlen by (unfold names; by rewrite length_map, length_map_to_list).
  set (idx := fun name => match Lookup m name with Some c => colIdx c | None => size m end).
  assert (map idx names ≡ₚ seq 0 (size m)) as Hp.
  { apply submseteq_length_Permutation; [|rewrite length_seq, length_map; lia].
    apply NoDup_submseteq.
    - apply NoDup_fmap_2_strong; [|done]. intros a b Ha Hb E. unfold idx in E.
      destruct (Lookup_Some m a (Hin a Ha)) as (ca & Ea & _), (Lookup_Some m b (Hin b Hb)) as (cb & Eb & _).
      rewrite Ea, Eb in E. by eapply Lookup_inj.
    - intros x (name & -> & Hn)%list_elem_of_fmap. destruct (Lookup_Some m name (Hin name Hn)) as (c & Ec & Hc).
      apply elem_of_seq. unfold idx. rewrite Ec. lia. }
  assert (k ∈ map idx names) as (name & Ek & Hn)%list_elem_of_fmap by (rewrite Hp; apply elem_of_seq; lia).
  destruct (Lookup_Some m name (Hin name Hn)) as (c & Ec & _). exists name, c. split; [done|].
  unfold idx in Ek. by rewrite Ec in Ek.
Qed.

Lemma setCell_lt dest k v : (k < length dest)%nat -> setCell dest k v = Ok (<[k := v]> dest).
Proof. intros Hk. unfold setCell. by rewrite (proj2 (Nat.ltb_lt _ _) Hk). Qed.

Lemma stringCol_lt c t dest : (colIdx c < length dest)%nat ->
  stringCol (Some c) t dest = Ok (<[colIdx c := mkCell (PByteArray (bytes t)) (maxDef c) (colIdx c)]> dest).
Proof. intros Hc. unfold stringCol. simpl. by apply setCell_lt. Qed.

Lemma runEncoders_spec m fs : forall i values dest,
  (forall f, f ∈ fs -> is_Some (m !! Name f)) -> NoDup (map Name fs) -> length dest = size m ->
  exists dest', runEncoders (compileEncoders m fs) i values dest = Ok dest' /\ length dest' = size m
  /\ (forall j f c v, fs !! j = Some f -> Lookup m (Name f) = Some c -> values !! (i + j)%nat = Some v ->
        dest' !! colIdx c = Some (encodeCell f c v))
  /\ (forall name c, Lookup m name = Some c ->
        (forall j f, fs !! j = Some f -> Name f = name -> values !! (i + j)%nat = None) ->
        dest' !! colIdx c = dest !! colIdx c).
Proof.
  induction fs as [|f fs IH]; intros i values dest Hin Hnd Hd.
  - exists dest. by split_and!.
  - simpl in Hnd. apply NoDup_cons in Hnd as [Hf Hnd].
    destruct (Lookup_Some m (Name f) (Hin f ltac:(set_solver))) as (c & Hc & Hb).
    cbn [compileEncoders map runEncoders]. rewrite Hc.
    set (d1 := match values !! i with Some v => <[colIdx c := encodeCell f c v]> dest | None => dest end).
    assert (length d1 = size m) as Hd1 by (unfold d1; destruct (values !! i); by rewrite ?length_insert).
    destruct (IH (S i) values d1) as (dest' & E & Hlen & Hset & Hkeep);
      [intros g Hg; apply Hin; set_solver|done|done|].
    exists dest'. split; [|split; [done|split]].
    + unfold d1 in E. destruct (values !! i); [rewrite setCell_lt by lia|]; exact E.
    + intros [|j] g cg w Hg Hcg Hw.
      * simpl in Hg. injection Hg as <-. rewrite Hc in Hcg. injection Hcg as <-.
        rewrite Nat.add_0_r in Hw. rewrite (Hkeep (Name f) c Hc).
        { unfold d1. rewrite Hw. apply list_lookup_insert_eq. lia. }
        intros j g Hg En. exfalso. apply Hf. apply list_elem_of_fmap. exists g. split; [done|].
        by eapply list_elem_of_lookup_2.
      * apply (Hset j g cg w Hg Hcg). by replace (S i + j)%nat with (i + S j)%nat by lia.
    + intros name cn Hcn Hno. rewrite (Hkeep name cn Hcn).
      * unfold d1. destruct (values !! i) as [v|] eqn:Ev; [|done].
        apply list_lookup_insert_ne. intros E2. assert (Name f = name) as En by (by eapply Lookup_inj).
        specialize (Hno 0%nat f eq_refl En). rewrite Nat.add_0_r, Ev in Hno. done.
      * intros j g Hg En. replace (S i + j)%nat with (i + S j)%nat by lia. by apply (Hno (S j) g).
Qed.

Lemma extractAll_spec fs : forall i values m,
  NoDup (map Name fs) ->
  (forall j f v, fs !! j = Some f -> values !! (i + j)%nat = Some v -> m !! Name f = None ->
     extractAll i fs values m !! Name f = (if IsNull v then None else Some (extractAny f v)))
  /\ (forall name, (forall j f, fs !! j = Some f -> Name f = name -> values !! (i + j)%nat = None) ->
        extractAll i fs values m !! name = m !! name).
Proof.
  induction fs as [|f fs IH]; intros i values m Hnd; [by split|].
  simpl in Hnd. apply NoDup_cons in Hnd as [Hf Hnd]. cbn [extractAll].
  set (m1 := match values !! i with
             | Some v => if IsNull v then m else <[Name f := extractAny f v]> m
             | None => m end).
  assert (forall n, n <> Name f -> m1 !! n = m !! n) as Hm1.
  { intros n Hn. unfold m1. destruct (values !! i) as [v|]; [|done].
    destruct (IsNull v); [done|]. by rewrite lookup_insert_ne. }
  assert (forall g, g ∈ fs -> Name g <> Name f) as Hne.
  { intros g Hg E. apply Hf. apply list_elem_of_fmap. by exists g. }
  destruct (IH (S i) values m1 Hnd) as [IHset IHkeep]. split.
  - intros [|j] g w Hg Hw Hnone.
    + simpl in Hg. injection Hg as <-. rewrite Nat.add_0_r in Hw.
      rewrite IHkeep; [|intros j g Hg%list_elem_of_lookup_2 En; by destruct (Hne g Hg)].
      unfold m1. rewrite Hw. destruct (IsNull w); [done|apply lookup_insert_eq].
    + apply (IHset j g w Hg); [by replace (S i + j)%nat with (i + S j)%nat by lia|].
      rewrite Hm1; [done|]. apply Hne. by eapply list_elem_of_lookup_2.
  - intros name Hno. rewrite IHkeep.
    + unfold m1. destruct (values !! i) as [v|] eqn:Ev; [|done]. destruct (IsNull v); [done|].
      apply lookup_insert_ne. intros En. specialize (Hno 0%nat f eq_refl En).
      by rewrite Nat.add_0_r, Ev in Hno.
    + intros j g Hg En. replace (S i + j)%nat with (i + S j)%nat by lia. by apply (Hno (S j) g).
Qed.
End EncoderFacts.

Section RowFacts.
Context `{ParquetLayoutLaws}.

Lemma RecordToParquetRow_other now s sf rec name :
  name <> "_ingested_at" -> name <> "_source_file" ->
  RecordToParquetRow now s sf rec !! name = extractAll 0 (Fields s) (Values rec) ∅ !! name.
Proof. intros H1' H2'. unfold RecordToParquetRow. destruct sf; by rewrite !lookup_insert_ne. Qed.
Lemma RecordToParquetRow_ingested now s sf rec :
  RecordToParquetRow now s sf rec !! "_ingested_at"
  = Some (AString (auditOr rec "_ingested_at" (formatRFC3339 now))).
Proof. unfold RecordToParquetRow. destruct sf; [rewrite lookup_insert_ne by done|]; apply lookup_insert_eq. Qed.
Lemma RecordToParquetRow_source now s sf rec c :
  "_source_file" ∉ map Name (Fields s) -> Lookup (BuildParquetSchema s sf) "_source_file" = Some c ->
  RecordToParquetRow now s sf rec !! "_source_file" = Some (AString (auditOr rec "_source_file" "unknown")).
Proof.
  intros Hn Hc%Lookup_index. assert (is_Some (BuildParquetSchema s sf !! "_source_file")) as Hd
    by (apply columnIndex_dom; eauto).
  apply BuildParquetSchema_dom in Hd as [?|[?|[-> _]]]; [done|done|]. apply lookup_insert_eq.
Qed.

(** The schemas and records the encoder is meant for. *)
Definition plainNames (s : Schema) : Prop :=
  NoDup (map Name (Fields s)) /\ "_ingested_at" ∉ map Name (Fields s) /\ "_source_file" ∉ map Name (Fields s).
Definition fullRecord (s : Schema) (rec : GenericRecord) : Prop :=
  (length (Fields s) <= length (Values rec))%nat.

(** The record has no cell for the field of that name. *)
Definition lacksCell (s : Schema) (rec : GenericRecord) (name : string) : Prop :=
  exists j f, Fields s !! j = Some f /\ Name f = name /\ Values rec !! j = None.
Lemma lacksCell_dec s rec name : lacksCell s rec name \/ ~ lacksCell s rec name.
Proof.
  destruct (decide (Exists (fun p => Name p.2 = name /\ Values rec !! p.1 = None)
                      (imap pair (Fields s)))) as [H1|H1].
  - left. apply Exists_exists in H1 as ([j f] & Hin & Hn & Hv).
    apply list_elem_of_lookup in Hin as [k Hk]. rewrite list_lookup_imap in Hk.
    destruct (Fields s !! k) as [f'|] eqn:Ek; [|done]. simpl in Hk. injection Hk as -> ->. by exists j, f.
  - right. intros (j & f & Hj & Hn & Hv). apply H1. apply Exists_exists. exists (j, f). split; [|done].
    apply list_elem_of_lookup. exists j. by rewrite list_lookup_imap, Hj.
Qed.
Lemma full_not_lacks s rec name : fullRecord s rec -> ~ lacksCell s rec name.
Proof.
  intros Hl (j & f & Hj%lookup_lt_Some & _ & Hv). apply lookup_ge_None in Hv. unfold fullRecord in Hl. lia.
Qed.

(** A column the record lacks has no entry in the row map. *)
Lemma lacksCell_row_map now s sf rec name : plainNames s -> lacksCell s rec name ->
  RecordToParquetRow now s sf rec !! name = None.
Proof.
  intros (Hnd & Hi & Hs) (j & f & Hj & <- & Hv).
  assert (Name f ∈ map Name (Fields s)) as Hin.
  { apply list_elem_of_fmap. exists f. split; [done|]. by eapply list_elem_of_lookup_2. }
  rewrite RecordToParquetRow_other by (intros E; by rewrite E in Hin).
  rewrite (proj2 (extractAll_spec (Fields s) 0 (Values rec) ∅ Hnd)), lookup_empty; [done|].
  intros k g Hk En. assert (k = j) as ->; [|done].
  apply (NoDup_lookup _ k j (Name f) Hnd); rewrite list_lookup_fmap; [by rewrite Hk, <- En|by rewrite Hj].
Qed.

(** The cells of the fields the record has are those of the row map. *)
Lemma encodeRow_fields now s sf rec (d : list pqCell) m :
  plainNames s -> m = BuildParquetSchema s sf ->
  (forall j f c v, Fields s !! j = Some f -> Lookup m (Name f) = Some c -> Values rec !! (0 + j)%nat = Some v ->
     d !! colIdx c = Some (encodeCell f c v)) ->
  forall name c, Lookup m name = Some c -> name <> "_ingested_at" -> name <> "_source_file" ->
  ~ lacksCell s rec name ->
  d !! colIdx c = Some (cellOf c (RecordToParquetRow now s sf rec !! name)).
Proof.
  intros (Hnd & Hi & Hs) -> Hset name c Hc Hn1 Hn2 Hlc.
  assert (is_Some (BuildParquetSchema s sf !! name)) as Hd by (apply columnIndex_dom; rewrite (Lookup_index _ _ _ Hc); eauto).
  apply BuildParquetSchema_dom in Hd as [Hd|[?|[_ ?]]]; [|done|done].
  apply list_elem_of_fmap in Hd as (f & -> & [j Hj]%list_elem_of_lookup).
  destruct (Values rec !! j) as [v|] eqn:Hv; [|by destruct Hlc; exists j, f].
  rewrite (Hset j f c v Hj Hc Hv), RecordToParquetRow_other by done.
  destruct (extractAll_spec (Fields s) 0 (Values rec) ∅ Hnd) as [E _].
  rewrite (E j f v Hj Hv (lookup_empty _)). unfold encodeCell, cellOf.
  destruct (IsNull v); [done|]. by rewrite encodePrim_extract.
Qed.

(** Filling a row over a buffer [d0] of the right length. *)
Lemma encodeRow_cells
    (now : Z) (s : Schema) (withSourceFile : bool) (rec : GenericRecord) (dest : list pqCell) :
  plainNames s ->
  let m := BuildParquetSchema s withSourceFile in
  exists row, encodeRow now s withSourceFile rec dest = Ok row /\ length row = size m
  /\ forall name c, Lookup m name = Some c ->
       (~ lacksCell s rec name ->
          row !! colIdx c = Some (cellOf c (RecordToParquetRow now s withSourceFile rec !! name)))
       /\ (lacksCell s rec name ->
          row !! colIdx c = if (length dest <? size m)%nat then Some zeroCell else dest !! colIdx c).
Proof.
  intros Hpl m. pose proof Hpl as (Hnd & Hi & Hsf). unfold encodeRow. fold m. cbv zeta.
  set (d0 := if (length dest <? size m)%nat then _ else _).
  assert (length d0 = size m /\ forall k, (k < size m)%nat ->
    d0 !! k = if (length dest <? size m)%nat then Some zeroCell else dest !! k) as [Hd0 Hbuf].
  { unfold d0. destruct (Nat.ltb_spec (length dest) (size m)).
    - split; [apply length_replicate|]. intros k Hk. by apply lookup_replicate_2.
    - split; [rewrite length_take; lia|]. intros k Hk. by apply lookup_take_lt. }
  destruct (runEncoders_spec m (Fields s) 0 (Values rec) d0) as (d1 & -> & Hd1 & Hset & Hkeep); [|done|done|].
  { intros f Hf. apply BuildParquetSchema_dom. left. apply list_elem_of_fmap. by exists f. }
  cbn [mbind result_bind].
  destruct (Lookup_Some m "_ingested_at") as (ci & Hci & Hcb); [apply BuildParquetSchema_dom; auto|].
  rewrite Hci, stringCol_lt by lia. cbn [mbind result_bind].
  set (ing := mkCell _ _ _). set (d2 := <[colIdx ci := ing]> d1).
  assert (length d2 = size m) as Hd2 by (unfold d2; by rewrite length_insert).
  pose proof (encodeRow_fields now s withSourceFile rec d1 m Hpl eq_refl Hset) as Hfields.
  assert (forall name, lacksCell s rec name -> name <> "_ingested_at" /\ name <> "_source_file") as Haudit.
  { intros name (j & f & Hj & <- & _). assert (Name f ∈ map Name (Fields s)) as Hin.
    { apply list_elem_of_fmap. exists f. split; [done|]. by eapply list_elem_of_lookup_2. }
    split; intros E; by rewrite E in Hin. }
  assert (forall name c, Lookup m name = Some c -> name <> "_source_file" ->
    (~ lacksCell s rec name -> d2 !! colIdx c = Some (cellOf c (RecordToParquetRow now s withSourceFile rec !! name)))
    /\ (lacksCell s rec name -> d2 !! colIdx c = d0 !! colIdx c)) as Hall.
  { intros name c Hc Hn. destruct (decide (name = "_ingested_at")) as [->|Hni].
    - split; [|by intros [? _]%Haudit]. intros _. rewrite Hc in Hci. injection Hci as <-.
      unfold d2. rewrite list_lookup_insert_eq by lia. by rewrite RecordToParquetRow_ingested.
    - unfold d2. rewrite list_lookup_insert_ne
        by (intros E; apply Hni; symmetry; by eapply Lookup_inj).
      split; [by apply Hfields|]. intros (j & f & Hj & <- & Hv). apply (Hkeep _ _ Hc).
      intros k g Hk En. assert (k = j) as ->; [|done].
      apply (NoDup_lookup _ k j (Name f) Hnd); rewrite list_lookup_fmap; [by rewrite Hk, <- En|by rewrite Hj]. }
  assert (forall name c, Lookup m name = Some c -> (colIdx c < size m)%nat) as Hidx.
  { intros name c Hc%Lookup_index. by apply columnIndex_bound in Hc. }
  destruct (Lookup m "_source_file") as [cs|] eqn:Ecs.
  - rewrite stringCol_lt by (rewrite Hd2; by eapply Hidx). eexists. split; [done|].
    rewrite length_insert. split; [done|]. intros name c Hc.
    destruct (decide (name = "_source_file")) as [->|Hn].
    + split; [|by intros [_ ?]%Haudit]. intros _. rewrite Hc in Ecs. injection Ecs as <-.
      rewrite list_lookup_insert_eq by (rewrite Hd2; by eapply Hidx).
      by rewrite (RecordToParquetRow_source now s withSourceFile rec c Hsf Hc).
    + rewrite list_lookup_insert_ne by (intros E; apply Hn; symmetry; by eapply Lookup_inj).
      rewrite <- Hbuf by (by eapply Hidx). by apply Hall.
  - exists d2. split; [done|]. split; [done|]. intros name c Hc.
    rewrite <- Hbuf by (by eapply Hidx). apply Hall; [done|]. intros ->. by rewrite Hc in Ecs.
Qed.

(** On a record with all its cells the buffer does not matter. *)
Lemma encodeRow_dest now s sf rec d1 d2 : plainNames s -> fullRecord s rec ->
  encodeRow now s sf rec d1 = encodeRow now s sf rec d2.
Proof.
  intros Hpl Hl.
  destruct (encodeRow_cells now s sf rec d1 Hpl) as (r1 & -> & L1 & K1).
  destruct (encodeRow_cells now s sf rec d2 Hpl) as (r2 & -> & L2 & K2).
  f_equal. apply list_eq. intros k. destruct (decide (k < size (BuildParquetSchema s sf))%nat) as [Hk|Hk].
  - destruct (column_at _ k Hk) as (name & c & Hc & <-).
    rewrite (proj1 (K1 name c Hc)), (proj1 (K2 name c Hc)) by (by apply full_not_lacks). done.
  - rewrite !lookup_ge_None_2 by lia. done.
Qed.
End RowFacts.

(** ** Lemmas: a bundle *)

(** The bytes of a file of [rows], after those of [hist]. *)
Fixpoint rowsEmitted (c : Codec (list pqCell)) (hist rows : list (list pqCell)) : list byte :=
  match rows with
  | [] => []
  | r :: rows' => emit c hist r ++ rowsEmitted c (hist ++ [r]) rows'
  end.
Definition parquetFile (c : Codec (list pqCell)) (rows : list (list pqCell)) : list byte :=
  rowsEmitted c [] rows ++ trailer c rows.
Lemma rowsEmitted_snoc c rows : forall hist r,
  rowsEmitted c hist (rows ++ [r]) = rowsEmitted c hist rows ++ emit c (hist ++ rows) r.
Proof.
  induction rows as [|x rows IH]; intros hist r; simpl; [by rewrite !app_nil_r|].
  by rewrite IH, <- !app_assoc.
Qed.

Section BundleFacts.
Context {W : Type} `{AtomicCommit W, ShardNames W, UnicodeLower, ParquetLayoutLaws, ParquetLib} (factory : bool).

Definition encodes (s : Schema) (sf : bool) (rec : GenericRecord) (row : list pqCell) : Prop :=
  exists now, forall dest, encodeRow now s sf rec dest = Ok row.

(** An open shard with [rows], or none yet. *)
Definition pkAt (fn : ParquetSink) (w : W) (v : gmap string (list byte)) (u : string)
    (rows : list (list pqCell)) (n : Z) : Prop :=
  pk_stager fn = Some (pk_stagerOf fn) /\ recordCount (pk_stagerOf fn) = n /\
  match pk_writer fn with
  | Some pw => pw = (tempURI (pk_stagerOf fn), rows)
      /\ stagedAt (pk_stagerOf fn) w v u (rowsEmitted (pqCodec (pk_columns fn)) [] rows)
  | None => rows = [] /\ n = 0 /\ writer (pk_stagerOf fn) = None /\ visible w = v /\ finalOK u
            /\ outputURI (pk_stagerOf fn) w = u
  end.
Definition samePk (fn fn' : ParquetSink) : Prop :=
  pk_Schema fn' = pk_Schema fn /\ pk_IncludeSourceFile fn' = pk_IncludeSourceFile fn.

Lemma lazyOpen_pk fn w v u rows n : pkAt fn w v u rows n ->
  let '(e, fn', w') := pk_lazyOpen factory fn w in
  samePk fn fn' /\
  match e with
  | Some _ => visible w' = v
  | None => pkAt fn' w' v u rows n /\ pk_writer fn' <> None
  end.
Proof.
  intros Hat. pose proof Hat as (Hs & Hn & Hw). unfold pk_lazyOpen. destruct (pk_writer fn) as [pw|] eqn:Ew.
  - split; [done|]. by rewrite Ew.
  - destruct Hw as (-> & -> & Hw & Hv & Hok & Hu). rewrite <- Hu in Hok.
    pose proof (EnsureOpen_spec factory (pk_stagerOf fn) w Hw Hok) as K.
    destruct (EnsureOpen factory (pk_stagerOf fn) w) as [[[h|e] s] w'].
    + destruct K as (_ & Hc & _ & -> & Hst). split; [done|]. split; [|done].
      split_and!; [done|change (recordCount s = 0); congruence|].
      simpl. split; [done|]. rewrite Hv, Hu in Hst. exact Hst.
    + destruct K as (_ & _ & Hv' & _). split; [done|congruence].
Qed.

Lemma writeRow_pk row fn w v u rows n : pkAt fn w v u rows n -> pk_writer fn <> None ->
  let '(e, fn', w') := pk_writeRow row fn w in
  samePk fn fn' /\ pk_stagerOf fn' = pk_stagerOf fn /\
  match e with
  | Some _ => exists b, stagedAt (pk_stagerOf fn) w' v u b
  | None => pkAt fn' w' v u (rows ++ [row]) n
  end.
Proof.
  intros (Hs & Hn & Hw) Hne. unfold pk_writeRow. destruct (pk_writer fn) as [pw|]; [|done].
  destruct Hw as (-> & Hst). set (c := pqCodec (pk_columns fn)) in *.
  pose proof Hst as (E1 & E2 & E3 & E4 & E5 & E6 & E7).
  set (fn' := pk_with fn (pk_stagerOf fn) (Some (tempURI (pk_stagerOf fn), rows ++ [row]))).
  assert (forall w', stagedAt (pk_stagerOf fn) w' v u (rowsEmitted c [] rows ++ emit c rows row) ->
    pkAt fn' w' v u (rows ++ [row]) n) as Hmk.
  { intros w' Hst'. split_and!; [done|done|]. simpl. split; [done|].
    change (pqCodec (pk_columns fn')) with c. by rewrite rowsEmitted_snoc. }
  destruct (emit c rows row) as [|x out] eqn:Eo.
  - split; [done|]. split; [done|]. apply Hmk. by rewrite app_nil_r.
  - pose proof (write_spec (tempURI (pk_stagerOf fn)) (x :: out) w _ E7) as Hwr.
    destruct (FileWrite _ (x :: out) w) as [[k e] w']. destruct Hwr as (Hv & Hk & Hb & He).
    split; [done|]. split; [done|]. destruct e as [e|].
    + eexists. unfold stagedAt. split_and!; try done; congruence.
    + rewrite (He eq_refl), take_ge in Hb by (unfold zlen; lia). apply Hmk. unfold stagedAt. split_and!; congruence.
Qed.

Lemma ProcessElement_pk rec fn w v u rows n :
  pkAt fn w v u rows n -> plainNames (pk_Schema fn) -> fullRecord (pk_Schema fn) rec -> in_i64 (n + 1) ->
  let '(e, fn', w') := ParquetSink_ProcessElement factory rec fn w in
  samePk fn fn' /\
  match e with
  | Err _ => visible w' = v
  | Panic _ => False
  | Ok _ => exists row, encodes (pk_Schema fn) (pk_IncludeSourceFile fn) rec row
            /\ pkAt fn' w' v u (rows ++ [row]) (n + 1) /\ pk_writer fn' <> None
  end.
Proof.
  intros Hat Hpl Hfull Hi. unfold ParquetSink_ProcessElement. pose proof (lazyOpen_pk fn w v u rows n Hat) as K.
  destruct (pk_lazyOpen factory fn w) as [[[e|] fn1] w1]; [by destruct K|]. destruct K as ((Es & Ei) & Hat1 & Hw1).
  set (fn2 := match pk_numCols fn1 with None => pk_compile fn1 | Some _ => fn1 end).
  assert (pkAt fn2 w1 v u rows n /\ pk_writer fn2 <> None /\ samePk fn fn2) as (Hat2 & Hw2 & Es2 & Ei2).
  { unfold fn2. destruct (pk_numCols fn1); done. }
  rewrite Es2, Ei2.
  destruct (encodeRow_cells (unixNano w1) (pk_Schema fn) (pk_IncludeSourceFile fn) rec (pk_rowBuffer fn2) Hpl)
    as (row & Er & _). rewrite Er.
  set (fn3 := pk_withBuffer fn2 _ _).
  pose proof (writeRow_pk row fn3 w1 v u rows n Hat2 Hw2) as K.
  destruct (pk_writeRow row fn3 w1) as [[e fn4] w2] eqn:Ewr. destruct K as ((Es4 & Ei4) & Est & K).
  change (pk_Schema fn3) with (pk_Schema fn2) in Es4.
  change (pk_IncludeSourceFile fn3) with (pk_IncludeSourceFile fn2) in Ei4. destruct e as [e|].
  - destruct K as (b & Hst). rewrite Est. pose proof (Abort_spec (pk_stagerOf fn3) w2 v u b Hst) as Ha.
    destruct (Abort (pk_stagerOf fn3) w2) as [[? s] w3]. split; [split; simpl; congruence|done].
  - split; [split; simpl; congruence|]. exists row. split.
    { exists (unixNano w1). intros dest. rewrite <- Er. by apply encodeRow_dest. }
    pose proof K as (Hs4 & Hn4 & Hp4). assert (pk_writer fn4 <> None) as Hw4.
    { unfold pk_writeRow in Ewr. change (pk_writer fn3) with (pk_writer fn2) in Ewr.
      destruct (pk_writer fn2) as [[h rs]|]; [|done]. destruct (emit _ _ _); [by injection Ewr as <- <-|].
      destruct (FileWrite _ _ _) as [[? ?] ?]. by injection Ewr as _ <- _. }
    split; [|done]. split_and!; [done|change (i64 (recordCount (pk_stagerOf fn4) + 1) = n + 1); by rewrite Hn4, i64_small|].
    simpl. destruct (pk_writer fn4); [|done]. exact Hp4.
Qed.

Lemma records_pk recs : forall fn w v u rows n,
  pkAt fn w v u rows n -> plainNames (pk_Schema fn) -> Forall (fullRecord (pk_Schema fn)) recs ->
  0 <= n -> n + zlen recs < 2 ^ 62 ->
  let '(e, fn', w') := ParquetSink_records factory recs fn w in
  samePk fn fn' /\
  match e with
  | Err _ => visible w' = v
  | Panic _ => False
  | Ok _ => exists rows', Forall2 (encodes (pk_Schema fn) (pk_IncludeSourceFile fn)) recs rows'
            /\ pkAt fn' w' v u (rows ++ rows') (n + zlen recs) /\ (recs <> [] -> pk_writer fn' <> None)
  end.
Proof.
  induction recs as [|r recs IH]; intros fn w v u rows n Hat Hpl Hfull Hn Hl; cbn [ParquetSink_records].
  - split; [done|]. exists []. rewrite app_nil_r, Z.add_0_r. by split_and!.
  - assert (zlen (r :: recs) = zlen recs + 1) as El by (unfold zlen; simpl; lia). rewrite El in Hl |- *.
    pose proof (zlen_nonneg recs). apply Forall_cons in Hfull as [Hr Hfull].
    pose proof (ProcessElement_pk r fn w v u rows n Hat Hpl Hr ltac:(wunfold; lia)) as K.
    destruct (ParquetSink_ProcessElement factory r fn w) as [[[[]|e|m] fn1] w1]; destruct K as ((Es & Ei) & K); [|by split|done].
    destruct K as (row & Hrow & Hat1 & Hw1). rewrite <- Es in Hpl, Hfull.
    pose proof (IH fn1 w1 v u _ (n + 1) Hat1 Hpl Hfull ltac:(lia) ltac:(lia)) as K.
    destruct (ParquetSink_records factory recs fn1 w1) as [[[[]|e|m] fn2] w2] eqn:Er; destruct K as ((Es2 & Ei2) & K);
      (split; [split; congruence|]); [|done|done].
    destruct K as (rows' & Hrows & Hat2 & Hw2). rewrite Es, Ei in Hrows. exists (row :: rows').
    split; [by constructor|]. rewrite <- app_assoc in Hat2.
    replace (n + (zlen recs + 1)) with (n + 1 + zlen recs) by lia. split; [exact Hat2|]. intros _.
    destruct recs; [|by apply Hw2]. simpl in Er. by injection Er as <- <-.
Qed.

Lemma FinishBundle_pk fn w v u rows n : pkAt fn w v u rows n -> pk_writer fn <> None -> n <> 0 ->
  let '(e, _, w') := ParquetSink_FinishBundle fn w in
  visible w' = match e with Some _ => v | None => <[u := parquetFile (pqCodec (pk_columns fn)) rows]> v end.
Proof.
  intros (Hs & Hn & Hw) Hne Hn0. unfold ParquetSink_FinishBundle. rewrite Hs, Hn, (proj2 (Z.eqb_neq n 0)) by done.
  set (c := pqCodec (pk_columns fn)) in *. destruct (pk_writer fn) as [pw|]; [|done]. destruct Hw as (-> & Hst).
  pose proof Hst as (_ & _ & _ & _ & _ & E6 & E7).
  pose proof (CommitOrAbort_spec (pk_close c) (Some (tempURI (pk_stagerOf fn), rows)) _ w v u _
    (fun _ b => b = parquetFile c rows) Hst) as K.
  assert (let '(e, c', w1) := pk_close c (tempURI (pk_stagerOf fn), rows) w in
    visible w1 = visible w /\ exists b1, staged w1 (tempURI (pk_stagerOf fn)) = Some b1
    /\ (e = None -> b1 = parquetFile c rows)) as Hc.
  { unfold pk_close, parquetFile. simpl. destruct (trailer c rows) as [|x out] eqn:Et.
    - split; [done|]. eexists. split; [done|]. intros _. by rewrite app_nil_r.
    - pose proof (write_spec (tempURI (pk_stagerOf fn)) (x :: out) w _ E7) as Hwr.
      destruct (FileWrite _ (x :: out) w) as [[k e] w']. destruct Hwr as (Hv & Hk & Hb & He).
      split; [done|]. eexists. split; [done|]. intros He0. rewrite (He He0), take_ge; [done|]. unfold zlen. lia. }
  specialize (K Hc). destruct (CommitOrAbort _ _ _ w) as [[[e c'] s'] w']. destruct K as [_ K]. rewrite Hn in K.
  destruct e; [done|]. destruct K as (? & -> & ->). by rewrite (proj2 (Z.eqb_neq n 0)).
Qed.
End BundleFacts.

(** ** Properties *)

(** C14. Under a schema with distinct names that are not the audit columns', the
    direct encoder turns every record into a row of one cell per column, over
    whatever buffer it is given. At the column of an audit field, or of a field the
    record has a cell for, it is the cell of the reference row map, null when the
    map has no entry; so on a record with a cell for every field the row does not
    depend on the buffer. At the column of a field the record is too short for,
    where the row map has no entry, it is the buffer's own cell, an earlier
    record's when the buffer is reused ([short_record_stale_cells]). *)
Theorem encodeRow_row_map `{ParquetLayoutLaws}
    (now : Z) (s : Schema) (withSourceFile : bool) (rec : GenericRecord) :
  plainNames s ->
  let m := BuildParquetSchema s withSourceFile in
  (forall dest, exists row, encodeRow now s withSourceFile rec dest = Ok row /\ length row = size m
     /\ forall k, (k < length row)%nat -> exists name c, Lookup m name = Some c /\ colIdx c = k
       /\ (~ lacksCell s rec name ->
             row !! k = Some (cellOf c (RecordToParquetRow now s withSourceFile rec !! name)))
       /\ (lacksCell s rec name ->
             RecordToParquetRow now s withSourceFile rec !! name = None
             /\ row !! k = if (length dest <? size m)%nat then Some zeroCell else dest !! k))
  /\ (fullRecord s rec ->
        (forall name, ~ lacksCell s rec name)
        /\ exists row, forall dest, encodeRow now s withSourceFile rec dest = Ok row).
Proof.
  intros Hs m. split.
  - intros dest. destruct (encodeRow_cells now s withSourceFile rec dest Hs) as (row & E & Hl & Hk).
    exists row. split; [done|]. split; [done|]. rewrite Hl. intros k Hlt.
    destruct (column_at m k Hlt) as (name & c & Hc & <-). exists name, c.
    destruct (Hk name c Hc) as [H1 H2]. split_and!; [done|done|done|].
    intros Hlc. split; [by apply lacksCell_row_map|by apply H2].
  - intros Hr. split; [intros name; by apply full_not_lacks|].
    destruct (encodeRow_cells now s withSourceFile rec [] Hs) as (row & E & _).
    exists row. intros dest. rewrite <- E. by apply encodeRow_dest.
Qed.

(** C28. A bundle of the Parquet sink is all or nothing, on any storage whose commits are
    atomic: it never panics on records with a cell for every field; on an error nothing is
    published; otherwise one file is, with exactly the rows the direct encoder gives for the
    records, in order, or nothing for an empty bundle. *)
Theorem ParquetSink_bundle_atomic
    {W : Type} `{AtomicCommit W, ShardNames W, UnicodeLower, ParquetLayoutLaws, ParquetLib} (factory : bool)
    (recs : list GenericRecord) (fn : ParquetSink) (w : W) :
  plainNames (pk_Schema fn) -> Forall (fullRecord (pk_Schema fn)) recs -> zlen recs < 2 ^ 62 ->
  finalOK (outputURI (pk_stagerOf fn) w) ->
  let '(e, fn', w') := ParquetSink_bundle factory recs fn w in
  match e with
  | Err _ => visible w' = visible w
  | Panic _ => False
  | Ok _ =>
      exists rows, Forall2 (encodes (pk_Schema fn) (pk_IncludeSourceFile fn)) recs rows
      /\ visible w' = match recs with
                      | [] => visible w
                      | _ => <[outputURI (pk_stagerOf fn) w := parquetFile (pqCodec (pk_columns fn)) rows]> (visible w)
                      end
  end.
Proof.
  intros Hpl Hfull Hl Hok. unfold ParquetSink_bundle. set (fn0 := ParquetSink_StartBundle fn).
  assert (samePk fn fn0 /\ pkAt fn0 w (visible w) (outputURI (pk_stagerOf fn) w) [] 0) as [[Es Ei] Hat].
  { unfold fn0, ParquetSink_StartBundle. cbv zeta.
    destruct (pk_numCols _); [destruct (_ && _)|]; by repeat split. }
  rewrite <- Es in Hpl, Hfull. pose proof (zlen_nonneg recs).
  pose proof (records_pk factory recs fn0 w _ _ [] 0 Hat Hpl Hfull ltac:(lia) Hl) as K.
  destruct (ParquetSink_records factory recs fn0 w) as [[[[]|e|m] fn1] w1] eqn:Er; destruct K as ((Es1 & Ei1) & K);
    [|done|done].
  destruct K as (rows & Hrows & Hat1 & Hw1). rewrite Es, Ei in Hrows. simpl in Hat1, Er.
  destruct recs as [|r recs].
  - simpl in Er. injection Er as <- <-. unfold ParquetSink_FinishBundle.
    destruct Hat as (-> & -> & _). simpl. by exists rows.
  - pose proof (FinishBundle_pk fn1 w1 _ _ _ _ Hat1 (Hw1 ltac:(done))) as Kf.
    assert (0 + zlen (r :: recs) <> 0) as Hn0 by (unfold zlen; simpl; lia). specialize (Kf Hn0).
    destruct (ParquetSink_FinishBundle fn1 w1) as [[e fn2] w2].
    assert (pk_columns fn1 = pk_columns fn) as Ec by (unfold pk_columns; congruence). rewrite Ec in Kf.
    destruct e; [done|]. by exists rows.
Qed.

(** ** Findings and witnesses *)
Section Samples.
(** A layout: the columns in the order of the map. *)
#[local] Instance wLayout : ParquetLayout :=
  fun m name => fst <$> list_find (fun kv => kv.1 = name) (map_to_list m).
#[local] Instance wLayoutLaws : ParquetLayoutLaws.
Proof.
  split.
  - intros m name. unfold columnIndex, wLayout. rewrite fmap_is_Some. split.
    + intros [[k [n v]] (Hk & Hn & _)%list_find_Some]. simpl in Hn. subst n.
      apply list_elem_of_lookup_2, elem_of_map_to_list in Hk. by exists v.
    + intros [v Hv]. apply list_find_elem_of with (name, v); [by apply elem_of_map_to_list|done].
  - intros m name k. unfold columnIndex, wLayout.
    intros ([k' [n v]] & (Hk & _)%list_find_Some & ->)%fmap_Some. simpl.
    apply lookup_lt_Some in Hk. by rewrite length_map_to_list in Hk.
  - intros m n1 n2 k. unfold columnIndex, wLayout.
    intros ([k1 [a v1]] & (H1 & E1 & _)%list_find_Some & ->)%fmap_Some.
    intros ([k2 [b v2]] & (H2 & E2 & _)%list_find_Some & Ek)%fmap_Some.
    simpl in *. subst k2 a b. rewrite H1 in H2. by injection H2.
Qed.
#[local] Instance wUUID : GoUUID := fun _ => "0".
#[local] Instance wUUIDLaw : GoUUIDLaw.
Proof. intros n. apply (bool_decide_unpack _). vm_compute. exact I. Qed.
#[local] Instance wNames : ShardNames Disk := {| shardID _ := "abc"; unixNano d := Z.of_nat (drawn d) |}.
#[local] Instance wLower : UnicodeLower := fun s => s.
(** A writer that emits one byte per cell and a footer. *)
#[local] Instance wLib : ParquetLib :=
  fun _ => mkCodec (fun _ row => map (fun c => match prim c with PNull => "-"%char | _ => "x"%char end) row)
                   (fun rows => bytes "PAR1").

Definition twoColumns : Schema := schemaOf [mkField "id" TypeInt64 false 0 ""; mkField "note" TypeString true 0 ""].
Definition rec2 (n : Z) (note : FieldValue) : GenericRecord :=
  mkGenericRecord "f" [int64Value n; note] {[ "_ingested_at" := "now" ]}.
Definition rec1 (n : Z) : GenericRecord := mkGenericRecord "f" [int64Value n] {[ "_ingested_at" := "now" ]}.

(** A record with fewer cells than the schema gets those of the record before it. *)
Definition secondRow : result (list pqCell) :=
  row1 ← encodeRow 0 twoColumns false (rec2 1 (stringValue "first")) [];
  encodeRow 0 twoColumns false (rec1 2) row1.
Lemma short_record_stale_cells :
  (fun row2 => existsb (fun c => match prim c with PByteArray b => bool_decide (b = bytes "first") | _ => false end) row2)
    <$> secondRow = Ok true.
Proof. vm_compute. reflexivity. Qed.

Lemma encodeRow_row_map_witness :
  (exists row, forall dest, encodeRow 0 twoColumns true (rec2 7 (nullValue TypeString)) dest = Ok row)
  /\ exists row, encodeRow 0 twoColumns false (rec1 2) [zeroCell; zeroCell; zeroCell] = Ok row
     /\ length row = 3%nat.
Proof.
  assert (plainNames twoColumns) as Hp by (split_and!; apply (bool_decide_unpack _); vm_compute; exact I).
  split.
  - apply (encodeRow_row_map 0 twoColumns true (rec2 7 (nullValue TypeString)) Hp).
    unfold fullRecord. simpl. lia.
  - destruct (proj1 (encodeRow_row_map 0 twoColumns false (rec1 2) Hp) [zeroCell; zeroCell; zeroCell])
      as (row & E & Hl & _). exists row. split; [exact E|]. rewrite Hl. vm_compute. reflexivity.
Defined.

Definition goodRun := ParquetSink_bundle true [rec2 7 (nullValue TypeString); rec2 8 (stringValue "b")]
  (NewParquetSink true "/out" "" "" twoColumns) (mkDisk ∅ [] 0).
Definition badRun := ParquetSink_bundle true [rec2 7 (nullValue TypeString)]
  (NewParquetSink true "/out" "" "" twoColumns) (mkDisk ∅ [FOk; FOk; FErr 2 (Sentinel "disk full")] 0).
Lemma goodRun_ok : fst (fst goodRun) = Ok tt.
Proof. vm_compute. reflexivity. Qed.
Lemma badRun_err : match fst (fst badRun) with Ok _ => false | _ => true end = true.
Proof. vm_compute. reflexivity. Qed.
Lemma twoColumns_plain : plainNames twoColumns.
Proof. split_and!; apply (bool_decide_unpack _); vm_compute; exact I. Qed.
Lemma twoColumns_uri w : finalOK (outputURI (pk_stagerOf (NewParquetSink true "/out" "" "" twoColumns)) (mkDisk ∅ w 0)).
Proof. split; [vm_compute; discriminate|vm_compute; reflexivity]. Qed.

Lemma ParquetSink_bundle_atomic_witness :
  (fst (fst goodRun) = Ok tt /\ visible (snd goodRun) <> ∅) /\ visible (snd badRun) = ∅.
Proof.
  split.
  - pose proof (ParquetSink_bundle_atomic true [rec2 7 (nullValue TypeString); rec2 8 (stringValue "b")]
      (NewParquetSink true "/out" "" "" twoColumns) (mkDisk ∅ [] 0) twoColumns_plain) as K.
    fold goodRun in K. pose proof goodRun_ok as E. destruct goodRun as [[e fn] w]. simpl in *. subst e.
    split; [reflexivity|]. destruct K as (rows & _ & ->).
    + repeat constructor.
    + reflexivity.
    + apply twoColumns_uri.
    + apply insert_non_empty.
  - pose proof (ParquetSink_bundle_atomic true [rec2 7 (nullValue TypeString)]
      (NewParquetSink true "/out" "" "" twoColumns) (mkDisk ∅ [FOk; FOk; FErr 2 (Sentinel "disk full")] 0)
      twoColumns_plain) as K.
    fold badRun in K. pose proof badRun_err as E. destruct badRun as [[e fn] w]. simpl in *.
    assert (Forall (fullRecord twoColumns) [rec2 7 (nullValue TypeString)]) as Hf by repeat constructor.
    destruct e as [[]|e|m]; [discriminate| |].
    + rewrite K; [reflexivity|exact Hf|reflexivity|apply twoColumns_uri].
    + destruct K; [exact Hf|reflexivity|apply twoColumns_uri].
Defined.
End Samples.
