(* ===== verification/UrlQuery.v ===== *)
(** * HTTP names and query strings

    The parts of Go's [net/url] and [net/textproto] the REST adapter builds requests
    with: [url.QueryEscape], [url.QueryUnescape], [url.ParseQuery], [Values.Encode],
    and the canonical form of header names. *)
From S2P Require Import Prelude GoStr Wire.

(** ** [url.QueryEscape] and [url.QueryUnescape] *)
Definition between (a lo hi : Z) : bool := (lo <=? a) && (a <=? hi).
Definition isAlnum (c : byte) : bool :=
  let a := byte_val c in between a 97 122 || between a 65 90 || between a 48 57.
(** [-], [_], [.], [~]. *)
Definition unreserved (c : byte) : bool :=
  isAlnum c || (let a := byte_val c in (a =? 45) || (a =? 95) || (a =? 46) || (a =? 126)).
Definition upperHex (d : Z) : byte := byte_of (if d <? 10 then 48 + d else 55 + d).
Definition unhex (c : byte) : option Z :=
  let a := byte_val c in
  if between a 48 57 then Some (a - 48)
  else if between a 97 102 then Some (a - 87)
  else if between a 65 70 then Some (a - 55)
  else None.

Definition percent : byte := "%"%char.
Definition escapeByte (c : byte) : list byte :=
  if unreserved c then [c]
  else if byte_val c =? 32 then ["+"%char]
  else [percent; upperHex (byte_val c / 16); upperHex (byte_val c mod 16)].
Definition QueryEscape (l : list byte) : list byte := concat (map escapeByte l).

(** [None]: an invalid escape. *)
Fixpoint QueryUnescape (l : list byte) : option (list byte) :=
  match l with
  | [] => Some []
  | c :: l' =>
      if bool_decide (c = percent) then
        match l' with
        | h1 :: h2 :: l'' =>
            match unhex h1, unhex h2 with
            | Some a, Some b => cons (byte_of (16 * a + b)) <$> QueryUnescape l''
            | _, _ => None
            end
        | _ => None
        end
      else cons (if bool_decide (c = "+"%char) then " "%char else c) <$> QueryUnescape l'
  end.

(** ** [url.Values] *)
Abbreviation Values := (gmap string (list string)).
Definition addValue (k v : string) (m : Values) : Values := <[k := default [] (m !! k) ++ [v]]> m.
Definition Values_Set (k v : string) (m : Values) : Values := <[k := [v]]> m.
Definition Values_Get (m : Values) (k : string) : string :=
  match m !! k with Some (v :: _) => v | _ => "" end.

(** [strings.Cut] at a byte. *)
Fixpoint Cut (sep : byte) (l : list byte) : list byte * option (list byte) :=
  match l with
  | [] => ([], None)
  | c :: l' => if bool_decide (c = sep) then ([], Some l')
               else let '(a, b) := Cut sep l' in (c :: a, b)
  end.

Definition ampersand : byte := "&"%char.
Definition equals : byte := "="%char.
Definition semicolon : byte := ";"%char.
(** One setting of a query; malformed ones are dropped. *)
Definition parseSetting (s : list byte) (m : Values) : Values :=
  if bool_decide (semicolon ∈ s) then m
  else match s with
  | [] => m
  | _ =>
      let '(k, v) := Cut equals s in
      match QueryUnescape k, QueryUnescape (default [] v) with
      | Some k, Some v => addValue (str k) (str v) m
      | _, _ => m
      end
  end.
Fixpoint parseSettings (fuel : nat) (q : list byte) (m : Values) : Values :=
  match fuel, q with
  | O, _ | _, [] => m
  | S n, _ => let '(s, q') := Cut ampersand q in parseSettings n (default [] q') (parseSetting s m)
  end.
(** [u.Query()]; each turn consumes at least a byte. *)
Definition ParseQuery (q : string) : Values := parseSettings (String.length q) (bytes q) ∅.

Definition setting (k v : string) : list byte := QueryEscape (bytes k) ++ equals :: QueryEscape (bytes v).
Definition settingsOf (m : Values) (k : string) : list (list byte) :=
  map (setting k) (default [] (m !! k)).
Fixpoint joinAmp (l : list (list byte)) : list byte :=
  match l with
  | [] => []
  | [s] => s
  | s :: l' => s ++ ampersand :: joinAmp l'
  end.
(** [Values.Encode]: the keys sorted. *)
Definition Encode `{MapOrder} (m : Values) : string :=
  str (joinAmp (concat (map (settingsOf m) (sortedKeys m)))).

(** ** [textproto.CanonicalMIMEHeaderKey] *)
Definition tokenByte (c : byte) : bool :=
  isAlnum c || bool_decide (c ∈ bytes "!#$%&'*+-.^_`|~").
Definition lowerLetter (c : byte) : bool := between (byte_val c) 97 122.
Definition upperLetter (c : byte) : bool := between (byte_val c) 65 90.
Fixpoint canonLoop (upper : bool) (l : list byte) : list byte :=
  match l with
  | [] => []
  | c :: l' =>
      let c' := if upper && lowerLetter c then byte_of (byte_val c - 32)
                else if negb upper && upperLetter c then byte_of (byte_val c + 32) else c in
      c' :: canonLoop (byte_val c' =? 45) l'
  end.
Definition CanonicalHeaderKey (s : string) : string :=
  if forallb tokenByte (bytes s) then str (canonLoop true (bytes s)) else s.

(** ** Headers: one value per canonical name, which is all the code sets. *)
Abbreviation Header := (gmap string string).
Definition Header_Get (h : Header) (k : string) : string := default "" (h !! CanonicalHeaderKey k).
Definition Header_Set (k v : string) (h : Header) : Header := <[CanonicalHeaderKey k := v]> h.

Example canonical_retry_after : CanonicalHeaderKey "retry-AFTER" = "Retry-After".
Proof. vm_compute. reflexivity. Qed.
Example encode_two : Encode (Values_Set "b c" "x&y" (Values_Set "a" "1" ∅)) = "a=1&b+c=x%26y".
Proof. vm_compute. reflexivity. Qed.
Example parse_two : ParseQuery "a=1&b+c=x%26y&a=2&bad=%z" !! "a" = Some ["1"; "2"].
Proof. vm_compute. reflexivity. Qed.

(** ** Lemmas: a query reads back what it was encoded from *)
Lemma unhex_upperHex d : 0 <= d < 16 -> unhex (upperHex d) = Some d.
Proof.
  intros Hd. unfold unhex, upperHex, between.
  assert (d = 0 \/ d = 1 \/ d = 2 \/ d = 3 \/ d = 4 \/ d = 5 \/ d = 6 \/ d = 7 \/ d = 8 \/ d = 9 \/ d = 10
    \/ d = 11 \/ d = 12 \/ d = 13 \/ d = 14 \/ d = 15) as K by lia.
  by repeat destruct K as [->|K]; [..|subst].
Qed.

(** Bytes an escaped text never holds. *)
Definition reservedByte (c : byte) : Prop := c = ampersand \/ c = equals \/ c = semicolon.
Lemma upperHex_alnum d : 0 <= d < 16 -> isAlnum (upperHex d) = true.
Proof.
  intros Hd. unfold isAlnum, upperHex, between.
  assert (d = 0 \/ d = 1 \/ d = 2 \/ d = 3 \/ d = 4 \/ d = 5 \/ d = 6 \/ d = 7 \/ d = 8 \/ d = 9 \/ d = 10
    \/ d = 11 \/ d = 12 \/ d = 13 \/ d = 14 \/ d = 15) as K by lia.
  by repeat destruct K as [->|K]; [..|subst].
Qed.
Lemma byte_halves c : 0 <= byte_val c / 16 < 16 /\ 0 <= byte_val c mod 16 < 16.
Proof. pose proof (byte_val_range c). Z.to_euclidean_division_equations; lia. Qed.
Lemma unreserved_not_reserved c : unreserved c = true -> ~ reservedByte c /\ c <> percent /\ c <> "+"%char.
Proof.
  intros Hc. unfold reservedByte. split; [intros [->|[->| ->]]; discriminate|]. by split; intros ->.
Qed.
Lemma escapeByte_clean c x : x ∈ escapeByte c -> ~ reservedByte x.
Proof.
  unfold escapeByte. destruct (unreserved c) eqn:E.
  - intros ->%list_elem_of_singleton. by apply unreserved_not_reserved.
  - destruct (byte_val c =? 32).
    + intros ->%list_elem_of_singleton [H|[H|H]]; discriminate.
    + assert (forall d, 0 <= d < 16 -> ~ reservedByte (upperHex d)) as Hh.
      { intros d Hd. apply unreserved_not_reserved. unfold unreserved. by rewrite upperHex_alnum. }
      destruct (byte_halves c). rewrite !elem_of_cons, elem_of_nil. intros [->|[->|[->|[]]]]; [|by apply Hh..].
      intros [H'|[H'|H']]; discriminate.
Qed.
Lemma QueryEscape_clean l x : x ∈ QueryEscape l -> ~ reservedByte x.
Proof.
  unfold QueryEscape. induction l as [|c l IH]; simpl; [by intros []%not_elem_of_nil|].
  rewrite elem_of_app. intros [H|H]; [by apply escapeByte_clean in H|by apply IH].
Qed.
Lemma QueryUnescape_app c l r : QueryUnescape l = Some r -> QueryUnescape (escapeByte c ++ l) = Some (c :: r).
Proof.
  intros Hl. unfold escapeByte. destruct (unreserved c) eqn:E.
  - destruct (unreserved_not_reserved c E) as (_ & Hp & Hs). cbn [app QueryUnescape].
    rewrite !bool_decide_false by done. by rewrite Hl.
  - destruct (Z.eqb_spec (byte_val c) 32) as [Es|Es].
    + cbn [app QueryUnescape]. rewrite bool_decide_false by done. rewrite bool_decide_true by done. rewrite Hl.
      simpl. do 2 f_equal. by apply byte_val_inj.
    + destruct (byte_halves c) as [H1 H2]. cbn [app QueryUnescape]. rewrite bool_decide_true by done.
      rewrite !unhex_upperHex by done. rewrite Hl. simpl. do 2 f_equal.
      rewrite <- (byte_of_val c) at 3. f_equal. Z.to_euclidean_division_equations; lia.
Qed.
Lemma QueryUnescape_escape l : QueryUnescape (QueryEscape l) = Some l.
Proof.
  induction l as [|c l IH]; [done|]. change (QueryEscape (c :: l)) with (escapeByte c ++ QueryEscape l).
  by apply QueryUnescape_app.
Qed.

Lemma Cut_app sep a b : sep ∉ a -> Cut sep (a ++ sep :: b) = (a, Some b).
Proof.
  induction a as [|c a IH]; intros Hn; simpl; [by rewrite bool_decide_true|].
  apply not_elem_of_cons in Hn as [Hc Hn]. rewrite bool_decide_false by done. by rewrite IH.
Qed.
Lemma Cut_none sep a : sep ∉ a -> Cut sep a = (a, None).
Proof.
  induction a as [|c a IH]; intros Hn; simpl; [done|].
  apply not_elem_of_cons in Hn as [Hc Hn]. rewrite bool_decide_false by done. by rewrite IH.
Qed.

Lemma setting_spec k v m :
  ampersand ∉ setting k v /\ setting k v <> [] /\ parseSetting (setting k v) m = addValue k v m.
Proof.
  assert (forall x, reservedByte x -> x <> equals -> x ∉ setting k v) as Hn.
  { intros x Hx Hne. unfold setting. rewrite elem_of_app, elem_of_cons.
    intros [H|[H|H]]; [by apply QueryEscape_clean in H|done|by apply QueryEscape_clean in H]. }
  split_and!.
  - apply Hn; [by left|done].
  - unfold setting. by destruct (QueryEscape (bytes k)).
  - unfold parseSetting. rewrite bool_decide_false by (apply Hn; [by right; right|done]).
    destruct (setting k v) eqn:E; [by unfold setting in E; destruct (QueryEscape (bytes k))|]. rewrite <- E.
    unfold setting. rewrite Cut_app.
    + simpl default. by rewrite !QueryUnescape_escape, !str_bytes.
    + intros H. apply QueryEscape_clean in H. apply H. by right; left.
Qed.

Definition addAll (m : Values) (kvs : list (string * string)) : Values :=
  foldl (fun m kv => addValue kv.1 kv.2 m) m kvs.
Lemma parseSettings_join kvs : forall n m, (length (joinAmp (map (fun kv => setting kv.1 kv.2) kvs)) <= n)%nat ->
  parseSettings n (joinAmp (map (fun kv => setting kv.1 kv.2) kvs)) m = addAll m kvs.
Proof.
  induction kvs as [|[k v] kvs IH]; intros n m Hn; [by destruct n|].
  destruct (setting_spec k v m) as (Ha & Hne & Hp).
  assert (forall n (q : list byte), q <> [] -> (length q <= n)%nat -> exists n' c r, n = S n' /\ q = c :: r) as Hcons.
  { intros n' [|c r] Hq Hl; [done|]. destruct n'; simpl in Hl; [lia|]. by do 3 eexists. }
  destruct kvs as [|kv kvs].
  - destruct (Hcons n (setting k v) Hne Hn) as (n' & c & r & -> & E). cbn [map joinAmp fst snd].
    rewrite E at 1. cbn [parseSettings]. rewrite <- E, Cut_none by done. simpl. rewrite Hp. by destruct n'.
  - set (rest := joinAmp (map (fun kv => setting kv.1 kv.2) (kv :: kvs))) in *.
    change (joinAmp (map (fun kv => setting kv.1 kv.2) ((k, v) :: kv :: kvs))) with (setting k v ++ ampersand :: rest) in *.
    destruct (Hcons n (setting k v ++ ampersand :: rest)) as (n' & c & r & -> & E); [by destruct (setting k v)|done|].
    rewrite E at 1. cbn [parseSettings]. rewrite <- E, Cut_app by done. simpl default. rewrite Hp.
    apply IH. rewrite length_app in Hn. simpl in Hn. fold rest. lia.
Qed.

Lemma addAll_same k vs : forall pre m, m !! k = Some pre -> addAll m (map (pair k) vs) = <[k := pre ++ vs]> m.
Proof.
  induction vs as [|v vs IH]; intros pre m Hm; [by rewrite app_nil_r, insert_id|].
  change (addAll (addValue k v m) (map (pair k) vs) = <[k := pre ++ v :: vs]> m).
  unfold addValue. rewrite Hm. simpl default. rewrite (IH (pre ++ [v])) by apply lookup_insert_eq.
  by rewrite insert_insert_eq, <- app_assoc.
Qed.
Lemma addAll_app m l k : addAll m (l ++ k) = addAll (addAll m l) k.
Proof. apply foldl_app. Qed.
Lemma addAll_key k vs m : m !! k = None -> vs <> [] -> addAll m (map (pair k) vs) = <[k := vs]> m.
Proof.
  intros Hm Hv. destruct vs as [|v vs]; [done|].
  change (addAll (addValue k v m) (map (pair k) vs) = <[k := v :: vs]> m).
  unfold addValue. rewrite Hm. simpl default. rewrite (addAll_same k vs [v]) by apply lookup_insert_eq.
  by rewrite insert_insert_eq.
Qed.

(** The settings of some keys of a query, all with values, put those keys back. *)
Definition fullValues (m : Values) : Prop := map_Forall (fun _ vs => vs <> []) m.
Definition pairsOf (m : Values) (ks : list string) : list (string * string) :=
  concat (map (fun k => map (pair k) (default [] (m !! k))) ks).
Lemma addAll_pairs m ks : fullValues m -> NoDup ks -> forall m0, (forall k, k ∈ ks -> m0 !! k = None) ->
  forall k, addAll m0 (pairsOf m ks) !! k = if decide (k ∈ ks) then m !! k else m0 !! k.
Proof.
  intros Hm. induction ks as [|k0 ks IH]; intros Hnd m0 Hd k; [done|]. apply NoDup_cons in Hnd as [Hk0 Hnd].
  change (pairsOf m (k0 :: ks)) with (map (pair k0) (default [] (m !! k0)) ++ pairsOf m ks). rewrite addAll_app.
  assert (m0 !! k0 = None) as H0 by (apply Hd; left).
  set (m1 := addAll m0 (map (pair k0) (default [] (m !! k0)))).
  assert (m1 !! k0 = m !! k0 /\ forall k', k' <> k0 -> m1 !! k' = m0 !! k') as [H1 H2].
  { unfold m1. destruct (m !! k0) as [vs|] eqn:E; simpl; [|done].
    rewrite addAll_key by (try apply (Hm k0); done). split; [by rewrite lookup_insert_eq|].
    intros k' Hne. by rewrite lookup_insert_ne. }
  rewrite (IH Hnd m1).
  - destruct (decide (k = k0)) as [->|Hne].
    + rewrite (decide_False (P := k0 ∈ ks)) by done. by rewrite decide_True by left.
    + rewrite H2 by done. destruct (decide (k ∈ ks)); [by rewrite decide_True by (by right)|].
      rewrite decide_False; [done|]. intros [->|]%elem_of_cons; done.
  - intros k' Hk'. rewrite H2 by (by intros ->). apply Hd. by right.
Qed.

Lemma pairs_settings m ks :
  map (fun kv => setting kv.1 kv.2) (pairsOf m ks) = concat (map (settingsOf m) ks).
Proof.
  unfold pairsOf. rewrite concat_map, map_map. f_equal. apply map_ext. intros k.
  unfold settingsOf. by rewrite map_map.
Qed.

(** The query of a request is read back as the values it was made of. *)
Lemma ParseQuery_Encode `{MapOrder} m : fullValues m -> ParseQuery (Encode m) = m.
Proof.
  intros Hm. unfold ParseQuery, Encode. rewrite bytes_str, <- pairs_settings.
  rewrite parseSettings_join.
  2: { rewrite <- (bytes_str (joinAmp _)) at 1. pose proof (zlen_bytes (str (joinAmp (map (fun kv => setting kv.1 kv.2) (pairsOf m (sortedKeys m)))))) as K.
       unfold zlen, slen in K. lia. }
  assert (sortedKeys m ≡ₚ map fst (map_to_list m)) as Hp.
  { unfold sortedKeys, sortStrings. rewrite merge_sort_Permutation. by rewrite map_range_perm. }
  apply map_eq. intros k. rewrite (addAll_pairs m (sortedKeys m) Hm); [| |done].
  - destruct (decide _) as [|Hn]; [done|]. rewrite lookup_empty. destruct (m !! k) as [vs|] eqn:E; [|done].
    exfalso. apply Hn. rewrite Hp. apply list_elem_of_fmap. exists (k, vs). split; [done|]. by apply elem_of_map_to_list.
  - rewrite Hp. apply NoDup_fst_map_to_list.
Qed.
Lemma fullValues_Set k v m : fullValues m -> fullValues (Values_Set k v m).
Proof. intros Hm. by apply map_Forall_insert_2. Qed.
Lemma parseSettings_full n q m : fullValues m -> fullValues (parseSettings n q m).
Proof.
  revert q m. induction n as [|n IH]; intros q m Hm; [by destruct q|]. destruct q as [|c q]; [done|].
  cbn [parseSettings]. destruct (Cut ampersand (c :: q)) as [s q']. apply IH. unfold parseSetting.
  destruct (bool_decide _); [done|]. destruct s; [done|]. destruct (Cut equals _) as [k v].
  destruct (QueryUnescape k), (QueryUnescape (default [] v)); try done.
  unfold addValue. apply map_Forall_insert_2; [|done]. by destruct (default [] _).
Qed.
Lemma ParseQuery_full q : fullValues (ParseQuery q).
Proof. apply parseSettings_full, map_Forall_empty. Qed.

(** ** Plain text in queries *)
Definition plainByte (c : byte) : Prop := unreserved c = true \/ c ∈ bytes "%&=+".
Definition plainText (s : string) : Prop := Forall (fun c => unreserved c = true) (bytes s).

Lemma upperHex_unreserved d : 0 <= d < 16 -> unreserved (upperHex d) = true.
Proof. intros Hd. unfold unreserved. by rewrite upperHex_alnum. Qed.
Lemma escapeByte_plain c : Forall plainByte (escapeByte c).
Proof.
  pose proof (byte_halves c) as [Hh Hl]. unfold escapeByte. destruct (unreserved c) eqn:E; [by apply Forall_singleton; left|].
  destruct (byte_val c =? 32); repeat apply Forall_cons_2; try apply Forall_nil_2;
    first [left; by apply upperHex_unreserved | right; set_solver].
Qed.
Lemma QueryEscape_plain l : Forall plainByte (QueryEscape l).
Proof.
  unfold QueryEscape. induction l as [|c l IH]; [constructor|]. simpl. apply Forall_app. split; [apply escapeByte_plain|done].
Qed.
Lemma joinAmp_plain l : Forall (Forall plainByte) l -> Forall plainByte (joinAmp l).
Proof.
  induction l as [|s l IH]; intros Hl; [constructor|]. apply Forall_cons in Hl as [Hs Hl].
  destruct l as [|s' l]; [done|]. change (joinAmp (s :: s' :: l)) with (s ++ ampersand :: joinAmp (s' :: l)).
  apply Forall_app. split; [done|]. constructor; [right; set_solver|by apply IH].
Qed.
Lemma Encode_plain `{MapOrder} m : Forall plainByte (bytes (Encode m)).
Proof.
  unfold Encode. rewrite bytes_str. apply joinAmp_plain, Forall_concat, Forall_forall. intros l Hl.
  apply list_elem_of_fmap in Hl as (k & -> & _). apply Forall_forall. intros s Hs.
  apply list_elem_of_fmap in Hs as (v & -> & _). unfold setting. apply Forall_app.
  split; [apply QueryEscape_plain|]. constructor; [right; set_solver|apply QueryEscape_plain].
Qed.
Lemma QueryEscape_text s : plainText s -> QueryEscape (bytes s) = bytes s.
Proof.
  unfold plainText, QueryEscape. induction (bytes s) as [|c l IH]; intros Hs; [done|]. apply Forall_cons in Hs as [Hc Hs].
  cbn [map concat]. rewrite IH by done. unfold escapeByte. by rewrite Hc.
Qed.
Lemma ParseQuery_two a x b y : plainText a -> plainText x -> plainText b -> plainText y -> a <> b ->
  let q := a +:+ "=" +:+ x +:+ "&" +:+ b +:+ "=" +:+ y in
  Forall plainByte (bytes q) /\ ParseQuery q = Values_Set b y (Values_Set a x ∅).
Proof.
  intros Ha Hx Hb Hy Hne q.
  assert (bytes q = joinAmp (map (fun kv => setting kv.1 kv.2) [(a, x); (b, y)])) as E.
  { unfold q, setting. simpl. rewrite !bytes_app, !QueryEscape_text by done. simpl. by rewrite <- !app_assoc. }
  split.
  - rewrite E. apply joinAmp_plain. repeat apply Forall_cons_2; try apply Forall_nil_2; unfold setting; simpl; apply Forall_app;
      (split; [apply QueryEscape_plain|]); (constructor; [right; set_solver|apply QueryEscape_plain]).
  - unfold ParseQuery. rewrite E, parseSettings_join.
    + simpl. unfold addValue, Values_Set. rewrite lookup_insert_ne by done. by rewrite !lookup_empty.
    + rewrite <- E. pose proof (zlen_bytes q) as K. unfold zlen, slen in K. lia.
Qed.
Lemma digits_unreserved l : forallb isDigit l = true -> Forall (fun c => unreserved c = true) l.
Proof.
  intros Hl. apply Forall_forall. intros c Hc. apply list_elem_of_In in Hc. rewrite forallb_forall in Hl.
  specialize (Hl c Hc). unfold isDigit in Hl. unfold unreserved, isAlnum, between. rewrite Hl.
  by rewrite !orb_true_r.
Qed.
Lemma FormatInt_plain n : in_i64 n -> plainText (FormatInt n).
Proof.
  intros Hn. unfold plainText, FormatInt, FormatIntBytes. rewrite bytes_str.
  destruct (Z.ltb_spec n 0) as [Hneg|Hpos]; [constructor; [done|]|];
    apply digits_unreserved, FormatUintBytes_spec; wordlia.
Qed.
