(* ===== verification/JsonUtils.v ===== *)
(** * JSON documents and their extraction

    Models [pkg/jsonutils/extractor.go]: values as [json.Unmarshal] decodes them into an
    [any], paths in dot notation, and the records of a response. *)
From S2P Require Import Prelude GoStr Float64 Wire Schema Intern RecordModel Config.

(** [nil], [bool], [float64], [string], [[]any] and [map[string]any]. *)
Inductive json :=
  | JNull
  | JBool (b : bool)
  | JNum (x : float64)
  | JStr (s : string)
  | JArr (l : list json)
  | JObj (m : gmap string json).
Class GoUnmarshal := Unmarshal : list byte -> json + error.

Definition dot : byte := ".".
(** [strings.Split] at a byte. *)
Fixpoint splitBytes (sep : byte) (l : list byte) : list (list byte) :=
  match l with
  | [] => [[]]
  | c :: l' =>
      if bool_decide (c = sep) then [] :: splitBytes sep l'
      else match splitBytes sep l' with
           | [] => [[c]]
           | s :: ss => (c :: s) :: ss
           end
  end.
Definition splitDot (s : string) : list string := map str (splitBytes dot (bytes s)).

Fixpoint GetNestedValue (current : json) (parts : list string) : json + error :=
  match parts with
  | [] => inl current
  | head :: tail =>
      match current with
      | JNull => inl JNull
      | JObj m =>
          match m !! head with
          | None => inl JNull
          | Some child => GetNestedValue child tail
          end
      | JArr _ => inr (Errorf ("cannot index slice with key " +:+ head) [])
      | _ => inr (Errorf ("value at " +:+ head +:+ " is neither map nor slice") [])
      end
  end.
Definition ExtractPath `{GoUnmarshal} (body : list byte) (dotPath : string) : json + error :=
  if (TrimSpace dotPath =s "") || (dotPath =s "$") then Unmarshal body
  else match Unmarshal body with
  | inr e => inr (Errorf ("failed to parse json body: " +:+ Error e) [e])
  | inl root => GetNestedValue root (splitDot dotPath)
  end.

(** [fmt.Sprintf("%v", v)]: the keys of a map are sorted. *)
Definition keyLe (a b : string * string) : Prop := strLe a.1 b.1.
#[export] Instance keyLe_dec : RelDecision keyLe.
Proof. intros a b. unfold keyLe. apply _. Defined.
Fixpoint sprintJSON `{GoFormatV} (v : json) : string :=
  match v with
  | JNull => "<nil>"
  | JBool b => FormatBool b
  | JNum x => formatV x
  | JStr s => s
  | JArr l => "[" +:+ joinWith " " (map sprintJSON l) +:+ "]"
  | JObj m =>
      let entries := map_fold (fun k v acc => (k, sprintJSON v) :: acc) [] m in
      "map[" +:+ joinWith " " (map (fun kv => kv.1 +:+ ":" +:+ kv.2) (merge_sort keyLe entries)) +:+ "]"
  end.

(** Where the value of a field is looked up, and the value: nil when the path leads
    nowhere. *)
Definition lookupPath (fieldMapping : gmap string string) (field : Field) : string :=
  match fieldMapping !! Name field with
  | Some p => if p =s "" then Name field else p
  | None => Name field
  end.
Definition lookupValue (item : gmap string json) (path : string) : json :=
  if Contains path "." then
    match GetNestedValue (JObj item) (splitDot path) with inl v => v | inr _ => JNull end
  else default JNull (item !! path).

Fixpoint fillFields `{GoFormatV} (fieldMapping : gmap string string) (item : gmap string json) (i : Z)
    (fs : list Field) (rec : GenericRecord) (p : Pool) : result (GenericRecord * Pool) :=
  match fs with
  | [] => Ok (rec, p)
  | f :: fs' =>
      '(rec, p) ←
        match lookupValue item (lookupPath fieldMapping f) with
        | JNull => (fun r => (r, p)) <$> SetNull rec i (FType f)
        | v => let '(r, p) := SetString p rec i (sprintJSON v) in (fun x => (x, p)) <$> r
        end;
      fillFields fieldMapping item (i + 1) fs' rec p
  end.
Fixpoint extractItems `{GoFormatV} (items : list json) (fieldMapping : gmap string string)
    (schema : Schema) (sourceID : string) (p : Pool) : result (list GenericRecord * Pool) :=
  match items with
  | [] => Ok ([], p)
  | JObj item :: items' =>
      '(rec, p) ← fillFields fieldMapping item 0 (Fields schema)
                    (NewGenericRecord sourceID (length (Fields schema))) p;
      '(recs, p) ← extractItems items' fieldMapping schema sourceID p;
      Ok (rec :: recs, p)
  | _ :: items' => extractItems items' fieldMapping schema sourceID p
  end.
Definition ExtractRecords `{GoUnmarshal, GoFormatV} (body : list byte) (recordsPath : string)
    (fieldMapping : gmap string string) (schema : Schema) (sourceID : string) (p : Pool)
    : result (list GenericRecord * Pool) :=
  match ExtractPath body recordsPath with
  | inr e => Err (Errorf ("error navigating records_path '" +:+ recordsPath +:+ "': " +:+ Error e) [e])
  | inl JNull => Ok ([], p)
  | inl (JArr items) => extractItems items fieldMapping schema sourceID p
  | inl _ => Err (Errorf ("records_path '" +:+ recordsPath +:+ "' did not resolve to a JSON array") [])
  end.

(** ** Lemmas *)

(** The record of an object, and the records of an array: what is not an object is
    skipped. *)
Definition cellOfJSON `{GoFormatV} (v : json) (f : Field) : FieldValue :=
  match v with JNull => nullValue (FType f) | _ => stringValue (sprintJSON v) end.
Definition recordOfJSON `{GoFormatV} (fieldMapping : gmap string string) (schema : Schema) (sourceID : string)
    (item : gmap string json) : GenericRecord :=
  mkGenericRecord sourceID
    (map (fun f => cellOfJSON (lookupValue item (lookupPath fieldMapping f)) f) (Fields schema)) ∅.
Definition recordsOfJSON `{GoFormatV} (fieldMapping : gmap string string) (schema : Schema) (sourceID : string)
    (items : list json) : list GenericRecord :=
  omap (fun v => match v with JObj m => Some (recordOfJSON fieldMapping schema sourceID m) | _ => None end) items.

Lemma fillFields_spec `{GoFormatV} fm item sid aud fs : forall pre p, PoolOk p ->
  exists p', PoolOk p' /\
  fillFields fm item (zlen pre) fs (mkGenericRecord sid (pre ++ replicate (length fs) zeroFieldValue) aud) p
  = Ok (mkGenericRecord sid (pre ++ map (fun f => cellOfJSON (lookupValue item (lookupPath fm f)) f) fs) aud, p').
Proof.
  induction fs as [|f fs IH]; intros pre p Hp; cbn [fillFields length replicate map]; [by exists p|].
  assert (forall v p1, PoolOk p1 -> exists p', PoolOk p' /\
    fillFields fm item (zlen pre + 1) fs (mkGenericRecord sid (pre ++ v :: replicate (length fs) zeroFieldValue) aud) p1
    = Ok (mkGenericRecord sid (pre ++ v :: map (fun f => cellOfJSON (lookupValue item (lookupPath fm f)) f) fs) aud, p')) as K.
  { intros v p1 Hp1. destruct (IH (pre ++ [v]) p1 Hp1) as (p' & Hp' & E). exists p'. split; [done|].
    rewrite zlen_app in E. change (zlen [v]) with 1 in E. by rewrite <- !app_assoc in E. }
  unfold cellOfJSON at 1. unfold SetNull, SetString.
  destruct (lookupValue item (lookupPath fm f)) as [|b|x|s|l|m] eqn:Ev.
  1: rewrite setValue_next; by apply K.
  all: match goal with |- context [intern_String ?q ?t] => destruct (intern_String_ok q t Hp) as (p1 & -> & Hp1) end;
    rewrite setValue_next; by apply K.
Qed.

Lemma extractItems_spec `{GoFormatV} fm schema sid items : forall p, PoolOk p ->
  exists p', PoolOk p' /\ extractItems items fm schema sid p = Ok (recordsOfJSON fm schema sid items, p').
Proof.
  induction items as [|v items IH]; intros p Hp; [by exists p|]. cbn [extractItems].
  destruct v; try by apply IH.
  destruct (fillFields_spec fm m sid ∅ (Fields schema) [] p Hp) as (p1 & Hp1 & E). change (zlen []) with 0 in E.
  simpl app in E. unfold NewGenericRecord. rewrite E. destruct (IH p1 Hp1) as (p2 & Hp2 & E2).
  exists p2. split; [done|]. cbn. by rewrite E2.
Qed.

Lemma ExtractRecords_array `{GoUnmarshal, GoFormatV} body path fm schema sid p items : PoolOk p ->
  ExtractPath body path = inl (JArr items) ->
  exists p', PoolOk p' /\ ExtractRecords body path fm schema sid p = Ok (recordsOfJSON fm schema sid items, p').
Proof. intros Hp E. unfold ExtractRecords. rewrite E. by apply extractItems_spec. Qed.

Lemma recordsOfJSON_app `{GoFormatV} fm schema sid l k :
  recordsOfJSON fm schema sid (l ++ k) = recordsOfJSON fm schema sid l ++ recordsOfJSON fm schema sid k.
Proof. unfold recordsOfJSON. by rewrite omap_app. Qed.

(** Arrays are not indexed, whatever the path. *)
Lemma array_not_indexed l i rest : exists e, GetNestedValue (JArr l) (i :: rest) = inr e.
Proof. by eexists. Qed.

Example split_path : splitDot "data.items" = ["data"; "items"].
Proof. reflexivity. Qed.
Example print_nested : let fmtV : GoFormatV := fun _ => "1" in
  sprintJSON (JObj (<["b" := JArr [JNull; JStr "x"]]> (<["a" := JNum (of_int 1)]> ∅))) = "map[a:1 b:[<nil> x]]".
Proof. vm_compute. reflexivity. Qed.
