(* ===== verification/HttpClient.v ===== *)
(** * The HTTP client of the REST adapters

    Models [internal/adapters/paged_api/source/token_bucket.go] and [client.go]: the
    rate limiter, the preparation of requests, and [Do] with its circuit breaker,
    retries and waits. The network, the clock and the context are the operations of a
    state [W] ([HTTPWorld]). *)
From S2P Require Import Prelude GoStr Float64 FloatOrder Schema Wire UrlQuery Watermark Config Resilience.
From Stdlib Require Import SpecFloat.

Definition DefaultUserAgent : string := "OmniBeam/1.0".
Definition DefaultAcceptHeader : string := "application/json".

(** ** Requests and responses

    [U] stands for what a [url.URL] holds besides its query. *)
Record Request (U : Type) := mkRequest {
  rq_Method : string; rq_url : U; rq_query : string; rq_header : Header;
  rq_body : list byte; rq_length : Z }.
Arguments mkRequest {U} _ _ _ _ _ _.
Arguments rq_Method {U} _.
Arguments rq_url {U} _.
Arguments rq_query {U} _.
Arguments rq_header {U} _.
Arguments rq_body {U} _.
Arguments rq_length {U} _.
Definition withHeader {U} (h : Header) (q : Request U) : Request U :=
  mkRequest (rq_Method q) (rq_url q) (rq_query q) h (rq_body q) (rq_length q).
Definition withQuery {U} (s : string) (q : Request U) : Request U :=
  mkRequest (rq_Method q) (rq_url q) s (rq_header q) (rq_body q) (rq_length q).
Definition withBody {U} (b : list byte) (q : Request U) : Request U :=
  mkRequest (rq_Method q) (rq_url q) (rq_query q) (rq_header q) b (rq_length q).

(** [io.ReadAll] of the body gives the bytes and perhaps an error. *)
Record Response := mkResponse {
  StatusCode : Z; Status : string; rs_header : Header; rs_body : list byte * option error }.

(** [url.Parse] and [URL.String]. *)
Class GoURL (U : Type) := { urlParse : string -> (U * string) + error; urlString : U -> string -> string }.

(** [http.NewRequestWithContext]. *)
Definition NewRequest {U} `{GoURL U, GoQuote} (method url : string) (body : list byte) : Request U + error :=
  let method := if method =s "" then "GET" else method in
  if negb (forallb tokenByte (bytes method)) then inr (Errorf ("net/http: invalid method " +:+ Quote method) [])
  else match urlParse url with
  | inr e => inr e
  | inl (u, q) => inl (mkRequest method u q ∅ body (zlen body))
  end.

(** The clock, the context ([ctx.Err]), the [select] between the end of the context
    and a timer, and [http.Client.Do], which tells what of the body is left unread. *)
Class HTTPWorld (W U : Type) := {
  now : W -> Z;
  ctxErr : W -> option error;
  waitFor : Z -> W -> option error * W;
  roundTrip : Request U -> W -> (Response + error) * list byte * W }.
(** A timer fires no sooner than asked, and setting one takes time; the clock does
    not run backwards. *)
Class HTTPWorldLaws (W U : Type) `{HTTPWorld W U} : Prop := {
  waitFor_mono d w : now w <= now (snd (waitFor d w));
  waitFor_clock d w w' : waitFor d w = (None, w') -> now w + Z.max 1 d <= now w';
  roundTrip_clock q w : now w <= now (snd (roundTrip q w)) }.

(** ** [TokenBucket] *)
Record TokenBucket := mkBucket { rate : float64; capacity : float64; tokens : float64; lastRefill : Z }.
Definition fone : float64 := of_int 1.
Definition NewTokenBucket (t : Z) (rps : float64) : option TokenBucket :=
  if fle rps (of_int 0) then None else Some (mkBucket rps fone fone t).

(** [d.Seconds()]. *)
Definition durationSeconds (d : Z) : float64 :=
  fadd (of_int (Z.quot d Second)) (fdiv (of_int (Z.rem d Second)) (of_int Second)).

(** The refill at [t], and the wait for the missing part of a token. *)
Definition refill (t : Z) (tb : TokenBucket) : TokenBucket :=
  let elapsed := durationSeconds (timeSub t (lastRefill tb)) in
  let n := fadd (tokens tb) (fmul elapsed (rate tb)) in
  mkBucket (rate tb) (capacity tb) (if flt (capacity tb) n then capacity tb else n) t.
Definition missingTime `{FloatCvt} (tb : TokenBucket) : Z :=
  int64_trunc (fmul (fdiv (fsub fone (tokens tb)) (rate tb)) (of_int Second)).
Definition take1 (tb : TokenBucket) : TokenBucket :=
  mkBucket (rate tb) (capacity tb) (fsub (tokens tb) fone) (lastRefill tb).

(** The loop of [Wait], for at most [fuel] turns; [None]: it has not returned. *)
Fixpoint waitLoop {W U} `{HTTPWorld W U, FloatCvt} (fuel : nat) (tb : TokenBucket) (w : W)
    : option (option error * TokenBucket * W) :=
  match fuel with
  | O => None
  | S n =>
      let tb := refill (now w) tb in
      if fle fone (tokens tb) then Some (None, take1 tb, w)
      else match waitFor (missingTime tb) w with
      | (Some e, w) => Some (Some e, tb, w)
      | (None, w) => waitLoop n tb w
      end
  end.
Definition Wait {W U} `{HTTPWorld W U, FloatCvt} (fuel : nat) (tb : option TokenBucket) (w : W)
    : option (option error * option TokenBucket * W) :=
  match tb with
  | None => Some (None, None, w)
  | Some b =>
      match ctxErr w with
      | Some e => Some (Some e, tb, w)
      | None => (fun '(e, b, w) => (e, Some b, w)) <$> waitLoop fuel b w
      end
  end.

(** ** [HTTPClient] *)
Record HTTPClient := mkClient {
  cl_cfg : APISourceConfig; cl_timeout : Z; cl_limiter : option TokenBucket;
  cl_secrets : gmap string string; cl_cb : option CircuitBreaker }.
Definition cl_with (c : HTTPClient) (l : option TokenBucket) (cb : option CircuitBreaker) : HTTPClient :=
  mkClient (cl_cfg c) (cl_timeout c) l (cl_secrets c) cb.

Definition NewHTTPClient `{GoQuote, GoDuration} (t : Z) (cfg : APISourceConfig) (secrets : gmap string string)
    : HTTPClient :=
  let cfg := APISource_ApplyDefaults cfg in
  let r := APIRetry cfg in
  let cb := match NewCircuitBreaker t (mkSettings "http-client-cb" (u32 (CircuitBreakerFails r))
                    (i64 (CircuitBreakerTimeoutMs r * Millisecond)) 0) with
            | Ok cb => Some cb
            | _ => None
            end in
  mkClient cfg (i64 (TimeoutMs r * Millisecond)) (NewTokenBucket t (RateLimitRPS r)) secrets cb.

Definition isTransientStatus (code : Z) : bool := (code =? 429) || ((500 <=? code) && (code <=? 599)).
Definition parseRetryAfter `{GoQuote} (header : string) : Z :=
  match ParseInt10 "Atoi" header with
  | Ok s => if 0 <? s then i64 (s * Second) else 0
  | _ => 0
  end.

Definition resolveSecret (c : HTTPClient) (ref : string) : string :=
  if ref =s "" then "" else default ref (cl_secrets c !! ref).

(** [base64.StdEncoding]. *)
Definition b64digit (n : Z) : byte :=
  byte_of (if n <? 26 then 65 + n else if n <? 52 then 71 + n else if n <? 62 then n - 4
           else if n =? 62 then 43 else 47).
Definition pad64 : byte := "="%char.
Fixpoint base64 (l : list byte) : list byte :=
  match l with
  | a :: b :: c :: l' =>
      let n := byte_val a * 65536 + byte_val b * 256 + byte_val c in
      b64digit (n / 262144) :: b64digit (n / 4096 mod 64) :: b64digit (n / 64 mod 64) :: b64digit (n mod 64) :: base64 l'
  | [a; b] =>
      let n := byte_val a * 1024 + byte_val b * 4 in
      [b64digit (n / 4096); b64digit (n / 64 mod 64); b64digit (n mod 64); pad64]
  | [a] => [b64digit (byte_val a / 4); b64digit (byte_val a mod 4 * 16); pad64; pad64]
  | [] => []
  end.

Definition AuthBearer : string := "bearer_token".
Definition AuthAPIKey : string := "api_key".
Definition AuthBasic : string := "basic_auth".

Section Client.
Context {W U : Type} `{HTTPWorld W U, FloatCvt, GoPow, CryptoRand, GoQuote, MapOrder}.

Definition injectAuth (c : HTTPClient) (q : Request U) : Request U :=
  match Auth (cl_cfg c) with
  | None => q
  | Some a =>
      if AuthType a =s AuthBearer then
        let token := resolveSecret c (TokenRef a) in
        if token =s "" then q else withHeader (Header_Set "Authorization" ("Bearer " +:+ token) (rq_header q)) q
      else if AuthType a =s AuthAPIKey then
        let keyVal := resolveSecret c (TokenRef a) in
        if negb (APIKeyHeader a =s "") then withHeader (Header_Set (APIKeyHeader a) keyVal (rq_header q)) q
        else if negb (APIKeyQuery a =s "") then
          withQuery (Encode (Values_Set (APIKeyQuery a) keyVal (ParseQuery (rq_query q)))) q
        else q
      else if AuthType a =s AuthBasic then
        let user := resolveSecret c (UsernameRef a) in
        let pass := resolveSecret c (AuthPasswordRef a) in
        withHeader (Header_Set "Authorization" ("Basic " +:+ str (base64 (bytes (user +:+ ":" +:+ pass)))) (rq_header q)) q
      else q
  end.

(** [carrier]: what the tracing library puts in the carrier map. *)
Definition setIfEmpty (k v : string) (h : Header) : Header :=
  if Header_Get h k =s "" then Header_Set k v h else h.
Definition prepareRequest (carrier : gmap string string) (c : HTTPClient) (q : Request U) : Request U :=
  let h := foldl (fun h kv => setIfEmpty kv.1 kv.2 h) (rq_header q) (map_range carrier) in
  let h := setIfEmpty "User-Agent" DefaultUserAgent h in
  let h := setIfEmpty "Accept" DefaultAcceptHeader h in
  let h := foldl (fun h kv => Header_Set kv.1 kv.2 h) h (map_range (Headers (cl_cfg c))) in
  injectAuth c (withHeader h q).

Definition buildBackoffConfig (c : HTTPClient) : BackoffConfig :=
  let r := APIRetry (cl_cfg c) in
  mkBackoff (i64 (InitialBackoffMs r * Millisecond)) (i64 (MaxBackoffMs r * Millisecond))
    (BackoffMultiplier r) (Config.MaxRetries r).

(** One call of the network. *)
Record attempt := mkAttempt {
  at_resp : option Response; at_err : option error; at_req : Request U; at_sent : list (Request U);
  at_client : HTTPClient; at_world : W }.
Definition execFn (q : Request U) (w : W) : option Response * option error * Request U * W :=
  let '(r, rest, w) := roundTrip q w in
  let q := withBody rest q in
  match r with
  | inr e => (None, Some e, q, w)
  | inl resp =>
      (Some resp,
       if isTransientStatus (StatusCode resp)
       then Some (Errorf ("transient http status: " +:+ FormatInt (StatusCode resp)) [])
       else None, q, w)
  end.
(** [sendWithCircuitBreaker]. In [return resp, execFn()] the language leaves open
    whether [resp] is read before or after the call; [readFirst] says which. *)
Definition sendWithCircuitBreaker (readFirst : bool) (q : Request U) (c : HTTPClient) (w : W) : attempt :=
  match cl_cb c with
  | Some cb =>
      let '(admitted, cb) := Execute_enter (now w) cb in
      if admitted then
        let '(resp, e, q', w) := execFn q w in
        mkAttempt resp e q' [q] (cl_with c (cl_limiter c) (Some (Execute_leave (now w) e cb))) w
      else mkAttempt None (Some ErrCircuitOpen) q [] (cl_with c (cl_limiter c) (Some cb)) w
  | None =>
      let '(resp, e, q', w) := execFn q w in
      mkAttempt (if readFirst then None else resp) e q' [q] c w
  end.

Definition calculateSleep (n : Z) (resp : option Response) (cfg : BackoffConfig) : result Z :=
  let delay := match resp with
               | Some r => parseRetryAfter (Header_Get (rs_header r) "Retry-After")
               | None => 0
               end in
  if 0 <? delay then Ok delay else FullJitter n cfg.

Definition errorText (e : option error) : string := match e with Some e => Error e | None => "%!w(<nil>)" end.
Definition giveUp (c : HTTPClient) (lastErr : option error) : error :=
  Errorf ("request failed after " +:+ FormatInt (Config.MaxRetries (APIRetry (cl_cfg c))) +:+ " retries: "
          +:+ errorText lastErr) (option_list lastErr).

(** The response an attempt returns to the caller of [Do]. *)
Definition accepted (a : attempt) : option Response :=
  match at_err a, at_resp a with
  | None, Some r => if isTransientStatus (StatusCode r) then None else Some r
  | _, _ => None
  end.

(** The loop of [Do] from attempt [k], with [n] attempts after it; beside the result,
    the requests put on the network. *)
Fixpoint doLoop (readFirst : bool) (fuel n : nat) (k : Z) (q : Request U) (c : HTTPClient) (w : W)
    : option (result Response * list (Request U) * HTTPClient * W) :=
  match Wait fuel (cl_limiter c) w with
  | None => None
  | Some (Some e, l, w) =>
      Some (Err (Errorf ("rate limiter wait cancelled: " +:+ Error e) [e]), [], cl_with c l (cl_cb c), w)
  | Some (None, l, w) =>
      let a := sendWithCircuitBreaker readFirst q (cl_with c l (cl_cb c)) w in
      match accepted a with
      | Some r => Some (Ok r, at_sent a, at_client a, at_world a)
      | None =>
          match n with
          | O => Some (Err (giveUp (at_client a) (at_err a)), at_sent a, at_client a, at_world a)
          | S n' =>
              match calculateSleep k (at_resp a) (buildBackoffConfig (at_client a)) with
              | Panic m => Some (Panic m, at_sent a, at_client a, at_world a)
              | Err e => Some (Err e, at_sent a, at_client a, at_world a)
              | Ok d =>
                  match waitFor d (at_world a) with
                  | (Some e, w) => Some (Err e, at_sent a, at_client a, w)
                  | (None, w) =>
                      (fun '(r, sent, c, w) => (r, at_sent a ++ sent, c, w))
                        <$> doLoop readFirst fuel n' (k + 1) (at_req a) (at_client a) w
                  end
              end
          end
      end
  end.

Definition Do (readFirst : bool) (carrier : gmap string string) (fuel : nat) (q : Request U) (c : HTTPClient) (w : W)
    : option (result Response * list (Request U) * HTTPClient * W) :=
  let '(st, cb) := match cl_cb c with
                   | Some cb => let '(st, cb) := readState (now w) cb in (Some st, Some cb)
                   | None => (None, None)
                   end in
  let c := cl_with c (cl_limiter c) cb in
  if bool_decide (st = Some StateOpen) then Some (Err ErrCircuitOpen, [], c, w)
  else
    let q := prepareRequest carrier c q in
    let retries := Config.MaxRetries (APIRetry (cl_cfg c)) in
    if retries <? 0 then Some (Err (giveUp c None), [], c, w)
    else doLoop readFirst fuel (Z.to_nat retries) 0 q c w.
End Client.

(** ** Lemmas: the rate limiter *)
Lemma fone_isF : isF fone (2 ^ 1074).
Proof. pose proof (of_int_isF 1 ltac:(lia)) as H. by rewrite Z.mul_1_l in H. Qed.
Lemma pow2_le a b : 0 <= a <= b -> 2 ^ a <= 2 ^ b.
Proof. intros. apply Z.pow_le_mono_r; lia. Qed.
Lemma representable_pow j : 0 <= j -> representable (2 ^ j).
Proof. intros. exists 1, j. split_and!; lia. Qed.
Lemma representable_0 : representable 0.
Proof. by exists 0, 0. Qed.

(** Elapsed times are finite, and a nanosecond is at least [2 ^ -30] seconds. *)
Lemma durationSeconds_spec d : 0 <= d <= MaxInt64 ->
  exists u, isF (durationSeconds d) u /\ (1 <= d -> 2 ^ 1044 <= u).
Proof.
  intros Hd. unfold MaxInt64 in Hd. unfold durationSeconds.
  rewrite Z.quot_div_nonneg, Z.rem_mod_nonneg by (unfold Second; lia).
  set (s := d / Second). set (r := d mod Second).
  assert (0 <= s < 2 ^ 53 /\ 0 <= r < Second /\ d = Second * s + r) as (Hs & Hr & Ed).
  { unfold s, r, Second in *. Z.to_euclidean_division_equations; lia. }
  pose proof (of_int_isF s Hs) as Fs. assert (r < 2 ^ 53) as Hr53 by (unfold Second in Hr; lia).
  pose proof (of_int_isF r ltac:(lia)) as Fr.
  pose proof (of_int_isF Second ltac:(unfold Second; lia)) as FS.
  set (U := 2 ^ 1074) in *. assert (2 ^ 54 <= U) as HU by (apply pow2_le; lia).
  assert (exists v, isF (fdiv (of_int r) (of_int Second)) v /\ v <= U /\ (1 <= r -> 2 ^ 1044 <= v)) as (v & Fv & Hv & Hv1).
  { destruct (Z.eq_dec r 0) as [->|Hr0].
    - exists 0. split_and!; [|lia|lia]. vm_compute. split_and!; done.
    - assert (U = 2 ^ 30 * 2 ^ 1044) as EU by (unfold U; rewrite <- Z.pow_add_r by lia; done).
      destruct (fdiv_spec _ _ _ _ Fr FS) as (Hval & Hge & Hle); [unfold Second; lia|fold U; unfold Second; nia|].
      fold U in Hge, Hle.
      destruct (leUnits_isF (fdiv (of_int r) (of_int Second)) (2 ^ 1044) U Hval) as (v & Fv & ?).
      + apply Hge; [apply representable_pow; lia|].
        replace (2 ^ 1044 * (Second * U)) with (Second * (2 ^ 1044 * U)) by lia.
        replace (r * U * U) with (r * 2 ^ 30 * (2 ^ 1044 * U)) by (rewrite EU at 2; lia).
        apply Z.mul_le_mono_nonneg_r; [apply Z.mul_nonneg_nonneg; [apply Z.pow_nonneg|]; lia|unfold Second; lia].
      + apply Hle; [apply representable_pow; lia|unfold U; apply Z.pow_lt_mono_r; lia|].
        rewrite (Z.mul_comm (r * U)). apply Z.mul_le_mono_nonneg_l; [lia|]. apply Z.mul_le_mono_nonneg_r; lia.
      + apply Z.pow_nonneg. lia.
      + exists v. split_and!; [done|lia|lia]. }
  destruct (fadd_spec _ _ _ _ Fs Fv) as (Hval & Hge & Hle).
  assert (s * U + v <= 2 ^ 1200) as Hbig.
  { transitivity (2 ^ 53 * U); [|unfold U; rewrite <- Z.pow_add_r by lia; apply pow2_le; lia].
    destruct Fv as (_ & _ & ?). assert ((s + 1) * U <= 2 ^ 53 * U); [|lia].
    apply Z.mul_le_mono_nonneg_r; [lia|]. unfold s, Second in *. Z.to_euclidean_division_equations; lia. }
  destruct (leUnits_isF (fadd (of_int s) (fdiv (of_int r) (of_int Second)))
              (if 1 <=? d then 2 ^ 1044 else 0) (2 ^ 1200) Hval) as (u & Fu & Hu).
  - destruct Fv as (_ & _ & Hv0). destruct (Z.leb_spec 1 d).
    + apply Hge; [apply representable_pow; lia|]. destruct (Z.eq_dec r 0) as [Er|].
      * assert (2 ^ 1044 <= U) by (apply pow2_le; lia). unfold Second in Ed. nia.
      * specialize (Hv1 ltac:(lia)). nia.
    + apply Hge; [apply representable_0|]. nia.
  - apply Hle; [apply representable_pow; lia|apply Z.pow_lt_mono_r; lia|done].
  - destruct (1 <=? d); [apply Z.pow_nonneg; lia|lia].
  - exists u. split; [done|]. intros Hd1. destruct (Z.leb_spec 1 d); lia.
Qed.

(** A bucket as the limiter keeps it: a finite positive rate, a capacity of one token
    and at most that many tokens. *)
Definition bucketTokens (tb : TokenBucket) (u : Z) : Prop := isF (tokens tb) u /\ u <= 2 ^ 1074.
Definition bucket_ok (tb : TokenBucket) : Prop :=
  capacity tb = fone /\ (exists u, bucketTokens tb u) /\ exists ur, isF (rate tb) ur /\ 0 < ur.

Lemma NewTokenBucket_ok t rps tb u : NewTokenBucket t rps = Some tb -> isF rps u -> bucket_ok tb.
Proof.
  unfold NewTokenBucket. destruct (fle rps (of_int 0)) eqn:E; [done|]. intros [= <-] Hu.
  rewrite (fle_units _ _ u 0) in E by (done || by split). apply Z.leb_gt in E.
  split; [done|]. split; [exists (2 ^ 1074); split; [apply fone_isF|done]|by exists u].
Qed.

(** A refill keeps the bucket well formed, never loses tokens, and after at least a
    nanosecond adds [2 ^ -50] tokens or fills it, when the rate is at least [2 ^ -20]. *)
Lemma refill_spec t tb x : bucket_ok tb -> lastRefill tb <= t -> 0 <= x -> representable x ->
  (exists u, bucketTokens tb u /\ x <= u) ->
  let tb' := refill t tb in
  bucket_ok tb' /\ rate tb' = rate tb /\ lastRefill tb' = t
  /\ (exists u, bucketTokens tb' u /\ Z.min x (2 ^ 1074) <= u)
  /\ (forall ur, isF (rate tb) ur -> 2 ^ 1054 <= ur -> lastRefill tb < t -> representable (x + 2 ^ 1024) ->
      exists u, bucketTokens tb' u /\ Z.min (x + 2 ^ 1024) (2 ^ 1074) <= u).
Proof.
  intros (Hcap & _ & (ur & Hrate & Hur)) Ht Hx0 Hxr (ut & [Htk Htk1] & Hxt). cbv zeta.
  assert (0 <= timeSub t (lastRefill tb) <= MaxInt64 /\ (lastRefill tb < t -> 1 <= timeSub t (lastRefill tb))) as [Hd Hd1].
  { unfold timeSub, MaxInt64. repeat case_match; lia. }
  destruct (durationSeconds_spec _ Hd) as (ue & He & He1). set (el := durationSeconds (timeSub t (lastRefill tb))) in *.
  destruct (fmul_spec el (rate tb) ue ur He Hrate) as [Hmv Hmg].
  set (p := fmul el (rate tb)) in *.
  (* what the refill adds, at least [a] *)
  assert (forall a, representable a -> 0 <= a -> a * 2 ^ 1074 <= ue * ur -> representable (x + a) ->
    exists u, bucketTokens (refill t tb) u /\ Z.min (x + a) (2 ^ 1074) <= u) as Hadd.
  { intros a Ha Ha0 Hle Hxa. unfold bucketTokens, refill. fold el. fold p. cbn [tokens]. rewrite Hcap.
    pose proof (Z.pow_pos_nonneg 2 1074 ltac:(lia) ltac:(lia)) as HU.
    destruct (geUnits_inv p a Hmv (Hmg a Ha Hle) Ha0) as [Ep|(up & Hp & Hap)].
    - assert (fadd (tokens tb) p = S754_infinity false) as ->.
      { rewrite Ep. apply isF_inv in Htk as [(sg & -> & _)|(m & e & -> & _)]; [by destruct sg|done]. }
      change (flt fone (S754_infinity false)) with true. exists (2 ^ 1074). pose proof fone_isF. split_and!; [done|lia|lia].
    - destruct (fadd_spec _ _ _ _ Htk Hp) as (Hav & Hag & _).
      destruct (geUnits_inv _ (x + a) Hav (Hag _ Hxa ltac:(lia)) ltac:(lia)) as [->|(ua & Hua & Hxua)].
      + change (flt fone (S754_infinity false)) with true. exists (2 ^ 1074). pose proof fone_isF. split_and!; [done|lia|lia].
      + rewrite (flt_units _ _ _ _ fone_isF Hua). destruct (Z.ltb_spec (2 ^ 1074) ua).
        * exists (2 ^ 1074). pose proof fone_isF. split_and!; [done|lia|lia].
        * exists ua. split_and!; [done|lia|lia]. }
  assert (exists u, bucketTokens (refill t tb) u /\ Z.min x (2 ^ 1074) <= u) as (u0 & Hu0 & Hxu0).
  { destruct (Hadd 0 representable_0 ltac:(lia)) as (u & Hu & ?).
    - destruct He as (_ & _ & ?), Hrate as (_ & _ & ?). nia.
    - by rewrite Z.add_0_r.
    - exists u. split; [done|]. lia. }
  split; [split; [done|]; split; [by exists u0|by exists ur]|].
  split; [done|]. split; [done|]. split; [by exists u0|].
  { intros ur' Hr' Hur' Hlt Hxa.
    assert (ur' = ur) as -> by (destruct Hr' as (_ & E1 & _), Hrate as (_ & E2 & _); congruence).
    apply Hadd; [apply representable_pow; lia|apply Z.pow_nonneg; lia| |done].
    specialize (He1 (Hd1 Hlt)).
    transitivity (2 ^ 1044 * 2 ^ 1054); [rewrite <- !Z.pow_add_r by lia; apply pow2_le; lia|].
    apply Z.mul_le_mono_nonneg; try done; apply Z.pow_nonneg; lia. }
Qed.

(** A grant finds exactly one token and leaves none. *)
Lemma grant_spec tb : bucket_ok tb -> fle fone (tokens tb) = true ->
  bucket_ok (take1 tb) /\ tokens (take1 tb) = S754_zero false.
Proof.
  intros (Hcap & (u & Hu & Hle) & Hr) Hg. rewrite (fle_units _ _ _ _ fone_isF Hu) in Hg. apply Z.leb_le in Hg.
  assert (tokens tb = fone) as Et.
  { apply (isF_unique _ _ (2 ^ 1074)); [|apply fone_isF|apply Z.pow_pos_nonneg; lia].
    assert (u = 2 ^ 1074) as <- by lia. done. }
  assert (tokens (take1 tb) = S754_zero false) as Ez by (unfold take1; cbn [tokens]; rewrite Et; vm_compute; done).
  split; [|done]. split; [done|]. split; [|done]. exists 0. unfold bucketTokens. rewrite Ez.
  split; [by split|apply Z.pow_nonneg; lia].
Qed.

Section Waiting.
Context {W U : Type} `{HTTPWorldLaws W U} `{FloatCvt}.

Lemma waitLoop_mono n m tb w r : waitLoop n tb w = Some r -> (n <= m)%nat -> waitLoop m tb w = Some r.
Proof.
  revert m tb w. induction n as [|n IH]; intros m tb w Hr Hm; [done|]. destruct m as [|m]; [lia|].
  simpl in *. destruct (fle fone _); [done|]. destruct (waitFor _ w) as [[e|] w']; [done|]. apply IH; [done|lia].
Qed.

(** What a wait leaves behind. *)
Definition waited (tb : TokenBucket) (w : W) (r : option error * TokenBucket * W) : Prop :=
  let '(e, tb', w') := r in
  bucket_ok tb' /\ rate tb' = rate tb /\ lastRefill tb' <= now w' /\ now w <= now w'
  /\ (e = None -> tokens tb' = S754_zero false).
Lemma waitLoop_waited n : forall tb w r, bucket_ok tb -> lastRefill tb <= now w ->
  waitLoop n tb w = Some r -> waited tb w r.
Proof.
  induction n as [|n IH]; intros tb w r Hok Hl Hr; [done|]. simpl in Hr.
  pose proof Hok as (_ & (u & Hu) & _).
  destruct (refill_spec (now w) tb 0 Hok Hl ltac:(lia) representable_0) as (Hok' & Er & El & _).
  { exists u. split; [done|]. destruct Hu as [(_ & _ & ?) _]. done. }
  destruct (fle fone _) eqn:Eg.
  - injection Hr as <-. destruct (grant_spec _ Hok' Eg) as [Hok2 Hz]. split_and!; try done; simpl; lia.
  - destruct (waitFor _ w) as [[e|] w'] eqn:Ew.
    + injection Hr as <-. pose proof (waitFor_mono (missingTime (refill (now w) tb)) w) as Hc. rewrite Ew in Hc. simpl in Hc. split_and!; done || lia.
    + pose proof (waitFor_clock _ _ _ Ew) as Hc.
      specialize (IH (refill (now w) tb) w' r Hok' ltac:(lia) Hr).
      destruct r as [[e tb'] w'']. unfold waited in *. rewrite Er in IH. destruct IH as (? & ? & ? & ? & ?).
      split_and!; done || lia.
Qed.

(** The loop returns: every turn adds a fixed amount or fills the bucket. *)
Lemma waitLoop_returns (j : nat) : forall tb w ur,
  Z.of_nat j <= 2 ^ 50 -> bucket_ok tb -> isF (rate tb) ur -> 2 ^ 1054 <= ur -> lastRefill tb < now w ->
  (exists u, bucketTokens tb u /\ (2 ^ 50 - Z.of_nat j) * 2 ^ 1024 <= u) ->
  exists fuel, is_Some (waitLoop fuel tb w).
Proof.
  induction j as [|j IH]; intros tb w ur Hj Hok Hrate Hur Hl (u & Hu & Hxu).
  all: set (x := (2 ^ 50 - Z.of_nat _) * 2 ^ 1024) in Hxu.
  all: assert (0 <= x) as Hx0 by (apply Z.mul_nonneg_nonneg; [lia|apply Z.pow_nonneg; lia]).
  all: assert (representable x) as Hxr by (apply representable_int; lia).
  all: destruct (refill_spec (now w) tb x Hok (Z.lt_le_incl _ _ Hl) Hx0 Hxr ltac:(by exists u)) as (Hok' & Er & El & Hsame & Hmore).
  - destruct Hsame as (u' & [Hf Hle] & Hu'). exists 1%nat. cbn [waitLoop]. cbv zeta.
    assert (x = 2 ^ 1074) as Ex by (unfold x; rewrite Z.sub_0_r, <- Z.pow_add_r by lia; done).
    rewrite (fle_units _ _ _ _ fone_isF Hf). rewrite Ex, Z.min_id in Hu'.
    rewrite (proj2 (Z.leb_le _ _) Hu'). done.
  - destruct (fle fone (tokens (refill (now w) tb))) eqn:Eg; [exists 1%nat; cbn [waitLoop]; cbv zeta; by rewrite Eg|].
    destruct (waitFor (missingTime (refill (now w) tb)) w) as [[e|] w'] eqn:Ew.
    { exists 1%nat. cbn [waitLoop]. cbv zeta. by rewrite Eg, Ew. }
    pose proof (waitFor_clock _ _ _ Ew) as Hc.
    assert (x + 2 ^ 1024 = (2 ^ 50 - Z.of_nat j) * 2 ^ 1024) as Ex by (unfold x; rewrite Nat2Z.inj_succ; lia).
    destruct (Hmore ur Hrate Hur Hl) as (u' & Hu' & Hle).
    { rewrite Ex. apply representable_int; lia. }
    destruct (IH (refill (now w) tb) w' ur ltac:(lia) Hok' Hrate Hur ltac:(lia)) as (fuel & r & Hr).
    { exists u'. split; [done|]. rewrite <- Ex.
      assert (x + 2 ^ 1024 <= 2 ^ 1074); [|lia]. rewrite Ex.
      transitivity (2 ^ 50 * 2 ^ 1024); [apply Z.mul_le_mono_nonneg_r; [apply Z.pow_nonneg|]; lia|].
      rewrite <- Z.pow_add_r by lia. apply pow2_le; lia. }
    exists (S fuel), r. cbn [waitLoop]. cbv zeta. by rewrite Eg, Ew.
Qed.
Lemma waitLoop_total tb w ur :
  bucket_ok tb -> isF (rate tb) ur -> 2 ^ 1054 <= ur -> lastRefill tb <= now w ->
  exists fuel r, waitLoop fuel tb w = Some r.
Proof.
  intros Hok Hrate Hur Hl. pose proof Hok as (_ & (u & Hu) & _).
  destruct (refill_spec (now w) tb 0 Hok Hl (Z.le_refl 0) representable_0) as (Hok' & Er & El & Hs & _).
  { exists u. split; [done|]. by destruct Hu as [(_ & _ & ?) _]. }
  destruct (fle fone (tokens (refill (now w) tb))) eqn:Eg.
  { exists 1%nat. eexists. cbn [waitLoop]. cbv zeta. by rewrite Eg. }
  destruct (waitFor (missingTime (refill (now w) tb)) w) as [[e|] w'] eqn:Ew.
  { exists 1%nat. eexists. cbn [waitLoop]. cbv zeta. by rewrite Eg, Ew. }
  pose proof (waitFor_clock _ _ _ Ew) as Hc. destruct Hs as (u' & Hu' & _).
  destruct (waitLoop_returns (Z.to_nat (2 ^ 50)) (refill (now w) tb) w' ur) as (fuel & r & Hr);
    rewrite ?Z2Nat.id, ?Z.sub_diag by lia; try done; [rewrite El; lia| |].
  { exists u'. split; [done|]. by destruct Hu' as [(_ & _ & ?) _]. }
  exists (S fuel), r. cbn [waitLoop]. cbv zeta. by rewrite Eg, Ew.
Qed.

Lemma Wait_mono n m tb w r : Wait n tb w = Some r -> (n <= m)%nat -> Wait m tb w = Some r.
Proof.
  unfold Wait. destruct tb as [b|]; [|done]. destruct (ctxErr w); [done|].
  destruct (waitLoop n b w) as [x|] eqn:E; [|done]. intros Hr Hm. by rewrite (waitLoop_mono _ m _ _ _ E Hm).
Qed.

(** A limiter with a rate of at least [2 ^ -20] requests per second, or none. *)
Definition limiter_ok (l : option TokenBucket) (w : W) : Prop :=
  match l with
  | None => True
  | Some tb => bucket_ok tb /\ lastRefill tb <= now w /\ exists ur, isF (rate tb) ur /\ 2 ^ 1054 <= ur
  end.
Lemma limiter_later l w w' : limiter_ok l w -> now w <= now w' -> limiter_ok l w'.
Proof. destruct l; [|done]. intros (? & ? & ?) ?. split_and!; try done; lia. Qed.
Lemma Wait_total l w : limiter_ok l w ->
  exists fuel e l' w', (forall m, (fuel <= m)%nat -> Wait m l w = Some (e, l', w'))
  /\ limiter_ok l' w' /\ now w <= now w'.
Proof.
  intros Hok. destruct l as [tb|]; [|by exists 0%nat, None, None, w].
  destruct Hok as (Hb & Hl & ur & Hr & Hur). unfold Wait. destruct (ctxErr w) as [e|].
  { exists 0%nat, (Some e), (Some tb), w. split; [done|]. split; [|lia]. split; [done|]. split; [done|]. by exists ur. }
  destruct (waitLoop_total tb w ur Hb Hr Hur Hl) as (fuel & [[e tb'] w'] & E).
  pose proof (waitLoop_waited fuel tb w _ Hb Hl E) as (Hb' & Hr' & Hl' & Hc & _).
  exists fuel, e, (Some tb'), w'. split; [intros m Hm; by rewrite (waitLoop_mono _ m _ _ _ E Hm)|].
  split; [|done]. split; [done|]. split; [done|]. exists ur. by rewrite Hr'.
Qed.
End Waiting.

(** ** Lemmas: [Do] *)
Section Doing.
Context {W U : Type} `{HTTPWorldLaws W U} `{FloatCvt, GoPow, CryptoRand, GoQuote, MapOrder}.

(** Requests differ only in what is left of the body. *)
Definition sameRequest (q q' : Request U) : Prop := exists b, q' = withBody b q.
Lemma sameRequest_trans q q1 q2 : sameRequest q q1 -> sameRequest q1 q2 -> sameRequest q q2.
Proof. intros [b ->] [b' ->]. by exists b'. Qed.
Lemma sameRequest_refl q : sameRequest q q.
Proof. exists (rq_body q). by destruct q. Qed.

Lemma send_spec rf q c (w : W) :
  let a := sendWithCircuitBreaker rf q c w in
  (at_sent a = [q] \/ at_sent a = []) /\ sameRequest q (at_req a)
  /\ (cl_cfg (at_client a) = cl_cfg c /\ cl_secrets (at_client a) = cl_secrets c) /\ cl_limiter (at_client a) = cl_limiter c
  /\ now w <= now (at_world a) /\ (accepted a <> None -> at_sent a = [q]).
Proof.
  unfold sendWithCircuitBreaker, execFn.
  destruct (cl_cb c) as [cb|]; [destruct (Execute_enter (now w) cb) as [[] cb']|];
    try (pose proof (roundTrip_clock q w) as Hc; destruct (roundTrip q w) as [[[r|e] rest] w']; simpl in *;
         split_and!; try done; try (by left); by exists rest).
  simpl. split_and!; try done; [by right|apply sameRequest_refl].
Qed.

(** How a call of [Do] can end. *)
Definition doError (n : Z) (cfg : APISourceConfig) (sent : list (Request U)) (e : error) : Prop :=
  (exists e', e = Errorf ("rate limiter wait cancelled: " +:+ Error e') [e'])
  \/ (exists d (w1 w2 : W), waitFor d w1 = (Some e, w2))
  \/ exists c last, e = giveUp c last /\ cl_cfg c = cfg.
Definition doSpec (n : Z) (q : Request U) (c : HTTPClient) (w : W)
    (out : result Response * list (Request U) * HTTPClient * W) : Prop :=
  let '(r, sent, c', w') := out in
  zlen sent <= n + 1 /\ Forall (sameRequest q) sent
  /\ (cl_cfg c' = cl_cfg c /\ cl_secrets c' = cl_secrets c) /\ limiter_ok (cl_limiter c') w' /\ now w <= now w'
  /\ match r with
     | Ok resp => sent <> [] /\ isTransientStatus (StatusCode resp) = false
     | Err e => doError n (cl_cfg c) sent e
     | Panic m => exists k, FullJitter k (buildBackoffConfig c) = Panic m
     end.

Lemma doLoop_total rf n : forall k q c w, limiter_ok (cl_limiter c) w ->
  exists fuel out, (forall m, (fuel <= m)%nat -> doLoop rf m n k q c w = Some out)
  /\ doSpec (Z.of_nat n) q c w out.
Proof.
  induction n as [|n IH]; intros k q c w Hl;
    destruct (Wait_total _ _ Hl) as (f0 & e & l & w1 & Hw & Hl1 & Hc1).
  all: destruct e as [e|]; [exists f0; eexists; split; [intros m Hm; cbn [doLoop]; by rewrite (Hw m Hm)|];
    split_and!; try done; left; by exists e|].
  all: set (c1 := cl_with c l (cl_cb c)); pose proof (send_spec rf q c1 w1) as Ha; cbv zeta in Ha;
    set (a := sendWithCircuitBreaker rf q c1 w1) in *; destruct Ha as (Hs & Hq & [Hcfg Hsec] & Hlim & Hc2 & Hacc).
  all: assert (limiter_ok (cl_limiter (at_client a)) (at_world a)) as Hl2
    by (rewrite Hlim; by apply (limiter_later l w1)).
  all: assert (zlen (at_sent a) <= 1 /\ Forall (sameRequest q) (at_sent a)) as [Hlen Hall]
    by (destruct Hs as [-> | ->]; split; try done; by apply Forall_singleton, sameRequest_refl).
  all: destruct (accepted a) as [r|] eqn:Er.
  1,3: exists f0; eexists; (split; [intros m Hm; cbn [doLoop]; rewrite (Hw m Hm); fold c1; fold a; cbv zeta; by rewrite Er|]);
    split_and!; [lia|done|done|done|done|lia|by rewrite Hacc|];
    unfold accepted in Er; repeat case_match; congruence.
  - exists f0. eexists. split; [intros m Hm; cbn [doLoop]; rewrite (Hw m Hm); fold c1; fold a; cbv zeta; by rewrite Er|].
    split_and!; [lia|done|done|done|done|lia|]. right. right. by exists (at_client a), (at_err a).
  - destruct (calculateSleep k (at_resp a) (buildBackoffConfig (at_client a))) as [d|e|msg] eqn:Ed.
    + destruct (waitFor d (at_world a)) as [[e|] w2] eqn:Ew.
      * exists f0. eexists. split; [intros m Hm; cbn [doLoop]; rewrite (Hw m Hm); fold c1; fold a; cbv zeta; by rewrite Er, Ed, Ew|].
        pose proof (waitFor_mono d (at_world a)) as Hc3. rewrite Ew in Hc3. simpl in Hc3.
        split_and!; [lia|done|done|done|by apply (limiter_later _ (at_world a))|lia|]. right. left. by exists d, (at_world a), w2.
      * pose proof (waitFor_clock _ _ _ Ew) as Hc3.
        destruct (IH (k + 1) (at_req a) (at_client a) w2) as (f1 & [[[r sent] c'] w'] & Hf & K1 & K2 & K3 & K4 & K5 & K6).
        { apply (limiter_later _ (at_world a)); [done|lia]. }
        exists (f0 `max` f1)%nat. eexists. split.
        { intros m Hm. cbn [doLoop]. rewrite (Hw m) by lia. fold c1. fold a. cbv zeta.
          rewrite Er, Ed, Ew, Hf by lia. reflexivity. }
        rewrite Hcfg, Hsec in *. split_and!; [rewrite zlen_app; lia| |apply K3|apply K3|done|lia|].
        -- apply Forall_app. split; [done|]. eapply Forall_impl; [exact K2|]. intros q' ?. by eapply sameRequest_trans.
        -- destruct r as [resp|e|msg]; [|done|].
           ++ destruct K6. split; [|done]. by destruct (at_sent a).
           ++ unfold buildBackoffConfig in *. by rewrite Hcfg in K6.
    + unfold calculateSleep in Ed. case_match; [done|]. by apply FullJitter_no_err in Ed.
    + exists f0. eexists. split; [intros m Hm; cbn [doLoop]; rewrite (Hw m Hm); fold c1; fold a; cbv zeta; by rewrite Er, Ed|].
      split_and!; [lia|done|done|done|done|lia|]. unfold calculateSleep in Ed. case_match; [done|].
      exists k. unfold buildBackoffConfig in *. by rewrite Hcfg in Ed.
Qed.

(** [Do] returns, with a limiter that lets requests through, and keeps the configuration. *)
Lemma Do_total rf carrier q c w : limiter_ok (cl_limiter c) w ->
  exists fuel r sent c' w', (forall m, (fuel <= m)%nat -> Do rf carrier m q c w = Some (r, sent, c', w'))
  /\ cl_cfg c' = cl_cfg c /\ cl_secrets c' = cl_secrets c /\ limiter_ok (cl_limiter c') w' /\ now w <= now w'.
Proof.
  intros Hl. unfold Do. destruct (match cl_cb c with Some cb => _ | None => _ end) as [st cb].
  destruct (bool_decide _); [by exists 0%nat; repeat eexists|].
  destruct (_ <? 0); [by exists 0%nat; repeat eexists|].
  set (c1 := cl_with c (cl_limiter c) cb).
  destruct (doLoop_total rf (Z.to_nat (Config.MaxRetries (APIRetry (cl_cfg c1)))) 0 (prepareRequest carrier c1 q) c1 w Hl)
    as (fuel & [[[r sent] c'] w'] & Hf & _ & _ & [K1 K2] & K3 & K4 & _).
  by exists fuel, r, sent, c', w'.
Qed.
End Doing.

(** ** Lemmas: an undisturbed call

    With a closed breaker, a context that is never cancelled and a server that accepts
    the request, [Do] sends it once and returns the response. *)
Section Undisturbed.
Context {W U : Type} `{HTTPWorldLaws W U} `{FloatCvt, GoPow, CryptoRand, GoQuote, MapOrder}.
Definition neverCancelled : Prop :=
  (forall w : W, ctxErr w = None) /\ (forall d (w : W), fst (waitFor d w) = None).
Definition healthy (c : HTTPClient) (w : W) : Prop :=
  limiter_ok (cl_limiter c) w /\ 0 <= Config.MaxRetries (APIRetry (cl_cfg c))
  /\ exists cb, cl_cb c = Some cb /\ state cb = StateClosed.

Lemma waitLoop_uncancelled n : neverCancelled -> forall tb (w : W) e tb' w',
  waitLoop n tb w = Some (e, tb', w') -> e = None.
Proof.
  intros [_ Hw]. induction n as [|n IH]; intros tb w e tb' w'; [discriminate|]. cbn [waitLoop]. cbv zeta.
  destruct (fle _ _); [congruence|]. specialize (Hw (missingTime (refill (now w) tb)) w).
  destruct (waitFor _ w) as [[e'|] w1]; [discriminate|]. by intros ?%IH.
Qed.
Lemma Wait_uncancelled l (w : W) : neverCancelled -> limiter_ok l w ->
  exists fuel l' w', (forall m, (fuel <= m)%nat -> Wait m l w = Some (None, l', w')) /\ limiter_ok l' w'.
Proof.
  intros Hn Hl. destruct (Wait_total l w Hl) as (fuel & e & l' & w' & Hw & Hl' & _).
  assert (e = None) as ->; [|by exists fuel, l', w'].
  specialize (Hw fuel (le_n _)). unfold Wait in Hw. destruct l as [b|]; [|congruence].
  rewrite (proj1 Hn) in Hw. destruct (waitLoop fuel b w) as [[[e1 b1] w1]|] eqn:E; [|discriminate].
  apply waitLoop_uncancelled in E; [|done]. simpl in Hw. congruence.
Qed.

Lemma send_undisturbed rf q c cb (w : W) resp rest w' : cl_cb c = Some cb -> state cb = StateClosed ->
  roundTrip q w = (inl resp, rest, w') -> isTransientStatus (StatusCode resp) = false ->
  sendWithCircuitBreaker rf q c w
  = mkAttempt (Some resp) None (withBody rest q) [q] (cl_with c (cl_limiter c) (Some cb)) w'.
Proof.
  intros Ecb Est Ert Ht. unfold sendWithCircuitBreaker, Execute_enter, checkStateTransition, execFn.
  rewrite Ecb, Est, Ert. simpl. rewrite Est, Ht. simpl. by rewrite Est.
Qed.

Lemma Do_undisturbed rf carrier q c w (P : Response -> Prop) : neverCancelled -> healthy c w ->
  (forall w1 : W, exists resp rest w2, roundTrip (prepareRequest carrier c q) w1 = (inl resp, rest, w2)
     /\ isTransientStatus (StatusCode resp) = false /\ P resp) ->
  exists fuel resp c' w', (forall m, (fuel <= m)%nat ->
      Do rf carrier m q c w = Some (Ok resp, [prepareRequest carrier c q], c', w'))
    /\ P resp /\ cl_cfg c' = cl_cfg c /\ cl_secrets c' = cl_secrets c /\ healthy c' w'.
Proof.
  intros Hn (Hl & Hr & cb & Ecb & Est) Hrt.
  destruct (Wait_uncancelled _ _ Hn Hl) as (fuel & l & w1 & Hw & Hl1).
  destruct (Hrt w1) as (resp & rest & w2 & Ert & Ht & HP).
  pose proof (roundTrip_clock (prepareRequest carrier c q) w1) as Hc. rewrite Ert in Hc. simpl in Hc.
  assert (forall t, checkStateTransition t cb = cb) as Hcb by (intros t; unfold checkStateTransition; by rewrite Est).
  exists fuel, resp, (cl_with c l (Some cb)), w2. split_and!; [|done..|].
  - intros m Hm. unfold Do. rewrite Ecb. unfold readState. rewrite Hcb, Est. rewrite bool_decide_false by done.
    cbn [cl_with cl_cfg]. rewrite (proj2 (Z.ltb_ge _ _)) by done.
    change (prepareRequest carrier (cl_with c (cl_limiter c) (Some cb)) q) with (prepareRequest carrier c q).
    pose proof (send_undisturbed rf _ (cl_with c l (Some cb)) cb w1 resp rest w2 eq_refl Est Ert Ht) as Es.
    destruct (Z.to_nat (Config.MaxRetries (APIRetry (cl_cfg c)))) as [|n];
      cbn [doLoop cl_limiter cl_cb cl_with]; rewrite Hw by done; cbv zeta;
      lazymatch goal with |- context [sendWithCircuitBreaker ?f ?q0 ?c0 ?v] =>
        change c0 with (cl_with c l (Some cb)) end;
      rewrite Es; unfold accepted; cbn [at_err at_resp]; rewrite Ht; done.
  - split; [by apply (limiter_later l w1)|]. split; [done|]. by exists cb.
Qed.

(** A new client of a configuration with such a rate is healthy. *)
Lemma NewHTTPClient_healthy `{GoDuration} (cfg : APISourceConfig) secrets (w : W) ur :
  let r := APIRetry (APISource_ApplyDefaults cfg) in
  isF (RateLimitRPS r) ur -> 2 ^ 1054 <= ur -> 0 <= Config.MaxRetries r ->
  0 <= i64 (CircuitBreakerTimeoutMs r * Millisecond) -> healthy (NewHTTPClient (now w) cfg secrets) w.
Proof.
  intros r Hr Hur Hm Ht. split; [|split; [exact Hm|]].
  - cbn [cl_limiter NewHTTPClient]. fold r. destruct (NewTokenBucket (now w) (RateLimitRPS r)) as [tb|] eqn:E; [|done].
    split; [by apply (NewTokenBucket_ok _ _ _ ur E)|]. unfold NewTokenBucket in E.
    destruct (fle _ _); [done|]. injection E as <-. split; [cbn [lastRefill]; lia|]. by exists ur.
  - unfold NewHTTPClient. cbn [cl_cb]. fold r. unfold NewCircuitBreaker. cbn [Timeout MaxFailures HalfOpenLimit].
    rewrite (proj2 (Z.ltb_ge _ _)) by done. by eexists.
Qed.
End Undisturbed.

(** ** Lemmas: what [Do] does to the world

    [answered] lists the requests the network has answered, with the responses; a
    request is answered only when its whole body could be sent, and sending takes a
    prefix of what was left of it. *)
Class NetLog (W U : Type) `{HTTPWorld W U} := {
  answered : W -> list (Request U * Response);
  answered_wait d w : answered (snd (waitFor d w)) = answered w;
  answered_trip q w : let '(r, rest, w') := roundTrip q w in
    (exists sent, rq_body q = sent ++ rest)
    /\ match r with
       | inl resp => answered w' = answered w ++ [(q, resp)] /\ zlen (rq_body q) = rq_length q
       | inr _ => answered w' = answered w
       end }.

Section Runs.
Context {W U : Type} `{HTTPWorld W U, FloatCvt, GoPow, CryptoRand, GoQuote, MapOrder, !NetLog W U}.
Context (R : W -> W -> Prop) `{!PreOrder R}.
Context (R_wait : forall d w, R w (snd (waitFor d w))) (R_trip : forall q w, R w (snd (roundTrip q w))).

Lemma waitLoop_run n : forall tb w e tb' w', waitLoop n tb w = Some (e, tb', w') -> R w w'.
Proof.
  induction n as [|n IH]; intros tb w e tb' w'; [discriminate|]. cbn [waitLoop]. cbv zeta.
  destruct (fle _ _); [by intros [= _ _ <-]|]. pose proof (R_wait (missingTime (refill (now w) tb)) w) as K.
  destruct (waitFor _ w) as [[e'|] w1]; simpl in K; [by intros [= _ _ <-]|]. intros Hr%IH. by transitivity w1.
Qed.
Lemma Wait_run n l w e l' w' : Wait n l w = Some (e, l', w') -> R w w'.
Proof.
  unfold Wait. destruct l as [tb|]; [|by intros [= _ _ <-]]. destruct (ctxErr w); [by intros [= _ _ <-]|].
  destruct (waitLoop n tb w) as [[[e1 b1] w1]|] eqn:E; [|discriminate]. intros [= _ _ <-]. by apply waitLoop_run in E.
Qed.

(** A request is what is left of [q]. *)
Definition leftOf (q q' : Request U) : Prop := exists sent, q = withBody (sent ++ rq_body q') q'.
Lemma leftOf_trans q q1 q2 : leftOf q q1 -> leftOf q1 q2 -> leftOf q q2.
Proof. intros [s ->] [s' ->]. exists (s ++ s'). simpl. by rewrite <- app_assoc. Qed.
Lemma leftOf_refl q : leftOf q q.
Proof. exists []. by destruct q. Qed.

Lemma send_run rf q c (w : W) : let a := sendWithCircuitBreaker rf q c w in
  R w (at_world a) /\ leftOf q (at_req a)
  /\ forall resp, accepted a = Some resp -> exists rest, roundTrip q w = (inl resp, rest, at_world a).
Proof.
  assert (forall x, x = execFn q w -> let '(resp, e, q', w') := x in
    R w w' /\ leftOf q q' /\ forall r, match e, resp with None, Some r => Some r | _, _ => None end = Some r ->
      exists rest, roundTrip q w = (inl r, rest, w')) as K.
  { intros x ->. unfold execFn. pose proof (R_trip q w) as Hw. pose proof (answered_trip q w) as Ha.
    destruct (roundTrip q w) as [[[r|e] rest] w']; destruct Ha as [[sent Hb] _]; (split; [done|]);
      (split; [exists sent; simpl; rewrite <- Hb; by destruct q|]); [|done].
    destruct (isTransientStatus _); [done|]. intros r' [= <-]. by exists rest. }
  unfold sendWithCircuitBreaker. destruct (cl_cb c) as [cb|]; [destruct (Execute_enter (now w) cb) as [[] cb']|].
  2: { split; [reflexivity|]. split; [apply leftOf_refl|done]. }
  all: specialize (K _ eq_refl); destruct (execFn q w) as [[[resp e] q'] w']; destruct K as (Hw & Hq & Ha);
    (split; [done|]); (split; [done|]); intros r; unfold accepted; cbn [at_err at_resp at_world];
    destruct e; try done; destruct resp as [r0|], rf; try done; destruct (isTransientStatus _); try done; apply Ha.
Qed.

Lemma doLoop_run rf fuel n : forall k q c w r sent c' w',
  doLoop rf fuel n k q c w = Some (r, sent, c', w') ->
  R w w' /\ match r with
            | Ok resp => exists w1 q' rest, R w w1 /\ leftOf q q' /\ roundTrip q' w1 = (inl resp, rest, w')
            | _ => True
            end.
Proof.
  induction n as [|n IH]; intros k q c w r sent c' w'; cbn [doLoop];
    destruct (Wait fuel (cl_limiter c) w) as [[[[e|] l] w1]|] eqn:Ew; try discriminate;
    apply Wait_run in Ew; try (by intros [= <- _ _ <-]); cbv zeta;
    pose proof (send_run rf q (cl_with c l (cl_cb c)) w1) as Ha; cbv zeta in Ha;
    set (a := sendWithCircuitBreaker rf q (cl_with c l (cl_cb c)) w1) in *; destruct Ha as (Hr & Hq & Hok);
    assert (R w (at_world a)) as Hra by (by transitivity w1).
  all: destruct (accepted a) as [resp|] eqn:Ea;
    [destruct (Hok resp eq_refl) as [rest Ert]; intros [= <- _ _ <-]; split; [done|]; exists w1, q, rest;
     split; [done|]; split; [apply leftOf_refl|done]|].
  - by intros [= <- _ _ <-].
  - destruct (calculateSleep k (at_resp a) _) as [d|e|m] eqn:Ed; try (by intros [= <- _ _ <-]).
    pose proof (R_wait d (at_world a)) as Hrw.
    destruct (waitFor d (at_world a)) as [[e|] w2]; simpl in Hrw; [intros [= <- _ _ <-]; split; [by transitivity (at_world a)|done]|].
    destruct (doLoop rf fuel n (k + 1) (at_req a) (at_client a) w2) as [[[[r1 s1] c1] w3]|] eqn:El; [|discriminate].
    intros [= <- _ _ <-]. destruct (IH _ _ _ _ _ _ _ _ El) as [Hr3 Hmatch].
    assert (R w w2) as Hr2 by (by transitivity (at_world a)).
    split; [by transitivity w2|]. destruct r1 as [resp| |]; [|done|done].
    destruct Hmatch as (w4 & q4 & rest & Hr4 & Hq4 & Ert). exists w4, q4, rest.
    split; [by transitivity w2|]. split; [by eapply leftOf_trans|done].
Qed.

Lemma Do_run rf carrier fuel q c w r sent c' w' : zlen (rq_body q) = rq_length q ->
  Do rf carrier fuel q c w = Some (r, sent, c', w') ->
  R w w' /\ match r with
            | Ok resp => exists w1 rest, R w w1 /\ roundTrip (prepareRequest carrier c q) w1 = (inl resp, rest, w')
            | _ => True
            end.
Proof.
  intros Hlen. unfold Do. destruct (match cl_cb c with Some cb => _ | None => _ end) as [st cb].
  destruct (bool_decide _); [by intros [= <- _ _ <-]|]. destruct (_ <? 0); [by intros [= <- _ _ <-]|].
  change (prepareRequest carrier (cl_with c (cl_limiter c) cb) q) with (prepareRequest carrier c q).
  intros K. apply doLoop_run in K as [Hr K]. split; [done|]. destruct r as [resp| |]; [|done|done].
  destruct K as (w1 & q' & rest & Hr1 & [sent' Hq] & Ert). exists w1, rest. split; [done|].
  pose proof (answered_trip q' w1) as Ha. rewrite Ert in Ha. destruct Ha as (_ & _ & Hl).
  assert (rq_body (prepareRequest carrier c q) = rq_body q /\ rq_length (prepareRequest carrier c q) = rq_length q) as [Hb1 Hb2].
  { unfold prepareRequest, injectAuth. repeat case_match; done. }
  assert (sent' = []) as ->.
  { rewrite Hq in Hb1, Hb2. simpl in Hb1, Hb2. apply zlen_nil. rewrite <- Hb1, zlen_app in Hlen. lia. }
  rewrite Hq. simpl. by destruct q'.
Qed.
End Runs.

(** ** Credentials

    What a prepared request carries for each kind of authentication. *)
Section Credentials.
Context {W U : Type} `{HTTPWorld W U, FloatCvt, GoPow, CryptoRand, GoQuote, MapOrder}.
Definition authorized (c : HTTPClient) (q : Request U) : Prop :=
  match Auth (cl_cfg c) with
  | None => True
  | Some a =>
      let secret := resolveSecret c (TokenRef a) in
      (AuthType a = AuthBearer -> secret <> "" -> Header_Get (rq_header q) "Authorization" = "Bearer " +:+ secret)
      /\ (AuthType a = AuthAPIKey -> APIKeyHeader a <> "" -> Header_Get (rq_header q) (APIKeyHeader a) = secret)
      /\ (AuthType a = AuthAPIKey -> APIKeyHeader a = "" -> APIKeyQuery a <> "" ->
          Values_Get (ParseQuery (rq_query q)) (APIKeyQuery a) = secret)
      /\ (AuthType a = AuthBasic ->
          Header_Get (rq_header q) "Authorization"
          = "Basic " +:+ str (base64 (bytes (resolveSecret c (UsernameRef a) +:+ ":" +:+ resolveSecret c (AuthPasswordRef a)))))
  end.
Lemma Header_Get_Set h k v : Header_Get (Header_Set k v h) k = v.
Proof. unfold Header_Get, Header_Set. by rewrite lookup_insert_eq. Qed.
(** Parameters other than the key's are kept. *)
Lemma prepare_query carrier c (q : Request U) k :
  (forall a, Auth (cl_cfg c) = Some a -> APIKeyQuery a <> k) ->
  Values_Get (ParseQuery (rq_query (prepareRequest carrier c q))) k = Values_Get (ParseQuery (rq_query q)) k.
Proof.
  intros Hk. unfold prepareRequest, injectAuth. destruct (Auth (cl_cfg c)) as [a|]; [|done].
  specialize (Hk a eq_refl). cbv zeta. repeat case_match; try done.
  cbn [rq_query withQuery withHeader]. rewrite ParseQuery_Encode by apply fullValues_Set, ParseQuery_full.
  unfold Values_Get, Values_Set. by rewrite lookup_insert_ne.
Qed.
Lemma prepare_url carrier c (q : Request U) : rq_url (prepareRequest carrier c q) = rq_url q.
Proof. unfold prepareRequest, injectAuth. repeat case_match; done. Qed.
Lemma injectAuth_authorized c (q : Request U) : authorized c (injectAuth c q).
Proof.
  unfold authorized, injectAuth. destruct (Auth (cl_cfg c)) as [a|]; [|done]. cbv zeta.
  destruct (String.eqb_spec (AuthType a) AuthBearer) as [Eb|Eb].
  { rewrite Eb. split_and!; try done. intros _ Hs. apply String.eqb_neq in Hs. rewrite Hs. apply Header_Get_Set. }
  destruct (String.eqb_spec (AuthType a) AuthAPIKey) as [Ek|Ek].
  { rewrite Ek. split_and!; try done.
    - intros _ Hs. apply String.eqb_neq in Hs. rewrite Hs. apply Header_Get_Set.
    - intros _ Hs Hq. apply String.eqb_neq in Hq. rewrite Hs. simpl. rewrite Hq. simpl.
      rewrite ParseQuery_Encode by apply fullValues_Set, ParseQuery_full.
      unfold Values_Get, Values_Set. by rewrite lookup_insert_eq. }
  destruct (String.eqb_spec (AuthType a) AuthBasic) as [Ea|Ea]; [|split_and!; done].
  rewrite Ea. split_and!; try done. intros _. apply Header_Get_Set.
Qed.
Lemma authorized_same c c' (q q' : Request U) : cl_cfg c' = cl_cfg c -> cl_secrets c' = cl_secrets c ->
  sameRequest q q' -> authorized c q -> authorized c' q'.
Proof.
  intros Hcfg Hs [b ->]. unfold authorized, resolveSecret. by rewrite Hcfg, Hs.
Qed.
End Credentials.

(** ** Properties *)

(** C23. [Do] always returns, when the limiter, if any, allows at least [2 ^ -20]
    requests a second. With the breaker open it returns at once and sends nothing;
    otherwise it puts the prepared request, with the credentials of the configuration,
    on the network at most [MaxRetries + 1] times; a response it returns is neither 429
    nor 5xx, and an error is the context's, the limiter's, or the one after the last
    retry. *)
Theorem Do_contract {W U : Type} `{HTTPWorldLaws W U} `{FloatCvt, GoPow, CryptoRand, GoQuote, MapOrder}
    (readFirst : bool) (carrier : gmap string string) (q : Request U) (c : HTTPClient) (w : W) :
  limiter_ok (cl_limiter c) w ->
  exists fuel out, (forall m, (fuel <= m)%nat -> Do readFirst carrier m q c w = Some out)
  /\ let '(r, sent, c', w') := out in
     if bool_decide ((fun cb => fst (readState (now w) cb)) <$> cl_cb c = Some StateOpen)
     then r = Err ErrCircuitOpen /\ sent = [] /\ w' = w
     else zlen sent <= Z.max 0 (Config.MaxRetries (APIRetry (cl_cfg c)) + 1)
          /\ Forall (fun q' => sameRequest (prepareRequest carrier c q) q' /\ authorized c q') sent
          /\ limiter_ok (cl_limiter c') w'
          /\ match r with
             | Ok resp => sent <> [] /\ isTransientStatus (StatusCode resp) = false
             | Err e => doError (W := W) (Config.MaxRetries (APIRetry (cl_cfg c))) (cl_cfg c) sent e
             | Panic m => exists k, FullJitter k (buildBackoffConfig c) = Panic m
             end.
Proof.
  intros Hl. unfold Do.
  set (st := match cl_cb c with Some cb => _ | None => _ end).
  assert (exists cb', st = ((fun cb => fst (readState (now w) cb)) <$> cl_cb c, cb')) as [cb' ->].
  { unfold st. destruct (cl_cb c) as [cb|]; [|by eexists]. unfold readState. by eexists. }
  set (c1 := cl_with c (cl_limiter c) cb').
  destruct (bool_decide _); [by exists 0%nat; eexists|].
  destruct (Z.ltb_spec (Config.MaxRetries (APIRetry (cl_cfg c1))) 0) as [Hneg|Hpos].
  { exists 0%nat. eexists. split; [done|]. simpl in Hneg.
    split; [change (zlen []) with 0; lia|]. split; [done|]. split; [done|]. right. right. by exists c1, None. }
  destruct (doLoop_total readFirst (Z.to_nat (Config.MaxRetries (APIRetry (cl_cfg c1)))) 0
    (prepareRequest carrier c1 q) c1 w Hl) as (fuel & [[[r sent] c'] w'] & Hf & K1 & K2 & K3 & K4 & K5 & K6).
  simpl in Hpos. rewrite Z2Nat.id in K1, K6 by done.
  exists fuel. eexists. split; [exact Hf|]. split; [simpl in K1; lia|].
  split; [|split; [done|by destruct r]].
  eapply Forall_impl; [exact K2|]. intros q' Hq. split; [done|].
  apply (authorized_same c1 c (prepareRequest carrier c1 q)); try done. apply injectAuth_authorized.
Qed.

(** ** Findings and witnesses *)
Section Samples.
#[local] Instance wQuote : GoQuote := fun s => s.
#[local] Instance wDur : GoDuration := fun _ => "".
#[local] Instance wCvt : FloatCvt := fun _ => 0.
#[local] Instance wPow : GoPow := fun _ _ => of_int 1.
#[local] Instance wRand : CryptoRand := fun _ => Some 0.

(** A server that answers with the statuses of a script, then with 200; the body of a
    request is consumed when it is sent, and a body shorter than the declared length is
    an error of the transport. *)
Record net := mkNet { clk : Z; script : list Z }.
Definition netSend (q : Request string) (w : net) : (Response + error) * list byte * net :=
  if negb (zlen (rq_body q) =? rq_length q) then (inr (Sentinel "http: ContentLength mismatch"), rq_body q, w)
  else match script w with
  | [] => (inl (mkResponse 200 "200 OK" ∅ ([], None)), [], w)
  | s :: t => (inl (mkResponse s "" ∅ ([], None)), [], mkNet (clk w) t)
  end.
#[local] Instance netWorld : HTTPWorld net string := {|
  now := clk; ctxErr _ := None;
  waitFor d w := (None, mkNet (clk w + Z.max 1 d) (script w));
  roundTrip := netSend |}.
#[local] Instance netLaws : HTTPWorldLaws net string.
Proof.
  split; simpl.
  - intros. lia.
  - intros d w w' [= <-]. simpl. lia.
  - intros q w. unfold netSend. destruct (negb _); [done|]. by destruct (script w).
Qed.
Definition netCfg : APISourceConfig :=
  mkAPISource "http://h" "/x" "" ∅ ∅ (Some (mkAuth AuthBearer "ref" "" "" "" "" "" "" "" []))
    (mkPagination "" "" "" 0 0 0 0 "" "" "" "")
    (mkResilience 2 0 0 (of_int 0) (of_int 0) 0 0 0 7) false "" ∅ (schemaOf []) None.
Definition netClient : HTTPClient := NewHTTPClient 0 netCfg {[ "ref" := "s3cret" ]}.
Definition netRequest (body : string) : Request string := mkRequest "POST" "http://h/x" "" ∅ (bytes body) (slen body).

(** A request with a body is retried with an empty body: a server that is unavailable
    once makes [Do] fail, though the next attempt would have been accepted. *)
Definition retryRun := Do false ∅ 10 (netRequest "abc") netClient (mkNet 0 [503]).
Lemma retry_sends_empty_body :
  match retryRun with
  | Some (Err _, sent, _, _) => map rq_body sent = [bytes "abc"; []; []]
  | _ => False
  end
  /\ match Do false ∅ 10 (netRequest "") netClient (mkNet 0 [503]) with
     | Some (Ok r, _, _, _) => StatusCode r = 200
     | _ => False
     end.
Proof. split; vm_compute; reflexivity. Qed.

(** The half-open limit of the configuration does not reach the breaker. *)
Lemma half_open_limit_ignored :
  Config.HalfOpenLimit (APIRetry netCfg) = 7 /\ halfOpenLimit <$> cl_cb netClient = Some 1.
Proof. split; vm_compute; reflexivity. Qed.

Lemma netClient_limiter : limiter_ok (cl_limiter netClient) (mkNet 0 [503; 429]).
Proof.
  assert (cl_limiter netClient = Some (mkBucket DefaultAPIRateLimitRPS fone fone 0)) as -> by (vm_compute; reflexivity).
  pose proof (of_int_isF 50 ltac:(lia)) as H50.
  assert (bucket_ok (mkBucket DefaultAPIRateLimitRPS fone fone 0)) as Hb.
  { apply (NewTokenBucket_ok 0 (of_int 50) _ (50 * 2 ^ 1074)); [vm_compute; reflexivity|exact H50]. }
  split; [exact Hb|]. split; [simpl; lia|]. exists (50 * 2 ^ 1074). split; [exact H50|].
  transitivity (2 ^ 1074); [apply pow2_le; lia|]. pose proof (Z.pow_pos_nonneg 2 1074). lia.
Qed.

Lemma Do_contract_witness :
  exists fuel r sent c' w',
    Do false ∅ fuel (netRequest "") netClient (mkNet 0 [503; 429]) = Some (r, sent, c', w')
    /\ zlen sent <= 3
    /\ Forall (fun q' => Header_Get (rq_header q') "Authorization" = "Bearer s3cret") sent.
Proof.
  destruct (Do_contract false ∅ (netRequest "") netClient (mkNet 0 [503; 429]) netClient_limiter)
    as (fuel & [[[r sent] c'] w'] & Hf & K).
  exists fuel, r, sent, c', w'. split; [apply Hf; lia|]. rewrite bool_decide_false in K by (vm_compute; discriminate).
  destruct K as (K1 & K2 & _). split; [exact K1|]. eapply Forall_impl; [exact K2|].
  intros q' [_ Ha]. apply Ha; [reflexivity|discriminate].
Defined.
End Samples.
