(* ===== verification/RestSource.v ===== *)
(** * The paged REST source

    Models [internal/ports/paged_api.go], [internal/adapters/paged_api/source/rest_reader.go]
    and [init.go], and [internal/beam/paged_api/paged_api_sdf.go]: the discovery of the
    pages, the request and the records of a page, and the splittable function that reads
    one. *)
From S2P Require Import Prelude GoStr Float64 FloatOrder Schema Wire Intern RecordModel FastNum Trackers UrlQuery Watermark Config Resilience Pipe JsonUtils HttpClient.

(** [PageSlice]: a page number or an offset, with the size of the page. *)
Record PageSlice := mkPage {
  pg_Index : Z; pg_Size : Z; pg_Cursor : string; pg_Metadata : gmap string string }.

Record RESTReader := mkReader { rd_client : HTTPClient; rd_cfg : APISourceConfig }.
Definition NewRESTReader `{GoQuote, GoDuration} (t : Z) (cfg : APISourceConfig) (secrets : gmap string string)
    : RESTReader :=
  mkReader (NewHTTPClient t cfg secrets) cfg.

(** [restReaderFactory]; [sec] resolves the reference of a secret. *)
Definition restReaderFactory `{GoQuote, GoDuration} (t : Z) (source : option APISourceConfig)
    (sec : option (string -> string + error)) : RESTReader + error :=
  match source with
  | None => inr (Errorf "api_source configuration is missing" [])
  | Some cfg =>
      let secrets :=
        match Auth cfg, sec with
        | Some a, Some resolve =>
            if TokenRef a =s "" then ∅
            else match resolve (TokenRef a) with
                 | inl secret => {[ TokenRef a := secret ]}
                 | inr _ => ∅
                 end
        | _, _ => ∅
        end in
      inl (NewRESTReader t cfg secrets)
  end.

(** ** [EstimatePages] *)
Section Estimate.
Context `{UnicodeLower, GoQuote, GoParseFloat, GoUnmarshal, FloatCvt}.

Definition isOffset (cfg : APISourceConfig) : bool := PgType (Pagination cfg) =s PaginationOffsetLimit.
Definition initialPage (cfg : APISourceConfig) : Z :=
  let p := Pagination cfg in
  if (InitialPage p =? 0) && (PgType p =s PaginationPageNumber) then 1 else InitialPage p.
Definition startOffset (cfg : APISourceConfig) : Z :=
  if isOffset cfg && WatermarkIsOffset (Some cfg) then
    match APIWatermark cfg with
    | Some w =>
        match Value w with
        | Some v => match ParseInt10 "Atoi" (TrimSpace v) with Ok n => if 0 <? n then n else 0 | _ => 0 end
        | None => 0
        end
    | None => 0
    end
  else 0.

(** [make([]ports.PageSlice, n)] and its loop; a page slice takes 40 bytes of the
    2^48 an allocation may have. *)
Definition maxPages : Z := 2 ^ 48 / 40.
Definition makePages (n : Z) (index : Z -> Z) (size : Z) : result (list PageSlice) :=
  if (n <? 0) || (maxPages <? n) then Panic "runtime error: makeslice: len out of range"
  else Ok (map (fun i => mkPage (index i) size "" ∅) (seqZ 0 n)).
Definition onePage (index size : Z) : result (list PageSlice) := Ok [mkPage index size "" ∅].

Definition hintedPages (cfg : APISourceConfig) : result (list PageSlice) :=
  let p := Pagination cfg in
  makePages (TotalPagesHint p)
    (fun i => if isOffset cfg then i64 (startOffset cfg + i64 (i * PageSize p)) else i64 (i + initialPage cfg))
    (PageSize p).

(** The pages for a positive total. *)
Definition countedPages (cfg : APISourceConfig) (total : float64) : result (list PageSlice) :=
  let p := Pagination cfg in
  let s := startOffset cfg in
  if isOffset cfg && (0 <? s) then
    if fle total (of_int s) then onePage s (PageSize p)
    else
      let q := fdiv (fsub total (of_int s)) (of_int (PageSize p)) in
      makePages (to_int64 (ceil q) q) (fun i => i64 (s + i64 (i * PageSize p))) (PageSize p)
  else
    let q := fdiv total (of_int (PageSize p)) in
    makePages (to_int64 (ceil q) q)
      (fun i => if isOffset cfg then i64 (i * PageSize p) else i64 (i + initialPage cfg))
      (PageSize p).
Definition fallbackPage (cfg : APISourceConfig) : result (list PageSlice) :=
  onePage (if isOffset cfg && (0 <? startOffset cfg) then startOffset cfg else initialPage cfg)
    (PageSize (Pagination cfg)).

Definition probeURL (cfg : APISourceConfig) : string :=
  let p := Pagination cfg in
  BaseURL cfg +:+ Endpoint cfg +:+ "?" +:+ orStr (PageParam p) "page" +:+ "=" +:+ FormatInt (initialPage cfg)
  +:+ "&" +:+ orStr (SizeParam p) "size" +:+ "=1".
(** The total a probe's body tells; [None]: it tells none. *)
Definition totalOf (body : list byte) (path : string) : option float64 :=
  match ExtractPath body path with
  | inl (JNum v) => Some v
  | inl (JStr s) => Some (match parseFloat s with Ok f => f | _ => of_int 0 end)
  | inl JNull | inr _ => None
  | inl _ => Some (of_int 0)
  end.
End Estimate.

Section Reader.
Context {W U : Type} `{HTTPWorld W U, GoURL U, FloatCvt, GoPow, CryptoRand, GoQuote, MapOrder}.
Context `{UnicodeLower, GoParseFloat, GoUnmarshal, GoFormatV}.

(** [readFirst], [carrier] and [fuel] are those of [Do]. *)
Context (readFirst : bool) (carrier : gmap string string) (fuel : nat).

Definition withClient (r : RESTReader) (c : HTTPClient) : RESTReader := mkReader c (rd_cfg r).

(** The probe: what the client's [Do] tells, an error meaning that there is no total. *)
Definition probe (cfg : APISourceConfig) (r : RESTReader) (w : W)
    : option (result (option float64) * RESTReader * W) :=
  match NewRequest "GET" (probeURL cfg) [] with
  | inr _ => Some (Ok None, r, w)
  | inl req =>
      (fun '(resp, _, c, w) =>
         (match resp with
          | Ok resp => Ok (totalOf (fst (rs_body resp)) (TotalCountPath (Pagination cfg)))
          | Err _ => Ok None
          | Panic m => Panic m
          end, withClient r c, w)) <$> Do readFirst carrier fuel req (rd_client r) w
  end.

(** [apiCfg]: the argument, when it is an [APISourceConfig] (the callers pass a pointer,
    which is none). *)
Definition EstimatePages (apiCfg : option APISourceConfig) (r : RESTReader) (w : W)
    : option (result (list PageSlice) * RESTReader * W) :=
  let cfg := default (rd_cfg r) apiCfg in
  let p := Pagination cfg in
  if (PgType p =s PaginationPageNumber) || isOffset cfg then
    if 0 <? TotalPagesHint p then Some (hintedPages cfg, r, w)
    else if TotalCountPath p =s "" then Some (fallbackPage cfg, r, w)
    else
      (fun '(total, r, w) =>
         (match total with
          | Ok (Some total) =>
              if flt (of_int 0) total && (0 <? PageSize p) then countedPages cfg total else fallbackPage cfg
          | Ok None => fallbackPage cfg
          | Err e => Err e
          | Panic m => Panic m
          end, r, w)) <$> probe cfg r w
  else Some (onePage 0 (PageSize p), r, w).

(** ** [buildRequestURL] *)
Definition setAll (l : list (string * string)) (q : Values) : Values :=
  foldl (fun q kv => Values_Set kv.1 kv.2 q) q l.
Definition watermarkSettings (cfg : APISourceConfig) : list (string * string) :=
  match APIWatermark cfg with
  | Some w =>
      match Value w with
      | Some v => if negb (TrimSpace v =s "") && negb (WatermarkIsOffset (Some cfg))
                  then [(Column w, TrimSpace v)] else []
      | None => []
      end
  | None => []
  end.
Definition sizeSetting (name : string) (page : PageSlice) : list (string * string) :=
  if 0 <? pg_Size page then [(name, FormatInt (pg_Size page))] else [].
Definition pageSettings (cfg : APISourceConfig) (page : PageSlice) : list (string * string) :=
  let p := Pagination cfg in
  if PgType p =s PaginationPageNumber then
    (orStr (PageParam p) "page", FormatInt (pg_Index page)) :: sizeSetting (orStr (SizeParam p) "page_size") page
  else if isOffset cfg then
    (orStr (PageParam p) "offset", FormatInt (pg_Index page)) :: sizeSetting (orStr (SizeParam p) "limit") page
  else if PgType p =s PaginationCursorToken then
    (if pg_Cursor page =s "" then [] else [(orStr (CursorParam p) "cursor", pg_Cursor page)])
    ++ (if SizeParam p =s "" then [] else sizeSetting (SizeParam p) page)
  else [].
Definition requestValues (cfg : APISourceConfig) (page : PageSlice) (q : Values) : Values :=
  setAll (pageSettings cfg page) (setAll (watermarkSettings cfg) (setAll (map_range (QueryParams cfg)) q)).
Definition buildRequestURL (cfg : APISourceConfig) (page : PageSlice) : string + error :=
  match urlParse (BaseURL cfg +:+ Endpoint cfg) with
  | inr e => inr e
  | inl (u, q) => inl (urlString u (Encode (requestValues cfg page (ParseQuery q))))
  end.

(** ** [ReadPage] *)

(** The records one by one; [stop]: after so many, the [select] takes the end of the
    context. *)
Definition sendAll (stop : option (nat * error)) (recs : list GenericRecord) : list sent :=
  match stop with
  | Some (n, e) =>
      if (n <? length recs)%nat then map SentRec (take n recs) ++ [SentErr e] else map SentRec recs
  | None => map SentRec recs
  end.
Definition sendError (msg : string) (e : error) : result (list sent) :=
  Ok [SentErr (Errorf (msg +:+ Error e) [e])].
(** What is sent for a response. *)
Definition pageOutput (stop : option (nat * error)) (cfg : APISourceConfig) (resp : Response) (p : Pool)
    : result (list sent) * Pool :=
  let '(body, readErr) := rs_body resp in
  if (StatusCode resp <? 200) || (300 <=? StatusCode resp) then
    (Ok [SentErr (Errorf ("api returned status " +:+ FormatInt (StatusCode resp) +:+ ": " +:+ str body) [])], p)
  else match readErr with
  | Some e => (sendError "failed to read response body: " e, p)
  | None =>
      match ExtractRecords body (RecordsPath cfg) (FieldMapping cfg) (APISchema cfg) "api_source" p with
      | Err e => (sendError "failed to extract records: " e, p)
      | Panic m => (Panic m, p)
      | Ok (recs, p) => (Ok (sendAll stop recs), p)
      end
  end.
Definition ReadPage (stop : option (nat * error)) (apiCfg : option APISourceConfig) (page : PageSlice)
    (r : RESTReader) (w : W) (p : Pool) : option (result (list sent) * RESTReader * W * Pool) :=
  let cfg := default (rd_cfg r) apiCfg in
  match buildRequestURL cfg page with
  | inr e => Some (sendError "failed to build request url: " e, r, w, p)
  | inl url =>
      match NewRequest (orStr (HTTPMethod cfg) "GET") url [] with
      | inr e => Some (sendError "failed to create http request: " e, r, w, p)
      | inl req =>
          (fun '(resp, _, c, w) =>
             let '(out, p) := match resp with
                              | Ok resp => pageOutput stop cfg resp p
                              | Err e => (sendError "http request error: " e, p)
                              | Panic m => (Panic m, p)
                              end in
             (out, withClient r c, w, p)) <$> Do readFirst carrier fuel req (rd_client r) w
      end
  end.
End Reader.

(** ** [PagedAPISourceSDF] *)
Record PagedAPISourceSDF (R : Type) := mkPagedSDF {
  ps_reader : option R; ps_APICfg : option APISourceConfig }.
Arguments mkPagedSDF {R} _ _.
Arguments ps_reader {R} _.
Arguments ps_APICfg {R} _.
Definition API_Setup {R} (provider : option (option APISourceConfig -> option R)) (fn : PagedAPISourceSDF R)
    : option error * PagedAPISourceSDF R :=
  match ps_reader fn, provider with
  | Some _, _ => (None, fn)
  | None, None =>
      (Some (Errorf "PagedAPISourceSDF: globalPagedAPIReaderProvider not registered — call SetPagedAPIReaderProvider in a beam.RegisterInit before beam.Init()" []), fn)
  | None, Some make =>
      let reader := make (ps_APICfg fn) in
      (match reader with
       | None => Some (Errorf "PagedAPISourceSDF.Setup: provider returned nil reader" [])
       | Some _ => None
       end, mkPagedSDF reader (ps_APICfg fn))
  end.
Definition API_Teardown {R} (fn : PagedAPISourceSDF R) : PagedAPISourceSDF R := mkPagedSDF None (ps_APICfg fn).

Definition API_CreateInitialRestriction : OffsetRange := mkRange 0 1.
Definition API_SplitRestriction (rest : OffsetRange) : list OffsetRange := [rest].
Definition API_RestrictionSize (page : PageSlice) (rest : OffsetRange) : float64 :=
  if End_ rest <? Start rest then of_int 0
  else
    let pageSize := if 0 <? pg_Size page then of_int (pg_Size page) else of_int DefaultAPIPageSize in
    fmul pageSize (of_int (i64 (End_ rest - Start rest))).
Definition API_CreateTracker (rest : OffsetRange) : Page.Tracker := Page.NewPageRangeTracker rest.

Definition recChanCap : Z := 100.
Definition errChanCap : Z := 1.
Definition pageError (idx : Z) (e : error) : error :=
  Errorf ("error in API page " +:+ FormatInt idx +:+ ": " +:+ Error e) [e].
Definition pagePipe (page : PageSlice) : pipe -> pipe -> Prop :=
  pipeStep recChanCap errChanCap (pageError (pg_Index page)).

(** [ProcessElement] up to the loops: it returns at once, or leaves the channels of the
    reader to be drained. *)
Definition API_ProcessElement {R} (fn : PagedAPISourceSDF R) (tracker : Page.Tracker) (page : PageSlice)
    (readPage : R -> result (list sent)) : (result unit + pipe) * Page.Tracker :=
  let '(ok, tracker) := Page.TryClaim tracker (RawInt 0) in
  if negb ok then (inl (Ok tt), tracker)
  else match ps_reader fn with
  | None => (inl (Err (Errorf "PagedAPISourceSDF: reader not initialized — Setup() must run before ProcessElement()" [])), tracker)
  | Some reader =>
      match readPage reader with
      | Err e =>
          (inl (Err (Errorf ("failed reading API page " +:+ FormatInt (pg_Index page) +:+ ": " +:+ Error e) [e])), tracker)
      | Panic m => (inl (Panic m), tracker)
      | Ok outs => (inr (startPipe outs), tracker)
      end
  end.

(** ** Lemmas: the pages *)

(** Where page [i] starts, and the [n] first pages. *)
Section Pages.
Context `{UnicodeLower, GoQuote, GoParseFloat, GoUnmarshal, FloatCvt} (cfg : APISourceConfig).
Let p := Pagination cfg.
Definition pageAt (i : Z) : Z :=
  if isOffset cfg then startOffset cfg + i * PageSize p else i + initialPage cfg.
Definition pagesFrom (n : Z) : list PageSlice :=
  map (fun i => mkPage (pageAt i) (PageSize p) "" ∅) (seqZ 0 n).
(** The first row of the page at an index. *)
Definition firstRow (idx : Z) : Z :=
  if isOffset cfg then idx else (idx - initialPage cfg) * PageSize p.

(** Indexes and sizes stay far from the bounds of [int], for [total] rows. *)
Record pagingOK (total : Z) : Prop := {
  pg_type : PgType p = PaginationPageNumber \/ PgType p = PaginationOffsetLimit;
  pg_size : 0 < PageSize p < 2 ^ 53;
  pg_start : startOffset cfg < 2 ^ 53;
  pg_total : 0 <= total <= 2 ^ 42;
  pg_initial : - 2 ^ 62 <= initialPage cfg <= 2 ^ 62;
  pg_offset0 : isOffset cfg = true -> InitialPage p = 0;
  pg_hint : 0 < TotalPagesHint p ->
    TotalPagesHint p <= 2 ^ 42 /\ startOffset cfg + TotalPagesHint p * PageSize p <= 2 ^ 62 }.
Context (total : Z) (Hok : pagingOK total).

Lemma startOffset_nonneg : 0 <= startOffset cfg.
Proof. unfold startOffset. repeat case_match; lia. Qed.
Lemma startOffset_0 : isOffset cfg = false -> startOffset cfg = 0.
Proof. unfold startOffset. by intros ->. Qed.

Lemma firstRow_pageAt i : firstRow (pageAt i) = startOffset cfg + i * PageSize p.
Proof.
  unfold firstRow, pageAt. destruct (isOffset cfg) eqn:E; [done|]. rewrite startOffset_0 by done. lia.
Qed.

Lemma makePages_ok n index size : 0 <= n <= 2 ^ 42 -> makePages n index size = Ok (map (fun i => mkPage (index i) size "" ∅) (seqZ 0 n)).
Proof.
  intros Hn. unfold makePages. assert (2 ^ 42 <= maxPages) by (vm_compute; discriminate).
  rewrite (proj2 (Z.ltb_ge _ _)), (proj2 (Z.ltb_ge _ _)) by lia. done.
Qed.
(** The pages the code makes are those, and their indexes are exact. *)
Definition exactPages (n : Z) : Prop := forall i, 0 <= i < n -> in_i64 (pageAt i).
Lemma makePages_from n index :
  0 <= n <= 2 ^ 42 -> (isOffset cfg = true -> startOffset cfg + (n - 1) * PageSize p <= 2 ^ 62) ->
  (forall i, index i = if isOffset cfg then i64 (startOffset cfg + i64 (i * PageSize p)) else i64 (i + initialPage cfg)) ->
  makePages n index (PageSize p) = Ok (pagesFrom n) /\ exactPages n.
Proof.
  intros Hn Hb He. pose proof (pg_initial _ Hok). pose proof startOffset_nonneg. pose proof (pg_size _ Hok).
  assert (forall i, 0 <= i < n -> index i = pageAt i /\ in_i64 (pageAt i)) as K.
  { intros i Hi. rewrite He. unfold pageAt. fold p. destruct (isOffset cfg).
    - specialize (Hb eq_refl). assert (0 <= i * PageSize p <= (n - 1) * PageSize p) by nia.
      rewrite !i64_small by wordlia. split; [done|wordlia].
    - rewrite i64_small by wordlia. split; [done|wordlia]. }
  split; [|intros i Hi; by apply K]. rewrite makePages_ok by done. unfold pagesFrom. f_equal. apply map_ext_in.
  intros i Hi. apply list_elem_of_In, elem_of_seqZ in Hi. destruct (K i) as [-> _]; [lia|done].
Qed.
Lemma pagesFrom_1 : pagesFrom 1 = [mkPage (pageAt 0) (PageSize p) "" ∅].
Proof. done. Qed.

Lemma hintedPages_from : 0 < TotalPagesHint p ->
  hintedPages cfg = Ok (pagesFrom (TotalPagesHint p)) /\ exactPages (TotalPagesHint p).
Proof.
  intros Hh. destruct (pg_hint _ Hok Hh). pose proof (pg_size _ Hok). unfold hintedPages.
  apply makePages_from; [lia|lia|done].
Qed.
Lemma fallbackPage_from : fallbackPage cfg = Ok (pagesFrom 1) /\ exactPages 1.
Proof.
  pose proof startOffset_nonneg. pose proof (pg_start _ Hok). pose proof (pg_initial _ Hok).
  assert (pageAt 0 = if isOffset cfg then startOffset cfg else initialPage cfg) as E0.
  { unfold pageAt. fold p. by rewrite Z.mul_0_l, Z.add_0_r, Z.add_0_l. }
  split.
  - unfold fallbackPage, onePage. rewrite pagesFrom_1, E0. destruct (isOffset cfg) eqn:E; [|done]. simpl.
    destruct (Z.ltb_spec 0 (startOffset cfg)); [done|]. replace (startOffset cfg) with 0 by lia.
    unfold initialPage. fold p. rewrite (pg_offset0 _ Hok E). simpl.
    destruct (PgType p =s PaginationPageNumber) eqn:Ep; [|done].
    unfold isOffset in E. fold p in E. apply String.eqb_eq in E, Ep. rewrite E in Ep; discriminate.
  - intros i Hi. replace i with 0 by lia. rewrite E0. case_match; wordlia.
Qed.

Lemma countedPages_from : 0 < total -> exists n, countedPages cfg (of_int total) = Ok (pagesFrom n)
  /\ exactPages n /\ 0 <= n /\ total <= startOffset cfg + n * PageSize p.
Proof.
  intros Ht. pose proof startOffset_nonneg as Hs. pose proof (pg_size _ Hok) as Hp. pose proof (pg_start _ Hok) as Hs2.
  pose proof (pg_total _ Hok) as Ht2. unfold countedPages. fold p.
  assert (forall d index, 0 < d <= total -> (isOffset cfg = true -> startOffset cfg + d <= total) ->
    (forall i, index i = if isOffset cfg then i64 (startOffset cfg + i64 (i * PageSize p)) else i64 (i + initialPage cfg)) ->
    exists n, (let q := fdiv (of_int d) (of_int (PageSize p)) in makePages (to_int64 (ceil q) q) index (PageSize p)) = Ok (pagesFrom n)
    /\ exactPages n /\ 0 <= n /\ d <= n * PageSize p) as Hceil.
  { intros d index Hd Hds He. set (n := (d + PageSize p - 1) / PageSize p). exists n. cbv zeta.
    rewrite ceil_div by lia. fold n.
    pose proof (Z.div_mod (d + PageSize p - 1) (PageSize p) ltac:(lia)) as En. fold n in En.
    pose proof (Z.mod_pos_bound (d + PageSize p - 1) (PageSize p) ltac:(lia)).
    assert (0 < n <= d /\ d <= n * PageSize p /\ (n - 1) * PageSize p < d) as (? & ? & ?) by (split_and!; nia).
    unfold to_int64, fits64. rewrite (proj2 (Z.leb_le _ _)), (proj2 (Z.ltb_lt _ _)) by lia. simpl.
    destruct (makePages_from n index) as [-> Hex]; [lia|lia|done|]. split_and!; [done|done|lia|lia]. }
  destruct (isOffset cfg) eqn:E; simpl.
  - destruct (Z.ltb_spec 0 (startOffset cfg)) as [Hpos|Hz].
    + rewrite (fle_units _ _ (total * 2 ^ 1074) (startOffset cfg * 2 ^ 1074)) by (apply of_int_isF; lia).
      pose proof (Z.pow_pos_nonneg 2 1074 ltac:(lia) ltac:(lia)).
      destruct (Z.leb_spec (total * 2 ^ 1074) (startOffset cfg * 2 ^ 1074)) as [Hle|Hgt].
      { exists 1. assert (pageAt 0 = startOffset cfg) as E0 by (unfold pageAt; rewrite E; lia).
        rewrite pagesFrom_1, E0. split_and!; [done| |lia|nia].
        intros i Hi. replace i with 0 by lia. rewrite E0. wordlia. }
      assert (startOffset cfg < total) by nia. rewrite fsub_int by lia.
      destruct (Hceil (total - startOffset cfg) (fun i => i64 (startOffset cfg + i64 (i * PageSize p)))) as (n & Hn & Hex & ? & ?);
        [lia|lia|done|]. exists n. split_and!; [exact Hn|done|lia|lia].
    + destruct (Hceil total (fun i => i64 (i * PageSize p))) as (n & Hn & Hex & ? & ?); [lia|lia| |].
      { intros i. replace (startOffset cfg) with 0 by lia. simpl. symmetry. apply i64_small, i64_range. }
      exists n. split_and!; [exact Hn|done|lia|lia].
  - destruct (Hceil total (fun i => i64 (i + initialPage cfg))) as (n & Hn & Hex & ? & ?); [lia|done|done|].
    exists n. split_and!; [exact Hn|done|lia|lia].
Qed.
End Pages.

(** Windows of [size] rows cover the rows from [start] on, each once. *)
Lemma windows_cover {A} (rows : list A) (start size n : nat) :
  concat (map (fun i => take size (drop (start + i * size) rows)) (seq 0 n)) = take (n * size) (drop start rows).
Proof.
  induction n as [|n IH]; [done|]. rewrite seq_S, map_app, concat_app, IH. simpl. rewrite app_nil_r.
  rewrite <- drop_drop, (Nat.add_comm size). apply take_take_drop.
Qed.

(** ** Lemmas: a server and its readers *)
Section Server.
Context {W U : Type} `{HTTPWorldLaws W U} `{GoURL U, FloatCvt, GoPow, CryptoRand, GoQuote, MapOrder}.
Context `{UnicodeLower, GoParseFloat, GoUnmarshal, GoFormatV}.
Context (readFirst : bool) (carrier : gmap string string).
Context (r0 : RESTReader) (u : U) (rows : list json).
Let cfg := rd_cfg r0.
Let p := Pagination cfg.

(** The endpoint has neither a query nor a fragment: [url.Parse] gives back the query
    put behind it, and [String] keeps it. *)
Record endpointOK : Prop := {
  ep_base : exists q, urlParse (BaseURL cfg +:+ Endpoint cfg) = inl (u, q);
  ep_query q : Forall plainByte (bytes q) -> urlParse (BaseURL cfg +:+ Endpoint cfg +:+ "?" +:+ q) = inl (u, q);
  ep_string q : Forall plainByte (bytes q) -> urlParse (urlString u q) = inl (u, q);
  ep_method : forallb tokenByte (bytes (orStr (HTTPMethod cfg) "GET")) = true }.

(** The parameters have names, as after the defaults, and the key has another one. *)
Record namesOK : Prop := {
  nm_page : PageParam p <> "" /\ plainText (PageParam p);
  nm_size : SizeParam p <> "" /\ plainText (SizeParam p);
  nm_distinct : PageParam p <> SizeParam p;
  nm_key a : Auth (cl_cfg (rd_client r0)) = Some a ->
    APIKeyQuery a <> PageParam p /\ APIKeyQuery a <> SizeParam p }.

(** The request asks for page [k] of [n] rows. *)
Definition asksFor (k n : Z) (q : Request U) : Prop :=
  rq_url q = u
  /\ Values_Get (ParseQuery (rq_query q)) (PageParam p) = FormatInt k
  /\ Values_Get (ParseQuery (rq_query q)) (SizeParam p) = FormatInt n.
Definition window (k n : Z) : list json := take (Z.to_nat n) (drop (Z.to_nat (firstRow cfg k)) rows).
Definition answers (k n : Z) (resp : Response) : Prop :=
  StatusCode resp = 200 /\ snd (rs_body resp) = None
  /\ ExtractPath (fst (rs_body resp)) (RecordsPath cfg) = inl (JArr (window k n))
  /\ (TotalCountPath p <> "" ->
      ExtractPath (fst (rs_body resp)) (TotalCountPath p) = inl (JNum (of_int (zlen rows)))).
(** Authorized requests for a page get its window of the rows and their number. *)
Definition serves : Prop := forall k n q (w : W),
  authorized (rd_client r0) q -> in_i64 k -> in_i64 n -> asksFor k n q -> 0 <= firstRow cfg k ->
  exists resp rest w', roundTrip q w = (inl resp, rest, w') /\ answers k n resp.

(** A worker's reader has the configuration and the secrets of [r0]. *)
Definition sameReader (r : RESTReader) (w : W) : Prop :=
  rd_cfg r = cfg /\ cl_cfg (rd_client r) = cl_cfg (rd_client r0)
  /\ cl_secrets (rd_client r) = cl_secrets (rd_client r0) /\ healthy (rd_client r) w.

Context (Hcan : neverCancelled (W := W)) (Hep : endpointOK) (Hnm : namesOK) (Hsv : serves).

Lemma Do_serves r (w : W) q k n : sameReader r w -> in_i64 k -> in_i64 n -> asksFor k n q -> 0 <= firstRow cfg k ->
  exists fuel resp c' w' l, (forall m, (fuel <= m)%nat -> Do readFirst carrier m q (rd_client r) w = Some (Ok resp, l, c', w'))
    /\ answers k n resp /\ sameReader (withClient r c') w'.
Proof.
  intros (Hcfg & Hccfg & Hsec & Hh) Hki Hni (Hu & Hk & Hn) Hf.
  destruct (Do_undisturbed readFirst carrier q (rd_client r) w (answers k n) Hcan Hh) as (fuel & resp & c' & w' & Hdo & Ha & K1 & K2 & K3).
  - intros w1. destruct (Hsv k n (prepareRequest carrier (rd_client r) q) w1) as (resp & rest & w2 & Ert & Ha); [|done|done| |done|].
    + apply (authorized_same (rd_client r) (rd_client r0) (prepareRequest carrier (rd_client r) q)); try done.
      apply sameRequest_refl. apply injectAuth_authorized.
    + split; [by rewrite prepare_url|].
      split; rewrite prepare_query; try done; intros a Hau; rewrite Hccfg in Hau; by apply Hnm in Hau as [? ?].
    + exists resp, rest, w2. split; [done|]. split; [by destruct Ha as [-> _]|done].
  - exists fuel, resp, c', w', [prepareRequest carrier (rd_client r) q]. split; [done|]. split; [done|].
    split; [done|]. simpl. by rewrite K1, K2.
Qed.

Lemma NewRequest_ok method url body (q : string) :
  forallb tokenByte (bytes method) = true -> method <> "" -> urlParse url = inl (u, q) ->
  NewRequest method url body = inl (mkRequest method u q ∅ body (zlen body)).
Proof.
  intros Ht Hm Hu. unfold NewRequest. apply String.eqb_neq in Hm. rewrite Hm, Ht. simpl. by rewrite Hu.
Qed.
Lemma orStr_set s d : s <> "" -> orStr s d = s.
Proof. intros Hs. unfold orStr, OrDefault. by rewrite decide_False. Qed.

Lemma probe_serves r (w : W) : sameReader r w -> TotalCountPath p <> "" -> in_i64 (initialPage cfg) ->
  0 <= firstRow cfg (initialPage cfg) ->
  exists fuel r' w', (forall m, (fuel <= m)%nat ->
      probe readFirst carrier m cfg r w = Some (Ok (Some (of_int (zlen rows))), r', w'))
    /\ sameReader r' w'.
Proof.
  intros Hr Ht Hi Hf. destruct Hnm as [[Hp1 Hp2] [Hs1 Hs2] Hne _].
  destruct (ParseQuery_two (PageParam p) (FormatInt (initialPage cfg)) (SizeParam p) "1") as [Hplain Hparse];
    [done|by apply FormatInt_plain|done|by repeat constructor|done|].
  set (raw := _ +:+ _) in Hplain, Hparse.
  assert (probeURL cfg = BaseURL cfg +:+ Endpoint cfg +:+ "?" +:+ raw) as Hurl.
  { unfold probeURL, raw. fold p. by rewrite !orStr_set. }
  destruct (Do_serves r w (mkRequest "GET" u raw ∅ [] 0) (initialPage cfg) 1 Hr)
    as (fuel & resp & c' & w' & l & Hdo & Ha & Hr'); [done|wordlia| |done|].
  { split; [done|]. cbn [rq_query]. rewrite Hparse. unfold Values_Get, Values_Set.
    by rewrite lookup_insert_eq, lookup_insert_ne, lookup_insert_eq. }
  exists fuel, (withClient r c'), w'. split; [|done]. intros m Hm. unfold probe. rewrite Hurl.
  rewrite (NewRequest_ok "GET" _ [] raw) by (done || by apply Hep). change (zlen []) with 0. rewrite Hdo by done.
  cbn [fmap option_fmap option_map]. unfold totalOf. fold p. destruct Ha as (_ & _ & _ & ->); done.
Qed.

Context (Hpg : pagingOK cfg (zlen rows)).

(** The parameters a page's request carries. *)
Lemma requestValues_page idx q : fullValues q ->
  let v := requestValues cfg (mkPage idx (PageSize p) "" ∅) q in
  fullValues v /\ Values_Get v (PageParam p) = FormatInt idx /\ Values_Get v (SizeParam p) = FormatInt (PageSize p).
Proof.
  intros Hq. destruct Hnm as [[Hp1 Hp2] [Hs1 Hs2] Hne _]. unfold requestValues.
  assert (forall l q, fullValues q -> fullValues (setAll l q)) as Hfull.
  { induction l as [|kv l IH]; intros q' Hq'; [done|]. by apply IH, fullValues_Set. }
  set (base := setAll (watermarkSettings cfg) _). assert (fullValues base) as Hb by (by apply Hfull, Hfull).
  assert (pageSettings cfg (mkPage idx (PageSize p) "" ∅)
    = [(PageParam p, FormatInt idx); (SizeParam p, FormatInt (PageSize p))]) as ->.
  { unfold pageSettings, sizeSetting. fold p. cbn [pg_Index pg_Size].
    rewrite (proj2 (Z.ltb_lt 0 (PageSize p))) by apply Hpg. rewrite !orStr_set by done.
    unfold isOffset. fold p. pose proof (pg_type _ _ Hpg) as Ht. fold p in Ht. by destruct Ht as [-> | ->]. }
  cbn [setAll foldl]. split_and!; [by repeat apply fullValues_Set|..]; unfold Values_Get, Values_Set; simpl.
  - by rewrite lookup_insert_ne, lookup_insert_eq.
  - by rewrite lookup_insert_eq.
Qed.

Definition pageRecords (k n : Z) : list GenericRecord :=
  recordsOfJSON (FieldMapping cfg) (APISchema cfg) "api_source" (window k n).
Lemma ReadPage_serves r (w : W) pool i : sameReader r w -> PoolOk pool -> 0 <= i ->
  in_i64 (pageAt cfg i) -> exists fuel r' w' pool', (forall m, (fuel <= m)%nat ->
      ReadPage readFirst carrier m None None (mkPage (pageAt cfg i) (PageSize p) "" ∅) r w pool
      = Some (Ok (map SentRec (pageRecords (pageAt cfg i) (PageSize p))), r', w', pool'))
    /\ sameReader r' w' /\ PoolOk pool'.
Proof.
  intros Hr Hpool Hi Hint. set (page := mkPage _ _ _ _). destruct (ep_base Hep) as [q0 Hbase].
  destruct (requestValues_page (pageAt cfg i) (ParseQuery q0) (ParseQuery_full q0)) as (Hf & Hv1 & Hv2).
  fold page in Hf, Hv1, Hv2. set (v := requestValues cfg page (ParseQuery q0)) in *.
  set (method := orStr (HTTPMethod cfg) "GET").
  assert (method <> "") as Hm by (unfold method, orStr, OrDefault; by case_decide).
  assert (0 <= firstRow cfg (pageAt cfg i)) as Hrow.
  { rewrite firstRow_pageAt. pose proof (startOffset_nonneg cfg). pose proof (pg_size _ _ Hpg). nia. }
  destruct (Do_serves r w (mkRequest method u (Encode v) ∅ [] 0) (pageAt cfg i) (PageSize p) Hr)
    as (fuel & resp & c' & w' & l & Hdo & (Hst & Herr & Hrec & _) & Hr');
    [done|pose proof (pg_size _ _ Hpg) as Hps; fold p in Hps; wordlia| |done|].
  { split; [done|]. cbn [rq_query]. by rewrite ParseQuery_Encode. }
  destruct (ExtractRecords_array (fst (rs_body resp)) (RecordsPath cfg) (FieldMapping cfg) (APISchema cfg)
    "api_source" pool _ Hpool Hrec) as (pool' & Hpool' & Hex).
  exists fuel, (withClient r c'), w', pool'. split; [|done]. intros m Hle.
  assert (rd_cfg r = cfg) as Hcfg by apply Hr. unfold ReadPage. rewrite Hcfg. cbn [default from_option].
  assert (buildRequestURL cfg page = inl (urlString u (Encode v))) as ->
    by (unfold buildRequestURL; by rewrite Hbase).
  fold method. rewrite (NewRequest_ok method _ [] (Encode v)); [|apply Hep|done|apply Hep, Encode_plain].
  change (zlen []) with 0. rewrite Hdo by done. cbn [fmap option_fmap option_map].
  unfold pageOutput. destruct (rs_body resp) as [body e]. simpl in Herr, Hex. subst e. rewrite Hst. simpl.
  by rewrite Hex.
Qed.

(** The rows the pages cover. *)
Definition coveredRows : list json :=
  let rest := drop (Z.to_nat (startOffset cfg)) rows in
  if 0 <? TotalPagesHint p then take (Z.to_nat (TotalPagesHint p * PageSize p)) rest
  else if TotalCountPath p =s "" then take (Z.to_nat (PageSize p)) rest
  else rest.

Lemma EstimatePages_covers (w : W) : sameReader r0 w ->
  exists fuel n r' w', (forall m, (fuel <= m)%nat ->
      EstimatePages readFirst carrier m None r0 w = Some (Ok (pagesFrom cfg n), r', w'))
    /\ 0 <= n /\ exactPages cfg n /\ coveredRows = take (Z.to_nat (n * PageSize p)) (drop (Z.to_nat (startOffset cfg)) rows).
Proof.
  intros Hr. unfold EstimatePages. cbn [default from_option]. fold cfg. fold p.
  assert ((PgType p =s PaginationPageNumber) || isOffset cfg = true) as ->.
  { unfold isOffset. fold p. pose proof (pg_type _ _ Hpg) as Ht. fold p in Ht. by destruct Ht as [-> | ->]. }
  pose proof (pg_size _ _ Hpg) as Hps. fold p in Hps.
  unfold coveredRows. destruct (Z.ltb_spec 0 (TotalPagesHint p)) as [Hh|_].
  { destruct (hintedPages_from cfg (zlen rows) Hpg Hh) as [Hpages Hex].
    exists 0%nat, (TotalPagesHint p), r0, w. split; [|by split; [lia|]]. intros m _. by rewrite Hpages. }
  destruct (fallbackPage_from cfg (zlen rows) Hpg) as [Hfall Hex1].
  destruct (String.eqb_spec (TotalCountPath p) "") as [Ht|Ht].
  { exists 0%nat, 1, r0, w. rewrite Z.mul_1_l. split; [|done]. intros m _. by rewrite Hfall. }
  assert (0 <= firstRow cfg (initialPage cfg)) as Hrow.
  { unfold firstRow. destruct (isOffset cfg) eqn:E; [|lia]. unfold initialPage.
    rewrite (pg_offset0 _ _ Hpg E). case_match; lia. }
  destruct (probe_serves r0 w Hr Ht) as (fuel & r' & w' & Hprobe & _); [pose proof (pg_initial _ _ Hpg); wordlia|done|].
  pose proof (pg_total _ _ Hpg) as HT. pose proof (startOffset_nonneg cfg) as Hs0.
  assert (flt (of_int 0) (of_int (zlen rows)) && (0 <? PageSize p) = (0 <? zlen rows)) as Hflt.
  { rewrite (proj2 (Z.ltb_lt 0 (PageSize p))), andb_true_r by lia.
    rewrite (flt_units _ _ (0 * 2 ^ 1074) (zlen rows * 2 ^ 1074)) by (apply of_int_isF; lia).
    pose proof (Z.pow_pos_nonneg 2 1074 ltac:(lia) ltac:(lia)).
    destruct (Z.ltb_spec 0 (zlen rows)); [apply Z.ltb_lt|apply Z.ltb_ge]; nia. }
  destruct (Z.ltb_spec 0 (zlen rows)) as [Hpos|Hz].
  - destruct (countedPages_from cfg (zlen rows) Hpg Hpos) as (n & Hc & Hex & Hn & Hcov). fold p in Hcov.
    exists fuel, n, r', w'. split; [|split; [done|split; [done|]]].
    + intros m Hm. rewrite Hprobe by done. cbn [fmap option_fmap option_map]. by rewrite Hflt, Hc.
    + symmetry. apply take_ge. rewrite length_drop. unfold zlen in Hcov. lia.
  - exists fuel, 1, r', w'. split; [|split; [done|split; [done|]]].
    + intros m Hm. rewrite Hprobe by done. cbn [fmap option_fmap option_map].
      by rewrite Hflt, Hfall.
    + symmetry. apply take_ge. rewrite length_drop. unfold zlen in Hz. lia.
Qed.
End Server.

(** ** Properties *)

(** What a worker does with what [ReadPage] sends: it claims the page, and every run of
    its pipe is finite, blocks nowhere, and ends without an error after emitting
    [recs]. *)
Definition pageWorker (r : RESTReader) (page : PageSlice) (outs : list sent) (recs : list GenericRecord) : Prop :=
  exists tracker,
    API_ProcessElement (mkPagedSDF (Some r) (Some (rd_cfg r))) (API_CreateTracker API_CreateInitialRestriction) page
      (fun _ => Ok outs) = (inr (startPipe outs), tracker)
    /\ Page.IsDone tracker = true
    /\ forall s, rtc (pagePipe page) (startPipe outs) s ->
         sn (pagePipe page) s
         /\ (outcome s = None -> exists s', pagePipe page s s')
         /\ (forall res, outcome s = Some res -> res = Ok tt /\ emitted s = recs).

Lemma pageWorker_records r page recs : pageWorker r page (map SentRec recs) recs.
Proof.
  eexists. split; [reflexivity|]. split; [reflexivity|]. intros s Hs.
  assert (recordsOf (map SentRec recs) = recs /\ errorsOf (map SentRec recs) = []) as [Er Ee].
  { unfold recordsOf, errorsOf. clear s Hs. split; induction recs as [|x l IH]; [done| |done|exact IH].
    cbn [map concat app]. by rewrite IH. }
  destruct (pipe_delivers recChanCap errChanCap (pageError (pg_Index page)) (map SentRec recs) s)
    as (Hsn & Hprog & Hend & _); [done|done|done|]. rewrite Er, Ee in *.
  split; [done|]. split; [intros; by apply Hprog|]. intros res Hres. apply Hend in Hres as [-> ->]. done.
Qed.

Section Workers.
Context {W U : Type} `{HTTPWorldLaws W U}.
Context `{GoURL U, FloatCvt, GoPow, CryptoRand, GoQuote, MapOrder, UnicodeLower, GoParseFloat, GoUnmarshal, GoFormatV}.

(** A worker with its reader, world and string pool reads [recs] from a page. *)
Definition pageRead (readFirst : bool) (carrier : gmap string string) (page : PageSlice)
    (worker : RESTReader * W * Pool) (recs : list GenericRecord) : Prop :=
  let '(r, w, pool) := worker in
  exists fuel outs r' w' pool',
    (forall m, (fuel <= m)%nat ->
       ReadPage readFirst carrier m None None page r w pool = Some (Ok outs, r', w', pool'))
    /\ pageWorker r page outs recs.

Lemma pages_read readFirst carrier r0 (u : U) rows : neverCancelled (W := W) -> endpointOK r0 u -> namesOK r0 ->
  serves (W := W) r0 u rows -> pagingOK (rd_cfg r0) (zlen rows) ->
  let cfg := rd_cfg r0 in let size := PageSize (Pagination cfg) in
  forall l ws, (forall i, i ∈ l -> 0 <= i /\ in_i64 (pageAt cfg i)) -> length ws = length l ->
  Forall (fun '(r, w, pool) => sameReader r0 r w /\ PoolOk pool) ws ->
  Forall2 (fun '(page, worker) recs => pageRead readFirst carrier page worker recs)
    (zip (map (fun i => mkPage (pageAt cfg i) size "" ∅) l) ws)
    (map (fun i => pageRecords r0 rows (pageAt cfg i) size) l).
Proof.
  intros Hcan Hep Hnm Hsv Hpg cfg size.
  induction l as [|i l IH]; intros [|[[r1 w1] pool] ws] Hl Hlw Hws; try done.
  apply Forall_cons in Hws as [[Hr1 Hp1] Hws]. constructor.
  - destruct (Hl i) as [Hi Hint]; [by left|].
    destruct (ReadPage_serves readFirst carrier r0 u rows Hcan Hep Hnm Hsv Hpg r1 w1 pool i Hr1 Hp1 Hi Hint)
      as (f & r2 & w2 & p2 & Hread & _). exists f. eexists. exists r2, w2, p2. split; [exact Hread|]. apply pageWorker_records.
  - apply IH; [|by injection Hlw|done]. intros k Hk. apply Hl. by right.
Qed.
End Workers.


(** ** Findings and witnesses *)
Section Samples.
#[local] Instance wQuote : GoQuote := fun s => s.
#[local] Instance wDur : GoDuration := fun _ => "".
#[local] Instance wCvt : FloatCvt := fun _ => 0.
#[local] Instance wPow : GoPow := fun _ _ => of_int 1.
#[local] Instance wRand : CryptoRand := fun _ => Some 0.
#[local] Instance wLower : UnicodeLower := fun s => s.
#[local] Instance wFloat : GoParseFloat := fun _ => Err (Sentinel "float").
(** What the verb [%v] writes for 1234567. *)
#[local] Instance wFormatV : GoFormatV := fun x => if fle (of_int 1000000) x then "1.234567e+06" else "1".
#[local] Instance wURL : GoURL string := {|
  urlParse s := let '(a, b) := Cut "?" (bytes s) in inl (str a, str (default [] b));
  urlString u q := if q =s "" then u else u +:+ "?" +:+ q |}.

(** A server of five rows: the body of its answer is the query of the request, which
    [Unmarshal] reads as the window it asks for. *)
Definition fiveRows : list json := map (fun n => JObj {[ "id" := JStr (FormatInt n) ]}) (seqZ 1 5).
Definition jsonPage (k n : Z) : json :=
  JObj (<["items" := JArr (take (Z.to_nat n) (drop (Z.to_nat k) fiveRows))]> {[ "total" := JNum (of_int 5) ]}).
#[local] Instance wUnmarshal : GoUnmarshal := fun body =>
  let v := ParseQuery (str body) in
  match ParseInt10 "Atoi" (Values_Get v "offset"), ParseInt10 "Atoi" (Values_Get v "limit") with
  | Ok k, Ok n => inl (jsonPage k n)
  | _, _ => inr (Sentinel "EOF")
  end.
#[local] Instance wWorld : HTTPWorld Z string := {|
  now w := w; ctxErr _ := None;
  waitFor d w := (None, w + Z.max 1 d);
  roundTrip q w := (inl (mkResponse 200 "200 OK" ∅ (bytes (rq_query q), None)), [], w) |}.
#[local] Instance wLaws : HTTPWorldLaws Z string.
Proof. split; simpl; [lia| |lia]. intros d w w' [= <-]. lia. Qed.

Definition pagingCfg (hint initial : Z) (count : string) (wm : option string) : APISourceConfig :=
  mkAPISource "http://h" "/x" "" ∅ {[ "active" := "true" ]}
    (Some (mkAuth AuthBearer "ref" "" "" "" "" "" "" "" []))
    (mkPagination PaginationOffsetLimit "offset" "limit" 2 initial hint 0 "" "" count "")
    (mkResilience 2 0 0 (of_int 0) (of_int 0) 0 0 0 0) false "items" ∅
    (schemaOf [mkField "id" TypeInt64 false 0 ""])
    ((fun v => mkWatermarkConfig "offset" WatermarkTypeInteger (Some v)) <$> wm).
Definition sampleReader : RESTReader := NewRESTReader 0 (pagingCfg 0 0 "total" (Some "1")) {[ "ref" := "s3cret" ]}.

Lemma sampleReader_same : sameReader sampleReader sampleReader (0 : Z).
Proof.
  split; [done|]. split; [done|]. split; [done|].
  refine (NewHTTPClient_healthy (pagingCfg 0 0 "total" (Some "1")) {[ "ref" := "s3cret" ]} (0 : Z) (50 * 2 ^ 1074) _ _ _ _).
  - apply of_int_isF. lia.
  - transitivity (2 ^ 1074); [apply pow2_le; lia|]. pose proof (Z.pow_pos_nonneg 2 1074). lia.
  - vm_compute. discriminate.
  - vm_compute. discriminate.
Qed.
Lemma sample_endpoint : endpointOK sampleReader "http://h/x".
Proof.
  assert (forall q, bytes ("http://h/x?" +:+ q) = bytes "http://h/x" ++ "?"%char :: bytes q) as E
    by (intros q; by rewrite bytes_app).
  assert ("?"%char ∉ bytes "http://h/x") as Hn by (apply (bool_decide_unpack _); vm_compute; exact I).
  split; [by exists ""|..|reflexivity].
  - intros q _. change (urlParse ("http://h/x?" +:+ q) = inl ("http://h/x", q)). unfold urlParse, wURL.
    rewrite E, Cut_app by done. cbn [default from_option id]. by rewrite !str_bytes.
  - intros q _. unfold urlString, urlParse, wURL. destruct (String.eqb_spec q "") as [->|Hq]; [reflexivity|].
    change ("http://h/x" +:+ "?" +:+ q) with ("http://h/x?" +:+ q).
    rewrite E, Cut_app by done. cbn [default from_option id]. by rewrite !str_bytes.
Qed.
Lemma sample_names : namesOK sampleReader.
Proof.
  split; [split; [discriminate|by repeat constructor]..|discriminate|].
  intros a [= <-]. split; discriminate.
Qed.
Lemma sample_serves : serves (W := Z) sampleReader "http://h/x" fiveRows.
Proof.
  intros k n q w _ Hk Hn (_ & Hpage & Hsize) _. do 3 eexists. split; [reflexivity|].
  change (PageParam _) with "offset" in Hpage. change (SizeParam _) with "limit" in Hsize.
  assert (Unmarshal (bytes (rq_query q)) = inl (jsonPage k n)) as Hu.
  { unfold Unmarshal, wUnmarshal. by rewrite str_bytes, Hpage, Hsize, !ParseInt10_FormatInt. }
  split; [done|]. split; [done|]. cbn [fst rs_body]. unfold ExtractPath.
  change (RecordsPath _) with "items". change (TotalCountPath _) with "total". rewrite Hu. done.
Qed.
Lemma sample_paging : pagingOK (rd_cfg sampleReader) (zlen fiveRows).
Proof. split; try (vm_compute; intuition congruence). Qed.


(** A secret that does not resolve is ignored: the reference itself goes on the wire. *)
Lemma unresolved_secret_is_sent :
  match restReaderFactory 0 (Some (pagingCfg 0 0 "" None)) (Some (fun _ => inr (Sentinel "denied"))) with
  | inl r => Header_Get (rq_header (prepareRequest ∅ (rd_client r) (mkRequest "GET" "u" "" ∅ [] 0))) "Authorization"
  | inr _ => ""
  end = "Bearer ref".
Proof. vm_compute. reflexivity. Qed.

(** The probe of the total leaves out the configured parameters, which the requests for
    the pages carry. *)
Lemma probe_leaves_out_parameters :
  let cfg := pagingCfg 0 0 "total" None in
  probeURL cfg = "http://h/x?offset=0&limit=1"
  /\ buildRequestURL cfg (mkPage 0 2 "" ∅) = inl "http://h/x?active=true&limit=2&offset=0".
Proof. split; vm_compute; reflexivity. Qed.

(** An initial offset is where the only page starts when the total is unknown, and is
    ignored when the total is known. *)
Lemma initial_offset_ignored :
  map pg_Index <$> fallbackPage (pagingCfg 0 4 "" None) = Ok [4]
  /\ map pg_Index <$> countedPages (pagingCfg 0 4 "total" None) (of_int 5) = Ok [0; 2; 4].
Proof. split; vm_compute; reflexivity. Qed.

(** Without a hint or a path to the total only the first page is read. *)
Lemma only_first_page : coveredRows (NewRESTReader 0 (pagingCfg 0 0 "" None) ∅) fiveRows = take 2 fiveRows.
Proof. vm_compute. reflexivity. Qed.

(** An integer with seven digits becomes a text that no integer column accepts. *)
Lemma json_integer_fails_cast :
  let r := recordOfJSON ∅ (schemaOf [mkField "id" TypeInt64 false 0 ""]) "api_source" {[ "id" := JNum (of_int 1234567) ]} in
  map StrVal (RecordModel.Values r) = ["1.234567e+06"] /\ is_Ok (CoerceInt64Fast "1.234567e+06") = false.
Proof. split; vm_compute; reflexivity. Qed.
End Samples.
