(* ===== verification/ApiSink.v ===== *)
(** * The API sink

    Models [internal/adapters/paged_api/sink/api_sink.go] and [init.go] (a batch becomes
    one request) and [internal/beam/paged_api/api_sink.go] (the function that batches the
    records of a bundle and writes dead letters for the batches the API refuses). *)
From S2P Require Import Prelude GoStr Float64 FloatOrder Schema Wire RecordModel UrlQuery Watermark Config Resilience BatchBuffer Storage FileSink HttpClient.
From Stdlib Require Import SpecFloat.

Definition DefaultContentType : string := "application/json".

(** ** [APISink] *)
Record APISink := mkSink { sk_endpoint : APIEndpointConfig; sk_options : APISinkOptions; sk_client : HTTPClient }.
Definition NewAPISink `{GoQuote, GoDuration} (t : Z) (endpoint : APIEndpointConfig) (options : APISinkOptions)
    (secretToken : string) : APISink :=
  let secrets : gmap string string :=
    if negb (CredentialRef endpoint =s "") && negb (secretToken =s "")
    then {[ CredentialRef endpoint := secretToken ]} else ∅ in
  let zero := S754_zero false in
  let cfg := mkAPISource (EpBaseURL endpoint) "" "" ∅ ∅
    (Some (mkAuth (EpAuthType endpoint) (CredentialRef endpoint) "" "" "" "" "" "" "" []))
    (mkPagination "" "" "" 0 0 0 0 "" "" "" "")
    (mkResilience (SinkMaxRetries options) 0 0 zero (of_int (SinkRateLimitRPS options)) (SinkTimeoutMs options) 0 0 0)
    false "" ∅ (schemaOf []) None in
  mkSink endpoint options (NewHTTPClient t cfg secrets).

(** The payload: an array of objects, an object that holds it, or a single object. *)
Inductive apiPayload :=
  | PItems (items : list (gmap string any))
  | PEnvelope (name : string) (items : list (gmap string any))
  | PSingle (item : gmap string any).

Definition itemsOf (records : list (option GenericRecord)) (schema : Schema) : list (gmap string any) :=
  omap (fun r => match r with Some _ => ToMap r (Some schema) | None => None end) records.
Definition payloadOf (o : APISinkOptions) (items : list (gmap string any)) : apiPayload :=
  if negb (BodyEnvelope o =s "") then PEnvelope (BodyEnvelope o) items
  else match items with
  | [item] => if SinkBatchSize o =? 1 then PSingle item else PItems items
  | _ => PItems items
  end.
Definition targetURL (s : APISink) : string := EpBaseURL (sk_endpoint s) +:+ ResourcePath (sk_options s).

(** Every record of the batch becomes a dead letter with the payload of the batch. *)
Definition batchFailed (s : APISink) (records : list (option GenericRecord)) (body : list byte) (msg : string) (t : Z)
    : list DeadLetterRecord :=
  map (fun _ => mkDeadLetterRecord (str body) msg "" (targetURL s) t) records.

Section Sink.
Context {W U : Type} `{HTTPWorld W U, GoURL U, FloatCvt, GoPow, CryptoRand, GoQuote, MapOrder, GoMarshal apiPayload}.
Context (readFirst : bool) (carrier : gmap string string).

Definition withSinkClient (s : APISink) (c : HTTPClient) : APISink := mkSink (sk_endpoint s) (sk_options s) c.
Definition sinkRequest (s : APISink) (body : list byte) : Request U + error :=
  match NewRequest (Method (sk_options s)) (targetURL s) body with
  | inr e => inr e
  | inl q =>
      let h := Header_Set "Content-Type" DefaultContentType (rq_header q) in
      inl (withHeader (foldl (fun h kv => Header_Set kv.1 kv.2 h) h (map_range (EpHeaders (sk_endpoint s)))) q)
  end.
(** The succeeded records and the dead letters of a response or an error of [Do]. *)
Definition batchResult (s : APISink) (records : list (option GenericRecord)) (body : list byte)
    (resp : result Response) (t : Z) : result (list (option GenericRecord) * list DeadLetterRecord) :=
  match resp with
  | Panic m => Panic m
  | Err e => Ok ([], batchFailed s records body ("HTTP " +:+ Method (sk_options s) +:+ " failed: " +:+ Error e) t)
  | Ok resp =>
      if 400 <=? StatusCode resp then
        Ok ([], batchFailed s records body
                  ("API returned HTTP status " +:+ FormatInt (StatusCode resp) +:+ " " +:+ Status resp +:+ ": "
                   +:+ str (fst (rs_body resp))) t)
      else Ok (records, [])
  end.
Definition APISink_WriteBatch (fuel : nat) (s : APISink) (records : list (option GenericRecord)) (schema : option Schema)
    (w : W) : option (result (list (option GenericRecord) * list DeadLetterRecord) * APISink * W) :=
  match schema with
  | None => Some (Err (Sentinel "schema is required"), s, w)
  | Some schema =>
      match records with
      | [] => Some (Ok ([], []), s, w)
      | _ =>
          match marshalJSON (payloadOf (sk_options s) (itemsOf records schema)) with
          | inr e => Some (Err (Errorf ("failed marshaling batch payload: " +:+ Error e) [e]), s, w)
          | inl body =>
              match sinkRequest s body with
              | inr e => Some (Err (Errorf ("failed creating HTTP request: " +:+ Error e) [e]), s, w)
              | inl q =>
                  (fun '(resp, _, c, w) => (batchResult s records body resp (now w), withSinkClient s c, w))
                    <$> Do readFirst carrier fuel q (sk_client s) w
              end
          end
      end
  end.
End Sink.

(** [resolveCredential] and [restWriterFactory]. *)
Definition resolveCredential `{GoQuote} (sec : option (string -> string + error)) (ref : string) : string + error :=
  match sec with
  | None => inl ""
  | Some resolve =>
      if ref =s "" then inl ""
      else match resolve ref with
      | inl token => inl token
      | inr e => inr (Errorf ("resolving destination credential " +:+ Quote ref +:+ ": " +:+ Error e) [e])
      end
  end.
Definition restWriterFactory `{GoQuote, GoDuration} (t : Z) (d : DestinationConfig)
    (sec : option (string -> string + error)) : APISink + error :=
  match resolveCredential sec (CredentialRef (DstEndpoint d)) with
  | inr e => inr e
  | inl token => inl (NewAPISink t (DstEndpoint d) (APIOptions d) token)
  end.

(** ** [APISinkDoFn]

    The writer is any implementation of [ports.BatchAPIWriter]; [None]: the call has not
    returned within the fuel. *)
Class BatchAPIWriter (Wr W : Type) :=
  WriteBatch : nat -> Wr -> list (option GenericRecord) -> option Schema -> W ->
               option (result (list (option GenericRecord) * list DeadLetterRecord) * Wr * W).

Record APISinkDoFn (Wr : Type) := mkAPISinkFn {
  as_Endpoint : APIEndpointConfig; as_Options : APISinkOptions; as_Schema : Schema; as_DLQPath : string;
  as_Token : string; as_writer : option Wr; as_dlqSink : bool;
  as_buffer : option (BatchBuffer (option GenericRecord)) }.
Arguments mkAPISinkFn {Wr} _ _ _ _ _ _ _ _.
Arguments as_Endpoint {Wr} _.
Arguments as_Options {Wr} _.
Arguments as_Schema {Wr} _.
Arguments as_DLQPath {Wr} _.
Arguments as_Token {Wr} _.
Arguments as_writer {Wr} _.
Arguments as_dlqSink {Wr} _.
Arguments as_buffer {Wr} _.
Definition NewAPISinkDoFn {Wr} (endpoint : APIEndpointConfig) (options : APISinkOptions) (schema : Schema)
    (dlqPath token : string) : APISinkDoFn Wr :=
  mkAPISinkFn endpoint options schema dlqPath token None false None.
Definition as_with {Wr} (fn : APISinkDoFn Wr) (writer : option Wr) (dlq : bool)
    (b : option (BatchBuffer (option GenericRecord))) : APISinkDoFn Wr :=
  mkAPISinkFn (as_Endpoint fn) (as_Options fn) (as_Schema fn) (as_DLQPath fn) (as_Token fn) writer dlq b.
Definition WithWriter {Wr} (w : Wr) (fn : APISinkDoFn Wr) : APISinkDoFn Wr :=
  as_with fn (Some w) (as_dlqSink fn) (as_buffer fn).
Definition WithDLQSink {Wr} (fn : APISinkDoFn Wr) : APISinkDoFn Wr := as_with fn (as_writer fn) true (as_buffer fn).

(** [Setup], with the process-wide factories of storages and writers, if set. *)
Definition APISink_Setup {Wr} (storageFactory : bool)
    (writerFactory : option (APIEndpointConfig -> APISinkOptions -> string -> Wr)) (fn : APISinkDoFn Wr) : APISinkDoFn Wr :=
  as_with fn
    (match as_writer fn, writerFactory with
     | None, Some make => Some (make (as_Endpoint fn) (as_Options fn) (as_Token fn))
     | w, _ => w
     end)
    (as_dlqSink fn || (storageFactory && negb (as_DLQPath fn =s "")))
    (as_buffer fn).

Section Fn.
Context {Wr W : Type} `{BatchAPIWriter Wr W, StorageWriter W, ShardNames W, UnicodeLower, GoMarshal DeadLetterRecord}.

(** The lines of a dead-letter file. *)
Fixpoint writeLetters (t : string) (failed : list DeadLetterRecord) (w : W) : option error * W :=
  match failed with
  | [] => (None, w)
  | rec :: failed' =>
      let abort msg e w := (Some (Errorf (msg +:+ Error e) [e]), snd (AbortTemp t (snd (FileClose t w)))) in
      match marshalJSON rec with
      | inr e => abort "failed marshaling DLQ record: " e w
      | inl data =>
          let '((_, e), w) := FileWrite t (data ++ [newline]) w in
          match e with
          | Some e => abort "failed writing DLQ record: " e w
          | None => writeLetters t failed' w
          end
      end
  end.
Definition dlqURI (path : string) (w : W) : string :=
  BuildOutputURI (shardID w) (unixNano w) path "jsonl" "none" "none" false.
Definition writeDLQ (path : string) (failed : list DeadLetterRecord) (w : W) : option error * W :=
  let final := dlqURI path w in
  match CreateTemp final w with
  | (inr e, w) => (Some (Errorf ("failed creating temp DLQ file: " +:+ Error e) [e]), w)
  | (inl t, w) =>
      let '(e, w) := writeLetters t failed w in
      match e with
      | Some e => (Some e, w)
      | None =>
          let '(e, w) := FileClose t w in
          match e with
          | Some e => (Some (Errorf ("failed closing DLQ file: " +:+ Error e) [e]), snd (AbortTemp t w))
          | None => CommitTemp t final w
          end
      end
  end.

Definition flushBatch (fuel : nat) (fn : APISinkDoFn Wr) (batch : list (option GenericRecord)) (st : option Wr * W)
    : option (result unit * (option Wr * W)) :=
  let '(writer, w) := st in
  match batch, writer with
  | [], _ | _, None => Some (Ok tt, st)
  | _, Some wr =>
      (fun '(r, wr, w) =>
         match r with
         | Panic m => (Panic m, (Some wr, w))
         | Err e => (Err e, (Some wr, w))
         | Ok (_, failed) =>
             if (0 <? zlen failed) && as_dlqSink fn && negb (as_DLQPath fn =s "") then
               let '(e, w) := writeDLQ (as_DLQPath fn) failed w in
               (match e with
                | Some e => Err (Errorf ("failed writing API DLQ records: " +:+ Error e) [e])
                | None => Ok tt
                end, (Some wr, w))
             else (Ok tt, (Some wr, w))
         end) <$> WriteBatch fuel wr batch (Some (as_Schema fn)) w
  end.

Definition newBuffer (fn : APISinkDoFn Wr) : result (BatchBuffer (option GenericRecord)) :=
  NewBundleBatchBuffer (SinkBatchSize (as_Options fn)).
Definition APISink_StartBundle (fn : APISinkDoFn Wr) : result (APISinkDoFn Wr) :=
  b ← match as_buffer fn with
      | None => newBuffer fn
      | Some b => Reset b (SinkBatchSize (as_Options fn))
      end;
  Ok (as_with fn (as_writer fn) (as_dlqSink fn) (Some b)).

(** What a call on the buffer leaves in the function. *)
Definition onBuffer (fn : APISinkDoFn Wr) (r : option (result unit * BatchBuffer (option GenericRecord) * (option Wr * W)))
    : option (result unit * APISinkDoFn Wr * W) :=
  (fun '(r, b, (wr, w)) => (r, as_with fn wr (as_dlqSink fn) (Some b), w)) <$> r.
Definition APISink_ProcessElement (fuel : nat) (rec : option GenericRecord) (fn : APISinkDoFn Wr) (w : W)
    : option (result unit * APISinkDoFn Wr * W) :=
  match match as_buffer fn with Some b => Ok b | None => newBuffer fn end with
  | Ok b => onBuffer fn (Add (Some (flushBatch fuel fn)) b rec (as_writer fn, w))
  | Err e => Some (Err e, fn, w)
  | Panic m => Some (Panic m, fn, w)
  end.
Definition APISink_FinishBundle (fuel : nat) (fn : APISinkDoFn Wr) (w : W)
    : option (result unit * APISinkDoFn Wr * W) :=
  match as_buffer fn with
  | None => Some (Ok tt, fn, w)
  | Some b => onBuffer fn (Flush (Some (flushBatch fuel fn)) b (as_writer fn, w))
  end.

(** The calls a runner makes for one bundle; the first error ends it. *)
Fixpoint APISink_records (fuel : nat) (recs : list (option GenericRecord)) (fn : APISinkDoFn Wr) (w : W)
    : option (result unit * APISinkDoFn Wr * W) :=
  match recs with
  | [] => Some (Ok tt, fn, w)
  | r :: recs' =>
      match APISink_ProcessElement fuel r fn w with
      | Some (Ok _, fn, w) => APISink_records fuel recs' fn w
      | out => out
      end
  end.
Definition APISink_bundle (fuel : nat) (recs : list (option GenericRecord)) (fn : APISinkDoFn Wr) (w : W)
    : option (result unit * APISinkDoFn Wr * W) :=
  match APISink_StartBundle fn with
  | Ok fn =>
      match APISink_records fuel recs fn w with
      | Some (Ok _, fn, w) => APISink_FinishBundle fuel fn w
      | out => out
      end
  | Err e => Some (Err e, fn, w)
  | Panic m => Some (Panic m, fn, w)
  end.
End Fn.

(** ** What the function relies on

    A call of the storage; a writer that is ready keeps its contract over them. *)
Inductive storageStep {W} `{StorageWriter W} : W -> W -> Prop :=
  | ss_create u w : storageStep w (snd (CreateTemp u w))
  | ss_write t d w : storageStep w (snd (FileWrite t d w))
  | ss_close t w : storageStep w (snd (FileClose t w))
  | ss_commit t u w : storageStep w (snd (CommitTemp t u w))
  | ss_abort t w : storageStep w (snd (AbortTemp t w)).

(** [wr_ready wr0 wr w]: the writer [wr], which was [wr0] before some calls, can be used
    in [w]. [wr_accepts wr0 b s w w']: between [w] and [w'] the API accepted the batch;
    [wr_refuses wr0 b s w w' failed]: it did not, and these are the dead letters of the
    batch. A call returns, publishes nothing, and either the API accepted the whole batch
    or there is a dead letter for every record. *)
Class BatchWriterLaws (Wr W : Type) `{BatchAPIWriter Wr W, StorageLaws W} := {
  wr_ready : Wr -> Wr -> W -> Prop;
  wr_accepts : Wr -> list (option GenericRecord) -> Schema -> W -> W -> Prop;
  wr_refuses : Wr -> list (option GenericRecord) -> Schema -> W -> W -> list DeadLetterRecord -> Prop;
  ready_storage wr0 wr w w' : wr_ready wr0 wr w -> storageStep w w' -> wr_ready wr0 wr w';
  writeBatch_law wr0 wr w b s : wr_ready wr0 wr w -> b <> [] ->
    exists fuel r wr' w', (forall m, (fuel <= m)%nat -> WriteBatch m wr b (Some s) w = Some (r, wr', w'))
    /\ wr_ready wr0 wr' w' /\ visible w' = visible w
    /\ match r with
       | Ok (sent, failed) => (sent = b /\ failed = [] /\ wr_accepts wr0 b s w w')
                              \/ (sent = [] /\ length failed = length b /\ wr_refuses wr0 b s w w' failed)
       | _ => True
       end }.

(** ** Lemmas: dead letters *)
Section Letters.
Context {W : Type} `{AtomicCommit W, ShardNames W, UnicodeLower, GoMarshal DeadLetterRecord}.
Implicit Types failed : list DeadLetterRecord.

Lemma writeLetters_spec t failed : forall w b, staged w t = Some b ->
  let '(e, w') := writeLetters t failed w in
  rtc storageStep w w' /\ visible w' = visible w
  /\ match e with
     | Some _ => True
     | None => exists datas, linesOf failed datas /\ staged w' t = Some (b ++ concat (map jsonLine datas))
     end.
Proof.
  induction failed as [|rec failed IH]; intros w b Hb; cbn [writeLetters].
  { split; [reflexivity|]. split; [done|]. exists []. split; [constructor|]. simpl. by rewrite app_nil_r. }
  assert (forall v b, staged v t = Some b -> rtc storageStep w v -> visible v = visible w ->
    rtc storageStep w (snd (AbortTemp t (snd (FileClose t v)))) /\ visible (snd (AbortTemp t (snd (FileClose t v)))) = visible w) as Habort.
  { intros v b' Hs Hst Hv. pose proof (close_spec t v b' Hs) as [Hv1 Hs1]. pose proof (abort_spec t b' _ Hs1) as Hv2.
    split; [|congruence]. transitivity v; [exact Hst|]. eapply rtc_l; [apply ss_close|]. apply rtc_once, ss_abort. }
  destruct (marshalJSON rec) as [data|e] eqn:Em.
  2: { destruct (Habort w b Hb) as [K1 K2]; [reflexivity|done|]. by split. }
  pose proof (write_spec t (data ++ [newline]) w b Hb) as Hw. pose proof (ss_write t (data ++ [newline]) w) as Hst.
  destruct (FileWrite t (data ++ [newline]) w) as [[n e] w1]. destruct Hw as (Hv & Hn & Hs & He). simpl in Hst.
  destruct e as [e|].
  { destruct (Habort w1 _ Hs) as [K1 K2]; [by apply rtc_once|done|]. by split. }
  rewrite (He eq_refl), take_ge in Hs by (unfold zlen; lia).
  pose proof (IH w1 _ Hs) as K. destruct (writeLetters t failed w1) as [e w2]. destruct K as (K1 & K2 & K3).
  split; [by eapply rtc_l|]. split; [congruence|]. destruct e as [e|]; [done|]. destruct K3 as (datas & Hd & Hs2).
  exists (data :: datas). split; [by constructor|]. rewrite Hs2. simpl. unfold jsonLine. by rewrite <- !app_assoc.
Qed.

Lemma writeDLQ_spec path failed w : finalOK (dlqURI path w) ->
  let '(e, w') := writeDLQ path failed w in
  rtc storageStep w w'
  /\ match e with
     | Some _ => visible w' = visible w
     | None => exists datas, linesOf failed datas
               /\ visible w' = <[dlqURI path w := concat (map jsonLine datas)]> (visible w)
     end.
Proof.
  intros Hok. unfold writeDLQ. pose proof (create_spec _ w Hok) as [Hv Hc]. pose proof (ss_create (dlqURI path w) w) as Hst.
  destruct (CreateTemp (dlqURI path w) w) as [[t|e] w1]; simpl in *; [|split; [by apply rtc_once|done]].
  destruct Hc as [_ Hs]. pose proof (writeLetters_spec t failed w1 [] Hs) as K.
  destruct (writeLetters t failed w1) as [e w2]. destruct K as (K1 & K2 & K3).
  assert (rtc storageStep w w2) as Hst2 by (by eapply rtc_l).
  destruct e as [e|]; [split; [done|congruence]|]. destruct K3 as (datas & Hd & Hs2).
  pose proof (close_spec t w2 _ Hs2) as [Hv3 Hs3]. pose proof (ss_close t w2) as Hst3.
  destruct (FileClose t w2) as [e w3]. simpl in *.
  assert (rtc storageStep w w3) as Hst4 by (by eapply rtc_r).
  destruct e as [e|].
  { split; [eapply rtc_r; [done|apply ss_abort]|]. rewrite (abort_spec t _ w3 Hs3). congruence. }
  pose proof (commit_spec t (dlqURI path w) w3 _ Hok Hs3) as Hcm. pose proof (ss_commit t (dlqURI path w) w3) as Hst5.
  pose proof (fun e => commit_atomic t (dlqURI path w) w3 _ e Hok Hs3) as Hat.
  destruct (CommitTemp t (dlqURI path w) w3) as [e w4]. simpl in *. split; [by eapply rtc_r|].
  destruct e as [e|]; [rewrite (Hat e eq_refl); congruence|]. exists datas. split; [done|]. rewrite Hcm. simpl. congruence.
Qed.
End Letters.

(** ** Lemmas: the batches of a bundle *)
Section Bundles.
Context {Wr W : Type} `{BatchWriterLaws Wr W, !AtomicCommit W, ShardNames W, UnicodeLower, GoMarshal DeadLetterRecord}.
Context (path : string) (schema : Schema) (wr0 : Wr).

(** What a run of batches leaves, with the files it published in order: the API accepted
    a batch whole, or it refused the batch and a file with the JSON of each of the batch's
    dead letters, a line each, has been published under the name drawn then. *)
Inductive settled : W -> list (list (option GenericRecord)) -> list (string * list byte) -> W -> Prop :=
  | st_nil w : settled w [] [] w
  | st_sent w w1 w' b bs pub :
      wr_accepts wr0 b schema w w1 -> visible w1 = visible w ->
      settled w1 bs pub w' -> settled w (b :: bs) pub w'
  | st_letters w v w1 w' b bs pub failed datas content :
      wr_refuses wr0 b schema w v failed -> length failed = length b -> linesOf failed datas ->
      content = concat (map jsonLine datas) ->
      visible w1 = <[dlqURI path v := content]> (visible w) ->
      settled w1 bs pub w' -> settled w (b :: bs) ((dlqURI path v, content) :: pub) w'.

(** The files there are at the end: a later one of a name replaces an earlier one. *)
Definition publish (fs : gmap string (list byte)) (pub : list (string * list byte)) : gmap string (list byte) :=
  foldl (fun fs p => <[p.1 := p.2]> fs) fs pub.
Lemma settled_visible w bs pub w' : settled w bs pub w' -> visible w' = publish (visible w) pub.
Proof. induction 1 as [|? ? ? ? ? ? _ Hv _ ->|? ? ? ? ? ? ? ? ? ? _ _ _ _ Hv _ ->]; [done|by rewrite Hv|]. by rewrite Hv. Qed.
Lemma publish_other fs pub u : u ∉ pub.*1 -> publish fs pub !! u = fs !! u.
Proof.
  revert fs. induction pub as [|[v c] pub IH]; intros fs Hu; [done|].
  apply not_elem_of_cons in Hu as [Hv Hu]. cbn [publish foldl] in *. rewrite IH by done. by apply lookup_insert_ne.
Qed.
(** Files of distinct names are all there. *)
Lemma publish_distinct fs pub : NoDup pub.*1 -> Forall (fun p => publish fs pub !! p.1 = Some p.2) pub.
Proof.
  revert fs. induction pub as [|[v c] pub IH]; intros fs Hd; [constructor|].
  apply NoDup_cons in Hd as [Hv Hd]. apply Forall_cons. split; [|by apply IH].
  cbn [publish foldl]. rewrite (publish_other _ pub v) by done. apply lookup_insert_eq.
Qed.

Lemma ready_steps wr w w' : wr_ready wr0 wr w -> rtc storageStep w w' -> wr_ready wr0 wr w'.
Proof. intros Hr Hs. induction Hs as [|x y z Hxy _ IH]; [done|]. apply IH. by eapply ready_storage. Qed.

Context (fn : APISinkDoFn Wr) (Hschema : as_Schema fn = schema) (Hdlq : as_dlqSink fn = true)
  (Hpath : as_DLQPath fn = path /\ path <> "") (Hfinal : forall w, finalOK (dlqURI path w)).

Lemma flushBatch_spec wr w b : wr_ready wr0 wr w -> b <> [] ->
  exists fuel r wr' w', (forall m, (fuel <= m)%nat -> flushBatch m fn b (Some wr, w) = Some (r, (Some wr', w')))
  /\ wr_ready wr0 wr' w'
  /\ match r with
     | Ok _ => exists new, forall bs pub w'', settled w' bs pub w'' -> settled w (b :: bs) (new ++ pub) w''
     | _ => visible w' = visible w
     end.
Proof.
  intros Hr Hb. destruct (writeBatch_law wr0 wr w b schema Hr Hb) as (fuel & r & wr' & w' & Hw & Hr' & Hv & K).
  assert (forall m, flushBatch m fn b (Some wr, w) = (fun '(r, wr, w) =>
    match r with
    | Panic m => (Panic m, (Some wr, w))
    | Err e => (Err e, (Some wr, w))
    | Ok (_, failed) =>
        if 0 <? zlen failed then
          let '(e, w) := writeDLQ path failed w in
          (match e with Some e => Err (Errorf ("failed writing API DLQ records: " +:+ Error e) [e]) | None => Ok tt end, (Some wr, w))
        else (Ok tt, (Some wr, w))
    end) <$> WriteBatch m wr b (Some schema) w) as Hf.
  { intros m. unfold flushBatch. destruct b as [|x b]; [done|]. rewrite Hdlq. destruct Hpath as [-> Hne].
    apply String.eqb_neq in Hne. rewrite Hne, Hschema. destruct (WriteBatch _ _ _ _ _) as [[[[[s f]| |] ?] ?]|]; [|done..].
    simpl. by rewrite !andb_true_r. }
  destruct r as [[sent failed]|e|msg].
  - destruct K as [(-> & -> & Ha)|(-> & Hlen & Hrf)].
    + exists fuel, (Ok tt), wr', w'. split; [intros m Hm; by rewrite Hf, Hw|]. split; [done|].
      exists []. intros bs pub w'' Hs. by eapply st_sent.
    + pose proof (writeDLQ_spec path failed w' (Hfinal w')) as Kd.
      destruct (writeDLQ path failed w') as [e w2] eqn:Ed. destruct Kd as [Hst Kd].
      exists fuel, (match e with Some e => Err (Errorf ("failed writing API DLQ records: " +:+ Error e) [e]) | None => Ok tt end), wr', w2.
      split; [|split; [by eapply ready_steps|]].
      * intros m Hm. rewrite Hf, Hw by done. simpl. rewrite Ed.
        assert (0 < zlen failed) as Hpos by (unfold zlen; destruct b; simpl in *; [done|lia]).
        by rewrite (proj2 (Z.ltb_lt _ _) Hpos).
      * destruct e as [e|]; [congruence|]. destruct Kd as (datas & Hd & Hv2).
        exists [(dlqURI path w', concat (map jsonLine datas))]. intros bs pub w'' Hs.
        eapply (st_letters w w' w2); try done. by rewrite Hv2, Hv.
  - exists fuel, (Err e), wr', w'. split; [intros m Hm; by rewrite Hf, Hw|]. by split.
  - exists fuel, (Panic msg), wr', w'. split; [intros m Hm; by rewrite Hf, Hw|]. by split.
Qed.

Lemma flushEach_spec bs : forall wr w, wr_ready wr0 wr w -> Forall (fun b => b <> []) bs ->
  exists fuel r wr' w', (forall m, (fuel <= m)%nat -> flushEach (flushBatch m fn) bs (Some wr, w) = Some (r, (Some wr', w')))
  /\ exists done rest pub w1, bs = done ++ rest /\ settled w done pub w1 /\ visible w' = visible w1
     /\ match r with Ok _ => rest = [] /\ w' = w1 /\ wr_ready wr0 wr' w' | _ => rest <> [] end.
Proof.
  induction bs as [|b bs IH]; intros wr w Hr Hall.
  { exists 0%nat, (Ok tt), wr, w. split; [done|]. exists [], [], [], w. split_and!; try done. constructor. }
  apply Forall_cons in Hall as [Hb Hall].
  destruct (flushBatch_spec wr w b Hr Hb) as (f1 & r1 & wr1 & w1 & Hf1 & Hr1 & K1).
  destruct r1 as [[]|e|msg].
  - destruct K1 as [new K1].
    destruct (IH wr1 w1 Hr1 Hall) as (f2 & r & wr2 & w2 & Hf2 & done1 & rest & pub & w3 & E & Hs & Hv & Hm).
    exists (f1 `max` f2)%nat, r, wr2, w2. split.
    { intros m Hle. cbn [flushEach]. rewrite Hf1, Hf2 by lia. done. }
    exists (b :: done1), rest, (new ++ pub), w3. split; [by rewrite E|]. split; [by apply K1|]. done.
  - exists f1, (Err e), wr1, w1. split; [intros m Hm; cbn [flushEach]; by rewrite Hf1|].
    exists [], (b :: bs), [], w. split_and!; try done. constructor.
  - exists f1, (Panic msg), wr1, w1. split; [intros m Hm; cbn [flushEach]; by rewrite Hf1|].
    exists [], (b :: bs), [], w. split_and!; try done. constructor.
Qed.
End Bundles.

(** A bundle is a run of the buffer. *)
Lemma APISink_records_addAll {Wr W} `{BatchAPIWriter Wr W, StorageWriter W, ShardNames W, UnicodeLower, GoMarshal DeadLetterRecord}
    fuel recs : forall (fn : APISinkDoFn Wr) b (w : W), as_buffer fn = Some b ->
  APISink_records fuel recs fn w = onBuffer fn (addItems (Some (flushBatch fuel fn)) b recs (as_writer fn, w)).
Proof.
  induction recs as [|r recs IH]; intros fn b w Hb.
  { cbn [APISink_records addItems]. unfold onBuffer. cbn. by destruct fn; simpl in *; subst. }
  cbn [APISink_records addItems]. unfold APISink_ProcessElement. rewrite Hb.
  destruct (Add (Some (flushBatch fuel fn)) b r (as_writer fn, w)) as [[[[[]|e|m] b'] [wr w']]|]; try done.
  cbn [onBuffer fmap option_fmap option_map]. rewrite (IH _ b') by done. done.
Qed.
Lemma APISink_bundle_runBuffer {Wr W} `{BatchAPIWriter Wr W, StorageWriter W, ShardNames W, UnicodeLower, GoMarshal DeadLetterRecord}
    fuel recs (fn fn1 : APISinkDoFn Wr) b (w : W) : APISink_StartBundle fn = Ok fn1 -> as_buffer fn1 = Some b ->
  APISink_bundle fuel recs fn w = onBuffer fn1 (runBuffer (Some (flushBatch fuel fn1)) b recs (as_writer fn1, w)).
Proof.
  intros Hs Hb. unfold APISink_bundle. rewrite Hs, (APISink_records_addAll fuel recs fn1 b w Hb).
  unfold runBuffer. destruct (addItems _ b recs _) as [[[[[]|e|m] b'] [wr w']]|]; try done.
Qed.

(** ** The HTTP writer keeps the contract *)
Section Rest.
Context {W U : Type} `{HTTPWorldLaws W U, !NetLog W U, GoURL U, FloatCvt, GoPow, CryptoRand, GoQuote, MapOrder, GoMarshal apiPayload}.
Context `{StorageLaws W}.
Context (readFirst : bool) (carrier : gmap string string).

(** The network publishes nothing, and the storage neither answers requests nor turns
    the clock back. *)
Class SharedWorld : Prop := {
  wait_visible d (w : W) : visible (snd (waitFor d w)) = visible w;
  trip_visible q (w : W) : visible (snd (roundTrip q w)) = visible w;
  store_net (w w' : W) : storageStep w w' -> now w <= now w' /\ answered w' = answered w }.
Context `{!SharedWorld}.

#[export] Instance restWriter : BatchAPIWriter APISink W := APISink_WriteBatch readFirst carrier.

(** The API accepted the batch: the last request answered is the prepared request with
    the payload of the batch, carries the credentials, and was answered by a status below
    400 that is not 429. *)
Definition restAccepts (s0 : APISink) (b : list (option GenericRecord)) (schema : Schema) (w w' : W) : Prop :=
  exists body q l resp,
    marshalJSON (payloadOf (sk_options s0) (itemsOf b schema)) = inl body
    /\ sinkRequest s0 body = inl q
    /\ answered w' = answered w ++ l ++ [(prepareRequest carrier (sk_client s0) q, resp)]
    /\ rq_body (prepareRequest carrier (sk_client s0) q) = body
    /\ authorized (sk_client s0) (prepareRequest carrier (sk_client s0) q)
    /\ StatusCode resp < 400.
(** The API refused the payload, by its last answer, of status 400 or more, or by an error
    of the client. *)
Definition restRefused (s0 : APISink) (w w' : W) (body : list byte) (msg : string) : Prop :=
  (exists q l resp, sinkRequest s0 body = inl q
     /\ answered w' = answered w ++ l ++ [(prepareRequest carrier (sk_client s0) q, resp)]
     /\ 400 <= StatusCode resp
     /\ msg = "API returned HTTP status " +:+ FormatInt (StatusCode resp) +:+ " " +:+ Status resp +:+ ": "
              +:+ str (fst (rs_body resp)))
  \/ exists e, msg = "HTTP " +:+ Method (sk_options s0) +:+ " failed: " +:+ Error e.
(** A refused batch: there is one dead letter per record, with the payload of the batch, the
    message of the refusal, the URL and the time. *)
Definition restRefuses (s0 : APISink) (b : list (option GenericRecord)) (schema : Schema) (w w' : W)
    (failed : list DeadLetterRecord) : Prop :=
  exists body msg,
    marshalJSON (payloadOf (sk_options s0) (itemsOf b schema)) = inl body
    /\ length failed = length b
    /\ Forall (fun d => RawPayload d = str body /\ ErrorMessage d = msg /\ FailedColumn d = ""
                /\ SourceFile d = EpBaseURL (sk_endpoint s0) +:+ ResourcePath (sk_options s0)
                /\ FailedAt d = now w') failed
    /\ restRefused s0 w w' body msg.
Definition restReady (s0 s : APISink) (w : W) : Prop :=
  sk_endpoint s = sk_endpoint s0 /\ sk_options s = sk_options s0
  /\ cl_cfg (sk_client s) = cl_cfg (sk_client s0) /\ cl_secrets (sk_client s) = cl_secrets (sk_client s0)
  /\ limiter_ok (cl_limiter (sk_client s)) w.

(** What the calls of [Do] keep: what is published, and what has been answered. *)
Definition netRun (w w' : W) : Prop := visible w' = visible w /\ exists l, answered w' = answered w ++ l.
#[local] Instance netRun_pre : PreOrder netRun.
Proof.
  split.
  - intros w. split; [done|]. exists []. by rewrite app_nil_r.
  - intros w1 w2 w3 [V1 [l1 E1]] [V2 [l2 E2]]. split; [congruence|]. exists (l1 ++ l2). by rewrite E2, E1, app_assoc.
Qed.
Lemma netRun_wait d w : netRun w (snd (waitFor d w)).
Proof. split; [apply wait_visible|]. exists []. by rewrite app_nil_r, answered_wait. Qed.
Lemma netRun_trip q w : netRun w (snd (roundTrip q w)).
Proof.
  split; [apply trip_visible|]. pose proof (answered_trip q w) as K. destruct (roundTrip q w) as [[r rest] w']. simpl.
  destruct K as [_ K]. destruct r as [resp|e]; [destruct K as [-> _]; by eexists|]. exists []. by rewrite app_nil_r.
Qed.

Lemma prepareRequest_same c c' q : cl_cfg c' = cl_cfg c -> cl_secrets c' = cl_secrets c ->
  prepareRequest (U := U) carrier c' q = prepareRequest carrier c q.
Proof. intros Hc Hs. unfold prepareRequest, injectAuth, resolveSecret. by rewrite Hc, Hs. Qed.
Lemma sinkRequest_body s body (q : Request U) : sinkRequest s body = inl q -> rq_body q = body /\ rq_length q = zlen body.
Proof. unfold sinkRequest, NewRequest. intros K. repeat case_match; by simplify_eq. Qed.
Lemma prepareRequest_body c (q : Request U) : rq_body (prepareRequest carrier c q) = rq_body q.
Proof. unfold prepareRequest, injectAuth. repeat case_match; done. Qed.

Lemma restWriteBatch_law s0 s w b schema : restReady s0 s w -> b <> [] ->
  exists fuel r s' w', (forall m, (fuel <= m)%nat -> WriteBatch m s b (Some schema) w = Some (r, s', w'))
  /\ restReady s0 s' w' /\ visible w' = visible w
  /\ match r with
     | Ok (sent, failed) => (sent = b /\ failed = [] /\ restAccepts s0 b schema w w')
                            \/ (sent = [] /\ length failed = length b /\ restRefuses s0 b schema w w' failed)
     | _ => True
     end.
Proof.
  intros Hr Hb. pose proof Hr as (He & Ho & Hc & Hs & Hl).
  destruct b as [|r0 b]; [done|]. clear Hb. set (batch := r0 :: b).
  unfold WriteBatch, restWriter, APISink_WriteBatch. fold batch.
  destruct (marshalJSON (payloadOf (sk_options s) (itemsOf batch schema))) as [body|e] eqn:Em.
  2: { exists 0%nat. do 3 eexists. split; [done|]. by split. }
  destruct (sinkRequest s body) as [q|e] eqn:Eq.
  2: { exists 0%nat. do 3 eexists. split; [done|]. by split. }
  destruct (Do_total readFirst carrier q (sk_client s) w Hl) as (fuel & resp & sent & c' & w' & Hdo & Kc & Ks & Kl & Kn).
  destruct (sinkRequest_body _ _ _ Eq) as [Hbody Hlen].
  destruct (Do_run netRun netRun_wait netRun_trip readFirst carrier fuel q (sk_client s) w resp sent c' w')
    as ([Hv _] & Hok); [by rewrite Hlen, Hbody|by apply Hdo|].
  exists fuel, (batchResult s batch body resp (now w')), (withSinkClient s c'), w'.
  split; [intros m Hm; by rewrite Hdo|].
  split; [split_and!; simpl; congruence || done|]. split; [done|].
  assert (sinkRequest s0 body = inl q) as Eq0.
  { revert Eq. unfold sinkRequest, targetURL. by rewrite He, Ho. }
  assert (forall msg, restRefuses s0 batch schema w w' (batchFailed s batch body msg (now w'))
    <-> restRefused s0 w w' body msg) as Hrefuse.
  { intros msg. unfold restRefuses. rewrite <- Ho, Em. split.
    - intros (body' & msg' & [= <-] & _ & Hall & K). apply Forall_cons in Hall as [(_ & <- & _) _]. exact K.
    - intros K. exists body, msg. split; [done|]. split; [apply length_map|]. split; [|exact K].
      apply Forall_forall. intros d (r & -> & _)%list_elem_of_fmap. cbn. unfold targetURL.
      by rewrite He. }
  destruct resp as [resp|e|m]; [| |done]; cbn [batchResult].
  2: { right. split; [done|]. split; [apply length_map|]. apply Hrefuse. right. exists e. by rewrite Ho. }
  destruct Hok as (w1 & rest & [_ [l El]] & Ert). pose proof (answered_trip (prepareRequest carrier (sk_client s) q) w1) as K.
  rewrite Ert in K. destruct K as (_ & Ka & _).
  rewrite (prepareRequest_same (sk_client s0) (sk_client s)) in Ka by done.
  assert (answered w' = answered w ++ l ++ [(prepareRequest carrier (sk_client s0) q, resp)]) as Ea
    by (by rewrite Ka, El, <- app_assoc).
  destruct (Z.leb_spec 400 (StatusCode resp)).
  { right. split; [done|]. split; [apply length_map|]. apply Hrefuse. left. by exists q, l, resp. }
  left. split; [done|]. split; [done|]. exists body, q, l, resp. rewrite <- Ho.
  split_and!; try done; [by rewrite prepareRequest_body|apply injectAuth_authorized].
Qed.

#[export] Instance restLaws : BatchWriterLaws APISink W.
Proof.
  refine {| wr_ready := restReady; wr_accepts := restAccepts; wr_refuses := restRefuses |}.
  - intros s0 s w w' (He & Ho & Hc & Hs & Hl) Hst. split_and!; try done.
    apply (limiter_later _ w); [done|]. by apply store_net.
  - intros. by apply restWriteBatch_law.
Defined.
End Rest.

(** ** Properties *)

(** The target size of the buffer a bundle starts with. *)
Definition bufferSize {Wr} (fn : APISinkDoFn Wr) : Z :=
  let n := SinkBatchSize (as_Options fn) in
  match as_buffer fn with
  | None => if n <=? 0 then 100 else n
  | Some b => if 0 <? n then n else bb_size b
  end.
Lemma StartBundle_size {Wr} (fn : APISinkDoFn Wr) : bufferSize fn <= maxCells ->
  APISink_StartBundle fn = Ok (as_with fn (as_writer fn) (as_dlqSink fn) (Some (mkBuffer (bufferSize fn) []))).
Proof.
  intros Hk. unfold APISink_StartBundle, bufferSize, newBuffer, NewBundleBatchBuffer, Reset, makeItems in *.
  destruct (as_buffer fn) as [b|]; rewrite (proj2 (Z.ltb_ge maxCells _) Hk); done.
Qed.

Lemma bundle_settled {Wr W} `{BatchWriterLaws Wr W, !AtomicCommit W, ShardNames W, UnicodeLower, GoMarshal DeadLetterRecord}
    (fn : APISinkDoFn Wr) (wr : Wr) (recs : list (option GenericRecord)) (w : W) :
  as_writer fn = Some wr -> wr_ready wr wr w -> as_dlqSink fn = true -> as_DLQPath fn <> "" ->
  (forall v, finalOK (dlqURI (as_DLQPath fn) v)) -> 0 < bufferSize fn <= maxCells ->
  exists fuel r w', (forall m, (fuel <= m)%nat -> exists fn', APISink_bundle m recs fn w = Some (r, fn', w'))
  /\ exists done rest pub w1, batches (Z.to_nat (bufferSize fn)) recs = done ++ rest
     /\ settled (as_DLQPath fn) (as_Schema fn) wr w done pub w1 /\ visible w' = visible w1
     /\ match r with Ok _ => rest = [] /\ w' = w1 | _ => rest <> [] end.
Proof.
  intros Hwr Hr Hd Hp Hok Hk.
  set (fn1 := as_with fn (as_writer fn) (as_dlqSink fn) (Some (mkBuffer (bufferSize fn) []))).
  destruct (flushEach_spec (as_DLQPath fn) (as_Schema fn) wr fn1 eq_refl Hd (conj eq_refl Hp) Hok
    (batches (Z.to_nat (bufferSize fn)) recs) wr w Hr) as (fuel & r & wr' & w' & Hf & done1 & rest & pub & w1 & E & Hs & Hv & Hm).
  { destruct (batches_spec (Z.to_nat (bufferSize fn)) recs) as (_ & Hall & _); [lia|].
    eapply Forall_impl; [exact Hall|]. intros b Hb ->. simpl in Hb. lia. }
  exists fuel, r, w'. split.
  - intros m Hle.
    rewrite (APISink_bundle_runBuffer m recs fn fn1 (mkBuffer (bufferSize fn) []) w (StartBundle_size fn (proj2 Hk)) eq_refl).
    pose proof (addAll_batches (flushBatch m fn1) recs (mkBuffer (bufferSize fn) []) (Some wr, w) (proj1 Hk)) as K.
    simpl bb_items in K. simpl bb_size in K. specialize (K ltac:(change (zlen []) with 0; lia)). rewrite Hf in K by done.
    change (as_writer fn1) with (as_writer fn). rewrite Hwr.
    destruct (runBuffer _ _ recs _) as [[[r1 b'] [wr1 w2]]|]; [|discriminate]. simpl in K. injection K as -> -> ->.
    by eexists.
  - exists done1, rest, pub, w1. split_and!; try done. destruct r; try done. by destruct Hm as (-> & -> & _).
Qed.

(** C12. A bundle of the API sink ends, whatever the API and the storage do, and accounts
    for every record of the batches it finished, in order: a batch was accepted whole by the
    API (one request with the payload of the batch and the credentials, answered by a status
    below 400), or refused, and then a file was published with one line per record, the JSON
    of a dead letter that holds the payload of the batch and the message of the refusal. The
    files at the end are those there were and the published ones put in order: files of
    distinct names are all there, and a later file of the same name replaces an earlier one
    ([dead_letters_overwritten]). An error or a panic is reported exactly when a batch is
    left over, and that batch publishes nothing. *)
Theorem API_sink_bundle
    {W U : Type} `{HTTPWorldLaws W U, !NetLog W U, GoURL U, FloatCvt, GoPow, CryptoRand, GoQuote, MapOrder, GoMarshal apiPayload}
    `{AtomicCommit W, !SharedWorld (W := W) (U := U), ShardNames W, UnicodeLower, GoMarshal DeadLetterRecord}
    (readFirst : bool) (carrier : gmap string string)
    (fn : APISinkDoFn APISink) (s : APISink) (recs : list (option GenericRecord)) (w : W) :
  as_writer fn = Some s -> limiter_ok (cl_limiter (sk_client s)) w ->
  as_dlqSink fn = true -> as_DLQPath fn <> "" -> (forall v : W, finalOK (dlqURI (as_DLQPath fn) v)) ->
  0 < bufferSize fn <= maxCells ->
  exists fuel r w', (forall m, (fuel <= m)%nat -> exists fn', APISink_bundle (H := restWriter readFirst carrier) m recs fn w = Some (r, fn', w'))
  /\ exists done rest pub w1, batches (Z.to_nat (bufferSize fn)) recs = done ++ rest
     /\ settled (H := restWriter readFirst carrier) (H2 := restLaws readFirst carrier) (as_DLQPath fn) (as_Schema fn) s w done pub w1
     /\ visible w' = foldl (fun fs p => <[p.1 := p.2]> fs) (visible w) pub
     /\ (NoDup pub.*1 -> Forall (fun p => visible w' !! p.1 = Some p.2) pub)
     /\ match r with Ok _ => rest = [] /\ w' = w1 | _ => rest <> [] end.
Proof.
  intros Hw Hl Hd Hp Hok Hk.
  destruct (bundle_settled (H := restWriter readFirst carrier) (H2 := restLaws readFirst carrier) fn s recs w
    Hw ltac:(by split_and!) Hd Hp Hok Hk) as (fuel & r & w' & Hrun & done1 & rest & pub & w1 & E & Hs & Hv & Hm).
  exists fuel, r, w'. split; [done|]. exists done1, rest, pub, w1.
  assert (visible w' = publish (visible w) pub) as Hp1 by (rewrite Hv; by eapply settled_visible).
  split_and!; try done. rewrite Hp1. apply publish_distinct.
Qed.

(** ** Findings and witnesses *)
Section Samples.
#[local] Instance wUUID : GoUUID := fun _ => "0".
#[local] Instance wUUIDLaw : GoUUIDLaw.
Proof. intros n. apply (bool_decide_unpack _). vm_compute. exact I. Qed.
#[local] Instance wQuote : GoQuote := fun s => s.
#[local] Instance wDur : GoDuration := fun _ => "".
#[local] Instance wCvt : FloatCvt := fun _ => 0.
#[local] Instance wPow : GoPow := fun _ _ => of_int 1.
#[local] Instance wRand : CryptoRand := fun _ => Some 0.
#[local] Instance wLower : UnicodeLower := fun s => s.
#[local] Instance wURL : GoURL string := {| urlParse s := inl (s, ""); urlString u _ := u |}.
#[local] Instance wLetters : GoMarshal DeadLetterRecord := fun d => inl (bytes (RawPayload d)).
(** The payload of a batch, here the number of its items. *)
#[local] Instance wPayload : GoMarshal apiPayload := fun p =>
  inl (bytes match p with
             | PItems l => FormatInt (zlen l)
             | PEnvelope n l => n +:+ FormatInt (zlen l)
             | PSingle _ => "one"
             end).

(** A disk, and an API that answers with the statuses of a script, then with 200. *)
Record site := mkSite { disk : Disk; clk : Z; seen : list (Request string * Response); script : list Z }.
Definition withDisk (s : site) (d : Disk) : site := mkSite d (clk s) (seen s) (script s).
Definition onDisk {A} (f : Disk -> A * Disk) (s : site) : A * site :=
  let '(a, d) := f (disk s) in (a, withDisk s d).
#[local] Instance siteStorage : StorageWriter site := {|
  CreateTemp u := onDisk (CreateTemp u); FileWrite t p := onDisk (FileWrite t p); FileClose t := onDisk (FileClose t);
  CommitTemp t u := onDisk (CommitTemp t u); AbortTemp t := onDisk (AbortTemp t) |}.
#[local] Instance siteLaws : StorageLaws site.
Proof.
  refine {| visible s := visible (disk s); staged s := staged (disk s); finalOK := finalOK (W := Disk) |}; simpl; unfold onDisk.
  - intros u w Hu. pose proof (create_spec u (disk w) Hu) as K. simpl in K. by destruct (Local_CreateTemp u (disk w)).
  - intros t p w b Hb. pose proof (write_spec t p (disk w) b Hb) as K. simpl in K. by destruct (file_Write t p (disk w)) as [[n e] d].
  - intros t w b Hb. pose proof (close_spec t (disk w) b Hb) as K. simpl in K. by destruct (file_Close (disk w)).
  - intros t u w b Hu Hb. pose proof (commit_spec t u (disk w) b Hu Hb) as K. simpl in K. by destruct (Local_CommitTemp t u (disk w)).
  - intros t b w Hb. pose proof (abort_spec t b (disk w) Hb) as K. simpl in K. by destruct (Local_AbortTemp t (disk w)).
Defined.
#[local] Instance siteAtomic : AtomicCommit site.
Proof.
  intros t u w b e Hu Hb He. pose proof (commit_atomic t u (disk w) b e Hu Hb) as K. simpl in *. unfold onDisk in *.
  by destruct (Local_CommitTemp t u (disk w)); apply K.
Qed.
#[local] Instance siteNames : ShardNames site :=
  {| shardID s := if Nat.even (drawn (disk s)) then "a" else "b"; unixNano _ := 0 |}.
Definition siteSend (q : Request string) (s : site) : (Response + error) * list byte * site :=
  if negb (zlen (rq_body q) =? rq_length q) then (inr (Sentinel "http: ContentLength mismatch"), rq_body q, s)
  else
    let '(code, codes) := match script s with [] => (200, []) | c :: cs => (c, cs) end in
    let resp := mkResponse code "" ∅ ([], None) in
    (inl resp, [], mkSite (disk s) (clk s) (seen s ++ [(q, resp)]) codes).
#[local] Instance siteNet : HTTPWorld site string := {|
  now := clk; ctxErr _ := None;
  waitFor d s := (None, mkSite (disk s) (clk s + Z.max 1 d) (seen s) (script s));
  roundTrip := siteSend |}.
#[local] Instance siteNetLaws : HTTPWorldLaws site string.
Proof.
  split; simpl.
  - intros. lia.
  - intros d w w' [= <-]. simpl. lia.
  - intros q w. unfold siteSend. destruct (negb _); [done|]. by destruct (script w).
Qed.
#[local] Instance siteLog : NetLog site string.
Proof.
  refine {| answered := seen |}; simpl; [done|]. intros q w. unfold siteSend.
  destruct (Z.eqb_spec (zlen (rq_body q)) (rq_length q)) as [E|E]; simpl; [|split; [by exists []|done]].
  destruct (script w) as [|c cs]; (split; [exists (rq_body q); by rewrite app_nil_r|done]).
Defined.
#[local] Instance siteShared : SharedWorld (W := site) (U := string).
Proof.
  split; simpl; [done| |].
  - intros q w. unfold siteSend. destruct (negb _); [done|]. by destruct (script w).
  - intros w w' Hs. destruct Hs as [u w|t d w|t w|t u w|t w]; simpl; unfold onDisk;
      [destruct (Local_CreateTemp u (disk w))|destruct (file_Write t d (disk w))|destruct (file_Close (disk w))
      |destruct (Local_CommitTemp t u (disk w))|destruct (Local_AbortTemp t (disk w))]; simpl; (split; [lia|done]).
Qed.

Definition sampleOptions (n : Z) : APISinkOptions := mkAPISink "/v1" "POST" n "" 0 0 0.
Definition sampleWriter : APISink := NewAPISink 0 (mkEndpoint "http://h" "ref" AuthBearer ∅) (sampleOptions 2) "s3cret".
Definition sampleFn (path : string) (wr : option APISink) : APISinkDoFn APISink :=
  mkAPISinkFn (sk_endpoint sampleWriter) (sampleOptions 2) (schemaOf []) path "s3cret" wr true None.
Definition sampleRecs (n : nat) : list (option GenericRecord) := replicate n (Some (NewGenericRecord "r" 0)).
Definition start (codes : list Z) : site := mkSite (mkDisk ∅ [] 0) 0 [] codes.
Definition runSample (fn : APISinkDoFn APISink) (n : nat) (s : site) :=
  (fun '(r, _, s) => (r, files (disk s), seen s)) <$>
    APISink_bundle (H := restWriter false ∅) 10 (sampleRecs n) fn s.

(** A function with no writer, as on a worker where nobody set the factory, drops its
    records and reports no error. *)
Lemma no_writer_drops_records :
  runSample (APISink_Setup true None (sampleFn "/dlq" None)) 3 (start []) = Some (Ok tt, ∅, []).
Proof. vm_compute. reflexivity. Qed.

(** With a dead-letter path that has an extension every flush publishes under the same
    name: of five records the API refused, one dead letter is left. *)
Lemma dead_letters_overwritten :
  match runSample (sampleFn "/dlq/errors.jsonl" (Some sampleWriter)) 5 (start [400; 400; 400]) with
  | Some (Ok _, fs, s) => fs = {[ "/dlq/errors.jsonl" := bytes "1" ++ [newline] ]} /\ length s = 3%nat
  | _ => False
  end.
Proof. vm_compute. split; reflexivity. Qed.

Lemma sample_names_ok (v : site) : finalOK (dlqURI "/dlq" v).
Proof.
  unfold dlqURI. simpl. destruct (Nat.even (drawn (disk v))); (split; [vm_compute; discriminate|reflexivity]).
Qed.
Lemma sample_limiter : limiter_ok (cl_limiter (sk_client sampleWriter)) (start [400]).
Proof.
  refine (proj1 (NewHTTPClient_healthy (cl_cfg (sk_client sampleWriter)) {[ "ref" := "s3cret" ]} (start [400]) (50 * 2 ^ 1074) _ _ _ _)).
  - apply of_int_isF. lia.
  - transitivity (2 ^ 1074); [apply pow2_le; lia|]. pose proof (Z.pow_pos_nonneg 2 1074). lia.
  - vm_compute. discriminate.
  - vm_compute. discriminate.
Qed.
Lemma API_sink_bundle_witness :
  exists fuel r w' done rest pub w1,
    (exists fn', APISink_bundle (H := restWriter false ∅) fuel (sampleRecs 3) (sampleFn "/dlq" (Some sampleWriter)) (start [400])
                 = Some (r, fn', w'))
    /\ [sampleRecs 2; sampleRecs 1] = done ++ rest
    /\ settled (H := restWriter false ∅) (H2 := restLaws false ∅) "/dlq" (schemaOf []) sampleWriter (start [400]) done pub w1
    /\ (NoDup pub.*1 -> Forall (fun p => visible w' !! p.1 = Some p.2) pub)
    /\ match r with Ok _ => rest = [] /\ w' = w1 | _ => rest <> [] end.
Proof.
  destruct (API_sink_bundle false ∅ (sampleFn "/dlq" (Some sampleWriter)) sampleWriter (sampleRecs 3) (start [400])
    eq_refl sample_limiter eq_refl ltac:(discriminate) sample_names_ok ltac:(vm_compute; split; [reflexivity|discriminate]))
    as (fuel & r & w' & Hrun & done & rest & pub & w1 & E & Hs & _ & Hp & Hm).
  exists fuel, r, w', done, rest, pub, w1. split; [by apply Hrun|]. split; [exact E|]. split; [exact Hs|].
  split; [exact Hp|exact Hm].
Defined.
End Samples.
