(* ===== verification/BigQuery.v ===== *)
(** * The BigQuery sink

    Models [internal/adapters/bigquery/serializer.go] and [client.go], and
    [internal/beam/bigquery/sink_dofn.go]: rows as JSON, the writer that keeps the offsets
    of its streams, and the function that batches the rows of a bundle with the adaptive
    sizer, over any writer: what it hands over is read off a log of the calls. The latency of a flush and the heap in use are read from a state [W]. The
    counters of the runner are not modelled. *)
From S2P Require Import Prelude GoStr Float64 Schema Wire RecordModel Config Resilience BatchBuffer.

(** ** [SerializeRecordToJSONProto] *)
Section Serializer.
Context `{GoFormatFloat, GoJSON, GoQuote}.

Fixpoint serializeFields (rec : GenericRecord) (i : Z) (fs : list Field) (first : bool) (buf : string)
    : string + error :=
  match fs with
  | [] => inl buf
  | f :: fs' =>
      match Get rec i with
      | Some v =>
          if negb (IsNull v) then
            let buf := if first then buf else buf +:+ "," in
            serializeFields rec (i + 1) fs' false (WriteJSON v (buf +:+ jsonString (Schema.Name f) +:+ ":"))
          else if Nullable f then serializeFields rec (i + 1) fs' first buf
          else inr (Errorf ("non-nullable field " +:+ Quote (Schema.Name f) +:+ " is null") [])
      | None =>
          if Nullable f then serializeFields rec (i + 1) fs' first buf
          else inr (Errorf ("non-nullable field " +:+ Quote (Schema.Name f) +:+ " is null") [])
      end
  end.
Definition SerializeRecordToJSONProto (rec : option GenericRecord) (schema : option Schema) : string + error :=
  match rec, schema with
  | Some rec, Some schema =>
      match serializeFields rec 0 (Fields schema) true "{" with
      | inl buf => inl (buf +:+ "}")
      | inr e => inr e
      end
  | _, _ => inr (Errorf "record and schema are required" [])
  end.
End Serializer.

(** ** [ports.BigQueryWriter] and [StorageWriteAdapter] *)
Class BigQueryWriter (Wr : Type) := {
  OpenStream : string -> string -> string -> Wr -> (string + error) * Wr;
  AppendRecords : string -> Z -> list (option GenericRecord) -> option Schema -> Wr ->
                  result (Z * list DeadLetterRecord) * Wr;
  CommitStream : string -> Wr -> option error * Wr }.

Record StorageWriteAdapter := mkAdapter { openStreams : gmap string Z; committed : gmap string bool }.
Definition NewStorageWriteAdapter : StorageWriteAdapter := mkAdapter ∅ ∅.

(** [fmt.Sprintf("%v", rec.Values)], and [time.Time{}] in nanoseconds since the epoch. *)
Class GoSprintValues := sprintValues : list FieldValue -> string.
Definition zeroTime : Z := -62135596800 * Second.

Section Adapter.
Context `{GoFormatFloat, GoJSON, GoQuote, GoSprintValues}.

Definition Adapter_OpenStream (projectID datasetID tableID : string) (a : StorageWriteAdapter)
    : (string + error) * StorageWriteAdapter :=
  let name := "projects/" +:+ projectID +:+ "/datasets/" +:+ datasetID +:+ "/tables/" +:+ tableID
              +:+ "/streams/_pending_" +:+ FormatInt (Z.of_nat (size (openStreams a)) + 1) in
  (inl name, mkAdapter (<[name := 0]> (openStreams a)) (committed a)).

Definition rowLetter (rec : GenericRecord) (e : error) : DeadLetterRecord :=
  mkDeadLetterRecord (sprintValues (RecordModel.Values rec)) ("bigquery: row serialization failed: " +:+ Error e) ""
    (default "" (AuditFields rec !! "_source_file")) zeroTime.
Fixpoint appendRows (records : list (option GenericRecord)) (schema : option Schema) (written : Z)
    (dlqs : list DeadLetterRecord) : result (Z * list DeadLetterRecord) :=
  match records with
  | [] => Ok (written, dlqs)
  | rec :: records' =>
      match SerializeRecordToJSONProto rec schema, rec with
      | inl _, _ => appendRows records' schema (written + 1) dlqs
      | inr e, Some r => appendRows records' schema written (dlqs ++ [rowLetter r e])
      | inr _, None => Panic "invalid memory address or nil pointer dereference"
      end
  end.
Definition Adapter_AppendRecords (streamName : string) (offset : Z) (records : list (option GenericRecord))
    (schema : option Schema) (a : StorageWriteAdapter) : result (Z * list DeadLetterRecord) * StorageWriteAdapter :=
  match openStreams a !! streamName with
  | None => (Err (Errorf ("stream " +:+ Quote streamName +:+ " not found") []), a)
  | Some off =>
      match appendRows records schema 0 [] with
      | Ok (written, dlqs) =>
          let newOffset := i64 (off + written) in
          (Ok (newOffset, dlqs), mkAdapter (<[streamName := newOffset]> (openStreams a)) (committed a))
      | Err e => (Err e, a)
      | Panic m => (Panic m, a)
      end
  end.
Definition Adapter_CommitStream (streamName : string) (a : StorageWriteAdapter) : option error * StorageWriteAdapter :=
  match openStreams a !! streamName with
  | None => (Some (Errorf ("stream " +:+ Quote streamName +:+ " not found for commit") []), a)
  | Some _ => (None, mkAdapter (openStreams a) (<[streamName := true]> (committed a)))
  end.
#[export] Instance adapterWriter : BigQueryWriter StorageWriteAdapter := {|
  OpenStream := Adapter_OpenStream; AppendRecords := Adapter_AppendRecords; CommitStream := Adapter_CommitStream |}.
End Adapter.

(** ** [BigQuerySinkDoFn] *)
Record BigQuerySink (Wr : Type) := mkBQ {
  bq_Config : BigQuerySinkConfig; bq_Schema : Schema; bq_writer : option Wr; bq_sizer : option AdaptiveBatchSizer;
  bq_stream : string; bq_buffer : list (option GenericRecord); bq_rowCount : Z; bq_emit : bool }.
Arguments mkBQ {Wr} _ _ _ _ _ _ _ _.
Arguments bq_Config {Wr} _.
Arguments bq_Schema {Wr} _.
Arguments bq_writer {Wr} _.
Arguments bq_sizer {Wr} _.
Arguments bq_stream {Wr} _.
Arguments bq_buffer {Wr} _.
Arguments bq_rowCount {Wr} _.
Arguments bq_emit {Wr} _.

(** The heap in use and the latency a flush measures. *)
Class FlushGauge (W : Type) := measure : W -> (Z * Z) * W.

Section Sink.
Context {Wr W : Type} `{BigQueryWriter Wr, FlushGauge W, GoQuote}.
Implicit Types fn : BigQuerySink Wr.

Definition minBatch (cfg : BigQuerySinkConfig) : Z := orInt (BqBatchSize cfg) DefaultBigQueryBatchSize.
Definition newSizer (cfg : BigQuerySinkConfig) : AdaptiveBatchSizer :=
  NewAdaptiveBatchSizer (minBatch cfg) (i64 (minBatch cfg * Schema.DefaultAdaptiveMaxBatchFactor)).
Definition NewBigQuerySinkDoFn (w : option Wr) (cfg : BigQuerySinkConfig) (schema : Schema) : BigQuerySink Wr :=
  mkBQ cfg schema w (Some (newSizer cfg)) "" [] 0 false.

(** The fields a flush changes. *)
Definition bq_with fn (writer : option Wr) (sizer : option AdaptiveBatchSizer) (stream : string)
    (buffer : list (option GenericRecord)) : BigQuerySink Wr :=
  mkBQ (bq_Config fn) (bq_Schema fn) writer sizer stream buffer (bq_rowCount fn) (bq_emit fn).

Definition BigQuery_Setup (provider : option (string -> Wr + error)) fn : option error * BigQuerySink Wr :=
  let sizer := match bq_sizer fn with Some s => s | None => newSizer (bq_Config fn) end in
  let with_ w := mkBQ (bq_Config fn) (Index (bq_Schema fn)) w (Some sizer) (bq_stream fn) (bq_buffer fn)
                   (bq_rowCount fn) (bq_emit fn) in
  match bq_writer fn, provider with
  | None, Some acquire =>
      match acquire (ProjectID (bq_Config fn)) with
      | inr e => (Some (Errorf ("BigQuerySinkDoFn.Setup: failed acquiring writer: " +:+ Error e) [e]), with_ None)
      | inl w => (None, with_ (Some w))
      end
  | w, _ => (None, with_ w)
  end.

Definition BigQuery_StartBundle fn : result (BigQuerySink Wr) :=
  let n := minBatch (bq_Config fn) in
  if n <? 0 then Panic "runtime error: makeslice: cap out of range"
  else buffer ← makeItems n;
       Ok (mkBQ (bq_Config fn) (bq_Schema fn) (bq_writer fn) (bq_sizer fn) "" buffer 0 false).

(** [flushBuffer]; the dead letters are those it emits, when there is an emitter. *)
Definition openedStream fn (wr : Wr) : (string + error) * Wr :=
  if bq_stream fn =s ""
  then OpenStream (ProjectID (bq_Config fn)) (DatasetID (bq_Config fn)) (TableID (bq_Config fn)) wr
  else (inl (bq_stream fn), wr).
Definition flushBuffer (emit : bool) fn (w : W) : result unit * list DeadLetterRecord * BigQuerySink Wr * W :=
  match bq_buffer fn, bq_writer fn with
  | [], _ => (Ok tt, [], fn, w)
  | _, None => (Err (Errorf "bigquery: writer not initialized (call Setup first)" []), [], fn, w)
  | rows, Some wr =>
      match openedStream fn wr with
      | (inr e, wr) =>
          (Err (Errorf ("bigquery: OpenStream failed: " +:+ Error e) [e]), [],
           bq_with fn (Some wr) (bq_sizer fn) (bq_stream fn) rows, w)
      | (inl name, wr) =>
          let '(r, wr) := AppendRecords name 0 rows (Some (bq_Schema fn)) wr in
          let '((heap, latency), w) := measure w in
          let sizer := RecordFlush heap latency <$> bq_sizer fn in
          match r with
          | Panic m => (Panic m, [], bq_with fn (Some wr) (bq_sizer fn) name rows, w)
          | Err e =>
              (Err (Errorf ("bigquery: AppendRecords to stream " +:+ Quote name +:+ " failed: " +:+ Error e) [e]), [],
               bq_with fn (Some wr) sizer name rows, w)
          | Ok (_, dlqs) => (Ok tt, if emit then dlqs else [], bq_with fn (Some wr) sizer name [], w)
          end
      end
  end.

Definition targetBatch fn : Z :=
  match bq_sizer fn with Some s => CurrentBatchSize s | None => minBatch (bq_Config fn) end.
Definition BigQuery_ProcessElement (rec : option GenericRecord) (emit : bool) fn (w : W)
    : result unit * list DeadLetterRecord * BigQuerySink Wr * W :=
  let fn := mkBQ (bq_Config fn) (bq_Schema fn) (bq_writer fn) (bq_sizer fn) (bq_stream fn)
              (bq_buffer fn ++ [rec]) (i64 (bq_rowCount fn + 1)) (bq_emit fn || emit) in
  if targetBatch fn <=? zlen (bq_buffer fn) then flushBuffer emit fn w else (Ok tt, [], fn, w).
Definition BigQuery_FinishBundle fn (w : W) : result unit * list DeadLetterRecord * BigQuerySink Wr * W :=
  let '(r, dlqs, fn, w) := flushBuffer (bq_emit fn) fn w in
  match r with
  | Ok _ =>
      if negb (bq_stream fn =s "") && (0 <? bq_rowCount fn) then
        match bq_writer fn with
        | None => (Panic "invalid memory address or nil pointer dereference", dlqs, fn, w)
        | Some wr =>
            let '(e, wr) := CommitStream (bq_stream fn) wr in
            (match e with
             | Some e => Err (Errorf ("bigquery: CommitStream " +:+ Quote (bq_stream fn) +:+ " failed: " +:+ Error e) [e])
             | None => Ok tt
             end, dlqs, bq_with fn (Some wr) (bq_sizer fn) (bq_stream fn) (bq_buffer fn), w)
        end
      else (Ok tt, dlqs, fn, w)
  | _ => (r, dlqs, fn, w)
  end.
Definition BigQuery_Drain fn (w : W) : result unit * list DeadLetterRecord * BigQuerySink Wr * W :=
  BigQuery_FinishBundle fn w.

(** The calls of one bundle, with an emitter; the first error ends it. *)
Fixpoint BigQuery_records (recs : list (option GenericRecord)) fn (w : W)
    : result unit * list DeadLetterRecord * BigQuerySink Wr * W :=
  match recs with
  | [] => (Ok tt, [], fn, w)
  | rec :: recs' =>
      let '(r, dlqs, fn, w) := BigQuery_ProcessElement rec true fn w in
      match r with
      | Ok _ => let '(r, dlqs', fn, w) := BigQuery_records recs' fn w in (r, dlqs ++ dlqs', fn, w)
      | _ => (r, dlqs, fn, w)
      end
  end.
Definition BigQuery_bundle (recs : list (option GenericRecord)) fn (w : W)
    : result unit * list DeadLetterRecord * BigQuerySink Wr * W :=
  match BigQuery_StartBundle fn with
  | Ok fn =>
      let '(r, dlqs, fn, w) := BigQuery_records recs fn w in
      match r with
      | Ok _ => let '(r, dlqs', fn, w) := BigQuery_FinishBundle fn w in (r, dlqs ++ dlqs', fn, w)
      | _ => (r, dlqs, fn, w)
      end
  | Err e => (Err e, [], fn, w)
  | Panic m => (Panic m, [], fn, w)
  end.
End Sink.

(** ** The calls of a writer

    A writer that keeps the calls made to it and the answers it gave, over any other. *)
Inductive bqCall :=
  | COpen (projectID datasetID tableID : string) (answer : string + error)
  | CAppend (stream : string) (offset : Z) (rows : list (option GenericRecord)) (schema : option Schema)
            (answer : result (Z * list DeadLetterRecord))
  | CCommit (stream : string) (answer : option error).
Record Logged (Wr : Type) := mkLogged { inner : Wr; calls : list bqCall }.
Arguments mkLogged {Wr} _ _.
Arguments inner {Wr} _.
Arguments calls {Wr} _.
#[export] Instance loggedWriter {Wr} `{BigQueryWriter Wr} : BigQueryWriter (Logged Wr) := {|
  OpenStream p d t l :=
    let '(a, wr) := OpenStream p d t (inner l) in (a, mkLogged wr (calls l ++ [COpen p d t a]));
  AppendRecords n off rows sch l :=
    let '(a, wr) := AppendRecords n off rows sch (inner l) in (a, mkLogged wr (calls l ++ [CAppend n off rows sch a]));
  CommitStream n l :=
    let '(a, wr) := CommitStream n (inner l) in (a, mkLogged wr (calls l ++ [CCommit n a])) |}.

(** ** Lemmas: a bundle of rows *)
Section Bundle.
Context {Wr W : Type} `{BigQueryWriter Wr, FlushGauge W, GoQuote}.
Context (named : forall p d t (wr : Wr), fst (OpenStream p d t wr) <> inl "").
Context (schema : Schema) (cfg : BigQuerySinkConfig).

(** An accepted batch, with the offset and the dead letters of the answer. *)
Definition answeredBatch : Type := list (option GenericRecord) * (Z * list DeadLetterRecord).
Definition rowsIn (bs : list answeredBatch) : list (option GenericRecord) := concat (map fst bs).
Definition lettersIn (bs : list answeredBatch) : list DeadLetterRecord := concat (map (fun b => snd (snd b)) bs).
Definition openCall (a : string + error) : bqCall := COpen (ProjectID cfg) (DatasetID cfg) (TableID cfg) a.
Definition appendCall (name : string) (b : answeredBatch) : bqCall := CAppend name 0 (fst b) (Some schema) (Ok (snd b)).
(** The calls that had those batches accepted. *)
Definition sentCalls (name : string) (bs : list answeredBatch) : list bqCall :=
  openCall (inl name) :: map (appendCall name) bs.

Lemma rowsIn_app l k : rowsIn (l ++ k) = rowsIn l ++ rowsIn k.
Proof. unfold rowsIn. by rewrite map_app, concat_app. Qed.
Lemma lettersIn_app l k : lettersIn (l ++ k) = lettersIn l ++ lettersIn k.
Proof. unfold lettersIn. by rewrite map_app, concat_app. Qed.

(** Of the rows [done], those of [bs] have been accepted and the rest is in the buffer. *)
Record bundleAt (fn : BigQuerySink (Logged Wr)) (done : list (option GenericRecord)) (name : string)
    (bs : list answeredBatch) : Prop := {
  ba_config : bq_Config fn = cfg /\ bq_Schema fn = schema;
  ba_rows : done = rowsIn bs ++ bq_buffer fn;
  ba_batches : Forall (fun b => fst b <> []) bs;
  ba_count : bq_rowCount fn = zlen done;
  ba_emit : done <> [] -> bq_emit fn = true;
  ba_stream : bq_stream fn = match bs with [] => "" | _ => name end;
  ba_name : name <> "";
  ba_writer : exists wr, bq_writer fn = Some (mkLogged wr (match bs with [] => [] | _ => sentCalls name bs end)) }.
(** The writer did not open the stream, or did not accept the next batch. *)
Definition stoppedAt (fn : BigQuerySink (Logged Wr)) (done : list (option GenericRecord)) (bs : list answeredBatch) : Prop :=
  exists l, bq_writer fn = Some l
  /\ ((bs = [] /\ exists e, calls l = [openCall (inr e)])
      \/ exists name b a, done = rowsIn bs ++ b /\ b <> [] /\ is_Ok a = false
           /\ calls l = sentCalls name bs ++ [CAppend name 0 b (Some schema) a]).

(** What is left of the rows, and the call that failed. *)
Lemma stopped_call fn done bs rest : stoppedAt fn done bs ->
  exists l name rest', bq_writer fn = Some l /\ done ++ rest = rowsIn bs ++ rest'
  /\ ((bs = [] /\ exists e, calls l = [openCall (inr e)])
      \/ (exists b rest2 a, rest' = b ++ rest2 /\ b <> [] /\ is_Ok a = false
           /\ calls l = sentCalls name bs ++ [CAppend name 0 b (Some schema) a])).
Proof.
  intros (l & Hl & [[-> Ho]|(name & b & a & -> & Hne & Ha & Hc)]).
  - exists l, "", (done ++ rest). split; [done|]. split; [done|]. by left.
  - exists l, name, (b ++ rest). split; [done|]. split; [by rewrite app_assoc|]. right. by exists b, rest, a.
Qed.

Lemma openedStream_spec fn done name bs : bundleAt fn done name bs ->
  exists l, bq_writer fn = Some l /\
  match openedStream fn l with
  | (inr e, l') => bs = [] /\ calls l' = [openCall (inr e)]
  | (inl name', l') => name' <> "" /\ (bs <> [] -> name' = name) /\ calls l' = sentCalls name' bs
  end.
Proof.
  intros [[Hcfg _] _ _ _ _ Hstr Hne (wr & Hwr)]. eexists. split; [exact Hwr|].
  unfold openedStream. rewrite Hstr, Hcfg. destruct bs as [|b bs].
  - cbn [String.eqb]. unfold OpenStream, loggedWriter. cbn [inner calls].
    pose proof (named (ProjectID cfg) (DatasetID cfg) (TableID cfg) wr) as Hn.
    destruct (OpenStream (ProjectID cfg) (DatasetID cfg) (TableID cfg) wr) as [[n|e] wr']; cbn in *; [|done].
    split_and!; [congruence|done|done].
  - rewrite (proj2 (String.eqb_neq _ _)) by done. done.
Qed.

Lemma flushBuffer_spec fn done name bs w : bundleAt fn done name bs ->
  let '(r, letters, fn', w') := flushBuffer true fn w in
  match r with
  | Ok _ => exists name' new, letters = lettersIn new /\ bundleAt fn' done name' (bs ++ new) /\ bq_buffer fn' = []
  | _ => letters = [] /\ stoppedAt fn' done bs
  end.
Proof.
  intros Hat. pose proof Hat as [[Hcfg Hsch] Hrows Hbs Hcnt Hemit Hstr Hne (wr & Hwr)]. unfold flushBuffer.
  destruct (bq_buffer fn) as [|r p] eqn:Hbuf.
  { exists name, []. by rewrite app_nil_r. }
  destruct (openedStream_spec fn done name bs Hat) as (l & Hl & K). rewrite Hl.
  destruct (openedStream fn l) as [[name'|e] l1].
  2: { split; [done|]. exists l1. split; [done|]. left. destruct K as [-> K]. eauto. }
  destruct K as (Hne' & Heq & Hc). destruct l1 as [wr1 cs]. cbn [calls] in Hc. subst cs.
  unfold AppendRecords, loggedWriter. cbn [inner calls]. rewrite Hsch.
  destruct (AppendRecords name' 0 (r :: p) (Some schema) wr1) as [a wr2].
  destruct (measure w) as [[heap latency] w'].
  destruct a as [[off letters]|e|m].
  - exists name', [(r :: p, (off, letters))]. split; [unfold lettersIn; cbn; by rewrite app_nil_r|].
    split; [|done]. split; cbn [bq_with bq_Config bq_Schema bq_buffer bq_rowCount bq_emit bq_stream bq_writer]; try done.
    + rewrite rowsIn_app, app_nil_r. rewrite Hrows. unfold rowsIn at 3. cbn. by rewrite app_nil_r.
    + apply Forall_app. split; [done|]. by repeat constructor.
    + by destruct bs.
    + exists wr2. do 2 f_equal. unfold sentCalls. rewrite map_app. by destruct bs.
  - split; [done|]. eexists. split; [reflexivity|]. right. by exists name', (r :: p), (Err e).
  - split; [done|]. eexists. split; [reflexivity|]. right. by exists name', (r :: p), (Panic m).
Qed.

Lemma ProcessElement_spec fn done name bs rec w : bundleAt fn done name bs -> zlen done + 1 < 2 ^ 62 ->
  let '(r, letters, fn', w') := BigQuery_ProcessElement rec true fn w in
  match r with
  | Ok _ => exists name' new, letters = lettersIn new /\ bundleAt fn' (done ++ [rec]) name' (bs ++ new)
  | _ => letters = [] /\ stoppedAt fn' (done ++ [rec]) bs
  end.
Proof.
  intros Hat Hlen. pose proof Hat as [[Hcfg Hsch] Hrows Hbs Hcnt Hemit Hstr Hne Hwr]. unfold BigQuery_ProcessElement.
  set (fn1 := mkBQ _ _ _ _ _ _ _ _). pose proof (zlen_nonneg done) as Hn0.
  assert (bundleAt fn1 (done ++ [rec]) name bs) as Hat1.
  { split; cbn [bq_Config bq_Schema bq_buffer bq_rowCount bq_emit bq_stream bq_writer fn1]; try done.
    - by rewrite Hrows, <- app_assoc.
    - rewrite Hcnt, zlen_app. change (zlen [rec]) with 1. by rewrite i64_small by wordlia.
    - intros _. by rewrite orb_true_r. }
  destruct (targetBatch fn1 <=? zlen (bq_buffer fn1)).
  - pose proof (flushBuffer_spec fn1 _ _ _ w Hat1) as K.
    destruct (flushBuffer true fn1 w) as [[[[u|e|m] letters] fn'] w']; try done.
    destruct K as (name' & new & ? & ? & _). eauto.
  - exists name, []. by rewrite app_nil_r.
Qed.

Lemma records_spec recs : forall fn done name bs w, bundleAt fn done name bs -> zlen done + zlen recs < 2 ^ 62 ->
  let '(r, letters, fn', w') := BigQuery_records recs fn w in
  match r with
  | Ok _ => exists name' new, letters = lettersIn new /\ bundleAt fn' (done ++ recs) name' (bs ++ new)
  | _ => exists new pre rest, recs = pre ++ rest /\ letters = lettersIn new /\ stoppedAt fn' (done ++ pre) (bs ++ new)
         /\ Forall (fun b => fst b <> []) (bs ++ new)
  end.
Proof.
  induction recs as [|rec recs IH]; intros fn done name bs w Hat Hlen; cbn [BigQuery_records].
  { exists name, []. by rewrite !app_nil_r. }
  assert (zlen (rec :: recs) = zlen recs + 1) as El by (unfold zlen; simpl; lia). rewrite El in Hlen.
  pose proof (zlen_nonneg recs).
  pose proof (ProcessElement_spec fn done name bs rec w Hat ltac:(lia)) as K.
  destruct (BigQuery_ProcessElement rec true fn w) as [[[[u|e|m] ls] fn1] w1].
  - destruct K as (name1 & new & -> & Hat1).
    pose proof (IH fn1 _ name1 _ w1 Hat1) as K. rewrite zlen_app in K. change (zlen [rec]) with 1 in K.
    specialize (K ltac:(lia)). destruct (BigQuery_records recs fn1 w1) as [[[r2 ls2] fn2] w2].
    assert (forall l, (done ++ [rec]) ++ l = done ++ rec :: l) as Ea by (intros l; by rewrite <- app_assoc).
    destruct r2 as [u2|e2|m2].
    + destruct K as (name2 & new2 & -> & Hat2). exists name2, (new ++ new2). rewrite lettersIn_app.
      by rewrite Ea, <- app_assoc in Hat2.
    + destruct K as (new2 & pre & rest & -> & -> & Hst & Hall). exists (new ++ new2), (rec :: pre), rest.
      by rewrite lettersIn_app, app_assoc, <- Ea.
    + destruct K as (new2 & pre & rest & -> & -> & Hst & Hall). exists (new ++ new2), (rec :: pre), rest.
      by rewrite lettersIn_app, app_assoc, <- Ea.
  - exists [], [rec], recs. rewrite !app_nil_r. destruct K as [-> K]. by destruct Hat.
  - exists [], [rec], recs. rewrite !app_nil_r. destruct K as [-> K]. by destruct Hat.
Qed.
End Bundle.

(** ** Properties *)

(** C29. What a bundle of the BigQuery sink, of a positive batch size, hands to its writer,
    for every writer, whatever it answers, and whatever batch sizes the latencies and the
    heap lead to. The first call opens one stream; then come non-empty batches on that
    stream, each once, which concatenated are the rows of the bundle from the first on, in
    order; the dead letters that come out are those of the answers, in order. The bundle
    ends without an error exactly when every call did: then all the rows have been handed
    over and the last call committed the stream, or the bundle was empty and made no call.
    Otherwise the call that failed, to open the stream, to append the next batch or to
    commit, is the last one made. The row offset passed is always 0. The only writer of
    the repository counts the rows it is handed and sends them nowhere
    ([adapter_only_counts]); a negative batch size panics ([negative_batch_panics]). *)
Theorem BigQuery_bundle_hands_over
    {Wr W : Type} `{BigQueryWriter Wr, FlushGauge W, GoQuote}
    (fn : BigQuerySink (Logged Wr)) (wr0 : Wr) (recs : list (option GenericRecord)) (w : W) :
  (forall p d t (wr : Wr), fst (OpenStream p d t wr) <> inl "") ->
  bq_writer fn = Some (mkLogged wr0 []) -> 0 < minBatch (bq_Config fn) <= maxCells -> zlen recs < 2 ^ 62 ->
  let '(r, letters, fn', w') := BigQuery_bundle recs fn w in
  let opened a := COpen (ProjectID (bq_Config fn)) (DatasetID (bq_Config fn)) (TableID (bq_Config fn)) a in
  exists (l : Logged Wr) name (bs : list (list (option GenericRecord) * (Z * list DeadLetterRecord))) rest,
    let sent := opened (inl name)
                :: map (fun b => CAppend name 0 (fst b) (Some (bq_Schema fn)) (Ok (snd b))) bs in
    bq_writer fn' = Some l /\ Forall (fun b => fst b <> []) bs
    /\ letters = concat (map (fun b => snd (snd b)) bs) /\ recs = concat (map fst bs) ++ rest
    /\ match r with
       | Ok _ => rest = [] /\ calls l = match recs with [] => [] | _ => sent ++ [CCommit name None] end
       | _ => (bs = [] /\ exists e, calls l = [opened (inr e)])
              \/ (exists b rest' a, rest = b ++ rest' /\ b <> [] /\ is_Ok a = false
                   /\ calls l = sent ++ [CAppend name 0 b (Some (bq_Schema fn)) a])
              \/ (rest = [] /\ exists e, calls l = sent ++ [CCommit name (Some e)])
       end.
Proof.
  intros Hnamed Hw Hb Hlen. unfold BigQuery_bundle, BigQuery_StartBundle, makeItems.
  rewrite (proj2 (Z.ltb_ge _ _)), (proj2 (Z.ltb_ge _ _)) by lia. cbn [mbind result_bind].
  set (fn0 := mkBQ _ _ _ _ _ _ _ _). cbv zeta.
  assert (bundleAt (bq_Schema fn) (bq_Config fn) fn0 [] "none" []) as Hat0 by (split; try done; by exists wr0).
  pose proof (records_spec Hnamed (bq_Schema fn) (bq_Config fn) recs fn0 [] "none" [] w Hat0) as K.
  specialize (K ltac:(change (zlen []) with 0; lia)). cbn [app] in K.
  destruct (BigQuery_records recs fn0 w) as [[[[u|e|m] ls] fn1] w1].
  2, 3: destruct K as (new & pre & rest & Erec & -> & Hst & Hall);
    destruct (stopped_call _ _ fn1 pre new rest Hst) as (l & name & rest' & Hl & Er & Hc);
    rewrite <- Erec in Er;
    exists l, name, new, rest'; split_and!; try done; destruct Hc; auto.
  destruct K as (name & bs & -> & Hat1). unfold BigQuery_FinishBundle.
  destruct recs as [|r recs].
  { destruct Hat1 as [_ Hrows Hbs Hcnt _ Hstr _ (wr & Hwr)]. destruct bs as [|[b ?] bs].
    - cbn in Hrows. unfold flushBuffer. rewrite <- Hrows. cbn. rewrite Hstr. cbn.
      eexists _, "", [], []. by rewrite Hwr.
    - apply Forall_cons in Hbs as [Hb0 _]. unfold rowsIn in Hrows. cbn in Hrows, Hb0.
      by destruct b. }
  rewrite (ba_emit _ _ _ _ _ _ Hat1) by done.
  pose proof (flushBuffer_spec Hnamed _ _ fn1 _ _ _ w1 Hat1) as K.
  destruct (flushBuffer true fn1 w1) as [[[[u2|e2|m2] ls2] fn2] w2].
  2, 3: destruct K as [-> Hst];
    destruct (stopped_call _ _ fn2 (r :: recs) bs [] Hst) as (l & name' & rest' & Hl & Er & Hc);
    rewrite app_nil_r in Er;
    exists l, name', bs, rest'; rewrite app_nil_r; pose proof (ba_batches _ _ _ _ _ _ Hat1);
    split_and!; try done; destruct Hc; auto.
  destruct K as (name2 & new & -> & [_ Hrows Hbs Hcnt _ Hstr Hne (wr & Hwr)] & Hbuf).
  rewrite Hbuf, app_nil_r in Hrows.
  destruct (bs ++ new) as [|b0 bs2] eqn:Ebs; [by unfold rowsIn in Hrows; cbn in Hrows|].
  rewrite Hstr, Hcnt, Hwr, (proj2 (String.eqb_neq _ _)) by done. cbn [negb].
  rewrite (proj2 (Z.ltb_lt 0 _)) by (unfold zlen; simpl; lia). cbn [andb].
  unfold CommitStream, loggedWriter. cbn [inner calls].
  destruct (CommitStream name2 wr) as [e wr'].
  exists (mkLogged wr' (sentCalls (bq_Schema fn) (bq_Config fn) name2 (b0 :: bs2) ++ [CCommit name2 e])), name2, (b0 :: bs2), [].
  assert (lettersIn bs ++ lettersIn new = lettersIn (b0 :: bs2)) as -> by (by rewrite <- lettersIn_app, Ebs).
  rewrite app_nil_r. split_and!; try done. destruct e as [e|]; [right; right|by split].
  split; [done|]. by exists e.
Qed.

(** ** The adapter as a writer *)

(** The dead letters of the rows that do not serialize. *)
Definition letterOf `{GoFormatFloat, GoJSON, GoQuote, GoSprintValues} (schema : Schema) (rec : GenericRecord)
    : option DeadLetterRecord :=
  match SerializeRecordToJSONProto (Some rec) (Some schema) with inl _ => None | inr e => Some (rowLetter rec e) end.

(** The adapter keeps, of the rows it is handed, how many serialized: the offset of the
    stream; it answers the letters of the others. *)
Lemma adapter_only_counts `{GoFormatFloat, GoJSON, GoQuote, GoSprintValues} name off0 off schema recs a :
  openStreams a !! name = Some off0 ->
  AppendRecords name off (map Some recs) (Some schema) a
  = let letters := omap (letterOf schema) recs in
    let offset := i64 (off0 + (zlen recs - zlen letters)) in
    (Ok (offset, letters), mkAdapter (<[name := offset]> (openStreams a)) (committed a)).
Proof.
  intros Ho. unfold AppendRecords, adapterWriter, Adapter_AppendRecords. rewrite Ho.
  assert (forall n ds, appendRows (map Some recs) (Some schema) n ds
    = Ok (n + (zlen recs - zlen (omap (letterOf schema) recs)), ds ++ omap (letterOf schema) recs)) as E.
  { induction recs as [|r recs IH]; intros n ds; cbn [map appendRows].
    { cbn [omap list_omap]. rewrite app_nil_r. change (zlen []) with 0. do 2 f_equal. lia. }
    assert (zlen (r :: recs) = 1 + zlen recs) as El by (unfold zlen; simpl; lia). rewrite El.
    change (omap (letterOf schema) (r :: recs)) with
      (match letterOf schema r with Some d => d :: omap (letterOf schema) recs | None => omap (letterOf schema) recs end).
    unfold letterOf at 1 4.
    destruct (SerializeRecordToJSONProto (Some r) (Some schema)) as [b|e]; rewrite IH.
    - do 2 f_equal. lia.
    - rewrite <- app_assoc. do 2 f_equal. unfold zlen. simpl. lia. }
  by rewrite E.
Qed.
(** The names of its streams are not empty. *)
Lemma adapter_named `{GoFormatFloat, GoJSON, GoQuote, GoSprintValues} p d t (a : StorageWriteAdapter) :
  fst (OpenStream p d t a) <> inl "".
Proof. discriminate. Qed.

(** [make] of a negative capacity panics; validation accepts the size. *)
Lemma negative_batch_panics {Wr W} `{BigQueryWriter Wr, FlushGauge W, GoQuote} (fn : BigQuerySink Wr) recs (w : W) :
  minBatch (bq_Config fn) < 0 ->
  BigQuery_bundle recs fn w = (Panic "runtime error: makeslice: cap out of range", [], fn, w).
Proof.
  intros Hn. unfold BigQuery_bundle, BigQuery_StartBundle. by rewrite (proj2 (Z.ltb_lt _ _) Hn).
Qed.

(** ** Witness *)
Section Samples.
#[local] Instance bqQuote : GoQuote := fun s => s.
#[local] Instance bqFloat : GoFormatFloat := fun _ => "0".
#[local] Instance bqJSON : GoJSON := {| jsonString s := "'" +:+ s +:+ "'"; jsonBytes b := str b |}.
#[local] Instance bqSprint : GoSprintValues := fun vs => FormatInt (zlen vs).
#[local] Instance bqGauge : FlushGauge Z := fun w => ((0, w), w + 1).
Definition sampleBQ : BigQuerySink (Logged StorageWriteAdapter) :=
  NewBigQuerySinkDoFn (Some (mkLogged NewStorageWriteAdapter [])) (mkBigQuery "p" "d" "t" "" 2)
    (schemaOf [mkField "id" TypeInt64 false 0 ""; mkField "s" TypeString true 0 ""]).
Definition sampleRow (v : FieldValue) : GenericRecord := mkGenericRecord "r" [v; nullValue TypeString] ∅.
Example serialize_sample :
  SerializeRecordToJSONProto (Some (mkGenericRecord "r" [int64Value 7; stringValue "x"] ∅)) (Some (bq_Schema sampleBQ))
  = inl "{'id':7,'s':'x'}".
Proof. reflexivity. Qed.
Definition sampleRun :=
  BigQuery_bundle [Some (sampleRow (int64Value 1)); Some (sampleRow (nullValue TypeInt64)); Some (sampleRow (int64Value 3))]
    sampleBQ 0.
Example sampleRun_calls :
  let '(r, letters, fn, _) := sampleRun in
  is_Ok r = true
  /\ map ErrorMessage letters = ["bigquery: row serialization failed: non-nullable field id is null"]
  /\ (fun l => length (calls l)) <$> bq_writer fn = Some 4%nat
  /\ (fun l => openStreams (inner l)) <$> bq_writer fn
     = Some {[ "projects/p/datasets/d/tables/t/streams/_pending_1" := 2 ]}.
Proof. vm_compute. done. Qed.
Lemma BigQuery_bundle_hands_over_witness :
  let '(r, letters, fn', _) := sampleRun in
  exists l name bs, bq_writer fn' = Some l
  /\ [Some (sampleRow (int64Value 1)); Some (sampleRow (nullValue TypeInt64)); Some (sampleRow (int64Value 3))]
     = concat (map fst bs)
  /\ calls l = (COpen "p" "d" "t" (inl name)
                :: map (fun b => CAppend name 0 (fst b) (Some (bq_Schema sampleBQ)) (Ok (snd b))) bs) ++ [CCommit name None].
Proof.
  pose proof (BigQuery_bundle_hands_over sampleBQ NewStorageWriteAdapter
    [Some (sampleRow (int64Value 1)); Some (sampleRow (nullValue TypeInt64)); Some (sampleRow (int64Value 3))] 0
    adapter_named eq_refl ltac:(vm_compute; split; [reflexivity|discriminate]) eq_refl) as K.
  fold sampleRun in K. pose proof sampleRun_calls as Ho. destruct sampleRun as [[[r letters] fn'] w'].
  destruct Ho as [Ho _]. destruct K as (l & name & bs & rest & Hl & _ & _ & Er & K).
  destruct r as [u|e|m]; try discriminate Ho. destruct K as [-> Hc]. rewrite app_nil_r in Er.
  exists l, name, bs. split; [exact Hl|]. split; [exact Er|exact Hc].
Defined.
End Samples.
