(* ===== verification/Csv.v ===== *)
(** * CSV

    Models [internal/adapters/streams/formatters/csv_formatter.go] and
    [internal/adapters/streams/parsers/csv_parser.go], with the writer and the reader of
    [encoding/csv] as the two configure them ([LazyQuotes], [TrimLeadingSpace],
    [FieldsPerRecord = -1]), and shows what the parser reads back of what the
    formatter writes. *)
From S2P Require Import Prelude GoStr Float64 Schema Intern RecordModel Config ByteStream FileSink.

Definition LF : byte := "010".
Definition CR : byte := "013".
Definition quote : byte := "034".

(** ** Bytes and runes *)
(** The UTF-8 encoding of [rune(b)]. *)
Definition runeBytes (b : byte) : list byte :=
  if byte_val b <? 128 then [b]
  else [byte_of (192 + byte_val b / 64); byte_of (128 + byte_val b mod 64)].
(** [validDelim] of [encoding/csv], on the runes below 256. *)
Definition validDelim (b : byte) : bool :=
  negb (bool_decide (b = "000"%char) || bool_decide (b = quote) || bool_decide (b = CR) || bool_decide (b = LF)).
Definition errInvalidDelim : error := Sentinel "csv: invalid field or comment delimiter".

Fixpoint stripPrefix (sep l : list byte) : option (list byte) :=
  match sep, l with
  | [], _ => Some l
  | s :: sep', b :: l' => if bool_decide (s = b) then stripPrefix sep' l' else None
  | _ :: _, [] => None
  end.
(** What precedes and what follows the first occurrence of a separator. *)
Fixpoint cutSep (sep l : list byte) : option (list byte * list byte) :=
  match stripPrefix sep l with
  | Some r => Some ([], r)
  | None =>
      match l with
      | [] => None
      | b :: l' => (fun '(f, r) => (b :: f, r)) <$> cutSep sep l'
      end
  end.
(** A line without its newline. *)
Definition chomp (l : list byte) : list byte :=
  match rev l with
  | b :: r => if bool_decide (b = LF) then rev r else l
  | [] => l
  end.

(** [strings.EqualFold]: on ASCII strings, equality of the lowered letters; other
    strings are folded by the Unicode tables. *)
Class UnicodeFold := foldUnicode : string -> string -> bool.
Definition EqualFold `{UnicodeFold} (s t : string) : bool :=
  if isASCII s && isASCII t then bool_decide (map lowerByte (bytes s) = map lowerByte (bytes t))
  else foldUnicode s t.

(** ** [csv.Reader] *)
Inductive readErr := REOF | RErr (e : error).

Section Reader.
(** What the underlying reader gives after its last byte: an error, or [io.EOF]. *)
Context (broken : option error).

(** [readLine]: the line with its newline, "\r\n" normalized. *)
Definition dropCR (l : list byte) : list byte :=
  match rev l with b :: r => if bool_decide (b = CR) then rev r else l | [] => l end.
Definition readLine (l : list byte) : list byte * option readErr * list byte :=
  let '(line, eof, r) := ReadBytes l in
  if eof then
    match broken with
    | Some e => (line, Some (RErr e), r)
    | None => match line with [] => ([], Some REOF, r) | _ => (dropCR line, None, r) end
    end
  else (dropCR (chomp line) ++ [LF], None, r).

Context (comma : list byte).

(** The loops over the fields of a record. [quoted] is the text read so far of the
    quoted field the reader is in. Each turn consumes a byte or ends. *)
Fixpoint parseFields (fuel : nat) (quoted : option (list byte)) (line : list byte) (err : option readErr)
    (rest : list byte) (fields : list (list byte)) : list (list byte) * option readErr * list byte :=
  match fuel with
  | O => (fields, err, rest)
  | S n =>
      match quoted with
      | None =>
          let line := trimLeft line in
          match stripPrefix [quote] line with
          | Some line => parseFields n (Some []) line err rest fields
          | None =>
              match cutSep comma line with
              | Some (f, line) => parseFields n None line err rest (fields ++ [f])
              | None => (fields ++ [chomp line], err, rest)
              end
          end
      | Some buf =>
          match cutSep [quote] line with
          | Some (f, line) =>
              let buf := buf ++ f in
              match stripPrefix [quote] line with
              | Some line => parseFields n (Some (buf ++ [quote])) line err rest fields
              | None =>
                  match stripPrefix comma line with
                  | Some line => parseFields n None line err rest (fields ++ [buf])
                  | None =>
                      if bool_decide (chomp line = []) then (fields ++ [buf], err, rest)
                      else parseFields n (Some (buf ++ [quote])) line err rest fields
                  end
              end
          | None =>
              match line, err with
              | [], _ => (fields ++ [buf], err, rest)
              | _, Some _ => (fields, err, rest)
              | _, None =>
                  let '(line', err', rest') := readLine rest in
                  let err' := match err' with Some REOF => None | e => e end in
                  parseFields n (Some (buf ++ line)) line' err' rest' fields
              end
          end
      end
  end.

Inductive row := Row (fields : list string) (rest : list byte) | NoRow (e : readErr).
(** [Read]: empty lines are skipped. *)
Fixpoint readRecord (fuel : nat) (l : list byte) : row :=
  match fuel with
  | O => NoRow REOF
  | S n =>
      let '(line, err, rest) := readLine l in
      match err with
      | Some REOF => NoRow REOF
      | _ =>
          if bool_decide (err = None) && bool_decide (chomp line = []) then readRecord n rest
          else
            let '(fields, err, rest) := parseFields (S (S (length line + length rest))) None line err rest [] in
            match err with
            | Some e => NoRow e
            | None => Row (map str fields) rest
            end
      end
  end.
End Reader.

Definition Read (broken : option error) (comma : byte) (l : list byte) : row :=
  if validDelim comma then readRecord broken (runeBytes comma) (S (length l)) l
  else NoRow (RErr errInvalidDelim).

(** ** [csv.Writer], [CSVFormatter] *)
Definition fieldNeedsQuotes (comma : byte) (f : list byte) : bool :=
  match f with
  | [] => false
  | _ =>
      bool_decide (f = bytes "\.")
      || existsb (fun b => bool_decide (b = LF) || bool_decide (b = CR) || bool_decide (b = quote)) f
      || bool_decide (cutSep (runeBytes comma) f <> None)
      || bool_decide (trimLeft f <> f)
  end.
Definition escape (f : list byte) : list byte :=
  concat (map (fun b => if bool_decide (b = quote) then [quote; quote] else [b]) f).
Definition writeField (comma : byte) (f : list byte) : list byte :=
  if fieldNeedsQuotes comma f then [quote] ++ escape f ++ [quote] else f.
Fixpoint writeFields (comma : byte) (first : bool) (cols : list string) : list byte :=
  match cols with
  | [] => []
  | c :: cols' =>
      (if first then [] else runeBytes comma) ++ writeField comma (bytes c) ++ writeFields comma false cols'
  end.
Definition Write (comma : byte) (cols : list string) : list byte + error :=
  if validDelim comma then inl (writeFields comma true cols ++ [LF]) else inr errInvalidDelim.

Record CSVFormatter := mkCSVFormatter { delimiter : byte; includeHeader : bool; lineTerminator : string }.
Definition NewCSVFormatter (opts : FormatOptions) : CSVFormatter :=
  mkCSVFormatter (match bytes (FoDelimiter opts) with b :: _ => b | [] => ","%char end) (IncludeHeader opts)
    (if LineTerminator opts =s "" then str [LF] else LineTerminator opts).
(** [strings.TrimRight(s, "\r\n")] *)
Definition trimNewlines (l : list byte) : list byte :=
  rev (dropWhile (fun b => bool_decide (b = CR) || bool_decide (b = LF)) (rev l)).
Definition formatRow (f : CSVFormatter) (cols : list string) : list byte + error :=
  match Write (delimiter f) cols with
  | inr e => inr e
  | inl buf => inl (trimNewlines buf ++ bytes (lineTerminator f))
  end.
Definition CSV_FormatHeader (f : CSVFormatter) (schema : Schema) : list byte + error :=
  if negb (includeHeader f) || (zlen (Fields schema) =? 0) then inl []
  else formatRow f (map Name (Fields schema)).
Definition cellText `{GoFormatFloat} (rec : GenericRecord) (i : nat) : string :=
  match Get rec (Z.of_nat i) with
  | Some v => if IsNull v then "" else FieldValue_String v
  | None => ""
  end.
Definition CSV_FormatRecord `{GoFormatFloat} (f : CSVFormatter) (rec : option GenericRecord) (schema : Schema)
    : list byte + error :=
  match rec with
  | None => inr (Errorf "record and schema are required" [])
  | Some rec => formatRow f (map (cellText rec) (seq 0 (length (Fields schema))))
  end.
Definition csvFormatter `{GoFormatFloat} (f : CSVFormatter) : RecordFormatter :=
  mkFormatter (CSV_FormatHeader f) (CSV_FormatRecord f).

(** ** [CSVParser] *)
Record CSVParser := mkCSVParser { Delimiter : string; HasHeader : bool }.
Definition NewCSVParser (delimiter : string) (hasHeader : bool) : CSVParser :=
  mkCSVParser (if delimiter =s "" then "," else delimiter) hasHeader.

(** The row is the header: its first cell names the first column. *)
Definition isHeader `{UnicodeFold} (schema : option Schema) (r : list string) : bool :=
  match r, Fields <$> schema with
  | c :: _, Some (f :: _) => EqualFold (TrimSpace c) (Name f)
  | _, _ => false
  end.
Fixpoint fillRow (r : list string) (i : nat) (fs : list Field) (rec : GenericRecord) (p : Pool)
    : result (GenericRecord * Pool) :=
  match fs with
  | [] => Ok (rec, p)
  | f :: fs' =>
      let cell := match r !! i with None => "" | Some c => TrimSpace c end in
      '(rec, p) ←
        (if cell =s "" then (fun r => (r, p)) <$> SetNull rec (Z.of_nat i) (FType f)
         else let '(r, p) := SetString p rec (Z.of_nat i) cell in (fun x => (x, p)) <$> r);
      fillRow r (S i) fs' rec p
  end.
Definition stampSource (sourceFile : string) (rec : GenericRecord) : GenericRecord :=
  mkGenericRecord (SchemaID rec) (Values rec) (<["_source_file" := sourceFile]> (AuditFields rec)).

(** The goroutine of [Decode]: what it sends on its two channels. [ctx k] is the error
    of the context when it is polled before the [k]-th read. A panic ends the program. *)
Section Decode.
Context `{UnicodeFold} (ctx : nat -> option error) (broken : option error)
  (comma : byte) (hasHeader : bool) (schema : option Schema) (sourceFile : string).
Fixpoint decodeRows (fuel k : nat) (l : list byte) (isFirstRow : bool) (p : Pool)
    : result (list GenericRecord * list error * Pool) :=
  match fuel with
  | O => Ok ([], [], p)
  | S n =>
      match ctx k with
      | Some e => Ok ([], [e], p)
      | None =>
          match Read broken comma l with
          | NoRow REOF => Ok ([], [], p)
          | NoRow (RErr e) => Ok ([], [Errorf ("csv read error in " +:+ sourceFile +:+ ": " +:+ Error e) [e]], p)
          | Row r l =>
              if isFirstRow && hasHeader && isHeader schema r then decodeRows n (S k) l false p
              else
                match schema with
                | None => Panic "runtime error: invalid memory address or nil pointer dereference"
                | Some s =>
                    '(rec, p) ← fillRow r 0 (Fields s) (NewGenericRecord sourceFile (length (Fields s))) p;
                    '(recs, errs, p) ← decodeRows n (S k) l false p;
                    Ok (stampSource sourceFile rec :: recs, errs, p)
                end
          end
      end
  end.
End Decode.
Definition CSV_Decode `{UnicodeFold} (ctx : nat -> option error) (parser : CSVParser) (broken : option error)
    (l : list byte) (schema : option Schema) (sourceFile : string) (p : Pool)
    : result (list GenericRecord * list error * Pool) :=
  let comma := match bytes (Delimiter parser) with b :: _ => b | [] => ","%char end in
  decodeRows ctx broken comma (HasHeader parser) schema sourceFile (S (length l)) 0 l true p.

(** ** Samples *)
Definition sampleSchema : Schema :=
  schemaOf [mkField "id" TypeInt64 true 0 ""; mkField "name" TypeString true 0 ""; mkField "city" TypeString true 0 ""].
Definition foldASCII : UnicodeFold := fun s t => s =s t.
Definition decodeSample (delimiter : string) (l : string) : list (list FieldValue) :=
  match CSV_Decode (H := foldASCII) (fun _ => None) (NewCSVParser delimiter true) None (bytes l) (Some sampleSchema) "f" ∅ with
  | Ok (recs, [], _) => map Values recs
  | _ => []
  end.
Definition text (s : string) : list byte :=
  map (fun b => if bool_decide (b = "'"%char) then quote else if bool_decide (b = "/"%char) then LF else b) (bytes s).
Definition str1 (s : string) : FieldValue := stringValue (str (text s)).
Example decode_ex :
  decodeSample ";" (str (text "ID;name;city" ++ CR :: text "//1; 'a;'' b';/2/ "))
  = [[str1 "1"; str1 "a;' b"; nullValue TypeString];
     [str1 "2"; nullValue TypeString; nullValue TypeString];
     [nullValue TypeInt64; nullValue TypeString; nullValue TypeString]].
Proof. vm_compute. reflexivity. Qed.

(** ** Lemmas: lines *)
Lemma chomp_snoc l : chomp (l ++ [LF]) = l.
Proof. unfold chomp. by rewrite rev_unit, bool_decide_true, rev_involutive. Qed.
Lemma chomp_nil l : chomp l = [] -> l = [] \/ l = [LF].
Proof.
  unfold chomp. destruct (rev l) as [|b r] eqn:E; [by left|].
  case_bool_decide as Hb; [|by left]. subst b. intros Hr. right.
  rewrite <- (rev_involutive l), E. simpl. by rewrite Hr.
Qed.
Lemma dropCR_cons x l : (x = CR -> l <> []) -> dropCR (x :: l) = x :: dropCR l.
Proof.
  unfold dropCR. intros Hx. destruct (rev l) as [|b r] eqn:E.
  - assert (l = []) as -> by (by rewrite <- (rev_involutive l), E).
    simpl. case_bool_decide; [by specialize (Hx ltac:(done))|done].
  - assert (rev (x :: l) = b :: (r ++ [x])) as -> by (simpl; by rewrite E).
    case_bool_decide; [by rewrite rev_unit|done].
Qed.
Lemma ReadBytes_line a r : LF ∉ a -> ReadBytes (a ++ LF :: r) = (a ++ [LF], false, r).
Proof.
  induction a as [|x a IH]; intros Ha; cbn; [done|].
  apply not_elem_of_cons in Ha as [Hx Ha]. change ByteStream.newline with LF.
  destruct (ascii_dec x LF) as [->|]; [done|]. by rewrite IH.
Qed.
Lemma line_split l : LF ∈ l -> exists a r, LF ∉ a /\ l = a ++ LF :: r.
Proof.
  intros H. apply list_elem_of_split_l in H as (a & r & -> & Ha). by exists a, r.
Qed.

Section ReaderLemmas.
Context (broken : option error).
Abbreviation readLine := (readLine broken).

Lemma readLine_split a r : LF ∉ a -> readLine (a ++ LF :: r) = (dropCR a ++ [LF], None, r).
Proof. intros Ha. unfold Csv.readLine. by rewrite ReadBytes_line, chomp_snoc. Qed.
Lemma readLine_LF r : readLine (LF :: r) = ([LF], None, r).
Proof. apply (readLine_split []), not_elem_of_nil. Qed.
Lemma readLine_CRLF r : readLine (CR :: LF :: r) = ([LF], None, r).
Proof. apply (readLine_split [CR]). set_solver. Qed.
Lemma readLine_has l : LF ∈ l ->
  exists line r, readLine l = (line ++ [LF], None, r) /\ (length l <= S (length (line ++ [LF]) + length r))%nat.
Proof.
  intros (a & r & Ha & ->)%line_split. exists (dropCR a), r. rewrite readLine_split by done. split; [done|].
  rewrite !length_app. cbn. unfold dropCR. destruct (rev a) as [|b k] eqn:E; [lia|].
  case_bool_decide; [|lia]. rewrite length_rev.
  assert (length (rev a) = S (length k)) as E2 by (by rewrite E). rewrite length_rev in E2. lia.
Qed.
Lemma readLine_cons x l : LF ∈ l -> x <> LF -> (x = CR -> head l <> Some LF) ->
  readLine (x :: l) = (let '(line, e, r) := readLine l in (x :: line, e, r)).
Proof.
  intros (a & r & Ha & ->)%line_split Hx Hc.
  rewrite readLine_split by done.
  change (x :: a ++ LF :: r) with ((x :: a) ++ LF :: r).
  rewrite (readLine_split (x :: a)) by (apply not_elem_of_cons; done).
  rewrite dropCR_cons; [done|]. intros -> ->. by apply Hc.
Qed.

(** ** Lemmas: one record *)
Fixpoint normCRLF (l : list byte) : list byte :=
  match l with
  | [] => []
  | x :: l' => if bool_decide (x = CR) && bool_decide (head l' = Some LF) then normCRLF l' else x :: normCRLF l'
  end.

(** A delimiter the formatter and the parser agree on: an ASCII character that is
    neither white space nor a quotation mark. *)
Definition goodComma (c : byte) : Prop := asciiByte c = true /\ space1 c = false /\ validDelim c = true.
Lemma goodComma_spec c : goodComma c ->
  runeBytes c = [c] /\ c <> LF /\ c <> CR /\ c <> quote.
Proof.
  intros (Ha & _ & Hv). split.
  - unfold runeBytes. unfold asciiByte in Ha. by rewrite Ha.
  - unfold validDelim in Hv. repeat case_bool_decide; try done.
Qed.

Context (c : byte) (Hc : goodComma c).
Abbreviation parseFields := (parseFields broken [c]).

(** The parse of a stream from the start of a line. *)
Definition run (n : nat) (quoted : option (list byte)) (l : list byte) (fields : list (list byte)) :=
  let '(line, err, rest) := readLine l in parseFields n quoted line err rest fields.

Lemma cutSep_here s l : cutSep [s] (s :: l) = Some ([], l).
Proof. simpl. by rewrite bool_decide_true. Qed.
Lemma cutSep_skip s x l : x <> s -> cutSep [s] (x :: l) = (fun '(f, r) => (x :: f, r)) <$> cutSep [s] l.
Proof. intros Hx. simpl. by rewrite bool_decide_false by congruence. Qed.
Lemma cutSep_app s f l : s ∉ f -> cutSep [s] (f ++ s :: l) = Some (f, l).
Proof.
  induction f as [|x f IH]; intros Hf; [apply cutSep_here|].
  apply not_elem_of_cons in Hf as [Hx Hf]. cbn [app]. rewrite cutSep_skip by congruence. by rewrite IH.
Qed.
Lemma cutSep_none s f : s ∉ f -> cutSep [s] f = None.
Proof.
  induction f as [|x f IH]; intros Hf; [done|].
  apply not_elem_of_cons in Hf as [Hx Hf]. rewrite cutSep_skip by congruence. by rewrite IH.
Qed.

(** Reading on inside a quoted field. *)
Lemma quoted_char n buf x line err rest fields : x <> quote -> line <> [] ->
  parseFields n (Some buf) (x :: line) err rest fields = parseFields n (Some (buf ++ [x])) line err rest fields.
Proof.
  intros Hx Hl. destruct n as [|n]; [done|]. cbn [Csv.parseFields].
  rewrite cutSep_skip by done. destruct (cutSep [quote] line) as [[f l]|]; cbn.
  - by rewrite <- !app_assoc.
  - destruct line as [|y line]; [done|]. by rewrite <- !app_assoc.
Qed.
Lemma quoted_run R tl : LF ∈ tl -> forall f n buf fields,
  (forall m, (length tl < m)%nat -> run m (Some (buf ++ normCRLF f)) (quote :: tl) fields = R) ->
  (length (escape f) + length tl < n)%nat -> run n (Some buf) (escape f ++ quote :: tl) fields = R.
Proof.
  intros Htl. induction f as [|x f IH]; intros n buf fields HR Hn.
  { simpl in *. rewrite app_nil_r in HR. apply HR. lia. }
  assert (LF ∈ escape f ++ quote :: tl) as Hin by set_solver.
  destruct (readLine_has _ Hin) as (line & r & El & _).
  unfold escape in *. cbn [map concat] in *. fold (escape f) in *.
  destruct (decide (x = quote)) as [->|Hq].
  { rewrite bool_decide_true in Hn |- * by done. cbn [app length] in *.
    destruct n as [|n]; [lia|]. unfold run.
    rewrite readLine_cons by (done || set_solver).
    rewrite readLine_cons by (done || set_solver). rewrite El.
    cbn [Csv.parseFields]. rewrite cutSep_here. cbn [stripPrefix]. rewrite bool_decide_true by done.
    rewrite app_nil_r.
    pose proof (IH n (buf ++ [quote]) fields) as K. unfold run in K. rewrite El in K. apply K; [|lia].
    intros m Hm. rewrite <- app_assoc. apply HR. lia. }
  rewrite bool_decide_false in Hn |- * by done. cbn [app length] in *.
  destruct (decide (x = LF)) as [->|Hx].
  { destruct n as [|n]; [lia|]. unfold run. rewrite readLine_LF. cbn [Csv.parseFields].
    rewrite cutSep_none by set_solver. rewrite El.
    pose proof (IH n (buf ++ [LF]) fields) as K. unfold run in K. rewrite El in K. apply K; [|lia].
    intros m Hm. rewrite <- app_assoc. apply HR. lia. }
  destruct (decide (x = CR /\ head f = Some LF)) as [[-> Hf]|Hcr].
  { destruct f as [|y f]; [done|]. injection Hf as ->.
    assert (run n (Some buf) (CR :: escape (LF :: f) ++ quote :: tl) fields
            = run n (Some buf) (escape (LF :: f) ++ quote :: tl) fields) as ->.
    { unfold run, escape. cbn [map concat app]. rewrite bool_decide_false by done. cbn [app].
      by rewrite readLine_CRLF, readLine_LF. }
    apply IH; [|lia]. intros m Hm. apply HR. lia. }
  unfold run. rewrite readLine_cons.
  - rewrite El, quoted_char by (done || by destruct line).
    pose proof (IH n (buf ++ [x]) fields) as K. unfold run in K. rewrite El in K. apply K; [|lia].
    intros m Hm. rewrite <- app_assoc. rewrite <- (HR m Hm). f_equal. f_equal. f_equal. cbn [normCRLF app].
    repeat case_bool_decide; try done. by destruct Hcr.
  - done.
  - done.
  - intros ->. destruct f as [|y f]; [done|].
    unfold escape. cbn [map concat]. case_bool_decide as Hy; [by subst|]. cbn. intros [= ->]. by apply Hcr.
Qed.
(** Leading white space. *)
Lemma trimLeft_step a l : trimLeft (a :: l) = a :: l \/ exists k, (length k <= length l)%nat /\ trimLeft (a :: l) = trimLeft k.
Proof.
  cbn [trimLeft]. destruct (space1 a); [right; by exists l|].
  destruct l as [|b l]; [by left|]. destruct (space2 a b); [right; exists l; simpl; split; [lia|done]|].
  destruct l as [|d l]; [by left|]. destruct (space3 a b d); [right; exists l; simpl; split; [lia|done]|by left].
Qed.
Lemma trimLeft_head_ascii d l : asciiByte d = true -> space1 d = false -> trimLeft (d :: l) = d :: l.
Proof.
  intros Ha Hs. cbn [trimLeft]. rewrite Hs. destruct l as [|b l]; [done|]. rewrite space2_ascii by done.
  destruct l as [|e l]; [done|]. by rewrite space3_ascii.
Qed.
Lemma not_space_tail d : asciiByte d = true ->
  (forall a, space2 a d = false) /\ (forall a e, space3 a d e = false) /\ (forall a b, space3 a b d = false).
Proof.
  unfold asciiByte, space2, space3. intros Hd.
  split_and!; intros; repeat rewrite ?andb_false_iff, ?orb_false_iff; rewrite ?Z.eqb_neq, ?Z.leb_gt; lia.
Qed.
Lemma trimLeft_app f d l : f <> [] -> trimLeft f = f -> asciiByte d = true -> trimLeft (f ++ d :: l) = f ++ d :: l.
Proof.
  intros Hf Ht Hd. destruct (not_space_tail d Hd) as (N1 & N2 & N3).
  destruct f as [|a f]; [done|].
  assert (forall k, (length k <= length f)%nat -> trimLeft k <> a :: f) as Hshort.
  { intros k Hk E. pose proof (trimLeft_length k) as L. rewrite E in L. simpl in L. lia. }
  cbn [trimLeft app] in *. destruct (space1 a); [by destruct (Hshort f)|].
  destruct f as [|b f]; cbn [app] in *.
  { rewrite N1. destruct l as [|e l]; [done|]. by rewrite N2. }
  destruct (space2 a b); [destruct (Hshort f); [simpl; lia|done]|].
  destruct f as [|e f]; cbn [app] in *; [by rewrite N3|].
  destruct (space3 a b e); [destruct (Hshort f); [simpl; lia|done]|done].
Qed.

(** A field written without quotation marks. *)
Definition bare (f : list byte) : Prop :=
  LF ∉ f /\ CR ∉ f /\ quote ∉ f /\ c ∉ f /\ trimLeft f = f.
Lemma cutSep_in s f : s ∈ f -> cutSep [s] f <> None.
Proof. intros (a & r & -> & Ha)%list_elem_of_split_l. by rewrite cutSep_app. Qed.
Lemma needs_no_quotes f : fieldNeedsQuotes c f = false -> bare f.
Proof.
  destruct (goodComma_spec c Hc) as (E & _). unfold bare, fieldNeedsQuotes.
  destruct f as [|x f]; [intros; set_solver|]. rewrite E.
  intros ([[_ He]%orb_false_iff Hs]%orb_false_iff & Ht)%orb_false_iff.
  apply bool_decide_eq_false in Hs, Ht.
  assert (forall b, b ∈ x :: f -> b <> LF /\ b <> CR /\ b <> quote) as Hb.
  { intros b Hin. rewrite <- not_true_iff_false, existsb_exists in He.
    split_and!; intros ->; apply He; eexists; (split; [by apply list_elem_of_In|]); done. }
  split_and!; try (intros Hin; by destruct (Hb _ Hin) as (? & ? & ?)).
  - intros Hin. by apply Hs, cutSep_in.
  - destruct (decide (trimLeft (x :: f) = x :: f)); [done|by destruct Ht].
Qed.
Lemma normCRLF_id f : CR ∉ f -> normCRLF f = f.
Proof.
  induction f as [|x f IH]; [done|]. intros [Hx Hf]%not_elem_of_cons. cbn [normCRLF].
  rewrite bool_decide_false by congruence. cbn. by rewrite IH.
Qed.
(** ** Lemmas: fields and rows *)
Lemma readLine_app f l : LF ∉ f -> CR ∉ f -> LF ∈ l ->
  readLine (f ++ l) = (let '(line, e, r) := readLine l in (f ++ line, e, r)).
Proof.
  induction f as [|x f IH]; intros Hf Hr Hl; cbn [app].
  { by destruct (readLine l) as [[? ?] ?]. }
  apply not_elem_of_cons in Hf as [? ?]. apply not_elem_of_cons in Hr as [? ?].
  rewrite readLine_cons by (congruence || set_solver). rewrite IH by done.
  by destruct (readLine l) as [[? ?] ?].
Qed.
Definition ending (t : list byte) : Prop := t = [LF] \/ t = [CR; LF].
Lemma readLine_ending t rest : ending t -> readLine (t ++ rest) = ([LF], None, rest).
Proof. intros [-> | ->]; [apply readLine_LF|apply readLine_CRLF]. Qed.
Lemma quote_ending t rest : ending t -> readLine (quote :: t ++ rest) = ([quote; LF], None, rest).
Proof.
  intros Ht. rewrite readLine_cons; [by rewrite readLine_ending| |done|done].
  destruct Ht as [-> | ->]; set_solver.
Qed.
Lemma open_quote n l fields : LF ∈ l -> run (S n) None (quote :: l) fields = run n (Some []) l fields.
Proof.
  intros Hl. unfold run. rewrite readLine_cons by done. destruct (readLine l) as [[line e] r].
  cbn [Csv.parseFields]. rewrite trimLeft_head_ascii by done. cbn [stripPrefix]. by rewrite bool_decide_true.
Qed.
Lemma bare_open f d line : bare f -> asciiByte d = true -> d <> quote -> f <> [] \/ space1 d = false ->
  trimLeft (f ++ d :: line) = f ++ d :: line /\ stripPrefix [quote] (f ++ d :: line) = None.
Proof.
  intros (_ & _ & Hq & _ & Ht) Hd Hdq Hn. split.
  - destruct (decide (f = [])) as [->|]; [|by apply trimLeft_app].
    apply trimLeft_head_ascii; [done|]. by destruct Hn.
  - destruct f as [|x f]; cbn; rewrite bool_decide_false; try done; try congruence.
    apply not_elem_of_cons in Hq as [? _]. congruence.
Qed.
Lemma field_comma f n l fields R : LF ∈ l ->
  (forall m, (length l < m)%nat -> run m None l (fields ++ [normCRLF f]) = R) ->
  (length (writeField c f) + S (length l) < n)%nat -> run n None (writeField c f ++ c :: l) fields = R.
Proof.
  destruct (goodComma_spec c Hc) as (_ & C1 & C2 & C3). destruct Hc as (Ha & Hs & _).
  intros Hl HR Hn. unfold writeField in *. destruct (fieldNeedsQuotes c f) eqn:E.
  - rewrite !length_app in Hn. simpl in Hn. destruct n as [|n]; [lia|].
    rewrite <- !app_assoc. cbn [app]. rewrite open_quote by set_solver.
    apply quoted_run; [set_solver| |simpl; lia]. intros m Hm. simpl in Hm. destruct m as [|m]; [lia|].
    rewrite app_nil_l. unfold run. rewrite readLine_cons by (done || set_solver).
    rewrite readLine_cons by (done || set_solver). destruct (readLine l) as [[line e] r] eqn:El.
    cbn [Csv.parseFields]. rewrite cutSep_here. cbn [stripPrefix].
    rewrite bool_decide_false by congruence. rewrite bool_decide_true by done. rewrite app_nil_r.
    pose proof (HR m ltac:(lia)) as K. unfold run in K. by rewrite El in K.
  - apply needs_no_quotes in E. pose proof E as (F1 & F2 & F3 & F4 & _). rewrite normCRLF_id in HR by done.
    destruct n as [|n]; [lia|]. unfold run. rewrite readLine_app by (done || set_solver).
    rewrite readLine_cons by (done || set_solver). destruct (readLine l) as [[line e] r] eqn:El.
    cbn [Csv.parseFields]. destruct (bare_open f c line E Ha ltac:(done) ltac:(by right)) as [-> ->].
    rewrite cutSep_app by done. pose proof (HR n ltac:(simpl in *; lia)) as K. unfold run in K. by rewrite El in K.
Qed.
Lemma field_end f n t rest fields : ending t ->
  (length (writeField c f) + length t + length rest < n)%nat ->
  run n None (writeField c f ++ t ++ rest) fields = (fields ++ [normCRLF f], None, rest).
Proof.
  destruct (goodComma_spec c Hc) as (_ & C1 & C2 & C3).
  intros Ht Hn. assert (LF ∈ t ++ rest) as Hl by (destruct Ht as [-> | ->]; set_solver).
  unfold writeField in *. destruct (fieldNeedsQuotes c f) eqn:E.
  - rewrite !length_app in Hn. simpl in Hn. destruct n as [|n]; [lia|].
    rewrite <- !app_assoc. cbn [app]. rewrite open_quote by set_solver.
    apply quoted_run; [done| |rewrite length_app; lia]. intros m Hm. destruct m as [|m]; [lia|].
    rewrite app_nil_l. unfold run. rewrite quote_ending by done.
    cbn [Csv.parseFields]. rewrite cutSep_here. cbn [stripPrefix].
    rewrite !bool_decide_false by (done || congruence). by rewrite bool_decide_true, app_nil_r.
  - apply needs_no_quotes in E. pose proof E as (F1 & F2 & F3 & F4 & _). rewrite normCRLF_id by done.
    destruct n as [|n]; [lia|]. unfold run. rewrite readLine_app, readLine_ending by done.
    cbn [Csv.parseFields]. destruct (decide (f = [])) as [->|Hf].
    + change (trimLeft ([] ++ [LF])) with (@nil byte). done.
    + destruct (bare_open f LF [] E ltac:(done) ltac:(done) ltac:(by left)) as [-> ->].
      rewrite cutSep_none by set_solver. by rewrite chomp_snoc.
Qed.
Lemma row_run n t rest cols : forall fields, cols <> [] -> ending t ->
  (length (writeFields c true cols) + length t + length rest < n)%nat ->
  run n None (writeFields c true cols ++ t ++ rest) fields
  = (fields ++ map (fun s => normCRLF (bytes s)) cols, None, rest).
Proof.
  destruct (goodComma_spec c Hc) as (Ec & _). revert n.
  induction cols as [|f cols IH]; intros n fields Hne Ht; [done|].
  destruct cols as [|g cols]; cbn [writeFields app map].
  - rewrite app_nil_r. by apply field_end.
  - rewrite Ec. cbn [app]. rewrite !length_app. cbn [length]. intros Hn.
    change (writeField c (bytes g) ++ writeFields c false cols) with (writeFields c true (g :: cols)) in *.
    rewrite <- app_assoc. cbn [app].
    apply field_comma; [destruct Ht as [-> | ->]; set_solver| |rewrite !length_app in *; simpl in *; lia].
    intros m Hm. rewrite IH; [|done..|rewrite !length_app in *; simpl in *; lia].
    by rewrite <- app_assoc.
Qed.
(** [Read] on a row the writer wrote. *)
Definition normStr (s : string) : string := str (normCRLF (bytes s)).
Lemma writeField_head f : match writeField c f with [] => f = [] | x :: _ => x <> LF /\ x <> CR end.
Proof.
  unfold writeField. destruct (fieldNeedsQuotes c f) eqn:E; [done|].
  apply needs_no_quotes in E as (F1 & F2 & _). destruct f as [|x f]; [done|]. set_solver.
Qed.
Lemma row_head cols : cols <> [] -> cols <> [""] ->
  exists x l, writeFields c true cols = x :: l /\ x <> LF /\ x <> CR.
Proof.
  destruct (goodComma_spec c Hc) as (Ec & C1 & C2 & _).
  destruct cols as [|f cols]; [done|]. intros _ Hne. cbn [writeFields app].
  pose proof (writeField_head (bytes f)) as Hh. destruct (writeField c (bytes f)) as [|x l]; [|by exists x, (l ++ writeFields c false cols)].
  assert (f = "") as -> by (by rewrite <- (str_bytes f), Hh).
  destruct cols as [|g cols]; [done|]. cbn [writeFields]. rewrite Ec. cbn [app]. by eexists _, _.
Qed.
Lemma Read_row cols t rest : cols <> [] -> cols <> [""] -> ending t ->
  Read broken c (writeFields c true cols ++ t ++ rest) = Row (map normStr cols) rest.
Proof.
  intros Hn H1 Ht. destruct (goodComma_spec c Hc) as (Ec & _). destruct Hc as (_ & _ & Hv).
  unfold Read. rewrite Hv, Ec.
  assert (LF ∈ writeFields c true cols ++ t ++ rest) as Hl by (destruct Ht as [-> | ->]; set_solver).
  destruct (readLine_has _ Hl) as (line & r & El & Hlen). cbn [readRecord]. rewrite El.
  assert (line <> []) as Hline.
  { destruct (row_head cols Hn H1) as (x & l & E & X1 & X2). rewrite E in El, Hl. cbn [app] in El, Hl.
    rewrite readLine_cons in El by (done || set_solver). destruct (readLine (l ++ t ++ rest)) as [[line' e] r'] eqn:El2.
    intros ->. injection El as ? ? ? ?. congruence. }
  rewrite bool_decide_true by done. rewrite chomp_snoc, bool_decide_false by done. cbn [andb].
  pose proof (row_run (S (S (length (line ++ [LF]) + length r))) t rest cols [] Hn Ht) as K.
  unfold run in K. rewrite El in K. rewrite K; [|rewrite !length_app in *; lia].
  cbn [app]. by rewrite map_map.
Qed.
End ReaderLemmas.

(** ** Lemmas: the parser *)
Definition cellRead (cell : string) (f : Field) : FieldValue :=
  let c := TrimSpace cell in if c =s "" then nullValue (FType f) else stringValue c.
(** The record of a row. *)
Definition readBack (schema : Schema) (sourceFile : string) (r : list string) : GenericRecord :=
  mkGenericRecord sourceFile (imap (fun i f => cellRead (default "" (r !! i)) f) (Fields schema))
    {[ "_source_file" := sourceFile ]}.

Lemma fillRow_spec r sid aud fs : forall pre p, PoolOk p ->
  exists p', PoolOk p' /\
  fillRow r (length pre) fs (mkGenericRecord sid (pre ++ replicate (length fs) zeroFieldValue) aud) p
  = Ok (mkGenericRecord sid (pre ++ imap (fun i f => cellRead (default "" (r !! (length pre + i)%nat)) f) fs) aud, p').
Proof.
  induction fs as [|f fs IH]; intros pre p Hp; cbn [fillRow length replicate imap]; [by exists p|].
  rewrite Nat.add_0_r.
  assert (forall v p1, PoolOk p1 -> exists p', PoolOk p' /\
    fillRow r (S (length pre)) fs (mkGenericRecord sid (pre ++ v :: replicate (length fs) zeroFieldValue) aud) p1
    = Ok (mkGenericRecord sid (pre ++ v :: imap ((fun i f => cellRead (default "" (r !! (length pre + i)%nat)) f) ∘ S) fs) aud, p')) as K.
  { intros v p1 Hp1. destruct (IH (pre ++ [v]) p1 Hp1) as (p' & Hp' & E). exists p'. split; [done|].
    rewrite length_app in E. cbn [length] in E. rewrite Nat.add_1_r in E. rewrite <- !app_assoc in E. cbn [app] in E.
    rewrite E. do 5 f_equal. apply imap_ext. intros i g _. cbn. by rewrite Nat.add_succ_r. }
  set (cell := match r !! length pre with None => _ | Some _ => _ end).
  assert (cellRead (default "" (r !! length pre)) f = if cell =s "" then nullValue (FType f) else stringValue cell) as ->.
  { unfold cellRead, cell. by destruct (r !! length pre). }
  unfold SetNull, SetString. change (Z.of_nat (length pre)) with (zlen pre).
  destruct (cell =s "").
  - rewrite setValue_next. by apply K.
  - destruct (intern_String_ok p cell Hp) as (p1 & -> & Hp1). rewrite setValue_next. by apply K.
Qed.

(** Reading rows the formatter wrote. [t] is the terminator. *)
Definition rowsText (c : byte) (t : list byte) (rows : list (list string)) : list byte :=
  concat (map (fun r => writeFields c true r ++ t) rows).
Definition goodRow (r : list string) : Prop := r <> [] /\ r <> [""].
Definition neverDone : nat -> option error := fun _ => None.

Lemma decodeRows_rows `{UnicodeFold} c t (Hc : goodComma c) (Ht : ending t) schema sourceFile hasHeader rows :
  Forall goodRow rows -> forall fuel k first p, PoolOk p -> (length (rowsText c t rows) < fuel)%nat ->
  match rows with r :: _ => first && hasHeader && isHeader (Some schema) (map normStr r) = false | [] => True end ->
  exists p', PoolOk p' /\
  decodeRows neverDone None c hasHeader (Some schema) sourceFile fuel k (rowsText c t rows) first p
  = Ok (map (fun r => readBack schema sourceFile (map normStr r)) rows, [], p').
Proof.
  induction 1 as [|r rows [Hr1 Hr2] _ IH]; intros fuel k first p Hp Hf Hh; (destruct fuel as [|n]; [lia|]).
  - destruct Hc as (_ & _ & Hv). exists p. split; [done|]. cbn [decodeRows]. unfold Read. rewrite Hv. done.
  - change (rowsText c t (r :: rows)) with ((writeFields c true r ++ t) ++ rowsText c t rows) in *.
    rewrite <- app_assoc. cbn [decodeRows neverDone]. rewrite Read_row by done. rewrite Hh.
    destruct (fillRow_spec (map normStr r) sourceFile ∅ (Fields schema) [] p Hp) as (p1 & Hp1 & E).
    simpl app in E. change (length []) with 0%nat in E. unfold NewGenericRecord. rewrite E.
    destruct (IH n (S k) false p1 Hp1) as (p2 & Hp2 & E2).
    + destruct (row_head c Hc r Hr1 Hr2) as (x & l & Ex & _). rewrite !length_app, Ex in Hf. simpl in Hf. lia.
    + by destruct rows.
    + exists p2. split; [done|]. cbn. rewrite E2. done.
Qed.

(** ** Lemmas: the fuel is enough *)
Lemma stripPrefix_length sep : forall l r, stripPrefix sep l = Some r -> (length r + length sep = length l)%nat.
Proof.
  induction sep as [|s sep IH]; intros l r; cbn; [intros [= ->]; lia|].
  destruct l as [|b l]; [done|]. case_bool_decide; [|done]. intros E%IH. simpl. lia.
Qed.
Lemma cutSep_length sep l : forall f r, cutSep sep l = Some (f, r) -> (length r + length sep <= length l)%nat.
Proof.
  induction l as [|b l IH]; intros f r; cbn [cutSep]; destruct (stripPrefix sep _) as [k|] eqn:E; try done.
  1, 2: intros [= <- <-]; apply stripPrefix_length in E; lia.
  destruct (cutSep sep l) as [[g k]|]; [|done]. intros [= <- <-]. specialize (IH g k eq_refl). simpl. lia.
Qed.
Lemma ReadBytes_length l : forall line eof r, ReadBytes l = (line, eof, r) ->
  (length line + length r = length l)%nat /\ (line = [] -> l = [] /\ eof = true)
  /\ (eof = true -> r = []).
Proof.
  induction l as [|b l IH]; intros line eof r; cbn; [by intros [= <- <- <-]|].
  destruct (ascii_dec b _); [by intros [= <- <- <-]|].
  destruct (ReadBytes l) as [[line' eof'] r']. destruct (IH _ _ _ eq_refl) as (E & _ & E2).
  intros [= <- <- <-]. simpl. split_and!; [lia|done|done].
Qed.
Lemma dropCR_length l : (length (dropCR l) <= length l)%nat.
Proof.
  unfold dropCR. destruct (rev l) as [|b k] eqn:E; [done|]. case_bool_decide; [|done].
  assert (length (rev l) = S (length k)) as E2 by (by rewrite E). rewrite !length_rev in *. lia.
Qed.
Lemma chomp_length l : (length (chomp l) <= length l)%nat /\ (length l <= S (length (chomp l)))%nat.
Proof.
  unfold chomp. destruct (rev l) as [|b k] eqn:E; [lia|].
  assert (length (rev l) = S (length k)) as E2 by (by rewrite E). rewrite length_rev in E2.
  case_bool_decide; rewrite ?length_rev; lia.
Qed.
Lemma ReadBytes_chomp l : forall line r, ReadBytes l = (line, false, r) -> (S (length (chomp line)) = length line)%nat.
Proof.
  induction l as [|b l IH]; intros line r; cbn; [done|].
  destruct (ascii_dec b _) as [->|Hb]; [intros [= <- <-]; done|].
  destruct (ReadBytes l) as [[line' eof'] r']. intros [= <- -> <-]. specialize (IH _ _ eq_refl).
  unfold chomp in *. cbn [rev]. destruct (rev line') as [|x k] eqn:E.
  - assert (line' = []) as -> by (by rewrite <- (rev_involutive line'), E). simpl in IH. lia.
  - cbn [app]. assert (length (rev line') = S (length k)) as E2 by (by rewrite E). rewrite length_rev in E2.
    case_bool_decide; [rewrite rev_app_distr; simpl; rewrite length_rev; lia|simpl in *; lia].
Qed.
Lemma readLine_length broken l line err r : readLine broken l = (line, err, r) ->
  (length line + length r <= length l)%nat /\ (err = None -> (length r < length l)%nat).
Proof.
  unfold readLine. destruct (ReadBytes l) as [[k eof] r'] eqn:E.
  destruct (ReadBytes_length l _ _ _ E) as (L & Hk & Hr). destruct eof.
  - destruct broken as [e|]; [intros [= <- <- <-]; split; [lia|done]|].
    destruct k as [|x k]; intros [= <- <- <-]; (split; [|try done]); cbn [length] in *; try lia.
    pose proof (dropCR_length (x :: k)). simpl in *. lia.
  - intros [= <- <- <-]. apply ReadBytes_chomp in E. pose proof (dropCR_length (chomp k)).
    rewrite length_app. cbn. lia.
Qed.

Section Fuel.
Context (broken : option error) (comma : list byte) (Hc : comma <> []).
Lemma comma_length : (0 < length comma)%nat.
Proof. destruct comma; [done|simpl; lia]. Qed.

Ltac shorter :=
  repeat match goal with
  | H : stripPrefix _ _ = Some _ |- _ => apply stripPrefix_length in H
  | H : cutSep _ _ = Some _ |- _ => apply cutSep_length in H
  | H : readLine _ _ = _ |- _ => apply readLine_length in H as [? _]
  end; pose proof comma_length; simpl length in *; lia.

Lemma parseFields_fuel n : forall m q line err rest fields,
  (length line + length rest < n)%nat -> (length line + length rest < m)%nat ->
  parseFields broken comma n q line err rest fields = parseFields broken comma m q line err rest fields.
Proof.
  induction n as [|n IH]; intros m q line err rest fields Hn Hm; [lia|]. destruct m as [|m]; [lia|].
  cbn [parseFields]. destruct q as [buf|].
  - destruct (cutSep [quote] line) as [[f l]|] eqn:E1.
    + destruct (stripPrefix [quote] l) as [l2|] eqn:E2; [apply IH; shorter|].
      destruct (stripPrefix comma l) as [l3|] eqn:E3; [apply IH; shorter|].
      case_bool_decide; [done|apply IH; shorter].
    + destruct line as [|x line]; [done|]. destruct err; [done|].
      destruct (readLine broken rest) as [[l2 e2] r2] eqn:E2. apply IH; shorter.
  - pose proof (trimLeft_length line).
    destruct (stripPrefix [quote] (trimLeft line)) as [l2|] eqn:E1; [apply IH; shorter|].
    destruct (cutSep comma (trimLeft line)) as [[f l2]|] eqn:E2; [apply IH; shorter|done].
Qed.
Lemma parseFields_rest n : forall q line err rest fields out e r,
  parseFields broken comma n q line err rest fields = (out, e, r) -> (length r <= length rest)%nat.
Proof.
  induction n as [|n IH]; intros q line err rest fields out e r; cbn [parseFields]; [by intros [= <- <- <-]|].
  repeat case_match; subst; try (intros E; apply IH in E; shorter); by intros [= <- <- <-].
Qed.
Lemma readRecord_fuel n : forall m l, (length l < n)%nat -> (length l < m)%nat ->
  readRecord broken comma n l = readRecord broken comma m l.
Proof.
  induction n as [|n IH]; intros m l Hn Hm; [lia|]. destruct m as [|m]; [lia|]. cbn [readRecord].
  destruct (readLine broken l) as [[line err] rest] eqn:E. apply readLine_length in E as [_ E].
  destruct err as [[|e]|]; [done|done|]. specialize (E eq_refl).
  case_bool_decide; [|done]. destruct (bool_decide (chomp line = [])); [apply IH; lia|done].
Qed.
Lemma parseFields_err n : forall q line e rest fields,
  (parseFields broken comma n q line (Some e) rest fields).1.2 = Some e.
Proof.
  induction n as [|n IH]; intros q line e rest fields; cbn [parseFields]; [done|].
  by repeat case_match; subst.
Qed.
Lemma readRecord_shorter n : forall l fields r, readRecord broken comma n l = Row fields r -> (length r < length l)%nat.
Proof.
  induction n as [|n IH]; intros l fields r; cbn [readRecord]; [done|].
  destruct (readLine broken l) as [[line err] rest] eqn:E. apply readLine_length in E as [_ E].
  destruct (parseFields broken comma _ None line err rest []) as [[out e'] r'] eqn:E2.
  pose proof (parseFields_rest _ _ _ _ _ _ _ _ _ E2) as L.
  destruct err as [[|e]|]; [done| |specialize (E eq_refl)].
  - pose proof (parseFields_err (S (S (length line + length rest))) None line (RErr e) rest []) as K.
    rewrite E2 in K. cbn in K. subst e'. done.
  - destruct (bool_decide (chomp line = [])); cbn [andb].
    + rewrite bool_decide_true by done. intros K%IH. lia.
    + rewrite andb_false_r. destruct e'; [done|]. intros [= _ <-]. lia.
Qed.
End Fuel.

Lemma runeBytes_ne b : runeBytes b <> [].
Proof. unfold runeBytes. by destruct (_ <? _). Qed.
Lemma Read_shorter broken c l fields r : Read broken c l = Row fields r -> (length r < length l)%nat.
Proof. unfold Read. destruct (validDelim c); [|done]. apply readRecord_shorter, runeBytes_ne. Qed.

Lemma fillRow_new r sid schema p : PoolOk p -> exists p', PoolOk p' /\
  ('(rec, p') ← fillRow r 0 (Fields schema) (NewGenericRecord sid (length (Fields schema))) p;
   Ok (stampSource sid rec, p')) = Ok (readBack schema sid r, p').
Proof.
  intros Hp. destruct (fillRow_spec r sid ∅ (Fields schema) [] p Hp) as (p' & Hp' & E).
  simpl app in E. change (length []) with 0%nat in E. exists p'. split; [done|].
  unfold NewGenericRecord. by rewrite E.
Qed.

Lemma decodeRows_total `{UnicodeFold} ctx broken c hasHeader schema sid n : forall k l first p,
  PoolOk p -> (length l < n)%nat ->
  exists recs errs p', PoolOk p' /\ (length errs <= 1)%nat
  /\ Forall (fun rec => exists r, rec = readBack schema sid r) recs
  /\ forall m, (length l < m)%nat ->
     decodeRows ctx broken c hasHeader (Some schema) sid m k l first p = Ok (recs, errs, p').
Proof.
  induction n as [|n IH]; intros k l first p Hp Hn; [lia|].
  destruct (ctx k) as [e|] eqn:Ek.
  { exists [], [e], p. split_and!; try done. intros [|m] Hm; [lia|]. cbn [decodeRows]. by rewrite Ek. }
  destruct (Read broken c l) as [r l'|[|e]] eqn:Er.
  - pose proof (Read_shorter _ _ _ _ _ Er) as Hs.
    destruct (first && hasHeader && isHeader (Some schema) r) eqn:Eh.
    + destruct (IH (S k) l' false p Hp ltac:(lia)) as (recs & errs & p' & Hp' & Hl & Hr & E).
      exists recs, errs, p'. split_and!; try done. intros [|m] Hm; [lia|]. cbn [decodeRows].
      rewrite Ek, Er, Eh. apply E. lia.
    + destruct (fillRow_new r sid schema p Hp) as (p1 & Hp1 & E1).
      destruct (IH (S k) l' false p1 Hp1 ltac:(lia)) as (recs & errs & p' & Hp' & Hl & Hr & E).
      exists (readBack schema sid r :: recs), errs, p'. split_and!; try done.
      { constructor; [by exists r|done]. }
      intros [|m] Hm; [lia|]. cbn [decodeRows]. rewrite Ek, Er, Eh.
      destruct (fillRow r 0 (Fields schema) _ p) as [[rec p2]| |]; try done.
      change (Ok (stampSource sid rec, p2) = Ok (readBack schema sid r, p1)) in E1.
      assert (stampSource sid rec = readBack schema sid r /\ p2 = p1) as [<- ->] by (split; congruence).
      cbn. by rewrite (E m) by lia.
  - exists [], [], p. split_and!; [done|simpl; lia|done|]. intros [|m] Hm; [lia|]. cbn [decodeRows]. by rewrite Ek, Er.
  - exists [], [Errorf ("csv read error in " +:+ sid +:+ ": " +:+ Error e) [e]], p.
    split_and!; try done. intros [|m] Hm; [lia|]. cbn [decodeRows]. by rewrite Ek, Er.
Qed.

(** On every input and whatever the context and the reader do, the parser finishes:
    each record has the shape of a row of the schema, and at most one error is sent. *)
Lemma CSV_Decode_total `{UnicodeFold} ctx parser broken l schema sid p : PoolOk p ->
  exists recs errs p', CSV_Decode ctx parser broken l (Some schema) sid p = Ok (recs, errs, p')
  /\ PoolOk p' /\ (length errs <= 1)%nat /\ Forall (fun rec => exists r, rec = readBack schema sid r) recs.
Proof.
  intros Hp. unfold CSV_Decode.
  destruct (decodeRows_total ctx broken (match bytes (Delimiter parser) with b :: _ => b | [] => ","%char end)
              (HasHeader parser) schema sid (S (length l)) 0 l true p Hp ltac:(lia))
    as (recs & errs & p' & ? & ? & ? & E).
  exists recs, errs, p'. split_and!; try done. apply E. lia.
Qed.

(** ** Lemmas: the formatter *)
Definition noNL (x : byte) : bool := negb (bool_decide (x = CR) || bool_decide (x = LF)).
(** A text that does not end in a line terminator. *)
Definition open_end (l : list byte) : Prop := match rev l with x :: _ => noNL x = true | [] => True end.
Lemma open_end_app l k : open_end k -> k <> [] -> open_end (l ++ k).
Proof.
  unfold open_end. rewrite rev_app_distr. intros Hk Hne. destruct (rev k) as [|x r] eqn:E; [|done].
  destruct Hne. by rewrite <- (rev_involutive k), E.
Qed.
Lemma trimNewlines_snoc l : open_end l -> trimNewlines (l ++ [LF]) = l.
Proof.
  unfold open_end, trimNewlines. intros Hl. rewrite rev_unit. cbn [dropWhile].
  rewrite bool_decide_false, bool_decide_true by done. cbn [orb].
  destruct (rev l) as [|x r] eqn:E; [by rewrite <- (rev_involutive l), E|].
  unfold noNL in Hl. apply negb_true_iff in Hl. cbn [dropWhile]. rewrite Hl, <- E. apply rev_involutive.
Qed.
Lemma open_end_bare l : CR ∉ l -> LF ∉ l -> open_end l.
Proof.
  intros H1 H2. unfold open_end. destruct (rev l) as [|x r] eqn:E; [done|].
  assert (x ∈ l) as Hx by (apply list_elem_of_In, in_rev; rewrite E; by left).
  unfold noNL. rewrite !bool_decide_false by (intros ->; done). done.
Qed.
Lemma writeFields_open c cols : goodComma c -> forall first, open_end (writeFields c first cols).
Proof.
  intros Hc. destruct (goodComma_spec c Hc) as (Ec & C1 & C2 & _).
  induction cols as [|f cols IH]; intros first; cbn [writeFields]; [done|].
  assert (open_end (writeField c (bytes f))) as Hf.
  { unfold writeField. destruct (fieldNeedsQuotes c (bytes f)) eqn:E.
    - rewrite app_assoc. by apply open_end_app.
    - apply (needs_no_quotes c Hc) in E as (F1 & F2 & _). by apply open_end_bare. }
  assert (open_end (if first then [] else runeBytes c)) as Hs.
  { destruct first; [done|]. rewrite Ec. apply open_end_bare; set_solver. }
  destruct (decide (writeFields c false cols = [])) as [E|E]; [rewrite E, app_nil_r|].
  - destruct (decide (writeField c (bytes f) = [])) as [E2|E2]; [by rewrite E2, app_nil_r|by apply open_end_app].
  - rewrite app_assoc. apply open_end_app; [apply IH|done].
Qed.
Lemma formatRow_text f cols : goodComma (delimiter f) ->
  formatRow f cols = inl (writeFields (delimiter f) true cols ++ bytes (lineTerminator f)).
Proof.
  intros Hc. unfold formatRow, Write. destruct Hc as (H1 & H2 & Hv). rewrite Hv.
  by rewrite trimNewlines_snoc by (by apply writeFields_open).
Qed.

(** ** Properties *)
Definition csvCells `{GoFormatFloat} (schema : Schema) (rec : GenericRecord) : list string :=
  map (cellText rec) (seq 0 (length (Fields schema))).
(** The first row is a header exactly when the formatter writes one. *)
Definition headerRead `{UnicodeFold, GoFormatFloat} (f : CSVFormatter) (schema : Schema) (recs : list GenericRecord) : Prop :=
  if includeHeader f
  then goodRow (map Name (Fields schema)) /\ isHeader (Some schema) (map normStr (map Name (Fields schema))) = true
  else match recs with
       | r :: _ => isHeader (Some schema) (map normStr (csvCells schema r)) = false
       | [] => True
       end.

(** C11. What [CSVFormatter] writes, [CSVParser] reads back: for an ASCII delimiter that is
    not white space and a line terminator "\n" or "\r\n", the file of the header and of any
    records (of more than one column, or with a text in the only one) decodes without error
    to one record per record, in order, whose cells are the texts of the cells written,
    quotes, delimiters and newlines included; what changes is that the white space around a
    text is dropped, "\r\n" becomes "\n", and an empty text becomes null. *)
Theorem CSV_roundtrip `{GoFormatFloat, UnicodeFold} (opts : FormatOptions) (schema : Schema)
    (recs : list GenericRecord) (sourceFile : string) (p : Pool) :
  let f := NewCSVFormatter opts in
  goodComma (delimiter f) -> ending (bytes (lineTerminator f)) -> PoolOk p ->
  Forall (fun r => goodRow (csvCells schema r)) recs -> headerRead f schema recs ->
  exists header rows p', CSV_FormatHeader f schema = inl header
  /\ Forall2 (fun r row => CSV_FormatRecord f (Some r) schema = inl row) recs rows
  /\ CSV_Decode neverDone (NewCSVParser (str [delimiter f]) true) None (header ++ concat rows)
       (Some schema) sourceFile p
     = Ok (map (fun r => readBack schema sourceFile (map normStr (csvCells schema r))) recs, [], p').
Proof.
  intros f Hc Ht Hp Hrecs Hh.
  set (c := delimiter f) in *. set (t := bytes (lineTerminator f)) in *.
  set (rows := map (fun r => writeFields c true (csvCells schema r) ++ t) recs).
  assert (concat rows = rowsText c t (map (csvCells schema) recs)) as Erows.
  { unfold rows, rowsText. by rewrite map_map. }
  assert (Forall2 (fun r row => CSV_FormatRecord f (Some r) schema = inl row) recs rows) as Hrows.
  { apply Forall2_fmap_r, Forall_Forall2_diag, Forall_forall. intros r _. by apply formatRow_text. }
  assert (Forall goodRow (map (csvCells schema) recs)) as Hgood by (by apply Forall_map).
  assert (match bytes (Delimiter (NewCSVParser (str [c]) true)) with b :: _ => b | [] => ","%char end = c) as Ecomma by done.
  unfold CSV_Decode. rewrite Ecomma. cbn [HasHeader NewCSVParser].
  unfold headerRead in Hh. unfold CSV_FormatHeader. destruct (includeHeader f) eqn:Ei; cbn [negb orb].
  - destruct Hh as [Hg Hi]. destruct (Z.eqb_spec (zlen (Fields schema)) 0) as [E0|_].
    { apply zlen_nil in E0. destruct Hg as [Hg _]. by rewrite E0 in Hg. }
    rewrite (formatRow_text f) by done. fold c t. eexists _, rows. rewrite Erows, <- app_assoc.
    set (text := rowsText c t (map (csvCells schema) recs)).
    cbn [decodeRows neverDone]. rewrite Read_row by (done || by destruct Hg). rewrite Hi. cbn [andb].
    destruct (decodeRows_rows c t Hc Ht schema sourceFile true (map (csvCells schema) recs) Hgood
                (length (writeFields c true (map Name (Fields schema)) ++ t ++ text)) 1 false p Hp) as (p' & _ & E).
    { fold text. rewrite !length_app. destruct Ht as [-> | ->]; simpl; lia. }
    { by destruct recs. }
    exists p'. split_and!; [done|done|]. fold text in E. rewrite E. by rewrite map_map.
  - exists [], rows. rewrite Erows. cbn [app].
    destruct (decodeRows_rows c t Hc Ht schema sourceFile true (map (csvCells schema) recs) Hgood
                (S (length (rowsText c t (map (csvCells schema) recs)))) 0 true p Hp ltac:(lia)) as (p' & _ & E).
    { by destruct recs. }
    exists p'. split_and!; [done|done|]. rewrite E. by rewrite map_map.
Qed.

Definition sampleOpts (header : bool) : FormatOptions := mkFormatOptions ";" header "utf-8" "" false.
Definition sampleRecs : list GenericRecord :=
  [mkGenericRecord "s" [int64Value 7; stringValue (str (text "a;'b'/c")); nullValue TypeString] ∅;
   mkGenericRecord "s" [nullValue TypeInt64; stringValue ""; stringValue "Rio"] ∅].
Lemma CSV_roundtrip_witness :
  let fmt : GoFormatFloat := fun _ => "" in
  exists header rows p', CSV_FormatHeader (NewCSVFormatter (sampleOpts true)) sampleSchema = inl header
  /\ Forall2 (fun r row => CSV_FormatRecord (NewCSVFormatter (sampleOpts true)) (Some r) sampleSchema = inl row) sampleRecs rows
  /\ CSV_Decode (H := foldASCII) neverDone (NewCSVParser ";" true) None (header ++ concat rows) (Some sampleSchema) "f" ∅
     = Ok (map (fun r => readBack sampleSchema "f" (map normStr (csvCells sampleSchema r))) sampleRecs, [], p').
Proof.
  intros fmt.
  apply (CSV_roundtrip (H := fmt) (H0 := foldASCII) (sampleOpts true) sampleSchema sampleRecs "f" ∅).
  - done.
  - by left.
  - apply emptyPool_ok.
  - by repeat constructor.
  - split; [done|]. reflexivity.
Defined.

(** *** Where the two disagree *)
(** A tab-separated file: the reader drops the leading white space of a field, and with it
    the delimiter that follows an empty one. The columns after an empty cell move left. *)
Lemma tsv_empty_cell_shifts_columns :
  decodeSample (str ["009"%char]) (str (bytes "1" ++ ["009"%char; "009"%char] ++ bytes "Rio" ++ [LF]))
  = [[stringValue "1"; stringValue "Rio"; nullValue TypeString]].
Proof. vm_compute. reflexivity. Qed.
(** A record of one null cell is written as an empty line, which the reader skips. *)
Lemma lone_null_is_lost `{GoFormatFloat, UnicodeFold} :
  let schema := schemaOf [mkField "v" TypeString true 0 ""] in
  let rec := mkGenericRecord "s" [nullValue TypeString] ∅ in
  CSV_FormatRecord (NewCSVFormatter (sampleOpts false)) (Some rec) schema = inl [LF]
  /\ CSV_Decode neverDone (NewCSVParser ";" true) None [LF] (Some schema) "f" ∅ = Ok ([], [], ∅).
Proof. by split. Qed.
(** Without a header, a first row whose first cell is the name of its column is taken for one. *)
Lemma first_row_taken_for_header :
  decodeSample ";" (str (text "Id;Ann;Rio/2;Bob;Roma/")) = [[stringValue "2"; stringValue "Bob"; stringValue "Roma"]].
Proof. vm_compute. reflexivity. Qed.
(** A delimiter is cut to its first byte, which is then taken for a code point. *)
Lemma delimiter_is_one_byte : runeBytes (hd LF (bytes (str ["194"%char; "167"%char]))) = ["195"%char; "130"%char].
Proof. reflexivity. Qed.
