(* ===== verification/Jsonl.v ===== *)
(** * JSON lines and JSON arrays

    Models [internal/adapters/streams/formatters/jsonl_formatter.go] and
    [internal/adapters/streams/parsers/jsonl_parser.go]. [bufio.Scanner] cuts the lines;
    the decoding of one JSON text is [encoding/json]'s ([GoUnmarshal] for a whole text,
    [GoScanValue] for the next value of a stream), and the decoder of an array keeps its
    place, its expected token and its error as [json.Decoder] does. *)
From S2P Require Import Prelude GoStr Float64 Schema Intern RecordModel Config Trackers FileSink ByteStream Pipe JsonUtils Csv.

(** ** [JSONLFormatter] *)
Section Formatter.
Context `{GoFormatFloat, GoJSON}.
Fixpoint formatFields (rec : GenericRecord) (i : Z) (fs : list Field) (buf : string) : string :=
  match fs with
  | [] => buf
  | f :: fs' =>
      let buf := (if 0 <? i then buf +:+ "," else buf) +:+ str [quote] +:+ Name f +:+ str [quote] +:+ ":" in
      let buf := match Get rec i with
                 | Some v => if IsNull v then buf +:+ "null" else WriteJSON v buf
                 | None => buf +:+ "null"
                 end in
      formatFields rec (i + 1) fs' buf
  end.
Definition JSONL_FormatHeader (_ : Schema) : list byte + error := inl [].
Definition JSONL_FormatRecord (rec : option GenericRecord) (schema : Schema) : list byte + error :=
  match rec with
  | None => inr (Errorf "record and schema are required" [])
  | Some rec => inl (bytes (formatFields rec 0 (Fields schema) "{" +:+ "}" +:+ str [LF]))
  end.
Definition jsonlFormatter : RecordFormatter := mkFormatter JSONL_FormatHeader JSONL_FormatRecord.
End Formatter.

(** ** [JSONLParser] *)
(** The value at the start of a stream and what follows it, or the error [Decode] keeps
    (the first argument is the error after the last byte); the error of a value that does
    not fit a map. *)
Class GoScanValue := {
  scanValue : option error -> list byte -> (json * list byte) + error;
  typeError : json -> error }.
Definition jsonSpace (b : byte) : bool :=
  let v := byte_val b in (v =? 32) || (v =? 9) || (v =? 13) || (v =? 10).
(** Into a [map[string]any]: [null] gives the nil map. *)
Definition asMap `{GoScanValue} (v : json) : gmap string json + error :=
  match v with JObj m => inl m | JNull => inl ∅ | v => inr (typeError v) end.

Definition maxToken : Z := 64 * 1024 * 1024.
Definition ErrTooLong : error := Sentinel "bufio.Scanner: token too long".

Section Parser.
Context `{GoUnmarshal, GoFormatV, GoScanValue}.

Definition setJSON (rec : GenericRecord) (i : Z) (v : json) (t : DataType) (p : Pool)
    : result GenericRecord * Pool :=
  match v with
  | JNull => (SetNull rec i t, p)
  | JStr s => SetString p rec i s
  | JNum x => (SetFloat64 rec i x, p)
  | JBool b => (SetBool rec i b, p)
  | v => SetString p rec i (sprintJSON v)
  end.
Fixpoint fillMap (m : gmap string json) (i : Z) (fs : list Field) (rec : GenericRecord) (p : Pool)
    : result (GenericRecord * Pool) :=
  match fs with
  | [] => Ok (rec, p)
  | f :: fs' =>
      let '(r, p) := setJSON rec i (default JNull (m !! Name f)) (FType f) p in
      rec ← r; fillMap m (i + 1) fs' rec p
  end.
Definition mapToGenericRecord (m : gmap string json) (schema : option Schema) (sourceFile : string) (p : Pool)
    : result (GenericRecord * Pool) :=
  let fs := match schema with Some s => Fields s | None => [] end in
  '(rec, p) ← fillMap m 0 fs (NewGenericRecord sourceFile (length fs)) p;
  Ok (stampSource sourceFile rec, p).

(** [ctx k] is the error of the context when it is polled before the [k]-th element, and
    [cut k] says that it is done while that element's record waits for the channel.
    [broken] is the error after the last byte. *)
Context (ctx : nat -> option error) (cut : nat -> bool) (broken : option error)
  (schema : option Schema) (sourceFile : string).
Definition inSource (what : string) (e : error) : sent :=
  SentErr (Errorf (what +:+ " in " +:+ sourceFile +:+ ": " +:+ Error e) [e]).

(** What an element sends before the loop goes on. *)
Definition sendRow (k : nat) (what : string) (m : gmap string json + error) (p : Pool)
    : result (list sent * bool * Pool) :=
  match m with
  | inr e => Ok ([inSource what e], true, p)
  | inl m =>
      '(rec, p) ← mapToGenericRecord m schema sourceFile p;
      Ok (if cut k then ([], false, p) else ([SentRec rec], true, p))
  end.

(** The scanner: a line without its newline has less than [maxToken] bytes. *)
Fixpoint scanLoop (n k : nat) (l : list byte) (p : Pool) : result (list sent * Pool) :=
  match n with
  | O => Ok ([], p)
  | S n =>
      let '(line, _, r) := ReadBytes l in
      if maxToken <=? zlen (chomp line) then Ok ([inSource "scanner error" ErrTooLong], p)
      else match line, ctx k with
      | [], _ => Ok (match broken with Some e => [inSource "scanner error" e] | None => [] end, p)
      | _, Some e => Ok ([SentErr e], p)
      | _, None =>
          match trimSpaceBytes (dropCR (chomp line)) with
          | [] => scanLoop n (S k) r p
          | text =>
              '(out, go, p) ← sendRow k "json parse error"
                                (match Unmarshal text with inl v => asMap v | inr e => inr e end) p;
              if go : bool
              then '(outs, p) ← scanLoop n (S k) r p; Ok (out ++ outs, p)
              else Ok (out, p)
          end
      end
  end.

(** The decoder inside an array: before the first value, after a value, or with an error
    that every later [Decode] returns again. *)
Inductive arrayState := ArrFirst | ArrNext | ArrStuck (e : error).
Definition More (l : list byte) : bool :=
  match dropWhile jsonSpace l with
  | c :: _ => negb (bool_decide (c = "]"%char)) && negb (bool_decide (c = "}"%char))
  | [] => false
  end.
Definition atComma (l : list byte) : option (list byte) :=
  match dropWhile jsonSpace l with
  | c :: r => if bool_decide (c = ","%char) then Some r else None
  | [] => None
  end.
Definition DecodeNext (st : arrayState) (l : list byte) : (gmap string json + error) * arrayState * list byte :=
  let value l :=
    match scanValue broken l with
    | inr e => (inr e, ArrStuck e, l)
    | inl (v, r) => (asMap v, ArrNext, r)
    end in
  match st with
  | ArrStuck e => (inr e, st, l)
  | ArrFirst => value l
  | ArrNext => match atComma l with
               | Some l => value l
               | None => (inr (Errorf "expected comma after array element" []), st, l)
               end
  end.
(** The loop over the array, [None] when it is still running after [n] turns. *)
Fixpoint arrayLoop (n k : nat) (st : arrayState) (l : list byte) (p : Pool) : option (result (list sent * Pool)) :=
  match n with
  | O => None
  | S n =>
      if negb (More l) then Some (Ok ([], p))
      else match ctx k with
      | Some e => Some (Ok ([SentErr e], p))
      | None =>
          let '(m, st, l) := DecodeNext st l in
          match sendRow k "json decode error" m p with
          | Ok (out, true, p) =>
              r ← arrayLoop n (S k) st l p;
              Some ('(outs, p) ← r; Ok (out ++ outs, p))
          | Ok (out, false, p) => Some (Ok (out, p))
          | Err e => Some (Err e)
          | Panic s => Some (Panic s)
          end
      end
  end.

(** The goroutine: the first byte that is not white space tells an array from lines. *)
Definition decodeJSON (n : nat) (l : list byte) (p : Pool) : option (result (list sent * Pool)) :=
  match dropWhile jsonSpace l with
  | [] => Some (Ok (match broken with Some e => [inSource "read error" e] | None => [] end, p))
  | b :: r =>
      if bool_decide (b = "["%char) then arrayLoop n 0 ArrFirst r p
      else Some (scanLoop (S (length (b :: r))) 0 (b :: r) p)
  end.
End Parser.

(** Errors are sent without waiting on a channel of ten; the caller reads the errors after
    the records. *)
Definition errChanSize : nat := 10.
Definition JSONL_Decode `{GoUnmarshal, GoFormatV, GoScanValue} (ctx : nat -> option error) (cut : nat -> bool)
    (n : nat) (broken : option error) (l : list byte) (schema : option Schema) (sourceFile : string) (p : Pool)
    : option (result (list GenericRecord * list error * Pool)) :=
  r ← decodeJSON ctx cut broken schema sourceFile n l p;
  Some ('(outs, p) ← r; Ok (recordsOf outs, take errChanSize (errorsOf outs), p)).

(** ** Lemmas: records *)
Section RecordLemmas.
Context `{GoFormatV}.
Definition cellOf (v : json) (f : Field) : FieldValue :=
  match v with
  | JNull => nullValue (FType f)
  | JStr s => stringValue s
  | JNum x => float64Value x
  | JBool b => boolValue b
  | v => stringValue (sprintJSON v)
  end.
(** The record of an object. *)
Definition jsonRecord (schema : option Schema) (sourceFile : string) (m : gmap string json) : GenericRecord :=
  mkGenericRecord sourceFile
    (map (fun f => cellOf (default JNull (m !! Name f)) f) (match schema with Some s => Fields s | None => [] end))
    {[ "_source_file" := sourceFile ]}.

Lemma setJSON_next sid pre old rest aud v f p : PoolOk p ->
  exists p', PoolOk p' /\
  setJSON (mkGenericRecord sid (pre ++ old :: rest) aud) (zlen pre) v (FType f) p
  = (Ok (mkGenericRecord sid (pre ++ cellOf v f :: rest) aud), p').
Proof.
  intros Hp.
  assert (forall s, exists p', PoolOk p' /\
    SetString p (mkGenericRecord sid (pre ++ old :: rest) aud) (zlen pre) s
    = (Ok (mkGenericRecord sid (pre ++ stringValue s :: rest) aud), p')) as Hs.
  { intros s. unfold SetString. destruct (intern_String_ok p s Hp) as (p' & -> & Hp').
    exists p'. split; [done|]. by rewrite setValue_next. }
  destruct v; cbn [setJSON cellOf]; try apply Hs; exists p; (split; [done|]);
    unfold SetNull, SetBool, SetFloat64; by rewrite setValue_next.
Qed.
Lemma fillMap_spec m sid aud fs : forall pre p, PoolOk p ->
  exists p', PoolOk p' /\
  fillMap m (zlen pre) fs (mkGenericRecord sid (pre ++ replicate (length fs) zeroFieldValue) aud) p
  = Ok (mkGenericRecord sid (pre ++ map (fun f => cellOf (default JNull (m !! Name f)) f) fs) aud, p').
Proof.
  induction fs as [|f fs IH]; intros pre p Hp; cbn [fillMap length replicate map]; [by exists p|].
  destruct (setJSON_next sid pre zeroFieldValue (replicate (length fs) zeroFieldValue) aud
              (default JNull (m !! Name f)) f p Hp) as (p1 & Hp1 & ->).
  destruct (IH (pre ++ [cellOf (default JNull (m !! Name f)) f]) p1 Hp1) as (p2 & Hp2 & E).
  exists p2. split; [done|]. rewrite zlen_app in E. change (zlen [_]) with 1 in E.
  rewrite <- !app_assoc in E. cbn [app] in E. cbn. by rewrite E.
Qed.
Lemma mapToGenericRecord_spec m schema sid p : PoolOk p ->
  exists p', PoolOk p' /\ mapToGenericRecord m schema sid p = Ok (jsonRecord schema sid m, p').
Proof.
  intros Hp. unfold mapToGenericRecord, jsonRecord. set (fs := match schema with Some s => Fields s | None => [] end).
  destruct (fillMap_spec m sid ∅ fs [] p Hp) as (p' & Hp' & E). change (zlen []) with 0 in E. simpl app in E.
  exists p'. split; [done|]. unfold NewGenericRecord. by rewrite E.
Qed.
End RecordLemmas.

Lemma recordsOf_app l k : recordsOf (l ++ k) = recordsOf l ++ recordsOf k.
Proof. unfold recordsOf. by rewrite map_app, concat_app. Qed.
Lemma errorsOf_app l k : errorsOf (l ++ k) = errorsOf l ++ errorsOf k.
Proof. unfold errorsOf. by rewrite map_app, concat_app. Qed.

(** ** Lemmas: lines *)
Section LineLemmas.
Context `{GoUnmarshal, GoFormatV, GoScanValue} (schema : option Schema) (sourceFile : string).
(** What a line sends. *)
Definition lineOut (line : list byte) : option sent :=
  match trimSpaceBytes (dropCR (chomp line)) with
  | [] => None
  | text =>
      Some match (match Unmarshal text with inl v => asMap v | inr e => inr e end) with
           | inl m => SentRec (jsonRecord schema sourceFile m)
           | inr e => inSource sourceFile "json parse error" e
           end
  end.
Definition neverCut : nat -> bool := fun _ => false.
Definition shortLines (l : list byte) : Prop := Forall (fun line => zlen (chomp line) < maxToken) (map snd (linesOf l)).

Lemma shortLines_bool l :
  forallb (fun line => zlen (chomp line) <? maxToken) (map snd (linesOf l)) = true -> shortLines l.
Proof.
  intros Hl. apply Forall_forall. intros x Hx%list_elem_of_In. apply Z.ltb_lt. by apply (proj1 (forallb_forall _ _) Hl).
Qed.

Lemma linesFrom_snd pos pos' l : map snd (linesFrom pos l) = map snd (linesFrom pos' l).
Proof.
  revert pos pos'. induction l as [|l line eof r E Hne IH] using lines_ind; intros pos pos'; [done|].
  rewrite !(linesFrom_step _ _ _ _ _ E Hne). cbn. f_equal. apply IH.
Qed.
Lemma linesOf_step l line eof r : ReadBytes l = (line, eof, r) -> line <> [] ->
  map snd (linesOf l) = line :: map snd (linesOf r).
Proof.
  intros E Hne. unfold linesOf. rewrite (linesFrom_step _ _ _ _ _ E Hne). cbn. f_equal. apply linesFrom_snd.
Qed.
Lemma shortLines_step l line eof r : ReadBytes l = (line, eof, r) -> line <> [] ->
  shortLines l <-> zlen (chomp line) < maxToken /\ shortLines r.
Proof.
  intros E Hne. unfold shortLines. by rewrite (linesOf_step _ _ _ _ E Hne), Forall_cons.
Qed.

Lemma scanLoop_spec l : forall n k p, PoolOk p -> shortLines l -> (length l < n)%nat ->
  exists p', PoolOk p' /\
  scanLoop neverDone neverCut None schema sourceFile n k l p = Ok (omap lineOut (map snd (linesOf l)), p').
Proof.
  induction l as [|l line eof r E Hne IH] using lines_ind; intros n k p Hp Hs Hn;
    (destruct n as [|n]; [simpl in Hn; lia|]); [by exists p|].
  apply (shortLines_step _ _ _ _ E Hne) in Hs as [Hs Hs'].
  destruct (ReadBytes_spec _ _ _ _ E) as (Hl & _). rewrite (linesOf_step _ _ _ _ E Hne).
  assert (length r < n)%nat as Hn' by (rewrite Hl, length_app in Hn; destruct line; [done|simpl in Hn; lia]).
  cbn [scanLoop]. rewrite E. rewrite (proj2 (Z.leb_gt _ _)) by lia.
  destruct line as [|x line]; [done|]. set (line' := x :: line) in *. cbn [neverDone].
  cbn [omap list_omap]. unfold lineOut at 1.
  destruct (trimSpaceBytes (dropCR (chomp line'))) as [|y text] eqn:Et; [by apply IH|].
  destruct (match Unmarshal (y :: text) with inl v => asMap v | inr e => inr e end) as [m|e] eqn:Em.
  - destruct (mapToGenericRecord_spec m schema sourceFile p Hp) as (p1 & Hp1 & E1).
    destruct (IH n (S k) p1 Hp1 Hs' Hn') as (p2 & Hp2 & E2). exists p2. split; [done|].
    cbn [sendRow]. rewrite E1. cbn. rewrite E2. cbn. done.
  - destruct (IH n (S k) p Hp Hs' Hn') as (p2 & Hp2 & E2). exists p2. split; [done|].
    cbn. rewrite E2. cbn. done.
Qed.

(** Skipping the white space before the first value changes no record. *)
Lemma chomp_app w k : k <> [] -> chomp (w ++ k) = w ++ chomp k.
Proof.
  intros Hk. unfold chomp. rewrite rev_app_distr. destruct (rev k) as [|b r] eqn:E.
  { destruct Hk. by rewrite <- (rev_involutive k), E. }
  cbn [app]. case_bool_decide; [|done]. by rewrite rev_app_distr, rev_involutive.
Qed.
Lemma dropCR_app w k : k <> [] -> dropCR (w ++ k) = w ++ dropCR k.
Proof.
  intros Hk. unfold dropCR. rewrite rev_app_distr. destruct (rev k) as [|b r] eqn:E.
  { destruct Hk. by rewrite <- (rev_involutive k), E. }
  cbn [app]. case_bool_decide; [|done]. by rewrite rev_app_distr, rev_involutive.
Qed.
Lemma jsonSpace_space1 b : jsonSpace b = true -> space1 b = true.
Proof. unfold jsonSpace, space1. rewrite !orb_true_iff, andb_true_iff, !Z.eqb_eq, !Z.leb_le. lia. Qed.
Lemma trimLeft_spaces w k : forallb jsonSpace w = true -> trimLeft (w ++ k) = trimLeft k.
Proof.
  induction w as [|b w IH]; [done|]. cbn [forallb app]. intros [Hb Hw]%andb_true_iff.
  cbn [trimLeft]. rewrite jsonSpace_space1 by done. by apply IH.
Qed.
Lemma forallb_prefix {A} (q : A -> bool) w k : forallb q (w ++ k) = true -> forallb q w = true.
Proof. rewrite forallb_app. by intros [? _]%andb_true_iff. Qed.
Lemma chomp_prefix l : exists k, l = chomp l ++ k.
Proof.
  unfold chomp. destruct (rev l) as [|b r] eqn:E; [exists []; by rewrite app_nil_r|].
  case_bool_decide; [|exists []; by rewrite app_nil_r]. exists [b].
  rewrite <- (rev_involutive l), E. done.
Qed.
Lemma dropCR_prefix l : exists k, l = dropCR l ++ k.
Proof.
  unfold dropCR. destruct (rev l) as [|b r] eqn:E; [exists []; by rewrite app_nil_r|].
  case_bool_decide; [|exists []; by rewrite app_nil_r]. exists [b].
  rewrite <- (rev_involutive l), E. done.
Qed.
Lemma blank_line line : forallb jsonSpace line = true -> lineOut line = None.
Proof.
  intros Hl. unfold lineOut. destruct (chomp_prefix line) as [k Ek]. destruct (dropCR_prefix (chomp line)) as [k2 Ek2].
  rewrite Ek, Ek2 in Hl. do 2 apply forallb_prefix in Hl.
  unfold trimSpaceBytes. rewrite <- (app_nil_r (dropCR (chomp line))) at 1.
  by rewrite trimLeft_spaces.
Qed.
Lemma lineOut_spaces w x y : forallb jsonSpace w = true -> jsonSpace x = false ->
  lineOut (w ++ x :: y) = lineOut (x :: y).
Proof.
  intros Hw Hx. unfold lineOut.
  assert (chomp (x :: y) <> []) as Hc. { intros [? | [= -> _]]%chomp_nil; done. }
  rewrite chomp_app, dropCR_app by done. unfold trimSpaceBytes. by rewrite trimLeft_spaces.
Qed.
Lemma dropWhile_split p l : exists w, l = w ++ dropWhile p l /\ forallb p w = true.
Proof.
  induction l as [|b l [w [E Hw]]]; [by exists []|]. cbn [dropWhile]. destruct (p b) eqn:Eb; [|by exists []].
  exists (b :: w). cbn. rewrite Eb. split; [by f_equal|done].
Qed.
Lemma dropWhile_spaces p w k : forallb p w = true -> dropWhile p (w ++ k) = dropWhile p k.
Proof. induction w as [|b w IH]; [done|]. cbn. intros [-> ?]%andb_true_iff. by apply IH. Qed.

Lemma skip_spaces l :
  omap lineOut (map snd (linesOf (dropWhile jsonSpace l))) = omap lineOut (map snd (linesOf l))
  /\ (shortLines l -> shortLines (dropWhile jsonSpace l)).
Proof.
  induction l as [|l line eof r E Hne IH] using lines_ind; [done|].
  destruct (ReadBytes_spec _ _ _ _ E) as (Hl & _). rewrite (linesOf_step _ _ _ _ E Hne).
  destruct (dropWhile_split jsonSpace line) as (w & Ew & Hw).
  destruct (dropWhile jsonSpace line) as [|x y] eqn:Ed.
  - rewrite app_nil_r in Ew. subst w. cbn [omap list_omap]. rewrite blank_line by done.
    rewrite Hl at 1 3. rewrite dropWhile_spaces by done. destruct IH as [IH1 IH2]. split; [done|].
    intros Hs. apply IH2. by apply (shortLines_step _ _ _ _ E Hne) in Hs as [_ Hs].
  - pose proof (dropWhile_head jsonSpace line) as Hx. rewrite Ed in Hx.
    assert (dropWhile jsonSpace l = (x :: y) ++ r) as ->.
    { rewrite Hl, Ew, <- app_assoc, dropWhile_spaces by done. cbn. by rewrite Hx. }
    assert (ReadBytes ((x :: y) ++ r) = (x :: y, eof, r)) as E2.
    { pose proof (ReadBytes_drop _ _ _ _ (length w) E) as K.
      rewrite Hl, Ew, <- app_assoc, !drop_app_length in K. apply K. rewrite length_app. simpl. lia. }
    rewrite (linesOf_step _ _ _ _ E2) by done. split.
    + cbn [omap list_omap]. by rewrite Ew, lineOut_spaces.
    + intros [Hs Hs2]%(shortLines_step _ _ _ _ E Hne). apply (shortLines_step _ _ _ _ E2); [done|]. split; [|done].
      rewrite Ew, chomp_app, zlen_app in Hs by done. pose proof (zlen_nonneg w). lia.
Qed.
End LineLemmas.

(** ** What a line of JSON is *)
Section LineKinds.
Context `{GoUnmarshal, GoFormatV, GoScanValue} (schema : option Schema) (sourceFile : string).
Definition lineText (line : list byte) : list byte := trimSpaceBytes (dropCR (chomp line)).
(** The record of a line: of its object, or of no cell at all for [null]. *)
Definition lineRecord (line : list byte) : option GenericRecord :=
  match lineText line with
  | [] => None
  | text => match Unmarshal text with
            | inl (JObj m) => Some (jsonRecord schema sourceFile m)
            | inl JNull => Some (jsonRecord schema sourceFile ∅)
            | _ => None
            end
  end.
(** A line that is not blank, and neither an object nor [null]. *)
Definition badLine (line : list byte) : Prop :=
  lineText line <> []
  /\ match Unmarshal (lineText line) with inl (JObj _) | inl JNull => False | _ => True end.

Lemma recordsOf_lineOut ls : recordsOf (omap (lineOut schema sourceFile) ls) = omap lineRecord ls.
Proof.
  induction ls as [|l ls IH]; [done|]. cbn [omap list_omap]. unfold lineOut, lineRecord, lineText.
  destruct (trimSpaceBytes _) as [|c t]; [exact IH|].
  destruct (Unmarshal _) as [[]|e]; cbn [asMap inSource]; first [exact IH|exact (f_equal (cons _) IH)].
Qed.
Lemma errorsOf_lineOut ls : errorsOf (omap (lineOut schema sourceFile) ls) <> [] <-> Exists badLine ls.
Proof.
  induction ls as [|l ls IH]; [by rewrite Exists_nil|]. rewrite Exists_cons, <- IH.
  cbn [omap list_omap]. unfold badLine, lineOut, lineText.
  destruct (trimSpaceBytes _) as [|c t]; [naive_solver|].
  destruct (Unmarshal _) as [[]|e]; cbn; naive_solver.
Qed.
End LineKinds.

(** ** Lemmas: files *)
Lemma ReadBytes_more l line r : ReadBytes l = (line, false, r) -> forall k, ReadBytes (line ++ k) = (line, false, k).
Proof.
  revert line r. induction l as [|b l IH]; intros line r; cbn [ReadBytes]; [done|].
  destruct (ascii_dec b newline) as [Hb|Hb].
  - intros [= <- <-] k. cbn. by destruct (ascii_dec b newline).
  - destruct (ReadBytes l) as [[line' eof'] r'] eqn:E. intros [= <- -> <-] k. cbn [app ReadBytes].
    destruct (ascii_dec b newline); [done|]. by rewrite (IH _ _ eq_refl).
Qed.
(** Some of the lines of a file, put together, are a file with those lines. *)
Lemma linesOf_sublist l : forall ls, ls `sublist_of` map snd (linesOf l) -> map snd (linesOf (concat ls)) = ls.
Proof.
  induction l as [|l line eof r E Hne IH] using lines_ind; intros ls.
  { intros Hs%sublist_nil_r. by subst. }
  rewrite (linesOf_step _ _ _ _ E Hne). intros [Hs|(ls' & -> & Hs)]%sublist_cons_r; [by apply IH|].
  destruct (ReadBytes_spec _ _ _ _ E) as (Hl & Hr & _). destruct eof.
  - rewrite Hr in * by done. apply sublist_nil_r in Hs as ->. rewrite app_nil_r in Hl. subst l.
    cbn [concat]. rewrite app_nil_r. by rewrite (linesOf_step _ _ _ _ E Hne).
  - cbn [concat]. rewrite (linesOf_step _ _ _ _ (ReadBytes_more _ _ _ E (concat ls')) Hne). f_equal. by apply IH.
Qed.
Lemma rangeLines_sublist data s e : rangeLines data s e `sublist_of` map snd (linesOf data).
Proof. unfold rangeLines. change (map snd) with (@fmap list _ (Z * list byte) _ snd). apply fmap_sublist, sublist_filter. Qed.
Lemma Forall_sublist {A} (P : A -> Prop) k l : k `sublist_of` l -> Forall P l -> Forall P k.
Proof. induction 1; intros HF; inversion HF; subst; auto. Qed.

(** A stream that is not read as an array. *)
Definition notArray (l : list byte) : Prop := head (dropWhile jsonSpace l) <> Some "["%char.
Lemma notArray_concat ls : Forall notArray ls -> notArray (concat ls).
Proof.
  unfold notArray. induction 1 as [|l ls Hl _ IH]; [done|]. cbn [concat].
  destruct (dropWhile_split jsonSpace l) as (w & Ew & Hw).
  rewrite Ew, <- app_assoc, dropWhile_spaces by done.
  destruct (dropWhile jsonSpace l) as [|x y] eqn:E; [done|].
  pose proof (dropWhile_head jsonSpace l) as Hx. rewrite E in Hx. cbn. by rewrite Hx.
Qed.

Section Decode.
Context `{GoUnmarshal, GoFormatV, GoScanValue}.
Lemma decodeJSON_lines schema sourceFile n l p : PoolOk p -> shortLines l -> notArray l ->
  exists p', PoolOk p' /\ decodeJSON neverDone neverCut None schema sourceFile n l p
  = Some (Ok (omap (lineOut schema sourceFile) (map snd (linesOf l)), p')).
Proof.
  intros Hp Hs Ha. unfold decodeJSON. destruct (skip_spaces schema sourceFile l) as [<- Hs2].
  unfold notArray in Ha. specialize (Hs2 Hs). destruct (dropWhile jsonSpace l) as [|b r] eqn:E; [by exists p|].
  rewrite bool_decide_false by (intros ->; done).
  destruct (scanLoop_spec schema sourceFile (b :: r) (S (length (b :: r))) 0 p Hp Hs2 ltac:(lia)) as (p' & Hp' & E2).
  exists p'. split; [done|]. by rewrite E2.
Qed.

(** The decoder of a source whose format is JSON lines. *)
Definition decodesJSONL (ports : StreamPorts) : Prop :=
  forall stream schema uri n recs errs p', notArray stream ->
    JSONL_Decode neverDone neverCut n None stream (Some schema) uri emptyPool = Some (Ok (recs, errs, p')) ->
    p_Decode ports stream schema uri = Ok (map Some recs, map Some errs).

Lemma omap_Some {A} (l : list A) : omap id (map Some l) = l.
Proof. induction l as [|a l IH]; [done|]. cbn. by rewrite IH. Qed.
Lemma decodeStream_lines `{GoQuote} cfg ports uri lines :
  decodesJSONL ports -> p_WrapStream ports = None -> shortLines (concat lines) -> notArray (concat lines) ->
  map snd (linesOf (concat lines)) = lines ->
  let outs := omap (lineOut (Some (SrcSchema cfg)) uri) lines in
  exists e, decodeStream cfg ports uri (concat lines) = (recordsOf outs, e) /\ (e = None <-> errorsOf outs = []).
Proof.
  intros Hd Hw Hs Ha Hl outs. unfold decodeStream. rewrite Hw.
  destruct (decodeJSON_lines (Some (SrcSchema cfg)) uri 0 (concat lines) emptyPool emptyPool_ok Hs Ha) as (p' & _ & E).
  rewrite Hl in E. fold outs in E.
  assert (JSONL_Decode neverDone neverCut 0 None (concat lines) (Some (SrcSchema cfg)) uri emptyPool
          = Some (Ok (recordsOf outs, take errChanSize (errorsOf outs), p'))) as E2.
  { unfold JSONL_Decode. by rewrite E. }
  rewrite (Hd _ _ _ _ _ _ _ Ha E2). eexists. unfold ByteStream.emitted. rewrite omap_Some. split; [done|].
  unfold firstError. rewrite omap_Some. by destruct (errorsOf outs).
Qed.
End Decode.

(** ** Properties *)

(** Without cancellation, the parser of a stream that does not start with '[' and
    whose lines fit the scanner's buffer finishes, and sends, in order, for each line that
    is not blank one record or one error: the record of its object, cell by cell in the
    order of the schema, with null where the object has no value; the first ten errors are
    kept. *)
Theorem JSONL_Decode_lines `{GoUnmarshal, GoFormatV, GoScanValue} (schema : option Schema) (sourceFile : string)
    (l : list byte) (p : Pool) (n : nat) :
  PoolOk p -> shortLines l -> notArray l ->
  let outs := omap (lineOut schema sourceFile) (map snd (linesOf l)) in
  exists p', PoolOk p' /\ JSONL_Decode neverDone neverCut n None l schema sourceFile p
  = Some (Ok (recordsOf outs, take errChanSize (errorsOf outs), p')).
Proof.
  intros Hp Hs Ha outs. destruct (decodeJSON_lines schema sourceFile n l p Hp Hs Ha) as (p' & Hp' & E).
  exists p'. split; [done|]. unfold JSONL_Decode. by rewrite E.
Qed.

(** C10. A file of JSON lines of which none starts with '[' (after spaces), cut in
    byte ranges and read by one worker per range with the JSON lines parser. Each
    worker emits, in order, one record per line of its range that is a JSON object,
    cell by cell, or the JSON [null], all cells null; a blank line gives nothing.
    It reports an error exactly when one of those lines is bad: not blank, and
    neither an object nor [null]. Together the workers emit the records of the
    file's lines, in order, each once, except those of the lines that start exactly
    at an interior chunk boundary. Restrictions, reading, parsing and emission are
    composed. *)
Theorem JSONL_file_records `{FloatCvt, UnicodeLower, GoQuote, GoUnmarshal, GoFormatV, GoScanValue}
    (cfg : SourceConfig) (ports : StreamPorts) (uri : string) (data : list byte) :
  Multiline cfg = false -> zlen data + chunkOf cfg <= MaxInt64 ->
  p_Open ports uri = Ok data -> p_WrapStream ports = None -> decodesJSONL ports ->
  shortLines data -> Forall notArray (map snd (linesOf data)) ->
  let rs := SplitRestriction cfg (mkRange 0 (zlen data)) in
  let worker r := ProcessElement cfg ports [] (CreateTracker r) uri in
  let recordOf := lineRecord (Some (SrcSchema cfg)) uri in
  (forall r, r ∈ rs ->
     let ls := rangeLines data (Start r) (End_ r) in
     (worker r).1.1 = omap recordOf ls /\ ((worker r).1.2 <> None <-> Exists badLine ls))
  /\ concat (map (fun r => (worker r).1.1) rs)
     = omap recordOf (map snd (filter (fun pl => fst pl ∉ interior rs \/ fst pl = 0) (linesOf data))).
Proof.
  intros Hm Hmax Hopen Hwrap Hdec Hshort Hna rs worker recordOf.
  destruct (SplitRestriction_ranges cfg data Hm Hmax) as [Hr Hl]. fold rs in Hr, Hl.
  assert (forall r, r ∈ rs ->
    let ls := rangeLines data (Start r) (End_ r) in
    (worker r).1.1 = omap recordOf ls /\ ((worker r).1.2 <> None <-> Exists badLine ls)) as Hw.
  { intros r Hin ls'. specialize (Hr r Hin). unfold worker, ProcessElement. rewrite Hopen.
    change (ByteOffset.GetRestriction (CreateTracker r)) with r.
    destruct (readRange cfg (End_ r) [] (CreateTracker r) data) as [[ls|] t'].
    - cbn [fst] in Hr. change (default [] (Some ls)) with ls in Hr. subst ls'. rewrite <- Hr.
      pose proof (rangeLines_sublist data (Start r) (End_ r)) as Hsub. rewrite <- Hr in Hsub.
      pose proof (linesOf_sublist data ls Hsub) as Hls.
      destruct (decodeStream_lines cfg ports uri ls Hdec Hwrap) as (e & E & He); [| |done|].
      + unfold shortLines. rewrite Hls. by eapply Forall_sublist.
      + apply notArray_concat. by eapply Forall_sublist.
      + rewrite E. cbn [fst snd]. unfold recordOf. rewrite <- recordsOf_lineOut. split; [done|].
        rewrite <- (errorsOf_lineOut (Some (SrcSchema cfg)) uri). split; naive_solver.
    - cbn in Hr. subst ls'. rewrite <- Hr. split; [done|]. rewrite Exists_nil. naive_solver. }
  split; [done|]. rewrite <- Hl. clear - Hw. induction rs as [|r rs IH]; [done|].
  cbn [map concat]. rewrite omap_app. rewrite (proj1 (Hw r ltac:(by left))). f_equal.
  apply IH. intros r' Hr'. apply Hw. by right.
Qed.

(** ** Samples, and where the parser does less than it means to *)
Section Samples.
#[local] Instance sampleFmtV : GoFormatV := fun _ => "1".
(** The objects of the samples: [{}], [{"id":1}] written [1], and anything else is an error. *)
#[local] Instance sampleJSON : GoUnmarshal := fun l =>
  if bool_decide (l = bytes "{}") then inl (JObj ∅)
  else if bool_decide (l = bytes "1") then inl (JObj {[ "id" := JNum (of_int 1) ]})
  else inr (Errorf "invalid character" []).
#[local] Instance sampleScan : GoScanValue := {|
  scanValue := fun _ l => match l with
                          | "1"%char :: r => inl (JObj {[ "id" := JNum (of_int 1) ]}, r)
                          | _ => inr (Errorf "invalid character" [])
                          end;
  typeError := fun _ => Errorf "cannot unmarshal" [] |}.
#[local] Instance sampleQuote : GoQuote := fun s => s.
#[local] Instance sampleLower : UnicodeLower := fun s => s.
#[local] Instance sampleCvt : FloatCvt := fun _ => 0.
Definition idSchema : Schema := schemaOf [mkField "id" TypeInt64 true 0 ""].
Definition jsonCfg (chunk : Z) : SourceConfig := mkSourceConfig "" "" [] "jsonl" "" "" false "utf-8" "" chunk idSchema None.

Lemma JSONL_Decode_lines_witness :
  let l := text " 1/ /bad/{}" in
  shortLines l /\ exists p', PoolOk p' /\ JSONL_Decode neverDone neverCut 0 None l (Some idSchema) "f" ∅
  = Some (Ok (recordsOf (omap (lineOut (Some idSchema) "f") (map snd (linesOf l))),
              take errChanSize (errorsOf (omap (lineOut (Some idSchema) "f") (map snd (linesOf l)))), p')).
Proof.
  intros l. assert (shortLines l) as Hs by (by apply shortLines_bool).
  split; [done|]. apply (JSONL_Decode_lines (Some idSchema) "f" l ∅ 0 emptyPool_ok Hs). by vm_compute.
Defined.
Example lines_ex :
  map Values (recordsOf (omap (lineOut (Some idSchema) "f") (map snd (linesOf (text " 1/ /bad/{}")))))
  = [[float64Value (of_int 1)]; [nullValue TypeInt64]].
Proof. vm_compute. reflexivity. Qed.

Definition samplePorts (data : list byte) : StreamPorts :=
  mkPorts (fun _ => Ok data) None (fun stream schema uri =>
    match JSONL_Decode neverDone neverCut 0 None stream (Some schema) uri emptyPool with
    | Some (Ok (recs, errs, _)) => Ok (map Some recs, map Some errs)
    | Some (Err e) => Err e
    | Some (Panic s) => Panic s
    | None => Panic "the decoder does not end"
    end).
Lemma samplePorts_decode data : decodesJSONL (samplePorts data).
Proof.
  intros stream schema uri n recs errs p' Ha E. unfold samplePorts. cbn [p_Decode].
  assert (JSONL_Decode neverDone neverCut 0 None stream (Some schema) uri emptyPool
          = JSONL_Decode neverDone neverCut n None stream (Some schema) uri emptyPool) as ->; [|by rewrite E].
  unfold JSONL_Decode, decodeJSON. unfold notArray in Ha. destruct (dropWhile jsonSpace stream) as [|b r]; [done|].
  by rewrite bool_decide_false by (intros ->; done).
Qed.
Lemma JSONL_file_records_witness :
  let data := text "1/{}/1/" in
  let rs := SplitRestriction (jsonCfg 3) (mkRange 0 (zlen data)) in
  let worker r := ProcessElement (jsonCfg 3) (samplePorts data) [] (CreateTracker r) "f" in
  let recordOf := lineRecord (Some (SrcSchema (jsonCfg 3))) "f" in
  length rs = 3%nat
  /\ (forall r, r ∈ rs ->
       let ls := rangeLines data (Start r) (End_ r) in
       (worker r).1.1 = omap recordOf ls /\ ((worker r).1.2 <> None <-> Exists badLine ls))
  /\ concat (map (fun r => (worker r).1.1) rs)
     = omap recordOf (map snd (filter (fun pl => fst pl ∉ interior rs \/ fst pl = 0) (linesOf data))).
Proof.
  intros data rs worker recordOf. split; [reflexivity|].
  apply (JSONL_file_records (jsonCfg 3) (samplePorts data) "f" data).
  - done.
  - vm_compute. discriminate.
  - done.
  - done.
  - apply samplePorts_decode.
  - by apply shortLines_bool.
  - vm_compute. by repeat constructor.
Defined.

(** After a malformed element the decoder returns the same error for ever, [More] still
    sees the next character, and the loop runs until the context is done. *)
Lemma malformed_element_spins schema sourceFile l p n : forall k,
  More l = true -> is_Ok (match scanValue None l with inl v => Ok v | inr e => Err e end) = false ->
  arrayLoop neverDone neverCut None schema sourceFile n k ArrFirst l p = None.
Proof.
  intros k Hm Hs.
  assert (forall n k e, arrayLoop neverDone neverCut None schema sourceFile n k (ArrStuck e) l p = None) as Hstuck.
  { clear k n. induction n as [|n IH]; intros k e; [done|]. cbn [arrayLoop]. rewrite Hm. cbn.
    by rewrite IH. }
  destruct n as [|n]; [done|]. cbn [arrayLoop]. rewrite Hm. cbn [negb neverDone DecodeNext].
  destruct (scanValue None l) as [v|e]; [done|]. cbn. by rewrite Hstuck.
Qed.
(** An array that is cut after a value ends without an error. *)
Lemma truncated_array_is_silent :
  (fun r => match r with Ok (recs, errs, _) => (length recs, length errs) | _ => (0, 0)%nat end)
    <$> JSONL_Decode neverDone neverCut 9 None (bytes "[1,1") (Some idSchema) "f" ∅ = Some (2, 0)%nat.
Proof. vm_compute. reflexivity. Qed.
(** Numbers are read as binary64, and an integer column takes the integer part: a large
    identifier changes, and a fraction is dropped. *)
Lemma json_number_to_int :
  of_int 9007199254740993 = of_int 9007199254740992
  /\ int64_trunc (fdiv (of_int 19) (of_int 10)) = 1.
Proof. split; vm_compute; reflexivity. Qed.
End Samples.
