(* ===== verification/Connectors.v ===== *)
(** * Connectors

    Models the tables by which the program finds its parts, and what it builds with them:
    [internal/adapters/streams/parsers/registry.go] and [formatters/registry.go] (formats),
    [formatters/init.go] and the [init.go] of the other sinks, [internal/ports/registry.go]
    (connectors), [internal/adapters/streams/codecs] (the reading of a source's bytes), the
    [builders.go] of the Beam packages, [cmd/pipeline/worker_init.go] and
    [cmd/pipeline/registry.go]. *)
From S2P Require Import Prelude GoStr Wire Schema RecordModel Config Resilience BatchBuffer Storage FileSink ParquetSink BigQuery HttpClient ApiSink ByteStream JsonUtils Csv Jsonl.

(** ** Formats *)
Section Formats.
Context {A : Type} `{UnicodeLower}.
Definition RegisterFormat (format : string) (factory : A) (reg : gmap string A) : gmap string A :=
  <[lowerTrim format := factory]> reg.
(** The keys are ranged over in any order and then sorted. *)
Definition SupportedFormats (reg : gmap string A) : list string :=
  merge_sort strLe (List.filter (fun k => negb (k =s "")) (map fst (map_to_list reg))).
Definition lookupFormat `{GoQuote} (what : string) (format : string) (reg : gmap string A) : A + error :=
  match reg !! lowerTrim format with
  | Some factory => inl factory
  | None => inr (Errorf (what +:+ Quote format +:+ " (supported formats: ["
                         +:+ joinWith " " (SupportedFormats reg) +:+ "])") [])
  end.
End Formats.

Inductive Decoder := DecCSV (p : CSVParser) | DecJSONL.
Inductive Formatter := FmtCSV (f : CSVFormatter) | FmtJSONL.
Definition formatterOf `{GoFormatFloat, GoJSON} (f : Formatter) : RecordFormatter :=
  match f with FmtCSV f => csvFormatter f | FmtJSONL => jsonlFormatter end.
(** What a decoder sends for a stream, and the error the stream ends with, if any. *)
Definition Decodes `{UnicodeFold, GoUnmarshal, GoFormatV, GoScanValue} (d : Decoder) (ctx : nat -> option error)
    (cut : nat -> bool) (l : list byte) (broken : option error) (schema : Schema) (sourceFile : string)
    (out : result (list GenericRecord * list error * gmap string string)) (p : gmap string string) : Prop :=
  match d with
  | DecCSV parser => CSV_Decode ctx parser broken l (Some schema) sourceFile p = out
  | DecJSONL => exists n, JSONL_Decode ctx cut n broken l (Some schema) sourceFile p = Some out
  end.

Definition tab : string := str ["009"%char].
Section FormatTables.
Context `{UnicodeLower, GoQuote}.
Definition DecoderFactory : Type := option SourceConfig -> Decoder.
Definition csvDecoderFactory : DecoderFactory := fun cfg =>
  let delim := match cfg with
               | Some c => if negb (Config.Delimiter c =s "") then Config.Delimiter c else ","
               | None => ","
               end in
  DecCSV (NewCSVParser delim true).
Definition jsonlDecoderFactory : DecoderFactory := fun _ => DecJSONL.
Definition tsvDecoderFactory : DecoderFactory := fun _ => DecCSV (NewCSVParser tab true).
Definition decoderRegistry : gmap string DecoderFactory :=
  fold_left (fun reg '(format, factory) => RegisterFormat format factory reg)
    [("", csvDecoderFactory); ("csv", csvDecoderFactory); ("txt", csvDecoderFactory); ("tsv", tsvDecoderFactory);
     ("json", jsonlDecoderFactory); ("jsonl", jsonlDecoderFactory); ("jsonlines", jsonlDecoderFactory)] ∅.
Definition Build (format : string) (cfg : option SourceConfig) : Decoder + error :=
  match lookupFormat "unsupported source format: " format decoderRegistry with
  | inl factory => inl (factory cfg)
  | inr e => inr e
  end.

Definition FormatterFactory : Type := FormatOptions -> Formatter.
Definition csvFormatterFactory : FormatterFactory := fun opts => FmtCSV (NewCSVFormatter opts).
Definition jsonlFormatterFactory : FormatterFactory := fun _ => FmtJSONL.
Definition tsvFormatterFactory : FormatterFactory := fun opts =>
  FmtCSV (NewCSVFormatter (mkFormatOptions tab (IncludeHeader opts) (FoCharset opts) (LineTerminator opts) (QuoteAll opts))).
Definition formatterRegistry : gmap string FormatterFactory :=
  fold_left (fun reg '(format, factory) => RegisterFormat format factory reg)
    [("", jsonlFormatterFactory); ("csv", csvFormatterFactory); ("txt", csvFormatterFactory); ("tsv", tsvFormatterFactory);
     ("json", jsonlFormatterFactory); ("jsonl", jsonlFormatterFactory); ("jsonlines", jsonlFormatterFactory)] ∅.
Definition BuildFormatter (format : string) (opts : FormatOptions) : Formatter + error :=
  match lookupFormat "unsupported format for delimited formatter: " format formatterRegistry with
  | inl factory => inl (factory opts)
  | inr e => inr e
  end.

(** ** [PipelineBuilder] *)
Definition BuildDecoder (srcCfg : option SourceConfig) : Decoder + error :=
  Build (match srcCfg with Some c => Config.Format c | None => "" end) srcCfg.
End FormatTables.

(** A decompressor refuses a stream at once or gives bytes and the error they end with; a
    character set decoder replaces what it cannot decode. *)
Class StreamCodecs := {
  gunzip : list byte -> option error -> (list byte * option error) + error;
  unzstd : list byte -> option error -> (list byte * option error) + error;
  unsnappy : list byte -> option error -> list byte * option error;
  bunzip2 : list byte -> option error -> list byte * option error;
  latin1 : list byte -> list byte; windows1252 : list byte -> list byte;
  utf16 : bool -> list byte -> list byte }.
Section Wrap.
Context `{StreamCodecs, UnicodeLower, GoQuote}.
Definition WrapDecompressor (l : list byte) (broken : option error) (compType : string)
    : (list byte * option error) + error :=
  let t := lowerTrim compType in
  if (t =s "") || (t =s "none") then inl (l, broken)
  else if (t =s "gzip") || (t =s "gz") then
    match gunzip l broken with
    | inr e => inr (Errorf ("failed to reset gzip reader: " +:+ Error e) [e])
    | r => r
    end
  else if t =s "zstd" then
    match unzstd l broken with
    | inr e => inr (Errorf ("failed to reset zstd reader: " +:+ Error e) [e])
    | r => r
    end
  else if (t =s "snappy") || (t =s "sz") then inl (unsnappy l broken)
  else if (t =s "bzip2") || (t =s "bz2") then inl (bunzip2 l broken)
  else inr (Errorf ("unsupported compression format: " +:+ Quote compType
                    +:+ " (supported: gzip, zstd, snappy, bzip2, none)") []).
Definition WrapNormalizer (l : list byte) (charset : string) : list byte + error :=
  let c := lowerTrim charset in
  if (c =s "") || (c =s "utf-8") || (c =s "utf8") then inl l
  else if (c =s "iso-8859-1") || (c =s "latin1") || (c =s "latin-1") then inl (latin1 l)
  else if (c =s "windows-1252") || (c =s "cp1252") then inl (windows1252 l)
  else if c =s "utf-16le" then inl (utf16 false l)
  else if c =s "utf-16be" then inl (utf16 true l)
  else inr (Errorf ("unsupported charset: " +:+ charset) []).

(** [decryptor]: the decryptor and the reference of its key, if both are set. *)
Definition WrapStream (decryptor : option (list byte -> option error -> (list byte * option error) + error))
    (srcCfg : SourceConfig) (l : list byte) (broken : option error) : (list byte * option error) + error :=
  match (match decryptor with None => inl (l, broken) | Some decrypt => decrypt l broken end) with
  | inr e => inr (Errorf ("failed to apply stream decryption: " +:+ Error e) [e])
  | inl (l, broken) =>
      match WrapDecompressor l broken (Config.Compression srcCfg) with
      | inr e => inr (Errorf ("failed to apply decompression: " +:+ Error e) [e])
      | inl (l, broken) =>
          match WrapNormalizer l (Charset srcCfg) with
          | inr e => inr (Errorf ("failed to apply charset normalizer: " +:+ Error e) [e])
          | inl l => inl (l, broken)
          end
      end
  end.
End Wrap.

(** [compression.WrapCompressor]: no compressor for "none". *)
Class StreamCompressors := { gzipC : byteCodec; zstdC : byteCodec; snappyC : byteCodec }.
Definition WrapCompressor `{StreamCompressors, UnicodeLower, GoQuote} (compression : string) : option byteCodec + error :=
  let t := lowerTrim compression in
  if (t =s "") || (t =s "none") then inl None
  else if (t =s "gzip") || (t =s "gz") then inl (Some gzipC)
  else if t =s "zstd" then inl (Some zstdC)
  else if (t =s "snappy") || (t =s "sz") then inl (Some snappyC)
  else inr (Errorf ("unsupported output compression format: " +:+ Quote compression
                    +:+ " (supported: gzip, zstd, snappy, none)") []).
(** What [registerWorkerStreamProviders] and [registerWorkerStorageProviders] leave set on
    every worker. No encryptor is ever set. *)
Definition workerProviders `{StreamCompressors, UnicodeLower, GoQuote, GoFormatFloat, GoJSON} : SinkProviders :=
  mkProviders true
    (Some (fun format opts _ => match BuildFormatter format opts with
                                | inl f => Some (formatterOf f)
                                | inr _ => None
                                end))
    (Some WrapCompressor) None.

(** ** The registries of connectors ([ports]) *)
Section Ports.
Context {A : Type} `{GoQuote}.
Definition ErrUnregisteredConnector : error := Sentinel "unregistered connector".
Definition RegisterPort (what target : string) (factory : A) (reg : gmap string A) : result (gmap string A) :=
  match reg !! target with
  | Some _ => Panic ("ports: " +:+ what +:+ Quote target +:+ " already registered")
  | None => Ok (<[target := factory]> reg)
  end.
Fixpoint registerAll (what : string) (l : list (string * A)) (reg : gmap string A) : result (gmap string A) :=
  match l with
  | [] => Ok reg
  | (target, factory) :: l' => reg ← RegisterPort what target factory reg; registerAll what l' reg
  end.
Definition lookupPort (what target : string) (reg : gmap string A) : A + error :=
  match reg !! target with
  | Some factory => inl factory
  | None => inr (Errorf ("unregistered connector: " +:+ what +:+ Quote target) [ErrUnregisteredConnector])
  end.
End Ports.

(** ** Sinks *)
Record SinkDeps := mkDeps { depStorage : bool; depSecrets : option (string -> string + error) }.
Inductive SinkFactory := delimitedSinkFactory | parquetSinkFactory | fileDispatcherSinkFactory
  | restSinkBuilderFactory | bqSinkFactory.
(** What [RegisterSink] is called with by the packages the program imports. *)
Definition sinkTable : list (string * SinkFactory) :=
  [("bigquery", bqSinkFactory); ("rest_api", restSinkBuilderFactory); ("http_api", restSinkBuilderFactory);
   ("csv", delimitedSinkFactory); ("txt", delimitedSinkFactory); ("tsv", delimitedSinkFactory);
   ("json", delimitedSinkFactory); ("jsonl", delimitedSinkFactory); ("jsonlines", delimitedSinkFactory);
   ("parquet", parquetSinkFactory);
   ("file", fileDispatcherSinkFactory); ("storage", fileDispatcherSinkFactory);
   ("local_storage", fileDispatcherSinkFactory); ("gcs", fileDispatcherSinkFactory);
   ("s3", fileDispatcherSinkFactory)].
Definition sinkRegistry `{GoQuote} : gmap string SinkFactory :=
  match registerAll "sink target " sinkTable ∅ with Ok reg => reg | _ => ∅ end.

Inductive SinkBuilder :=
  | StreamFileBeamSink (storage : bool) (formatter : Formatter) (outputDir format compression : string)
      (encryption : EncryptionConfig) (opts : FormatOptions) (single : bool) (schema : Schema)
  | ParquetBeamSink (storage : bool) (outputPath compression encryption : string) (includeSourceFile : bool)
      (schema : Schema)
  | BatchAPIBeamSink (endpoint : APIEndpointConfig) (options : APISinkOptions) (token : string) (writer : APISink)
      (schema : Schema) (dlqPath : string) (dlqSink : bool)
  | BigQuerySinkBuilder (writer : StorageWriteAdapter) (cfg : BigQuerySinkConfig) (schema : Schema).

Section Sinks.
Context `{UnicodeLower, GoQuote, GoDuration} (t : Z) (cfg : PipelineConfig) (deps : SinkDeps).
Definition delimitedSink : SinkBuilder + error :=
  let d := Destination cfg in
  match BuildFormatter (OutputFormat d) (DstFormatOptions d) with
  | inr e => inr e
  | inl f => inl (StreamFileBeamSink (depStorage deps) f (OutputPath d) (OutputFormat d) (DstCompression d)
                    (Encryption d) (DstFormatOptions d) (Config.SingleFile d) (GetSchema cfg))
  end.
Definition parquetSink : SinkBuilder + error :=
  let d := Destination cfg in
  let includeSourceFile := match DatabaseSource cfg, APISource cfg with None, None => true | _, _ => false end in
  inl (ParquetBeamSink (depStorage deps) (OutputPath d) (DstCompression d) (EncType (Encryption d))
         includeSourceFile (GetSchema cfg)).
Definition restSink : SinkBuilder + error :=
  let d := Destination cfg in
  match restWriterFactory t d (depSecrets deps) with
  | inr e => inr e
  | inl writer =>
      match resolveCredential (depSecrets deps) (CredentialRef (DstEndpoint d)) with
      | inr e => inr e
      | inl token => inl (BatchAPIBeamSink (DstEndpoint d) (APIOptions d) token writer (GetSchema cfg)
                            (QuarantinePath (DLQ cfg)) (depStorage deps))
      end
  end.
Definition bqSink : SinkBuilder + error :=
  match BigQuery_Validate (BigQueryOptions (Destination cfg)) with
  | Ok options => inl (BigQuerySinkBuilder NewStorageWriteAdapter options (GetSchema cfg))
  | Err e => inr e
  | Panic m => inr (Errorf m [])
  end.
(** The format the dispatcher looks for. *)
Definition targetFormat : string :=
  let d := Destination cfg in
  if (OutputFormat d =s "") || (OutputFormat d =s DstType d) then DefaultDestinationOutputFormat else OutputFormat d.
(** [BuildSink]: the dispatcher calls it again, [None] when it still does after [n] calls. *)
Fixpoint BuildSink (n : nat) (target : string) : option (SinkBuilder + error) :=
  match n with
  | O => None
  | S n =>
      match lookupPort "sink target " target sinkRegistry with
      | inr e => Some (inr e)
      | inl delimitedSinkFactory => Some delimitedSink
      | inl parquetSinkFactory => Some parquetSink
      | inl restSinkBuilderFactory => Some restSink
      | inl bqSinkFactory => Some bqSink
      | inl fileDispatcherSinkFactory => BuildSink n targetFormat
      end
  end.
Definition buildDestinationSink (n : nat) : option (SinkBuilder + error) := BuildSink n (DstType (Destination cfg)).
End Sinks.

(** What each [BuildSink] of the Beam packages applies to the valid records. *)
Inductive SinkFn := FnStream (fn : StreamFileSink) | FnParquet (fn : ParquetSink) | FnAPI (fn : APISinkDoFn APISink)
  | FnBigQuery (fn : BigQuerySink StorageWriteAdapter).
Definition sinkFn `{UnicodeLower, GoFormatFloat, GoJSON} (b : SinkBuilder) : SinkFn :=
  match b with
  | StreamFileBeamSink storage f dir format comp enc opts single schema =>
      FnStream (NewStreamFileSink storage (Some (formatterOf f)) dir format comp enc single opts schema)
  | ParquetBeamSink storage path comp enc source schema =>
      let fn := NewParquetSink storage path comp enc schema in
      FnParquet (mkParquetSink (pk_OutputDir fn) (pk_Compression fn) (pk_Encryption fn) source (pk_Schema fn)
                   (pk_stager fn) (pk_writer fn) (pk_numCols fn) (pk_rowBuffer fn))
  | BatchAPIBeamSink endpoint options token writer schema dlqPath dlqSink =>
      let fn := WithWriter writer (NewAPISinkDoFn endpoint options schema dlqPath token) in
      FnAPI (if dlqSink : bool then WithDLQSink fn else fn)
  | BigQuerySinkBuilder writer cfg schema => FnBigQuery (NewBigQuerySinkDoFn (Some writer) cfg schema)
  end.

(** ** Sources *)
(** [ports.RegisterSource] and [RegisterPagedAPISource]: the names. *)
Inductive SourceFactory := sqlReaderFactory | mongoReaderFactory.
Definition sourceTable : list (string * SourceFactory) :=
  [("postgres", sqlReaderFactory); ("pgx", sqlReaderFactory); ("cockroach", sqlReaderFactory);
   ("mysql", sqlReaderFactory); ("mariadb", sqlReaderFactory);
   ("mongo", mongoReaderFactory); ("mongodb", mongoReaderFactory)].
Definition sourceRegistry `{GoQuote} : gmap string SourceFactory :=
  match registerAll "source driver " sourceTable ∅ with Ok reg => reg | _ => ∅ end.

Section ByteStream.
Context `{UnicodeLower, GoQuote} (list_ : string -> list string + error).
(** The files of the explicit paths: a pattern is expanded, a blank path skipped. *)
Fixpoint expandPaths (paths : list string) : list string + error :=
  match paths with
  | [] => inl []
  | p :: paths' =>
      let p := TrimSpace p in
      let files :=
        if p =s "" then inl []
        else if Contains p "*" then
          match list_ p with
          | inr e => inr (Errorf ("failed listing source files for pattern " +:+ p +:+ ": " +:+ Error e) [e])
          | r => r
          end
        else inl [p] in
      match files, expandPaths paths' with
      | inr e, _ => inr e
      | inl _, inr e => inr e
      | inl fs, inl rest => inl (fs ++ rest)
      end
  end.
Definition sourceFiles (s : SourceConfig) : list string + error :=
  let files :=
    match Paths s with
    | _ :: _ => expandPaths (Paths s)
    | [] =>
        if TrimSpace (Path s) =s "" then inl []
        else match list_ (Path s) with
             | inr e => inr (Errorf ("failed listing source files: " +:+ Error e) [e])
             | r => r
             end
    end in
  match files with
  | inl [] => inl (AllPaths s)
  | r => r
  end.
Record ByteStreamBeamSource := mkByteStreamSource { bs_URIs : list string; bs_Decoder : Decoder; bs_Config : SourceConfig }.
Definition buildByteStreamSource (cfg : PipelineConfig) : ByteStreamBeamSource + error :=
  match BuildDecoder (Some (Source cfg)) with
  | inr e => inr (Errorf ("decoder initialization failed: " +:+ Error e) [e])
  | inl decoder =>
      match sourceFiles (Source cfg) with
      | inr e => inr e
      | inl files => inl (mkByteStreamSource files decoder (Source cfg))
      end
  end.
End ByteStream.

(** The dead-letter and audit sinks of a pipeline. *)
Definition buildDLQSink (cfg : PipelineConfig) : string := QuarantinePath (DLQ cfg).
Definition buildAuditSink (cfg : PipelineConfig) : option string :=
  if QuarantinePath (DLQ cfg) =s "" then None else Some (QuarantinePath (DLQ cfg)).

(** ** What a destination is built with

    The specification of [BuildSink], by the name of the connector. *)
Definition delimitedNames : list string := ["csv"; "txt"; "tsv"; "json"; "jsonl"; "jsonlines"].
Definition apiNames : list string := ["rest_api"; "http_api"].
Definition dispatchers : list string := ["file"; "storage"; "local_storage"; "gcs"; "s3"].
Inductive builtFor `{UnicodeLower, GoQuote, GoDuration} (t : Z) (cfg : PipelineConfig) (deps : SinkDeps) (name : string)
    : SinkBuilder + error -> Prop :=
  | built_delimited f : name ∈ delimitedNames ->
      BuildFormatter (OutputFormat (Destination cfg)) (DstFormatOptions (Destination cfg)) = inl f ->
      builtFor t cfg deps name (inl (StreamFileBeamSink (depStorage deps) f (OutputPath (Destination cfg))
        (OutputFormat (Destination cfg)) (DstCompression (Destination cfg)) (Encryption (Destination cfg))
        (DstFormatOptions (Destination cfg)) (Config.SingleFile (Destination cfg)) (GetSchema cfg)))
  | no_formatter e : name ∈ delimitedNames ->
      BuildFormatter (OutputFormat (Destination cfg)) (DstFormatOptions (Destination cfg)) = inr e ->
      builtFor t cfg deps name (inr e)
  | built_parquet source : name = "parquet" ->
      (source = true <-> DatabaseSource cfg = None /\ APISource cfg = None) ->
      builtFor t cfg deps name (inl (ParquetBeamSink (depStorage deps) (OutputPath (Destination cfg))
        (DstCompression (Destination cfg)) (EncType (Encryption (Destination cfg))) source (GetSchema cfg)))
  | built_api token : name ∈ apiNames ->
      resolveCredential (depSecrets deps) (CredentialRef (DstEndpoint (Destination cfg))) = inl token ->
      builtFor t cfg deps name (inl (BatchAPIBeamSink (DstEndpoint (Destination cfg)) (APIOptions (Destination cfg)) token
        (NewAPISink t (DstEndpoint (Destination cfg)) (APIOptions (Destination cfg)) token) (GetSchema cfg)
        (QuarantinePath (DLQ cfg)) (depStorage deps)))
  | no_credential e : name ∈ apiNames ->
      resolveCredential (depSecrets deps) (CredentialRef (DstEndpoint (Destination cfg))) = inr e ->
      builtFor t cfg deps name (inr e)
  | built_bigquery options : name = "bigquery" ->
      BigQuery_Validate (BigQueryOptions (Destination cfg)) = Ok options ->
      builtFor t cfg deps name (inl (BigQuerySinkBuilder NewStorageWriteAdapter options (GetSchema cfg)))
  | bad_bigquery e : name = "bigquery" ->
      BigQuery_Validate (BigQueryOptions (Destination cfg)) = Err e -> builtFor t cfg deps name (inr e)
  | no_connector : name ∉ "parquet" :: "bigquery" :: delimitedNames ++ apiNames ++ dispatchers ->
      builtFor t cfg deps name
        (inr (Errorf ("unregistered connector: sink target " +:+ Quote name) [ErrUnregisteredConnector])).

(** ** Lemmas *)
Lemma sinkRegistry_lookup `{GoQuote} target :
  sinkRegistry !! target = (list_to_map sinkTable : gmap string SinkFactory) !! target.
Proof. unfold sinkRegistry. vm_compute (registerAll _ _ _). vm_compute (list_to_map _). done. Qed.
(** The names under which each factory is registered. *)
Lemma sinkRegistry_names `{GoQuote} name :
  match sinkRegistry !! name with
  | Some delimitedSinkFactory => name ∈ delimitedNames
  | Some parquetSinkFactory => name = "parquet"
  | Some restSinkBuilderFactory => name ∈ apiNames
  | Some bqSinkFactory => name = "bigquery"
  | Some fileDispatcherSinkFactory => name ∈ dispatchers
  | None => name ∉ "parquet" :: "bigquery" :: delimitedNames ++ apiNames ++ dispatchers
  end.
Proof.
  rewrite sinkRegistry_lookup. unfold sinkTable, delimitedNames, apiNames, dispatchers.
  cbn [list_to_map foldr uncurry fst snd].
  repeat match goal with
  | |- context [<[?n := _]> _ !! name] =>
      destruct (decide (n = name)) as [<-|];
        [rewrite lookup_insert_eq; first [done|apply (bool_decide_unpack _); vm_compute; exact I]
        |rewrite (lookup_insert_ne _ n name) by done]
  end.
  rewrite lookup_empty. cbn [app]. rewrite !not_elem_of_cons. split_and!; try congruence. apply not_elem_of_nil.
Qed.

Lemma BigQuery_Validate_noPanic `{GoQuote} c m : BigQuery_Validate c <> Panic m.
Proof. unfold BigQuery_Validate. intros. by repeat case_match. Qed.
Lemma BuildSink_built `{UnicodeLower, GoQuote, GoDuration} t cfg deps name n : name ∉ dispatchers ->
  exists out, BuildSink t cfg deps (S n) name = Some out /\ builtFor t cfg deps name out.
Proof.
  intros Hd. pose proof (sinkRegistry_names name) as E. cbn [BuildSink]. unfold lookupPort.
  destruct (sinkRegistry !! name) as [[]|]; [| |done| | |].
  - eexists. split; [done|]. unfold delimitedSink. destruct (BuildFormatter _ _) eqn:Ef; by constructor.
  - eexists. split; [done|]. apply built_parquet; [done|].
    destruct (DatabaseSource cfg), (APISource cfg); naive_solver.
  - eexists. split; [done|]. unfold restSink, restWriterFactory.
    destruct (resolveCredential _ _) eqn:Ec; by constructor.
  - eexists. split; [done|]. unfold bqSink. destruct (BigQuery_Validate _) as [o|e|m] eqn:Ev; [by constructor..|].
    by apply BigQuery_Validate_noPanic in Ev.
  - eexists. split; [done|]. by apply no_connector.
Qed.
Lemma BuildSink_dispatch `{UnicodeLower, GoQuote, GoDuration} t cfg deps target n : target ∈ dispatchers ->
  BuildSink t cfg deps (S n) target = BuildSink t cfg deps n (targetFormat cfg).
Proof.
  intros Hd. pose proof (sinkRegistry_names target) as E. cbn [BuildSink]. unfold lookupPort.
  assert (forall l : list string, (forall x, x ∈ l -> x ∉ dispatchers) -> target ∉ l) as Hno by set_solver.
  destruct (sinkRegistry !! target) as [[]|]; try done; exfalso.
  - revert E. apply Hno. apply Forall_forall. apply (bool_decide_unpack _). vm_compute. exact I.
  - subst. revert Hd. apply (bool_decide_unpack (_ ∉ dispatchers)). vm_compute. exact I.
  - revert E. apply Hno. apply Forall_forall. apply (bool_decide_unpack _). vm_compute. exact I.
  - subst. revert Hd. apply (bool_decide_unpack (_ ∉ dispatchers)). vm_compute. exact I.
  - apply E. do 2 right. apply elem_of_app. right. apply elem_of_app. by right.
Qed.
(** A destination whose type and format name two dispatchers. *)
Lemma dispatch_forever `{UnicodeLower, GoQuote, GoDuration} t cfg deps n :
  let d := Destination cfg in
  DstType d ∈ dispatchers -> OutputFormat d <> DstType d -> OutputFormat d ∈ dispatchers ->
  buildDestinationSink t cfg deps n = None.
Proof.
  intros d Hd Hne Hf. assert (targetFormat cfg = OutputFormat d) as Et.
  { unfold targetFormat. fold d. rewrite (proj2 (String.eqb_neq _ _) Hne).
    destruct (String.eqb_spec (OutputFormat d) "") as [E|]; [|done]. exfalso. revert Hf.
    rewrite E. apply (bool_decide_unpack (_ ∉ dispatchers)). vm_compute. exact I. }
  unfold buildDestinationSink. destruct n as [|n]; [done|]. rewrite BuildSink_dispatch by done. rewrite Et.
  induction n as [|n IH]; [done|]. by rewrite BuildSink_dispatch, Et.
Qed.

(** Reads the tables of formats, entry by entry. *)
Ltac is_closed_string k := match k with EmptyString => idtac | String _ _ => idtac end.
Definition firstByte (s : string) : option byte := head (bytes s).
Definition formatsMatch (f : Formatter + error) (d : Decoder + error) : Prop :=
  match f, d with
  | inl (FmtCSV f), inl (DecCSV p) => firstByte (Csv.Delimiter p) = Some (delimiter f)
  | inl FmtJSONL, inl DecJSONL => True
  | inr _, inr _ => True
  | _, _ => False
  end.

(** ** Properties *)

(** C40. Which sink a destination gets, by its type and its output format. The
    registrations of the sinks do not collide. A type that is not a dispatcher's ([file],
    [storage], [local_storage], [gcs], [s3]) is the name of the sink: the stream sink of the
    formatter of the output format for [csv], [txt], [tsv], [json], [jsonl], [jsonlines];
    the Parquet sink for [parquet]; the API sink for [rest_api], [http_api]; BigQuery's for
    [bigquery]; each with the settings of the destination, or the error of its formatter,
    its credential or its validation; any other name is an error. A dispatcher's type gets
    the Parquet sink when the output format is blank or the type itself, and otherwise the
    sink the output format names; but when that is another dispatcher's name, no number of
    calls builds a sink. *)
Theorem BuildSink_outcome `{UnicodeLower, GoQuote, GoDuration} (t : Z) (cfg : PipelineConfig) (deps : SinkDeps) (n : nat) :
  let ty := DstType (Destination cfg) in
  let format := OutputFormat (Destination cfg) in
  let built name := exists out, buildDestinationSink t cfg deps n = Some out /\ builtFor t cfg deps name out in
  registerAll "sink target " sinkTable ∅ = Ok sinkRegistry
  /\ ((2 <= n)%nat -> ty ∉ dispatchers -> built ty)
  /\ ((2 <= n)%nat -> ty ∈ dispatchers -> format = "" \/ format = ty -> built "parquet")
  /\ ((2 <= n)%nat -> ty ∈ dispatchers -> format <> "" -> format <> ty -> format ∉ dispatchers -> built format)
  /\ (ty ∈ dispatchers -> format <> ty -> format ∈ dispatchers -> buildDestinationSink t cfg deps n = None)
  /\ (forall opts,
        BuildFormatter "csv" opts = inl (FmtCSV (NewCSVFormatter opts))
        /\ BuildFormatter "txt" opts = inl (FmtCSV (NewCSVFormatter opts))
        /\ BuildFormatter "tsv" opts = inl (FmtCSV (NewCSVFormatter (mkFormatOptions tab (IncludeHeader opts)
             (FoCharset opts) (LineTerminator opts) (QuoteAll opts))))
        /\ Forall (fun f => BuildFormatter f opts = inl FmtJSONL) [""; "json"; "jsonl"; "jsonlines"]).
Proof.
  intros ty format built.
  assert (forall name, (2 <= n)%nat -> ty ∈ dispatchers -> targetFormat cfg = name -> name ∉ dispatchers -> built name) as Hdisp.
  { intros name Hn Hd <- Hnd. unfold built, buildDestinationSink. fold ty. destruct n as [|[|m]]; [lia..|].
    rewrite BuildSink_dispatch by done. by apply BuildSink_built. }
  split_and!.
  - unfold sinkRegistry. by vm_compute (registerAll _ _ _).
  - intros Hn Hd. unfold built, buildDestinationSink. fold ty. destruct n as [|m]; [lia|]. by apply BuildSink_built.
  - intros Hn Hd Hf. apply Hdisp; [done..| |apply (bool_decide_unpack _); vm_compute; exact I].
    unfold targetFormat. fold format ty. destruct Hf as [->| ->]; [done|].
    by rewrite String.eqb_refl, orb_true_r.
  - intros Hn Hd Hf Hty Hnd. apply Hdisp; [done..| |done].
    unfold targetFormat. fold format ty. by rewrite (proj2 (String.eqb_neq _ _) Hf), (proj2 (String.eqb_neq _ _) Hty).
  - intros. by apply dispatch_forever.
  - intros opts. repeat split. by repeat constructor.
Qed.

(** A file written in a format can be read as that format: for every format name but
    the blank one, in any case and with any white space around it, the formatter and the
    decoder tables agree, and for delimited text the two use the same delimiter when they
    are configured with the same one. *)
Theorem formats_agree `{UnicodeLower, GoQuote} (format : string) (opts : FormatOptions) (src : SourceConfig) :
  Config.Delimiter src = FoDelimiter opts -> lowerTrim format <> "" ->
  formatsMatch (BuildFormatter format opts) (Build format (Some src)).
Proof.
  intros Hd Hne. unfold BuildFormatter, Build, lookupFormat.
  assert (formatsMatch (inl (csvFormatterFactory opts)) (inl (csvDecoderFactory (Some src)))) as Hcsv.
  { unfold csvFormatterFactory, csvDecoderFactory, NewCSVFormatter, NewCSVParser. cbn.
    rewrite Hd. by destruct (FoDelimiter opts) as [|b s]. }
  unfold formatterRegistry, decoderRegistry, RegisterFormat. cbn [fold_left].
  repeat match goal with
  | |- context [lowerTrim ?k] => is_closed_string k; change (lowerTrim k) with k
  end.
  generalize (lowerTrim format) as k, Hne. intros k Hk.
  repeat match goal with
  | |- context [<[?n := _]> _ !! k] =>
      destruct (decide (n = k)) as [<-|]; [by rewrite ?lookup_insert_eq|rewrite !(lookup_insert_ne _ n k) by done]
  end.
  by rewrite !lookup_empty.
Qed.

(** ** Samples, and where the connectors do less than they mean to *)
Section Samples.
#[local] Instance sampleLower : UnicodeLower := fun s => s.
#[local] Instance sampleQuote : GoQuote := fun s => s.
#[local] Instance sampleDuration : GoDuration := fun _ => "".
Definition destinationOf (ty format : string) : DestinationConfig :=
  Destination_ApplyDefaults
    (mkDestination ty "" format "/data/out" "" "gzip" (mkEncryption "pgp" "key" "") false false
       (mkFormatOptions "" false "" "" false) (mkEndpoint "" "" "" ∅)
       (mkAPISink "" "" 0 "" 0 0 0) (mkBigQuery "" "" "" "" 0)).
Definition pipelineOf (ty format : string) : PipelineConfig :=
  mkPipeline "p" "r" "batch" "" None None
    (mkSourceConfig "" "/in/a.csv" [] "csv" ";" "" false "" "" 0 (schemaOf []) None) None None
    (destinationOf ty format) (mkDLQ true "" (Float64.of_int 0)) [] (mkSecurity []).

(** A destination with no type and no format is a directory of Parquet files. *)
Lemma BuildSink_outcome_witness :
  let cfg := pipelineOf "" "" in
  DstType (Destination cfg) = "file"
  /\ exists out, buildDestinationSink 0 cfg (mkDeps true None) 2 = Some out
     /\ builtFor 0 cfg (mkDeps true None) "parquet" out
     /\ out = inl (ParquetBeamSink true "/data/out" "gzip" "pgp" true (schemaOf [])).
Proof.
  intros cfg. split; [reflexivity|].
  destruct (BuildSink_outcome 0 cfg (mkDeps true None) 2%nat) as (_ & _ & K & _).
  destruct (K ltac:(lia) ltac:(apply (bool_decide_unpack _); vm_compute; exact I) ltac:(vm_compute; auto)) as (out & E & Hb).
  exists out. split; [exact E|]. split; [exact Hb|]. vm_compute in E. by injection E as <-.
Defined.
Lemma formats_agree_witness :
  let opts := mkFormatOptions ";" true "" "" false in
  formatsMatch (BuildFormatter " CSV" opts) (Build " CSV" (Some (Source (pipelineOf "" "")))).
Proof. apply formats_agree; [reflexivity|discriminate]. Defined.

(** Two names of the dispatcher that differ, and it calls itself until the stack ends. *)
Lemma dispatcher_calls_itself n : buildDestinationSink 0 (pipelineOf "gcs" "s3") (mkDeps true None) n = None.
Proof. apply dispatch_forever; apply (bool_decide_unpack _); vm_compute; exact I. Qed.
(** The blank format is CSV for a source and JSON lines for a destination. *)
Lemma blank_format_differs opts src :
  BuildFormatter "" opts = inl FmtJSONL
  /\ Build "" (Some src) = inl (csvDecoderFactory (Some src)).
Proof. by split. Qed.
(** An encrypted destination passes the validation, and no bundle of it can be opened. *)
Lemma encryption_never_available `{StreamCompressors, GoFormatFloat, GoJSON} (fn : StreamFileSink) :
  named (EncType (sf_Encryption fn)) = true ->
  exists e, encryptorFn workerProviders fn = Some (inr e).
Proof. intros Hn. unfold encryptorFn. rewrite Hn. by eexists. Qed.
(** A Parquet file of a compressed and encrypted destination is named after the
    compression and the encryption, which the sink does not apply. *)
Lemma parquet_names_what_it_does_not_do shard now :
  BuildOutputURI shard now "/data/out" "parquet" "gzip" "pgp" true = "/data/out/output.parquet.gz.pgp".
Proof. vm_compute. reflexivity. Qed.
(** With an output path that has an extension, all the bundles publish the same file. *)
Lemma explicit_path_is_shared shard shard' now now' ext comp enc single :
  BuildOutputURI shard now "/data/out.csv" ext comp enc single
  = BuildOutputURI shard' now' "/data/out.csv" ext comp enc single.
Proof. reflexivity. Qed.
End Samples.
