(* ===== verification/Graph.v ===== *)
(** * The pipeline

    Models [internal/beam/core/graph_builder.go]: the transforms the pipeline is made of
    and how [BuildPipeline] composes them. A collection is the list of its elements, in
    any order; a runner applies an element function to each element, with the clock and
    the string pool of the worker it chose, and combines along any tree ([Metrics.v]). *)
From S2P Require Import Prelude GoStr Float64 Schema Intern RecordModel FastNum Metrics Config SqlSource FileSink Cast HttpClient.

(** ** Element functions *)
(** [if v := rec.AuditFields["_source_file"]; v != ""] *)
Definition validRecordMetricKVFn (rec : option GenericRecord) : string * bool :=
  let origin :=
    match rec with
    | None => "default"
    | Some r =>
        let file := default "" (AuditFields r !! "_source_file") in
        if negb (file =s "") then file
        else if negb (SchemaID r =s "") then SchemaID r
        else "default"
    end in
  (origin, false).
Definition dlqRecordMetricKVFn (rec : option DeadLetterRecord) : string * bool :=
  (match rec with
   | Some d => if negb (SourceFile d =s "") then SourceFile d else "unknown"
   | None => "unknown"
   end, true).
Definition originKVToSummaryFn (kv : string * OriginMetric) : OriginSummary := mkOriginSummary kv.1 kv.2.
Definition filterNonNilRecordFn (rec : option GenericRecord) : list GenericRecord :=
  match rec with Some r => [r] | None => [] end.

(** ** Transforms *)
Definition ParDo {A B} (f : A -> list B) (xs : list A) : list B := concat (map f xs).
(** [CombinePerKey]: each key once, with a tree over its values. *)
Record combinesPerKey (kvs : list (string * bool)) (groups : list (string * tree bool)) : Prop := {
  cg_keys : NoDup (map fst groups);
  cg_values : concat (map (fun g => map (pair g.1) (inputs g.2)) groups) ≡ₚ kvs;
  cg_some : Forall (fun g => inputs g.2 <> []) groups }.
Definition originMetrics (groups : list (string * tree bool)) : list (string * OriginMetric) :=
  map (fun g => (g.1, OriginCombiner.ExtractOutput
                        (combine OriginCombiner.CreateAccumulator OriginCombiner.AddInput
                           OriginCombiner.MergeAccumulators g.2))) groups.
(** [beam.Combine] over the summaries. *)
Definition combinesAll (xs : list OriginSummary) (m : PipelineMetrics) : Prop :=
  exists t : tree OriginSummary, inputs t ≡ₚ xs
  /\ m = SummaryCombiner.ExtractOutput
           (combine SummaryCombiner.CreateAccumulator SummaryCombiner.AddInput SummaryCombiner.MergeAccumulators t).

Definition applyMetricsStage (valid : list GenericRecord) (dlq : list DeadLetterRecord) (m : PipelineMetrics) : Prop :=
  let validKV := map (fun r => validRecordMetricKVFn (Some r)) valid in
  let dlqKV := map (fun d => dlqRecordMetricKVFn (Some d)) dlq in
  exists groups, combinesPerKey (validKV ++ dlqKV) groups
  /\ combinesAll (map originKVToSummaryFn (originMetrics groups)) m.

Section Ingestion.
Context `{GoFormatFloat, GoQuote, UnicodeLower, GoTimeParse, FloatCvt, GoRegexp}.
Definition NewFusedEnrichAndValidateFn (schema : Schema) (jobID executionID : string) (quality : list QualityRule)
    (sec : SecurityConfig) : FusedEnrichAndValidateFn :=
  Fused_Setup (mkFused schema quality (SensitiveFields sec) jobID executionID None).
(** What the element function, set up again where it runs (the plans do not travel),
    makes of a record. *)
Definition elementRun (fn : FusedEnrichAndValidateFn) (rec : GenericRecord) (o : Outcome) : Prop :=
  exists now pool, PoolOk pool /\ Fused_ProcessElement now (Fused_Setup fn) (Some rec) pool = Ok o.
Definition applyIngestionStage (raw : list (option GenericRecord)) (schema : Schema) (quality : list QualityRule)
    (sec : SecurityConfig) (valid : list GenericRecord) (dlq : list DeadLetterRecord) (audit : list AuditRecord) : Prop :=
  exists outs,
    Forall2 (elementRun (NewFusedEnrichAndValidateFn schema "" "" quality sec)) (ParDo filterNonNilRecordFn raw) outs
    /\ valid ≡ₚ concat (map o_valid outs) /\ dlq ≡ₚ concat (map o_dlq outs) /\ audit ≡ₚ concat (map o_audit outs).

(** [BuildAuditSink]: the events reach a sink when there are a storage and a directory. *)
Definition BuildAuditSink (storage : bool) (auditDir : string) (audit : list AuditRecord) : list AuditRecord :=
  if negb storage || (auditDir =s "") then [] else audit.
(** [applySinkStage]: what each sink is given. *)
Record Sinks := mkSinks { toSink : list GenericRecord; toDLQ : list DeadLetterRecord; toAudit : list AuditRecord }.
Definition applySinkStage (valid : list GenericRecord) (dlq : list DeadLetterRecord) (audit : list AuditRecord)
    (auditSink : option (bool * string)) : Sinks :=
  mkSinks valid dlq (match auditSink with Some (storage, dir) => BuildAuditSink storage dir audit | None => [] end).

(** [BuildPipeline], from what the source emits to what the sinks are given and the
    metrics collection holds. *)
Definition BuildPipeline (raw : list (option GenericRecord)) (schema : Schema) (quality : list QualityRule)
    (security : option SecurityConfig) (auditSink : option (bool * string)) (sinks : Sinks) (m : PipelineMetrics) : Prop :=
  let sec := default (mkSecurity []) security in
  exists valid dlq audit,
    applyIngestionStage raw schema quality sec valid dlq audit
    /\ sinks = applySinkStage valid dlq audit auditSink
    /\ applyMetricsStage valid dlq m.
End Ingestion.

(** ** The coder of slices

    A slice travels as JSON, and its bounds, of type [any], come back as what
    [json.Unmarshal] makes of them: a number is a [float64], an instant or bytes are
    strings. A float that is not finite has no encoding. *)
(** The text [json.Unmarshal] reads from what [json.Marshal] wrote: invalid UTF-8 is
    replaced. *)
Class GoJSONText := jsonText : string -> string.
(** [t.Format(time.RFC3339Nano)] of a UTC instant: no trailing zeros. *)
Definition fraction (ns : Z) : string :=
  let n := ns mod 1000000000 in
  if n =? 0 then ""
  else "." +:+ TrimRight (pad2 (n / 10000000) +:+ pad2 (n / 100000) +:+ pad2 (n / 1000) +:+ pad2 (n / 10)
                            +:+ str [digit (n mod 10)]) (fun b => b =? "0")%char.
Definition formatRFC3339Nano (ns : Z) : string :=
  let s := formatRFC3339 ns in
  String.substring 0 (String.length s - 1) s +:+ fraction ns +:+ "Z".
Example formatRFC3339Nano_ex : formatRFC3339Nano 1700000000123450000 = "2023-11-14T22:13:20.12345Z".
Proof. vm_compute. reflexivity. Qed.
Definition isFinite (x : float64) : bool := match trunc x with Some _ => true | None => false end.
Definition overJSON `{GoJSONText} (v : any) : any + error :=
  match v with
  | AInt64 n => inl (AFloat64 (of_int n))
  | AFloat64 x => if isFinite x then inl v else inr (Errorf "json: unsupported value" [])
  | AString s => inl (AString (jsonText s))
  | ATime ns => inl (AString (formatRFC3339Nano ns))
  | ABytes b => inl (AString (str (base64 b)))
  | ABool _ | ANil => inl v
  end.
Definition boundOver `{GoJSONText} (b : option any) : option any + error :=
  match b with
  | None => inl None
  | Some v => match overJSON v with
              | inl ANil => inl None
              | inl v => inl (Some v)
              | inr e => inr e
              end
  end.
(** [decPartitionSlice] of what [encPartitionSlice] wrote. *)
Definition sliceOverWire `{GoJSONText} (s : PartitionSlice any) : PartitionSlice any + error :=
  match boundOver (LowerBound s), boundOver (UpperBound s) with
  | inr e, _ | _, inr e => inr e
  | inl lo, inl hi => inl (mkSlice (SliceIndex s) lo hi (IsFirst s) (IsLast s) (Metadata s))
  end.

(** ** Lemmas *)
Definition valuesAt (k : string) (kvs : list (string * bool)) : list bool :=
  map snd (filter (fun kv => kv.1 = k) kvs).
Definition ungroup (groups : list (string * tree bool)) : list (string * bool) :=
  concat (map (fun g => map (pair g.1) (inputs g.2)) groups).
Lemma valuesAt_app k xs ys : valuesAt k (xs ++ ys) = valuesAt k xs ++ valuesAt k ys.
Proof. unfold valuesAt. by rewrite filter_app, map_app. Qed.
Lemma valuesAt_cons k kv kvs :
  valuesAt k (kv :: kvs) = if bool_decide (kv.1 = k) then kv.2 :: valuesAt k kvs else valuesAt k kvs.
Proof. unfold valuesAt. rewrite filter_cons. case_decide; [by rewrite bool_decide_true|by rewrite bool_decide_false]. Qed.
Lemma valuesAt_pair k j (xs : list bool) :
  valuesAt k (map (pair j) xs) = if bool_decide (j = k) then xs else [].
Proof.
  induction xs as [|x xs IH]; [by destruct (bool_decide _)|]. cbn [map].
  rewrite valuesAt_cons, IH. cbn [fst snd]. by destruct (bool_decide _).
Qed.
Lemma valuesAt_absent k groups : k ∉ map fst groups -> valuesAt k (ungroup groups) = [].
Proof.
  induction groups as [|g groups IH]; [done|]. cbn [map]. intros [Hk Hg]%not_elem_of_cons.
  unfold ungroup. cbn [map concat]. rewrite valuesAt_app, valuesAt_pair, bool_decide_false by done.
  by apply IH.
Qed.
Lemma valuesAt_group groups g : NoDup (map fst groups) -> g ∈ groups ->
  valuesAt g.1 (ungroup groups) = inputs g.2.
Proof.
  induction groups as [|h groups IH]; intros Hd Hg; [by apply not_elem_of_nil in Hg|].
  cbn [map] in Hd. apply NoDup_cons in Hd as [Hh Hd]. unfold ungroup. cbn [map concat].
  rewrite valuesAt_app, valuesAt_pair. apply elem_of_cons in Hg as [->|Hg].
  - rewrite bool_decide_true by done. fold (ungroup groups). by rewrite valuesAt_absent, app_nil_r.
  - rewrite bool_decide_false; [by apply IH|]. intros E. apply Hh. rewrite E.
    by apply (list_elem_of_fmap_2 fst).
Qed.
Lemma valuesAt_perm k xs ys : xs ≡ₚ ys -> valuesAt k xs ≡ₚ valuesAt k ys.
Proof. intros H. unfold valuesAt. by rewrite H. Qed.

(** *** Metrics *)
Lemma originMetrics_eq groups : originMetrics groups
  = map (fun g => (g.1, mkOriginMetric (i64 (zlen (inputs g.2))) (i64 (count false (inputs g.2)))
                          (i64 (count true (inputs g.2))))) groups.
Proof. unfold originMetrics. apply map_ext. intros g. by rewrite combine_origin. Qed.

Lemma map_snd_pair {A B} (k : A) (xs : list B) : map snd (map (pair k) xs) = xs.
Proof. induction xs as [|x xs IH]; [done|]. cbn [map snd]. by rewrite IH. Qed.
Lemma sumOf_groups (f : OriginMetric -> Z) (h : list bool -> Z) groups :
  (forall xs ys, h (xs ++ ys) = h xs + h ys) -> h [] = 0 ->
  (forall xs, f (mkOriginMetric (i64 (zlen xs)) (i64 (count false xs)) (i64 (count true xs))) = i64 (h xs)) ->
  i64 (sumOf f (map originKVToSummaryFn (originMetrics groups))) = i64 (h (map snd (ungroup groups))).
Proof.
  intros Happ Hnil Hf. rewrite originMetrics_eq. unfold sumOf.
  induction groups as [|g groups IH]; [by cbn; rewrite Hnil|].
  cbn [map foldr originKVToSummaryFn Metric fst snd]. unfold ungroup. cbn [map concat].
  rewrite map_app, Happ, map_snd_pair, Hf, i64_add_l, <- i64_add_r, IH, i64_add_r.
  done.
Qed.

Lemma originMap_perm xs ys : NoDup (map Origin xs) -> xs ≡ₚ ys -> originMap xs = originMap ys.
Proof.
  intros Hd Hp. unfold originMap. apply list_to_map_proper; [|by apply fmap_Permutation].
  rewrite <- list_fmap_compose. exact Hd.
Qed.

(** The metric of an origin counts the values of its key. *)
Definition metricOf (vs : list bool) : option OriginMetric :=
  match vs with
  | [] => None
  | _ => Some (mkOriginMetric (i64 (zlen vs)) (i64 (count false vs)) (i64 (count true vs)))
  end.
Lemma metricOf_perm xs ys : xs ≡ₚ ys -> metricOf xs = metricOf ys.
Proof.
  intros H. assert (zlen xs = zlen ys) as Hl by (unfold zlen; by rewrite H).
  assert (forall b, count b xs = count b ys) as Hc by (intros b; unfold count, zlen; by rewrite H).
  destruct xs, ys; [done|done|done|]. unfold metricOf. by rewrite Hl, !Hc.
Qed.

Lemma combined_metrics kvs groups m :
  combinesPerKey kvs groups -> combinesAll (map originKVToSummaryFn (originMetrics groups)) m ->
  TotalRecordsRead m = i64 (zlen kvs) /\ RowsWritten m = i64 (count false (map snd kvs))
  /\ DeadLetterCount m = i64 (count true (map snd kvs)) /\ RowCount m = 0
  /\ forall k, mapOf (OriginMetrics m) !! k = metricOf (valuesAt k kvs).
Proof.
  intros [Hd Hv Hs] (t & Ht & ->). set (xs := map originKVToSummaryFn (originMetrics groups)) in *.
  assert (map Origin xs = map fst groups) as Ho.
  { unfold xs. rewrite originMetrics_eq, !map_map. done. }
  assert (NoDup (map Origin (inputs t))) as Hdt.
  { rewrite (fmap_Permutation Origin _ _ Ht : map Origin (inputs t) ≡ₚ map Origin xs). by rewrite Ho. }
  rewrite combine_summary by done. unfold SummaryCombiner.ExtractOutput, summaryOf.
  cbn [TotalRecordsRead RowsWritten DeadLetterCount RowCount OriginMetrics mapOf default].
  fold (ungroup groups) in Hv.
  assert (map snd (ungroup groups) ≡ₚ map snd kvs) as Hsnd by (by apply fmap_Permutation).
  assert (forall b, count b (map snd (ungroup groups)) = count b (map snd kvs)) as Hc
    by (intros b; unfold count, zlen; by rewrite Hsnd).
  rewrite !(sumOf_perm _ _ _ Ht). split; [|split; [|split; [|split; [done|]]]].
  - unfold xs. rewrite (sumOf_groups TotalRead zlen); [|apply zlen_app|done|done].
    unfold zlen. rewrite Hsnd. by rewrite length_map.
  - unfold xs. rewrite (sumOf_groups Valid (count false)); [|apply count_app|done|done]. by rewrite Hc.
  - unfold xs. rewrite (sumOf_groups Metrics.DLQ (count true)); [|apply count_app|done|done]. by rewrite Hc.
  - intros k. rewrite (originMap_perm _ xs Hdt Ht), <- (metricOf_perm _ _ (valuesAt_perm k _ _ Hv)).
    unfold originMap. destruct (decide (k ∈ map fst groups)) as [Hk|Hk].
    + apply list_elem_of_fmap in Hk as (g & -> & Hg). rewrite valuesAt_group by done.
      rewrite Forall_forall in Hs. specialize (Hs g Hg).
      assert (metricOf (inputs g.2) = Some (mkOriginMetric (i64 (zlen (inputs g.2)))
        (i64 (count false (inputs g.2))) (i64 (count true (inputs g.2))))) as -> by (by destruct (inputs g.2)).
      apply elem_of_list_to_map_1.
      * rewrite <- list_fmap_compose. change (NoDup (map Origin xs)). by rewrite Ho.
      * unfold xs. rewrite originMetrics_eq, !map_map. apply list_elem_of_fmap. by exists g.
    + rewrite valuesAt_absent by done. apply not_elem_of_list_to_map_1.
      rewrite <- list_fmap_compose. change (k ∉ map Origin xs). by rewrite Ho.
Qed.

(** *** Ingestion *)
Section IngestionProofs.
Context `{GoFormatFloat, GoQuote, UnicodeLower, GoTimeParse, FloatCvt, GoRegexp}.

(** The cells of a raw record, when they all cast. *)
Definition castRow (schema : Schema) (rec : GenericRecord) : option (list FieldValue) :=
  match castCells rec 0 (Fields schema) with inr vs => Some vs | inl _ => None end.
Lemma castCells_Values a b i fs : Values a = Values b -> castCells a i fs = castCells b i fs.
Proof.
  intros E. revert i. induction fs as [|f fs IH]; intros i; [done|]. cbn [castCells].
  unfold rawAt. rewrite E. destruct (castCell _ _); [|done]. by rewrite IH.
Qed.
Lemma castCells_typed rec i fs vs : castCells rec i fs = inr vs -> Forall2 cell_ok fs vs.
Proof.
  intros Ec. destruct (castCells_ok _ _ _ _ Ec) as [Hl Hk]. apply Forall2_same_length_lookup_2; [done|].
  intros k f w Hf Hw. destruct (Hk k f Hf) as (w' & Hw' & Hc). assert (w' = w) as -> by congruence.
  pose proof (castCell_spec f (rawAt rec (i + Z.of_nat k)) (NewGenericRecord "" 1) emptyPool 0
    ltac:(vm_compute; split; congruence) emptyPool_ok) as Hs.
  rewrite Hc in Hs. apply Hs.
Qed.

(** What becomes of a record, whatever the worker. *)
Lemma elementRun_spec schema quality sec rec o :
  elementRun (NewFusedEnrichAndValidateFn schema "" "" quality sec) rec o ->
  match castRow schema rec with
  | Some vs => exists v, o_valid o = [v] /\ Values v = vs /\ SchemaID v = SchemaID rec
      /\ AuditFields v !! "_source_file" = AuditFields rec !! "_source_file" /\ o_dlq o = []
  | None => exists d, o_valid o = [] /\ o_dlq o = [d]
      /\ SourceFile d = default "" (AuditFields rec !! "_source_file")
  end.
Proof.
  intros (now & pool & Hp & Hr). unfold NewFusedEnrichAndValidateFn in Hr.
  rewrite (Fused_castElement now (Fused_Setup _) _ rec pool eq_refl), fusedAudit_enrich in Hr.
  cbn in Hr. rewrite !Fields_Index in Hr. cbn [id] in Hr.
  set (e := mkGenericRecord (SchemaID rec) (Values rec) (enrichAudit now (AuditFields rec))) in Hr.
  assert (AuditFields e !! "_source_file" = AuditFields rec !! "_source_file") as Ha.
  { unfold e, enrichAudit. cbn [AuditFields]. destruct (AuditFields rec !! "_ingested_at"); [done|].
    by rewrite lookup_insert_ne. }
  destruct (castElement_spec now (Fields schema) quality (SensitiveFields sec) e pool Hp) as (p' & _ & E).
  rewrite E in Hr. rewrite (castCells_Values e rec) in Hr by done. unfold castRow.
  destruct (castCells rec 0 (Fields schema)) as [[[f msg] sample]|vs]; injection Hr as <-.
  - eexists. split; [done|]. split; [done|]. cbn [SourceFile]. by rewrite Ha.
  - eexists. split; [done|]. repeat split. exact Ha.
Qed.

Lemma ingestion_spec schema quality sec recs outs :
  Forall2 (elementRun (NewFusedEnrichAndValidateFn schema "" "" quality sec)) recs outs ->
  map Values (concat (map o_valid outs)) = omap (castRow schema) recs
  /\ Forall (fun r => Forall2 cell_ok (Fields schema) (Values r)) (concat (map o_valid outs))
  /\ zlen (concat (map o_valid outs)) + zlen (concat (map o_dlq outs)) = zlen recs.
Proof.
  induction 1 as [|rec o recs outs Ho _ IH]; [done|]. destruct IH as (IHv & IHt & IHn).
  apply elementRun_spec in Ho. unfold castRow in Ho.
  cbn [map concat omap list_omap]. unfold castRow at 1.
  destruct (castCells rec 0 (Fields schema)) as [e|vs] eqn:Ec.
  - destruct Ho as (d & -> & -> & _). cbn [app]. split; [done|]. split; [done|].
    unfold zlen in *. cbn [length]. lia.
  - destruct Ho as (v & -> & Hv & _ & _ & ->). cbn [app map]. rewrite IHv, Hv. split; [done|]. split.
    + constructor; [|done]. rewrite Hv. by eapply castCells_typed.
    + unfold zlen in *. cbn [length]. lia.
Qed.

(** Every source has a run. *)
Lemma elementRun_total schema quality sec rec :
  exists o, elementRun (NewFusedEnrichAndValidateFn schema "" "" quality sec) rec o.
Proof.
  unfold elementRun, NewFusedEnrichAndValidateFn.
  destruct (castElement_spec 0 (Fields schema) quality (SensitiveFields sec)
    (mkGenericRecord (SchemaID rec) (Values rec) (enrichAudit 0 (AuditFields rec)))
    emptyPool emptyPool_ok) as (p' & _ & E).
  destruct (castCells _ 0 (Fields schema)) as [[[f msg] sample]|vs]; eexists; exists 0, emptyPool; (split; [done|]);
    rewrite (Fused_castElement 0 (Fused_Setup _) _ rec emptyPool eq_refl), fusedAudit_enrich; cbn;
    rewrite !Fields_Index; exact E.
Qed.
Lemma combinesPerKey_total kvs : exists groups, combinesPerKey kvs groups.
Proof.
  induction kvs as [|[k b] kvs (groups & [Hd Hv Hs])]; [exists []; split; by repeat constructor|].
  destruct (decide (k ∈ map fst groups)) as [Hk|Hk].
  - apply list_elem_of_fmap in Hk as ([k' t] & -> & Hg). cbn [fst].
    apply list_elem_of_split in Hg as (g1 & g2 & ->).
    exists (g1 ++ (k', Node (Bundle [b]) t) :: g2). split.
    + rewrite !map_app in *. exact Hd.
    + rewrite <- Hv. rewrite !map_app, !concat_app. cbn. symmetry; apply Permutation_middle.
    + rewrite !Forall_app, !Forall_cons in *. cbn in *. naive_solver.
  - exists ((k, Bundle [b]) :: groups). split.
    + cbn. by constructor.
    + cbn. by rewrite Hv.
    + by constructor.
Qed.
Lemma BuildPipeline_total raw schema quality security auditSink :
  exists sinks m, BuildPipeline raw schema quality security auditSink sinks m.
Proof.
  set (fn := NewFusedEnrichAndValidateFn schema "" "" quality (default (mkSecurity []) security)).
  assert (exists outs, Forall2 (elementRun fn) (ParDo filterNonNilRecordFn raw) outs) as (outs & Ho).
  { induction (ParDo filterNonNilRecordFn raw) as [|rec recs (outs & IH)]; [by exists []|].
    destruct (elementRun_total schema quality (default (mkSecurity []) security) rec) as (o & Ho).
    exists (o :: outs). by constructor. }
  destruct (combinesPerKey_total
    (map (fun r => validRecordMetricKVFn (Some r)) (concat (map o_valid outs))
     ++ map (fun d => dlqRecordMetricKVFn (Some d)) (concat (map o_dlq outs)))) as (groups & Hg).
  eexists _, _. exists (concat (map o_valid outs)), (concat (map o_dlq outs)), (concat (map o_audit outs)).
  split; [exists outs; by repeat split|]. split; [reflexivity|]. exists groups. split; [exact Hg|].
  exists (Bundle (map originKVToSummaryFn (originMetrics groups))). split; [done|reflexivity].
Qed.
End IngestionProofs.

Lemma valuesAt_const {A} (f : A -> string * bool) b k xs : (forall x, (f x).2 = b) ->
  valuesAt k (map f xs) = replicate (length (filter (fun x => (f x).1 = k) xs)) b.
Proof.
  intros Hf. induction xs as [|x xs IH]; [done|]. cbn [map]. rewrite valuesAt_cons, filter_cons, Hf, IH.
  case_decide; [by rewrite bool_decide_true|by rewrite bool_decide_false].
Qed.
Lemma map_snd_const {A} (f : A -> string * bool) b xs : (forall x, (f x).2 = b) ->
  map snd (map f xs) = replicate (length xs) b.
Proof. intros Hf. induction xs as [|x xs IH]; [done|]. cbn [map length replicate]. by rewrite Hf, IH. Qed.
Lemma count_replicate b b' n : count b (replicate n b') = if bool_decide (b' = b) then Z.of_nat n else 0.
Proof.
  induction n as [|n IH]; [by destruct (bool_decide _)|]. cbn [replicate]. rewrite count_cons, IH.
  destruct (bool_decide _); lia.
Qed.
Lemma count_split v d : let l := replicate v false ++ replicate d true in
  count false l = Z.of_nat v /\ count true l = Z.of_nat d /\ zlen l = Z.of_nat v + Z.of_nat d.
Proof.
  cbn zeta. rewrite !count_app, !count_replicate, zlen_app. unfold zlen. rewrite !length_replicate.
  repeat case_bool_decide; (done || lia).
Qed.
Lemma metricOf_counts v d :
  metricOf (replicate v false ++ replicate d true)
  = if Z.of_nat v + Z.of_nat d =? 0 then None
    else Some (mkOriginMetric (i64 (Z.of_nat v + Z.of_nat d)) (i64 (Z.of_nat v)) (i64 (Z.of_nat d))).
Proof.
  destruct (count_split v d) as (Hf & Ht & Hl). unfold metricOf. rewrite Hf, Ht, Hl.
  destruct (Z.eqb_spec (Z.of_nat v + Z.of_nat d) 0).
  - by replace v with 0%nat by lia; replace d with 0%nat by lia.
  - destruct v; [destruct d; [lia|done]|done].
Qed.
(** Records and dead letters of one origin. *)
Definition originValid (k : string) (rs : list GenericRecord) : Z :=
  zlen (filter (fun r => (validRecordMetricKVFn (Some r)).1 = k) rs).
Definition originDLQ (k : string) (ds : list DeadLetterRecord) : Z :=
  zlen (filter (fun d => (dlqRecordMetricKVFn (Some d)).1 = k) ds).

Section GraphTheorems.
Context `{GoFormatFloat, GoQuote, UnicodeLower, GoTimeParse, FloatCvt, GoRegexp}.

(** C2. The pipeline loses no record and counts them right, however the runner
    spreads the elements and merges the counters: the sink gets exactly the rows
    of the source that cast, each cell of its column's type, and each of the
    other non-nil records is one dead letter; the metrics collection holds the
    three counts (in [int64]), an entry for each origin with that origin's counts and
    no other, and passes both conservation checks. *)
Theorem BuildPipeline_conserves (raw : list (option GenericRecord)) (schema : Schema) (quality : list QualityRule)
    (security : option SecurityConfig) (auditSink : option (bool * string)) (sinks : Sinks) (m : PipelineMetrics) :
  BuildPipeline raw schema quality security auditSink sinks m ->
  let recs := ParDo filterNonNilRecordFn raw in
  map Values (toSink sinks) ≡ₚ omap (castRow schema) recs
  /\ Forall (fun r => Forall2 cell_ok (Fields schema) (Values r)) (toSink sinks)
  /\ zlen (toSink sinks) + zlen (toDLQ sinks) = zlen recs
  /\ TotalRecordsRead m = i64 (zlen recs)
  /\ RowsWritten m = i64 (zlen (toSink sinks))
  /\ DeadLetterCount m = i64 (zlen (toDLQ sinks))
  /\ (forall k, mapOf (OriginMetrics m) !! k =
        let v := originValid k (toSink sinks) in
        let d := originDLQ k (toDLQ sinks) in
        if v + d =? 0 then None else Some (mkOriginMetric (i64 (v + d)) (i64 v) (i64 d)))
  /\ IsStrictlyConserved m = true /\ IsConservedPerOrigin m = true.
Proof.
  intros (valid & dlq & audit & (outs & Houts & Hv & Hd & _) & -> & (groups & Hg & Hm)).
  cbn [toSink toDLQ applySinkStage]. cbn zeta.
  destruct (ingestion_spec _ _ _ _ _ Houts) as (Hrows & Htyped & Hn).
  destruct (combined_metrics _ _ _ Hg Hm) as (Ht & Hw & Hdl & _ & Hom).
  rewrite map_app, (map_snd_const _ false), (map_snd_const _ true) in Hw, Hdl by done.
  destruct (count_split (length valid) (length dlq)) as (Ef & Et & _). rewrite Ef in Hw. rewrite Et in Hdl.
  rewrite zlen_app in Ht. unfold zlen in Ht. rewrite !length_map in Ht.
  assert (zlen valid = zlen (concat (map o_valid outs))) as Lv by (unfold zlen; by rewrite Hv).
  assert (zlen dlq = zlen (concat (map o_dlq outs))) as Ld by (unfold zlen; by rewrite Hd).
  split; [by rewrite <- Hrows, (fmap_Permutation Values _ _ Hv : map Values valid ≡ₚ _)|].
  split; [by rewrite Hv|]. split; [by rewrite Lv, Ld|].
  split; [rewrite Ht, <- Hn, <- Lv, <- Ld; done|]. split; [done|]. split; [done|].
  assert (forall k, mapOf (OriginMetrics m) !! k = metricOf
    (replicate (length (filter (fun r => (validRecordMetricKVFn (Some r)).1 = k) valid)) false
     ++ replicate (length (filter (fun r => (dlqRecordMetricKVFn (Some r)).1 = k) dlq)) true)) as Hk.
  { intros k. by rewrite Hom, valuesAt_app, (valuesAt_const _ false), (valuesAt_const _ true). }
  split; [intros k; rewrite Hk; apply metricOf_counts|]. split.
  - unfold IsStrictlyConserved. rewrite Ht, Hw, Hdl. wsimpl. apply Z.eqb_refl.
  - unfold IsConservedPerOrigin. apply forallb_forall. intros [k om] Hin.
    apply list_elem_of_In, elem_of_map_to_list in Hin. rewrite Hk, metricOf_counts in Hin.
    destruct (_ =? 0); [done|]. injection Hin as <-. cbn [snd]. unfold originConserved. cbn. wsimpl. apply Z.eqb_refl.
Qed.
End GraphTheorems.

(** ** Witness and findings *)
Section Samples.
#[local] Instance graphFloat : GoFormatFloat := fun _ => "0".
#[local] Instance graphQuote : GoQuote := fun s => s.
#[local] Instance graphLower : UnicodeLower := fun s => s.
#[local] Instance graphTime : GoTimeParse := fun _ _ => None.
#[local] Instance graphCvt : FloatCvt := fun _ => - 2 ^ 63.
#[local] Instance graphRegexp : GoRegexp := {| ReplaceAllString := fun _ s _ => s; QuoteMeta := fun s => s |}.
#[local] Instance graphText : GoJSONText := fun s => s.

Definition graphSchema : Schema := schemaOf [mkField "id" TypeInt64 false 0 ""].
Definition graphRecord (file id : string) : option GenericRecord :=
  Some (mkGenericRecord "s" [stringValue id] (if file =s "" then ∅ else {["_source_file" := file]})).
Definition graphRaw : list (option GenericRecord) :=
  [graphRecord "a.csv" "7"; None; graphRecord "a.csv" "x"; graphRecord "" "8"; graphRecord "" "y"].

Lemma BuildPipeline_conserves_witness :
  exists sinks m, BuildPipeline graphRaw graphSchema [] None None sinks m
    /\ TotalRecordsRead m = 4 /\ IsStrictlyConserved m = true
    /\ map Values (toSink sinks) ≡ₚ [[int64Value 7]; [int64Value 8]].
Proof.
  destruct (BuildPipeline_total graphRaw graphSchema [] None None) as (sinks & m & Hrun).
  destruct (BuildPipeline_conserves graphRaw graphSchema [] None None sinks m Hrun)
    as (Hrows & _ & _ & Ht & _ & _ & _ & Hc & _).
  exists sinks, m. split; [exact Hrun|]. split; [rewrite Ht; reflexivity|]. split; [exact Hc|].
  rewrite Hrows. vm_compute. reflexivity.
Defined.

(** A record without a source file is counted under its schema when it is valid and
    under ["unknown"] when it is a dead letter: no origin has both. *)
Lemma dead_letters_of_no_origin (rec : GenericRecord) (d : DeadLetterRecord) :
  AuditFields rec !! "_source_file" = None -> SchemaID rec <> "" -> SchemaID rec <> "unknown" ->
  SourceFile d = default "" (AuditFields rec !! "_source_file") ->
  (validRecordMetricKVFn (Some rec)).1 = SchemaID rec /\ (dlqRecordMetricKVFn (Some d)).1 = "unknown".
Proof.
  intros Ha Hs Hu Hd. rewrite Ha in Hd. unfold validRecordMetricKVFn, dlqRecordMetricKVFn.
  rewrite Ha, Hd. cbn. by destruct (String.eqb_spec (SchemaID rec) "").
Qed.

(** The bounds of a slice that travels are floats: beyond 2^53 two neighbouring
    bounds meet, so the slice [\[2^53, 2^53 + 1)] comes back empty. *)
Lemma bounds_lose_precision :
  sliceOverWire (mkSlice 0 (Some (AInt64 (2 ^ 53))) (Some (AInt64 (2 ^ 53 + 1))) false false ∅)
  = inl (mkSlice 0 (Some (AFloat64 (of_int (2 ^ 53)))) (Some (AFloat64 (of_int (2 ^ 53)))) false false ∅).
Proof. vm_compute. reflexivity. Qed.
(** A bound that is an instant comes back as text. *)
Lemma instants_become_text :
  sliceOverWire (mkSlice 0 (Some (ATime 1500000000)) None true true ∅)
  = inl (mkSlice 0 (Some (AString "1970-01-01T00:00:01.5Z")) None true true ∅).
Proof. vm_compute. reflexivity. Qed.
End Samples.
