(* ===== verification/SliceWire.v ===== *)
(** * Slices on the wire

    The path of a relational source's slices, composed: [CalculateSlices] at discovery
    ([SqlSource.v], [range_slicer.go] and [generic_sql_source.go]), the JSON coder every
    slice goes through to reach a worker ([Graph.v], [graph_builder.go]), and the query each
    worker runs for the slice it decodes. *)
From S2P Require Import Prelude GoStr Float64 Schema RecordModel Watermark Config Resilience SqlSource Graph.

(** ** Lemmas: what the coder does to the slices of a table *)
Section Coded.
Context `{GoJSONText}.

(** What [json.Unmarshal] makes of a bound. *)
Definition code (k : any) : any := match overJSON k with inl v => v | inr _ => k end.
Definition codeBucket (b : RawBucket any) : RawBucket any :=
  mkBucket (BucketID b) (code <$> Lower b) (code <$> Upper b).
Definition codeSlice (s : PartitionSlice any) : PartitionSlice any :=
  mkSlice (SliceIndex s) (code <$> LowerBound s) (code <$> UpperBound s) (IsFirst s) (IsLast s) (Metadata s).
(** A key the coder takes. *)
Definition codable (k : any) : Prop := k <> ANil /\ exists v, overJSON k = inl v.
Definition bounded (P : any -> Prop) (b : option any) : Prop := forall k, b = Some k -> P k.

Lemma code_not_nil k : codable k -> code k <> ANil /\ overJSON k = inl (code k).
Proof.
  intros [Hk [v Hv]]. unfold code. rewrite Hv. split; [|done].
  destruct k; simpl in Hv; try (injection Hv as <-); try done.
  destruct (isFinite x); [by injection Hv as <-|done].
Qed.
Lemma boundOver_codable b : bounded codable b -> boundOver b = inl (code <$> b).
Proof.
  intros Hb. destruct b as [k|]; [|done]. destruct (code_not_nil k (Hb k eq_refl)) as [Hn Hc].
  cbn. rewrite Hc. by destruct (code k).
Qed.
Lemma sliceOverWire_codable s : bounded codable (LowerBound s) -> bounded codable (UpperBound s) ->
  sliceOverWire s = inl (codeSlice s).
Proof. intros Hl Hu. unfold sliceOverWire. by rewrite !boundOver_codable. Qed.

(** Coding commutes with the cutting in buckets and in slices. *)
Lemma windows_code fuel : forall id n ks, windows fuel id n (map code ks) = map codeBucket (windows fuel id n ks).
Proof.
  assert (forall l, head (map code l) = code <$> head l) as Hhead by (intros []; done).
  induction fuel as [|f IH]; intros id n [|k ks]; try done.
  change (windows (S f) id n (map code (k :: ks))) with
    (mkBucket id (head (take n (code <$> (k :: ks)))) (last (take n (code <$> (k :: ks))))
     :: windows f (id + 1) n (drop n (code <$> (k :: ks)))).
  rewrite <- fmap_take, <- fmap_drop, fmap_last. cbn [windows map]. f_equal; [|apply IH].
  unfold codeBucket. cbn [BucketID Lower Upper]. f_equal. apply Hhead.
Qed.
Lemma slicesFrom_code bs : forall i, slicesFrom i (map codeBucket bs) = map codeSlice (slicesFrom i bs).
Proof.
  induction bs as [|b bs IH]; intros i; [done|]. cbn [map slicesFrom]. rewrite IH. f_equal.
  by destruct bs.
Qed.
Lemma ConstructContiguousSlices_code bs :
  ConstructContiguousSlices (map codeBucket bs) = map codeSlice (ConstructContiguousSlices bs).
Proof. unfold ConstructContiguousSlices. destruct bs as [|b bs]; [done|]. apply (slicesFrom_code (b :: bs)). Qed.

(** The bounds of the slices are keys of the table. *)
Lemma windows_bounds (P : any -> Prop) fuel : forall id n ks, Forall P ks ->
  Forall (fun b => bounded P (Lower b) /\ bounded P (Upper b)) (windows fuel id n ks).
Proof.
  induction fuel as [|f IH]; intros id n [|k ks] Hks; try constructor.
  - split; intros x Hx; cbn in Hx.
    + apply head_Some in Hx as [l Hl]. apply (Forall_take _ n) in Hks. rewrite Hl in Hks. by inversion Hks.
    + apply last_Some in Hx as [l Hl]. apply (Forall_take _ n) in Hks. rewrite Hl in Hks.
      apply Forall_app in Hks as [_ Hks]. by inversion Hks.
  - apply IH. by apply Forall_drop.
Qed.
Lemma slicesFrom_bounds (P : any -> Prop) bs : forall i,
  Forall (fun b => bounded P (Lower b) /\ bounded P (Upper b)) bs ->
  Forall (fun s => bounded P (LowerBound s) /\ bounded P (UpperBound s)) (slicesFrom i bs).
Proof.
  induction bs as [|b bs IH]; intros i Hbs; [constructor|]. apply Forall_cons in Hbs as [[Hl Hu] Hbs].
  cbn [slicesFrom]. apply Forall_cons. split; [|by apply IH]. split; [done|]. cbn [UpperBound].
  destruct bs as [|b' bs]; [done|]. by apply Forall_cons in Hbs as [[? _] _].
Qed.
Lemma coded_slices n ks : Forall codable ks ->
  Forall2 (fun s c => sliceOverWire s = inl c) (ConstructContiguousSlices (windowBuckets n ks))
    (ConstructContiguousSlices (windowBuckets n (map code ks))).
Proof.
  intros Hks. unfold windowBuckets. rewrite length_map, windows_code, ConstructContiguousSlices_code.
  apply Forall2_fmap_r, Forall_Forall2_diag.
  pose proof (windows_bounds codable (length ks) 1 n ks Hks) as Hw. unfold ConstructContiguousSlices.
  destruct (windows (length ks) 1 n ks) as [|b bs]; [by repeat constructor|].
  eapply Forall_impl; [by apply (slicesFrom_bounds codable (b :: bs) 0)|].
  intros s [Hl Hu]. by apply sliceOverWire_codable.
Qed.
End Coded.

(** The table is cut in two slices or more when it has more rows than a batch. *)
Lemma windowBuckets_two {K} n (ks : list K) :
  match windowBuckets (S n) ks with
  | b :: _ :: _ => (S n < length ks)%nat /\ Lower b = head ks
  | _ => (length ks <= S n)%nat
  end.
Proof.
  unfold windowBuckets. destruct ks as [|k ks]; [simpl; lia|]. cbn [length windows take head].
  destruct (drop (S n) (k :: ks)) as [|k' ks'] eqn:E; cbn [drop] in E.
  - apply (f_equal length) in E. rewrite length_drop in E. destruct (length ks) eqn:El; simpl in *; lia.
  - apply (f_equal length) in E. rewrite length_drop in E. simpl in E. cbn [drop].
    destruct (drop n ks) as [|k2 ks2] eqn:E2.
    { apply (f_equal length) in E2. rewrite length_drop in E2. simpl in E2. lia. }
    destruct (length ks) as [|m] eqn:El; [lia|]. cbn [windows]. split; [lia|done].
Qed.

(** ** Properties *)

(** C1. Discovery, the slice coder and the workers of a relational source, composed, on a
    table without NULL keys whose keys the coder takes and keeps in the database's order
    (of two keys, the later does not come back before the earlier). The slices a worker
    decodes are those of the keys as JSON gives them back, an integer as a [float64]:
    whatever rows were inserted between discovery and the reads, every row at or above the
    first key as decoded is read by exactly one slice, once. A table of at most one batch
    at discovery is one slice, which reads every row; and when the table has not changed,
    every row is read provided that the first key does not come back above itself, which
    happens beyond 2^53 ([first_row_lost]). *)
Theorem SQL_slices_exactly_once {R : Type}
    `{UnicodeLower, GoQuote, GoTimeParseZ, GoParseFloat, GoFormatFloat, GoJSONText}
    (keyOf : R -> option any) (leb : any -> any -> bool) (d : SqlDB any R)
    (s w : GenericSQLSource any R) (ts tw : callTimes) (cfg : DatabaseSourceConfig) (q : string)
    (n : nat) (ks : list any) (T0 T : list R) :
  (forall a b, leb a b = true \/ leb b a = true) ->
  (forall a b c, leb a b = true -> leb b c = true -> leb a c = true) ->
  sourceReady d s -> sourceReady d w -> EffectiveQuery cfg = Ok q ->
  TrimSpace (PartitionColumn (DbPartition cfg)) <> "" -> BatchSize (DbPartition cfg) = Z.of_nat (S n) ->
  keysSorted leb ks -> map keyOf T0 ≡ₚ map Some ks ->
  Forall codable ks ->
  (forall a b a' b', a ∈ ks -> b ∈ ks -> leb a b = true -> overJSON a = inl a' -> overJSON b = inl b' -> leb a' b' = true) ->
  findsBuckets d q (TrimSpace (PartitionColumn (DbPartition cfg))) (S n) ks ->
  readsTable keyOf leb d (TrimSpace q) (TrimSpace (PartitionColumn (DbPartition cfg))) (dollarStyle w) T ->
  exists slices decoded rowss,
    fst (CalculateSlices ts s cfg) = Ok slices
    /\ Forall2 (fun sl sl' => sliceOverWire sl = inl sl') slices decoded
    /\ Forall2 (fun sl' rows => fst (readSliceRows tw w cfg sl') = Ok (rows, None)) decoded rowss
    /\ ((length ks <= S n)%nat -> concat rowss ≡ₚ T)
    /\ (forall k k', head ks = Some k -> overJSON k = inl k' ->
          ((S n < length ks)%nat -> concat rowss ≡ₚ List.filter (geKey keyOf leb (Some k')) T)
          /\ (T ≡ₚ T0 -> leb k' k = true -> concat rowss ≡ₚ T)).
Proof.
  intros Htot Htrans Hs Hw Hq Hcol Hn Hsorted Hkeys Hcod Hmono Hbuckets Htable.
  set (ks' := map code ks). set (decoded := ConstructContiguousSlices (windowBuckets (S n) ks')).
  exists (ConstructContiguousSlices (windowBuckets (S n) ks)), decoded.
  destruct (readSlices_rows keyOf leb tw d w cfg q T decoded Hw Hq Htable) as (rowss & Hr & Hp).
  exists rowss. split; [by eapply CalculateSlices_buckets|]. split; [by apply coded_slices|].
  split; [done|].
  assert (forall k, k ∈ ks -> overJSON k = inl (code k)) as Hcode.
  { intros k Hk. rewrite Forall_forall in Hcod. by apply (code_not_nil k (Hcod k Hk)). }
  assert (keysSorted leb ks') as Hsorted'.
  { clear -Hsorted Hmono Hcode. unfold ks', keysSorted. induction Hsorted as [|k ks Hs IH Hall]; [constructor|].
    cbn [map]. constructor.
    - apply IH; intros; [|apply Hcode; by right]. eapply (Hmono a b); try done; by right.
    - apply Forall_fmap, Forall_forall. intros b Hb. cbn. rewrite Forall_forall in Hall.
      apply (Hmono k b); [by left|by right|by apply Hall|apply Hcode; by left|apply Hcode; by right]. }
  pose proof (windowBuckets_two n ks') as Htwo. unfold ks' in Htwo. rewrite length_map in Htwo. fold ks' in Htwo.
  pose proof (windows_sorted leb (length ks') 1 n ks' (le_n _) Hsorted') as Hlow.
  fold (windowBuckets (S n) ks') in Hlow. unfold decoded in Hp.
  assert ((length ks <= S n)%nat -> concat rowss ≡ₚ T) as Hone.
  { intros Hle. rewrite Hp. destruct (windowBuckets (S n) ks') as [|b [|b' bs]];
      [by simpl; rewrite app_nil_r..|]. destruct Htwo as [Hlt _]. lia. }
  split; [done|]. intros k k' Hk Hk'.
  assert ((S n < length ks)%nat -> concat rowss ≡ₚ List.filter (geKey keyOf leb (Some k')) T) as Hmany.
  { intros Hlt. rewrite Hp. destruct (windowBuckets (S n) ks') as [|b [|b' bs]]; [lia..|].
    destruct Htwo as [_ Hlo]. rewrite (ConstructContiguousSlices_rows keyOf leb Htrans) by done.
    rewrite Hlo. unfold ks'. destruct ks as [|k1 ks]; [done|]. injection Hk as ->. cbn [map head].
    assert (code k = k') as -> by (unfold code; by rewrite Hk'). done. }
  split; [done|]. intros HT Hkk. destruct (Nat.le_gt_cases (length ks) (S n)) as [Hle|Hgt]; [by apply Hone|].
  rewrite Hmany by done. rewrite forallb_filter_id; [done|]. apply forallb_forall.
  intros r Hrow%list_elem_of_In. rewrite HT in Hrow.
  assert (keyOf r ∈ map keyOf T0) as Hkr by by apply list_elem_of_fmap_2.
  rewrite Hkeys in Hkr. apply list_elem_of_fmap in Hkr as (k2 & Ek & Hin). unfold geKey. rewrite Ek.
  destruct ks as [|k1 ks]; [done|]. injection Hk as ->. apply (Htrans k' k); [done|].
  apply elem_of_cons in Hin as [->|Hin]; [by destruct (Htot k k)|].
  inversion Hsorted as [|? ? _ Hall]; subst. rewrite Forall_forall in Hall. by apply Hall.
Qed.

(** ** Samples, and a row that is lost *)
Section Samples.
#[local] Instance wLower : UnicodeLower := fun s => s.
#[local] Instance wQuote : GoQuote := fun s => s.
#[local] Instance wTime : GoTimeParseZ := fun _ _ => Err (Sentinel "time").
#[local] Instance wFloat : GoParseFloat := fun _ => Err (Sentinel "float").
#[local] Instance wFormat : GoFormatFloat := fun _ => "0".
#[local] Instance wText : GoJSONText := fun s => s.

(** The comparison of a database between integers and floats. *)
Definition numberOf (k : any) : Z :=
  match k with AInt64 n => n | AFloat64 x => default 0 (trunc x) | _ => 0 end.
Definition numberLe (a b : any) : bool := numberOf a <=? numberOf b.
Definition intKey (n : Z) : option any := Some (AInt64 n).
Definition wireTable : list Z := [5; 1; 3].
Definition wireLater : list Z := [5; 1; 3; 9; 0].
(** A database over integer keys that understands the queries of one base query; the two
    rows of the bounds query are those of [ks]. *)
Definition wireDB (T : list Z) (b1 b2 : RawBucket any) : SqlDB any Z :=
  mkDB
    (fun query args =>
       if query =s BuildUniversalBoundsQuery "q" "id" 2 then Ok ([0; 1], None)
       else match args with
       | [] => Ok (T, None)
       | [lo] => Ok (List.filter (geKey intKey numberLe lo) T, None)
       | lo :: hi :: _ => Ok (List.filter (inRange intKey numberLe lo hi) T, None)
       end)
    (fun r => if r =? 0 then Ok b1 else Ok b2)
    (fun r t => Ok [NullInt64 (Some r)]).
Definition wireCfg : DatabaseSourceConfig :=
  mkDatabase "postgres" "uri" "" 0 "" "" "" "q" "" "" [] false (mkPartition "id" 2 0) (mkPool 0 0 0)
    sampleResilience (schemaOf [mkField "id" TypeInt64 false 0 ""]) None.
Definition wireSample : SqlDB any Z :=
  wireDB wireLater (mkBucket 1 (Some (AInt64 1)) (Some (AInt64 3))) (mkBucket 2 (Some (AInt64 5)) (Some (AInt64 5))).
Definition wireSource (d : SqlDB any Z) : GenericSQLSource any Z := mkSource (Some d) true None.

Lemma SQL_slices_exactly_once_witness :
  exists slices decoded rowss,
    fst (CalculateSlices (mkTimes 0 0 0) (wireSource wireSample) wireCfg) = Ok slices
    /\ Forall2 (fun sl sl' => sliceOverWire sl = inl sl') slices decoded
    /\ Forall2 (fun sl' rows =>
         fst (readSliceRows (mkTimes 0 0 0) (wireSource wireSample) wireCfg sl') = Ok (rows, None)) decoded rowss
    /\ concat rowss ≡ₚ [5; 1; 3; 9].
Proof.
  destruct (SQL_slices_exactly_once intKey numberLe wireSample (wireSource wireSample) (wireSource wireSample)
    (mkTimes 0 0 0) (mkTimes 0 0 0) wireCfg "q" 1 [AInt64 1; AInt64 3; AInt64 5] wireTable wireLater)
    as (slices & decoded & rowss & K1 & K2 & K3 & _ & K4).
  - intros a b. unfold numberLe. rewrite !Z.leb_le. lia.
  - intros a b c. unfold numberLe. rewrite !Z.leb_le. lia.
  - done.
  - done.
  - vm_compute. reflexivity.
  - vm_compute. discriminate.
  - reflexivity.
  - repeat constructor.
  - apply (Permutation_map Some (l := [AInt64 5; AInt64 1; AInt64 3])).
    transitivity [AInt64 1; AInt64 5; AInt64 3]; [apply perm_swap|apply perm_skip, perm_swap].
  - repeat (constructor; [split; [discriminate|by eexists]|]). constructor.
  - intros a b a' b' Ha Hb. set_unfold.
    destruct Ha as [->|[->|[->|[]]]], Hb as [->|[->|[->|[]]]]; intros Hle [= <-] [= <-];
      first [discriminate Hle|vm_compute; reflexivity].
  - exists [0; 1]. split; [vm_compute; reflexivity|]. repeat constructor.
  - split; intros; eexists; (split; [reflexivity|reflexivity]).
  - exists slices, decoded, rowss. split; [exact K1|]. split; [exact K2|]. split; [exact K3|].
    destruct (K4 (AInt64 1) (AFloat64 (of_int 1)) eq_refl eq_refl) as [K _].
    rewrite (K ltac:(simpl; lia)). vm_compute. reflexivity.
Defined.

(** A first key of 2^53 + 3 comes back as 2^53 + 4: of an unchanged table of two slices its
    row is read by none. *)
Definition farTable : list Z := [2 ^ 53 + 3; 2 ^ 53 + 6; 2 ^ 53 + 8].
Definition farSample : SqlDB any Z :=
  wireDB farTable (mkBucket 1 (Some (AInt64 (2 ^ 53 + 3))) (Some (AInt64 (2 ^ 53 + 6))))
    (mkBucket 2 (Some (AInt64 (2 ^ 53 + 8))) (Some (AInt64 (2 ^ 53 + 8)))).
Lemma first_row_lost :
  let int n := Some (AInt64 n) in let float n := Some (AFloat64 (of_int n)) in
  let slices bound := [mkSlice 0 (bound (2 ^ 53 + 3)) (bound (2 ^ 53 + 8)) true false ∅;
                       mkSlice 1 (bound (2 ^ 53 + 8)) (bound (2 ^ 53 + 8)) false true ∅] in
  fst (CalculateSlices (mkTimes 0 0 0) (wireSource farSample) wireCfg) = Ok (slices int)
  /\ map sliceOverWire (slices int) = map inl (slices float) /\ of_int (2 ^ 53 + 3) = of_int (2 ^ 53 + 4)
  /\ map (fun sl => fst (readSliceRows (mkTimes 0 0 0) (wireSource farSample) wireCfg sl)) (slices float)
     = [Ok ([2 ^ 53 + 6], None); Ok ([2 ^ 53 + 8], None)].
Proof. vm_compute. done. Qed.
End Samples.
