(* ===== verification/Prefetch.v ===== *)
(** * The prefetching reader

    Models [pkg/ioutils/prefetch_reader.go]: a goroutine reads an [io.Reader] ahead, in
    chunks that wait on a bounded channel, and [Read] takes its bytes from them. The
    goroutine and the callers of [Read] and [Close] interleave: each blocking point is a
    state, each [select] a choice of steps. *)
From S2P Require Import Prelude GoStr Wire.

Definition DefaultPrefetchChunkSize : Z := 64 * 1024.
Definition DefaultPrefetchBufferCount : Z := 2.

(** [prefetchChunk] holds either data or an error. *)
Inductive prefetchChunk := ChunkData (data : list byte) | ChunkErr (err : error).
(** Where the goroutine is: before a call of the reader, at the [select] of [sendChunk]
    (with the error to look at after a chunk of data), or returned, the channel closed. *)
Inductive loopPC := AtRead | AtSend (c : prefetchChunk) (err : option error) | Returned.
(** [underlying] is what the reader's next calls return, [io.EOF] without data at the end;
    [waiting] is the length of the buffer of a [Read] blocked in [readNextChunk], and
    [results] is what the calls of [Read] have returned. *)
Record PrefetchReader := mkPrefetch {
  pr_chunkSize : Z; pr_cap : Z;
  underlying : list (list byte * option error); pc : loopPC;
  chunksCh : list prefetchChunk; current : list byte; pos : nat;
  closedCh : bool; readErr : option error;
  waiting : option nat; results : list (list byte * option error) }.

Definition NewPrefetchReader (reads : list (list byte * option error)) (chunkSize bufferCount : Z) : PrefetchReader :=
  mkPrefetch (if chunkSize <=? 0 then DefaultPrefetchChunkSize else chunkSize)
    (if bufferCount <=? 0 then DefaultPrefetchBufferCount else bufferCount)
    reads AtRead [] [] 0 false None None [].

(** ** The goroutine *)
Definition isEOF (e : error) : bool := errors_Is "EOF" e.
(** After a call of the reader, and after a chunk of data is sent. *)
Definition afterErr (e : option error) : loopPC :=
  match e with
  | None => AtRead
  | Some e => if isEOF e then Returned else AtSend (ChunkErr e) (Some e)
  end.
Definition afterRead (d : list byte) (e : option error) : loopPC :=
  match d with [] => afterErr e | _ => AtSend (ChunkData d) e end.
Definition afterSend (c : prefetchChunk) (e : option error) : loopPC :=
  match c with ChunkData _ => afterErr e | ChunkErr _ => Returned end.

Definition set_pc (s : PrefetchReader) (under : list (list byte * option error)) (p : loopPC) (ch : list prefetchChunk) :=
  mkPrefetch (pr_chunkSize s) (pr_cap s) under p ch (current s) (pos s) (closedCh s) (readErr s) (waiting s) (results s).
(** A call of [Read] returns; it leaves [cur], [pos] and [readErr]. *)
Definition returns (s : PrefetchReader) (ch : list prefetchChunk) (cur : list byte) (k : nat) (re : option error)
    (r : list byte * option error) : PrefetchReader :=
  mkPrefetch (pr_chunkSize s) (pr_cap s) (underlying s) (pc s) ch cur k (closedCh s) re None (results s ++ [r]).
Definition blocks (s : PrefetchReader) (n : nat) : PrefetchReader :=
  mkPrefetch (pr_chunkSize s) (pr_cap s) (underlying s) (pc s) (chunksCh s) (current s) (pos s) (closedCh s)
    (readErr s) (Some n) (results s).

(** ** [Read] and [Close] *)
(** [Read(p)] up to where it returns or blocks, [n] the length of [p]. *)
Definition callRead (n : nat) (s : PrefetchReader) : PrefetchReader :=
  if closedCh s then returns s (chunksCh s) (current s) (pos s) (readErr s) ([], Some EOF)
  else if (pos s <? length (current s))%nat then
    let d := take n (drop (pos s) (current s)) in
    returns s (chunksCh s) (current s) (pos s + length d) (readErr s) (d, None)
  else match readErr s with
       | Some e => returns s (chunksCh s) (current s) (pos s) (readErr s) ([], Some e)
       | None => blocks s n
       end.
(** [readNextChunk] with a chunk received. *)
Definition received (n : nat) (c : prefetchChunk) (ch : list prefetchChunk) (s : PrefetchReader) : PrefetchReader :=
  match c with
  | ChunkErr e => returns s ch (current s) (pos s) (Some e) ([], Some e)
  | ChunkData d => returns s ch d (length (take n d)) (readErr s) (take n d, None)
  end.
Definition Close (s : PrefetchReader) : PrefetchReader :=
  mkPrefetch (pr_chunkSize s) (pr_cap s) (underlying s) (pc s) (chunksCh s) (current s) (pos s) true (readErr s)
    (waiting s) (results s).

(** What moves without a new call. *)
Inductive runs (s : PrefetchReader) : PrefetchReader -> Prop :=
  | run_read d e under :
      pc s = AtRead -> underlying s = (d, e) :: under ->
      runs s (set_pc s under (afterRead d e) (chunksCh s))
  | run_readEnd :
      pc s = AtRead -> underlying s = [] -> runs s (set_pc s [] (afterRead [] (Some EOF)) (chunksCh s))
  | run_send c e :
      pc s = AtSend c e -> zlen (chunksCh s) < pr_cap s ->
      runs s (set_pc s (underlying s) (afterSend c e) (chunksCh s ++ [c]))
  | run_sendClosed c e :
      pc s = AtSend c e -> closedCh s = true -> runs s (set_pc s (underlying s) Returned (chunksCh s))
  | run_receive n c ch :
      waiting s = Some n -> chunksCh s = c :: ch -> runs s (received n c ch s)
  | run_receiveEnd n :
      waiting s = Some n -> chunksCh s = [] -> pc s = Returned ->
      runs s (returns s [] (current s) (pos s) (readErr s) ([], Some EOF))
  | run_receiveClosed n :
      waiting s = Some n -> closedCh s = true ->
      runs s (returns s (chunksCh s) (current s) (pos s) (readErr s) ([], Some EOF)).
(** Any step: the calls are made by one goroutine at a time, [Close] by any. *)
Inductive prefetchStep (s : PrefetchReader) : PrefetchReader -> Prop :=
  | st_runs s' : runs s s' -> prefetchStep s s'
  | st_Read n : waiting s = None -> prefetchStep s (callRead n s)
  | st_Close : prefetchStep s (Close s).

(** ** The stream *)
(** The bytes of a reader and the error they end with. *)
Fixpoint streamOf (reads : list (list byte * option error)) : list byte * error :=
  match reads with
  | [] => ([], EOF)
  | (d, None) :: reads => let '(l, e) := streamOf reads in (d ++ l, e)
  | (d, Some e) :: _ => (d, if isEOF e then EOF else e)
  end.
Definition chunkBytes (c : prefetchChunk) : list byte := match c with ChunkData d => d | ChunkErr _ => [] end.
Definition delivered (s : PrefetchReader) : list byte := concat (map fst (results s)).

(** ** Lemmas *)
(** The stream that is left: the chunks on the channel, then what the goroutine still
    sends; an error that was received ends it. *)
Fixpoint chanStream (ch : list prefetchChunk) (p : list byte * error) : list byte * error :=
  match ch with
  | [] => p
  | ChunkData d :: ch => let '(l, e) := chanStream ch p in (d ++ l, e)
  | ChunkErr e :: _ => ([], e)
  end.
Definition looping (p : loopPC) (under : list (list byte * option error)) : list byte * error :=
  match p with
  | AtRead => streamOf under
  | AtSend c _ => chanStream [c] ([], EOF)
  | Returned => ([], EOF)
  end.
Definition pending (p : loopPC) (under : list (list byte * option error)) : list byte * error :=
  match p with
  | AtSend c e => chanStream [c] (looping (afterSend c e) under)
  | p => looping p under
  end.
Definition left (s : PrefetchReader) : list byte * error :=
  match readErr s with
  | Some e => ([], e)
  | None => chanStream (chunksCh s) (pending (pc s) (underlying s))
  end.
Definition buffered (s : PrefetchReader) : list byte := drop (pos s) (current s).

Lemma chanStream_app ch ch' p : chanStream (ch ++ ch') p = chanStream ch (chanStream ch' p).
Proof. induction ch as [|[d|e] ch IH]; [done| |done]. cbn [app chanStream]. by rewrite IH. Qed.
Lemma chanStream_drop ch p : exists lost, (chanStream ch p).1 = (chanStream ch ([], EOF)).1 ++ lost.
Proof.
  induction ch as [|[d|e] ch (lost & IH)]; [by exists p.1| |by exists []]. exists lost. cbn [chanStream].
  destruct (chanStream ch p), (chanStream ch ([], EOF)). cbn [fst] in *. by rewrite IH, app_assoc.
Qed.
Lemma pending_afterErr e under :
  pending (afterErr e) under
  = match e with None => streamOf under | Some e => ([], if isEOF e then EOF else e) end.
Proof. destruct e as [e|]; [|done]. unfold afterErr. by destruct (isEOF e). Qed.
Lemma pending_afterRead d e under : pending (afterRead d e) under = streamOf ((d, e) :: under).
Proof.
  unfold afterRead. destruct d as [|x d].
  - rewrite pending_afterErr. destruct e as [e|]; [done|]. cbn [streamOf]. by destruct (streamOf under).
  - cbn [pending chanStream afterSend streamOf]. destruct e as [e|]; cbn [afterErr looping].
    + destruct (isEOF e); cbn [looping chanStream]; by rewrite app_nil_r.
    + done.
Qed.
Lemma pending_send c e under : pending (AtSend c e) under = chanStream [c] (pending (afterSend c e) under).
Proof.
  cbn [pending]. f_equal. destruct c as [d|err]; [|done]. cbn [afterSend].
  destruct e as [e|]; [|done]. unfold afterErr. by destruct (isEOF e).
Qed.

(** What was delivered, what is buffered and what is left are the stream, up to what a
    goroutine that saw the reader closed has dropped. *)
Record prefetchInv (data : list byte) (fin : error) (s : PrefetchReader) : Prop := {
  pf_cap : 0 < pr_cap s;
  pf_data : exists lost, data = delivered s ++ buffered s ++ (left s).1 ++ lost
    /\ (lost <> [] -> closedCh s = true /\ pc s = Returned);
  pf_fin : closedCh s = false -> (left s).2 = fin;
  pf_wait : waiting s <> None -> buffered s = [] /\ readErr s = None;
  pf_ends : closedCh s = false -> forall r e, (r, Some e) ∈ results s ->
    r = [] /\ e = fin /\ buffered s = [] /\ (left s).1 = [] }.

Section Invariant.
Context (data : list byte) (fin : error).

Lemma inv_producer s under p ch : pc s <> Returned ->
  chanStream ch (pending p under) = chanStream (chunksCh s) (pending (pc s) (underlying s)) ->
  prefetchInv data fin s -> prefetchInv data fin (set_pc s under p ch).
Proof.
  intros Hp E [Hc (lost & Hd & Hl) Hf Hw He].
  assert (left (set_pc s under p ch) = left s) as El.
  { unfold left. cbn [readErr chunksCh pc underlying set_pc]. by rewrite E. }
  split; rewrite ?El; try done. exists lost. split; [done|]. intros Hn. destruct (Hl Hn). congruence.
Qed.
Lemma inv_drop s c e : pc s = AtSend c e -> closedCh s = true ->
  prefetchInv data fin s -> prefetchInv data fin (set_pc s (underlying s) Returned (chunksCh s)).
Proof.
  intros Hp Hcl [Hc (lost & Hd & Hl) Hf Hw He]. split; cbn [pr_cap set_pc closedCh waiting] in *; try done; try congruence.
  destruct lost as [|x lost]; [|destruct (Hl ltac:(done)); congruence].
  rewrite app_nil_r in Hd. unfold left in *. cbn [readErr chunksCh set_pc].
  destruct (readErr s) as [er|].
  - exists []. split; [exact Hd|done].
  - destruct (chanStream_drop (chunksCh s) (pending (pc s) (underlying s))) as (lost & El).
    exists lost. split; [|done]. by rewrite Hd, El.
Qed.
(** A call of [Read] that returns takes bytes off the front of the stream. *)
Lemma inv_returns s ch cur k re r :
  let l' := match re with Some e => ([], e) | None => chanStream ch (pending (pc s) (underlying s)) end in
  buffered s ++ (left s).1 = r.1 ++ drop k cur ++ l'.1 -> l'.2 = (left s).2 ->
  (forall e, r.2 = Some e -> closedCh s = false -> r.1 = [] /\ e = (left s).2 /\ buffered s = [] /\ (left s).1 = []) ->
  prefetchInv data fin s -> prefetchInv data fin (returns s ch cur k re r).
Proof.
  intros l' Hb Hf' Hr [Hc (lost & Hd & Hl) Hf Hw He].
  assert (left (returns s ch cur k re r) = l') as El by done.
  assert (delivered (returns s ch cur k re r) = delivered s ++ r.1) as Ed.
  { unfold delivered. cbn [results returns]. rewrite map_app, concat_app. cbn. by rewrite app_nil_r. }
  assert (buffered s = [] -> (left s).1 = [] -> drop k cur = [] /\ l'.1 = []) as Hnil.
  { intros E1 E2. rewrite E1, E2 in Hb. cbn [app] in Hb. symmetry in Hb.
    by apply app_nil in Hb as [_ Hb%app_nil]. }
  split; rewrite ?El, ?Ed; try done.
  - exists lost. split; [|done]. change (buffered (returns s ch cur k re r)) with (drop k cur).
    rewrite Hd. rewrite <- !app_assoc. f_equal. rewrite !app_assoc. f_equal. rewrite Hb.
    by rewrite !app_assoc.
  - intros Hcl. rewrite Hf'. by apply Hf.
  - change (buffered (returns s ch cur k re r)) with (drop k cur). cbn [closedCh results returns].
    intros Hcl r0 e [Hin|Hin%list_elem_of_singleton]%elem_of_app.
    + destruct (He Hcl r0 e Hin) as (? & ? & E1 & E2). by destruct (Hnil E1 E2).
    + subst r. destruct (Hr e eq_refl Hcl) as (? & -> & E1 & E2). destruct (Hnil E1 E2).
      by rewrite (Hf Hcl).
Qed.

Lemma runs_inv s s' : runs s s' -> prefetchInv data fin s -> prefetchInv data fin s'.
Proof.
  intros Hr Hi. destruct Hr as [d e under Hp Hu|Hp Hu|c e Hp Hcap|c e Hp Hcl|n c ch Hw Hch|n Hw Hch Hp|n Hw Hcl].
  - apply inv_producer; [by rewrite Hp| |done]. rewrite pending_afterRead, Hp, Hu. done.
  - apply inv_producer; [by rewrite Hp| |done]. rewrite Hp, Hu. done.
  - apply inv_producer; [by rewrite Hp| |done]. by rewrite chanStream_app, Hp, pending_send.
  - by eapply inv_drop.
  - destruct (pf_wait _ _ _ Hi) as [Hb Hre]; [by rewrite Hw|].
    assert (left s = chanStream (c :: ch) (pending (pc s) (underlying s))) as El by (unfold left; by rewrite Hre, Hch).
    destruct c as [d|er]; cbn [received]; apply inv_returns; try done; rewrite ?Hb, ?El, ?Hre;
      cbn [chanStream app fst snd].
    + destruct (chanStream ch _) as [l e]. cbn [fst]. rewrite app_assoc. f_equal.
      rewrite <- (take_drop n d) at 1. f_equal. rewrite length_take.
      destruct (decide (n <= length d)%nat); [f_equal; lia|]. rewrite !drop_ge by lia. done.
    + by destruct (chanStream ch _).
    + fold (buffered s). by rewrite Hb.
    + done.
    + by intros e [= ->].
  - destruct (pf_wait _ _ _ Hi) as [Hb Hre]; [by rewrite Hw|].
    assert (left s = ([], EOF)) as El by (unfold left; by rewrite Hre, Hch, Hp).
    apply inv_returns; try done; rewrite ?Hb, ?El, ?Hre, ?Hp; try done.
    + fold (buffered s). by rewrite Hb.
    + by intros e [= <-].
  - apply inv_returns; try done. intros e _ Hn. congruence.
Qed.
Lemma callRead_inv n s : waiting s = None -> prefetchInv data fin s -> prefetchInv data fin (callRead n s).
Proof.
  intros Hw Hi. unfold callRead. destruct (closedCh s) eqn:Hcl.
  { apply inv_returns; try done. congruence. }
  destruct (Nat.ltb_spec (pos s) (length (current s))) as [Hlt|Hge].
  { apply inv_returns; try done. cbn [fst]. rewrite app_assoc. f_equal. unfold buffered.
    rewrite <- drop_drop. rewrite length_take. set (l := drop (pos s) (current s)).
    rewrite <- (take_drop n l) at 1. f_equal.
    destruct (decide (n <= length l)%nat); [f_equal; lia|]. rewrite !drop_ge by lia. done. }
  assert (buffered s = []) as Hb by (unfold buffered; by apply drop_ge).
  destruct (readErr s) as [e|] eqn:Hre.
  { apply inv_returns; try done; unfold left; rewrite ?Hre; try done. by intros e0 [= <-]. }
  destruct Hi as [Hc Hd Hf _ He]. split; try done. 
Qed.
Lemma Close_inv s : prefetchInv data fin s -> prefetchInv data fin (Close s).
Proof.
  intros [Hc (lost & Hd & Hl) Hf Hw He]. split; try done. exists lost. split; [done|].
  intros Hn. by destruct (Hl Hn).
Qed.
Lemma prefetchStep_inv s s' : prefetchStep s s' -> prefetchInv data fin s -> prefetchInv data fin s'.
Proof. destruct 1; eauto using runs_inv, callRead_inv, Close_inv. Qed.
End Invariant.

Lemma New_inv reads chunkSize count :
  prefetchInv (streamOf reads).1 (streamOf reads).2 (NewPrefetchReader reads chunkSize count).
Proof.
  split; try done.
  - cbn. unfold DefaultPrefetchBufferCount. destruct (Z.leb_spec count 0); lia.
  - exists []. split; [|done]. cbn. by rewrite app_nil_r.
  - intros _ r e Hin. by apply elem_of_nil in Hin.
Qed.
Lemma prefetchSteps_inv data fin s s' : rtc prefetchStep s s' -> prefetchInv data fin s -> prefetchInv data fin s'.
Proof. induction 1; eauto using prefetchStep_inv. Qed.

(** Without new calls the goroutine and a blocked [Read] come to rest. *)
Definition pcWork (p : loopPC) : nat :=
  match p with AtRead => 1 | AtSend (ChunkData _) _ => 4 | AtSend (ChunkErr _) _ => 2 | Returned => 0 end.
Definition prefetchWork (s : PrefetchReader) : nat :=
  6 * length (underlying s) + pcWork (pc s) + length (chunksCh s)
  + match waiting s with Some _ => 1 | None => 0 end.
Lemma pcWork_afterErr e : (pcWork (afterErr e) <= 2)%nat.
Proof. destruct e as [e|]; cbn; [destruct (isEOF e); cbn|]; lia. Qed.
Lemma pcWork_afterRead d e : (pcWork (afterRead d e) <= 4)%nat.
Proof. destruct d; [pose proof (pcWork_afterErr e); cbn; lia|cbn; lia]. Qed.
Lemma runs_work s s' : runs s s' -> (prefetchWork s' < prefetchWork s)%nat.
Proof.
  unfold prefetchWork. intros [d e under Hp Hu|Hp Hu|c e Hp Hcap|c e Hp Hcl|n c ch Hw Hch|n Hw Hch Hp|n Hw Hcl];
    cbn [underlying pc chunksCh waiting set_pc returns].
  - rewrite Hp, Hu. cbn [length]. pose proof (pcWork_afterRead d e). lia.
  - rewrite Hp, Hu. change (afterRead [] (Some EOF)) with Returned. cbn [length pcWork]. lia.
  - rewrite Hp, length_app. cbn [length]. destruct c as [d|er]; cbn [pcWork afterSend]; [|lia].
    pose proof (pcWork_afterErr e). lia.
  - rewrite Hp. destruct c; cbn; lia.
  - rewrite Hw, Hch. destruct c; cbn; lia.
  - rewrite Hw, Hch. cbn. lia.
  - rewrite Hw. lia.
Qed.
Lemma runs_sn s : sn runs s.
Proof.
  remember (prefetchWork s) as n. revert s Heqn. induction (lt_wf n) as [n _ IH]. intros s ->.
  constructor. intros s' Hs. eapply IH; [|done]. by apply runs_work.
Qed.
Lemma goroutine_moves s : 0 < pr_cap s -> pc s <> Returned -> chunksCh s = [] \/ closedCh s = true ->
  exists s', runs s s'.
Proof.
  intros Hc Hp Hor. destruct (pc s) as [|c e|] eqn:E; [| |done].
  - destruct (underlying s) as [|[d e] under] eqn:Eu; [by eexists; apply run_readEnd|by eexists; eapply run_read].
  - destruct Hor as [Hch|Hcl]; [|by eexists; eapply run_sendClosed].
    eexists. eapply run_send; [done|]. rewrite Hch. exact Hc.
Qed.
Lemma waiting_moves s n : 0 < pr_cap s -> waiting s = Some n -> exists s', runs s s'.
Proof.
  intros Hc Hw. destruct (chunksCh s) as [|c ch] eqn:Ech; [|by eexists; eapply run_receive].
  destruct (pc s) as [|c e|] eqn:Ep; [| |by eexists; eapply run_receiveEnd].
  all: apply goroutine_moves; [done|by rewrite Ep|by left].
Qed.

(** ** Properties *)

(** C25. The prefetching reader is a reader of the same stream: whatever the chunk size and
    the depth of the channel (both are made positive), and however its goroutine, the calls of [Read] and
    [Close] interleave, what [Read] has returned is a prefix of the stream; until it is
    closed, an error is the error the stream ends with (io.EOF included), comes without
    data and only after every byte was returned. A blocked [Read] can always proceed and
    comes to return, and once the reader is closed the goroutine ends and no [Read] stays
    blocked. *)
Theorem Prefetch_delivers (reads : list (list byte * option error)) (chunkSize count : Z) (s : PrefetchReader) :
  rtc prefetchStep (NewPrefetchReader reads chunkSize count) s ->
  let '(data, fin) := streamOf reads in
  delivered s `prefix_of` data
  /\ (closedCh s = false -> forall r e, (r, Some e) ∈ results s -> r = [] /\ e = fin /\ delivered s = data)
  /\ sn runs s
  /\ (waiting s <> None -> exists s', runs s s')
  /\ (closedCh s = true -> (forall s', ~ runs s s') -> pc s = Returned /\ waiting s = None).
Proof.
  intros Hs. pose proof (prefetchSteps_inv _ _ _ _ Hs (New_inv reads chunkSize count)) as Hi.
  destruct (streamOf reads) as [data fin]. cbn [fst snd] in Hi.
  destruct Hi as [Hc (lost & Hd & Hl) Hf Hw He]. split; [|split; [|split; [|split]]].
  - rewrite Hd. by eexists.
  - intros Hcl r e Hin. destruct (He Hcl r e Hin) as (Hr & Hfin & Hb & Hleft). split; [done|]. split; [done|].
    destruct lost as [|x lost]; [|destruct (Hl ltac:(done)); congruence].
    by rewrite Hd, Hb, Hleft, !app_nil_r.
  - apply runs_sn.
  - intros Hwait. destruct (waiting s) as [n|] eqn:E; [|done]. by eapply waiting_moves.
  - intros Hcl Hn. split.
    + destruct (pc s) eqn:Hp; [| |done];
        destruct (goroutine_moves s Hc ltac:(by rewrite Hp) (or_intror Hcl)) as (s' & Hr); by destruct (Hn s').
    + destruct (waiting s) as [n|] eqn:E; [|done]. destruct (waiting_moves s n Hc E) as (s' & Hr). by destruct (Hn s').
Qed.

(** ** Witness and finding *)
Definition sampleReads : list (list byte * option error) := [(bytes "ab", None); (bytes "c", Some EOF)].
Ltac go_runs H := eapply rtc_l; [apply st_runs; eapply H; reflexivity|]; vm_compute.
Ltac go_read k := eapply rtc_l; [apply (st_Read _ k); reflexivity|]; vm_compute.

Lemma Prefetch_delivers_witness : exists s,
  rtc prefetchStep (NewPrefetchReader sampleReads 64 0) s
  /\ results s = [(bytes "a", None); (bytes "b", None); (bytes "c", None); ([], Some EOF)]
  /\ delivered s `prefix_of` bytes "abc".
Proof.
  assert (exists s, rtc prefetchStep (NewPrefetchReader sampleReads 64 0) s
    /\ results s = [(bytes "a", None); (bytes "b", None); (bytes "c", None); ([], Some EOF)]) as (s & Hs & Hr).
  { eexists. split.
    - vm_compute. go_runs run_read. go_runs run_send. go_read 1%nat. go_runs run_receive. go_runs run_read.
      go_read 5%nat. go_runs run_send. go_read 5%nat. go_runs run_receive. go_read 5%nat.
      go_runs run_receiveEnd. apply rtc_refl.
    - reflexivity. }
  exists s. split; [exact Hs|]. split; [exact Hr|]. exact (proj1 (Prefetch_delivers sampleReads 64 0 s Hs)).
Defined.

(** [Close] returns while the goroutine may still call the reader that it has closed. *)
Lemma reads_after_close : exists s s',
  rtc prefetchStep (NewPrefetchReader sampleReads 64 0) s /\ closedCh s = true
  /\ runs s s' /\ (length (underlying s') < length (underlying s))%nat.
Proof.
  eexists (Close (NewPrefetchReader sampleReads 64 0)), _. split; [eapply rtc_l; [apply st_Close|apply rtc_refl]|].
  split; [done|]. split; [eapply run_read; reflexivity|]. cbn. lia.
Qed.
