(* ===== verification/Secrets.v ===== *)
(** * Secrets

    Models [internal/adapters/secrets]: references to secrets and vault paths
    ([uri_normalizer.go]), the OpenBao and Google Cloud resolvers over an HTTP server and
    a secret manager, the resolver that routes between them, and the places where the
    program substitutes secrets. Traces are not represented; a server does not change
    while a reference is resolved. *)
From S2P Require Import Prelude GoStr Float64 Schema RecordModel Watermark Config UrlQuery Storage FileSink HttpClient JsonUtils.

(** ** References ([uri_normalizer.go]) *)
Record ParsedSecretRef := mkRef { RefProvider : string; RefPath : string; RefField : string }.
(** [strings.Index] of one byte, as what precedes and follows it. *)
Fixpoint cutAt (c : byte) (l : list byte) : option (list byte * list byte) :=
  match l with
  | [] => None
  | b :: l =>
      if bool_decide (b = c) then Some ([], l)
      else match cutAt c l with Some (pre, post) => Some (b :: pre, post) | None => None end
  end.
Definition colon : byte := ":".
Definition hash : byte := "#".
Definition hasByte (c : byte) (l : list byte) : bool := bool_decide (c ∈ l).

Section References.
Context `{UnicodeLower}.
Definition ParseSecretRef (ref : string) : ParsedSecretRef :=
  let trimmed := trimSpaceBytes (bytes ref) in
  let '(provider, remainder) :=
    match cutAt colon trimmed with
    | Some (pre, post) => if hasByte slash pre then ("", trimmed) else (ToLower (str pre), post)
    | None => ("", trimmed)
    end in
  let '(path, field) := match cutAt hash remainder with Some pf => pf | None => (remainder, []) end in
  mkRef provider (str path) (str field).
End References.

(** The path of a key-value secret, and whether [data] was inserted. *)
Definition isSlash (b : byte) : bool := bool_decide (b = slash).
Definition NormalizeVaultPath (path : string) : string * bool :=
  let trimmed := trim1 isSlash (trimSpaceBytes (bytes path)) in
  match map str (splitOn slash trimmed) with
  | mount :: p :: ps =>
      let subpath := joinWith "/" (p :: ps) in
      if HasPrefix subpath "data/" || (subpath =s "data") then (str trimmed, false)
      else (mount +:+ "/data/" +:+ subpath, true)
  | _ => (path, false)
  end.

Definition ApplyHostOverride (payload : gmap string json) (overrides : gmap string string) : gmap string json :=
  match payload !! "host" with
  | Some (JStr host) =>
      match overrides !! host with Some replacement => <["host" := JStr replacement]> payload | None => payload end
  | _ => payload
  end.

(** A map is ranged over in any order: [order] is the one of this run. *)
Definition replaceIn (s old new : string) : string := if Contains s old then ReplaceAll s old new else s.
Definition overrideHost (uh : string * string) (kv : string * string) : string * string :=
  let '(uri, host) := uh in
  let '(target, replacement) := kv in
  let uri := replaceIn uri ("@" +:+ target) ("@" +:+ replacement) in
  let uri := replaceIn uri ("(" +:+ target) ("(" +:+ replacement) in
  (uri, if host =s target then replacement else host).
Definition withHost (d : DatabaseSourceConfig) (uh : string * string) : DatabaseSourceConfig :=
  mkDatabase (Driver d) uh.1 uh.2 (Port d) (Database d) (Username d) (PasswordRef d) (Query d) (Table d)
    (QueryFilter d) (Columns d) (FlattenNested d) (DbPartition d) (DbPool d) (DbResilience d) (DbSchema d) (DbWatermark d).
Definition ApplyDatabaseHostOverrides (d : DatabaseSourceConfig) (order : list (string * string)) : DatabaseSourceConfig :=
  withHost d (fold_left overrideHost order (ConnectionURI d, Host d)).

(** ** Substitution; a resolver is a function from references *)
Abbreviation SecretResolver := (string -> string + error).
Definition interpolatePassword (uri passwordRef : string) (resolver : option SecretResolver) : string + error :=
  match resolver with
  | None => inl uri
  | Some resolve =>
      if passwordRef =s "" then inl uri
      else match resolve passwordRef with
      | inr e => inr (Errorf ("failed resolving connection password: " +:+ Error e) [e])
      | inl pwd => inl (replaceIn (replaceIn uri "{{password}}" pwd) "{{PASSWORD}}" pwd)
      end
  end.
Definition resolveURISecret (uri : string) (resolver : option SecretResolver) : string + error :=
  match resolver with
  | None => inl uri
  | Some resolve =>
      if HasPrefix uri "gcp:" || HasPrefix uri "openbao:" || HasPrefix uri "vault:" then
        match resolve uri with
        | inr e => inr (Errorf ("failed resolving connection uri from secret manager: " +:+ Error e) [e])
        | inl resolved => inl (if negb (resolved =s "") then resolved else uri)
        end
      else inl uri
  end.
Definition ResolveConnectionURI (uri passwordRef : string) (resolver : option SecretResolver) : string + error :=
  let resolvedURI := TrimSpace uri in
  if resolvedURI =s "" then inr (Errorf "connection_uri is required" [])
  else match interpolatePassword resolvedURI passwordRef resolver with
  | inr e => inr e
  | inl uri => resolveURISecret uri resolver
  end.
Definition resolveSecretRef (ref : string) (resolve : SecretResolver) (out : gmap string string) : gmap string string :=
  if TrimSpace ref =s "" then out
  else match resolve ref with
  | inl val => if negb (val =s "") then <[ref := val]> out else out
  | inr _ => out
  end.
Definition ResolveAPIAuth (auth : option APIAuthConfig) (resolver : option SecretResolver) : gmap string string :=
  match auth, resolver with
  | Some a, Some resolve =>
      fold_left (fun out ref => resolveSecretRef ref resolve out)
        [TokenRef a; UsernameRef a; AuthPasswordRef a; ClientIDRef a; ClientSecretRef a] ∅
  | _, _ => ∅
  end.

(** ** [OpenBaoSecretResolver] *)
(** The environment of the process: blank when a variable is not set. *)
Definition firstEnv (getenv : string -> string) (names : list string) : string :=
  default "" (list_find (fun v => v <> "") (map (fun n => TrimSpace (getenv n)) names) ≫= fun p => Some p.2).
Definition configured (own : SecretsConfig -> string) (names : list string) (getenv : string -> string)
    (cfg : option SecretsConfig) : string :=
  match cfg with
  | Some c => if negb (TrimSpace (own c) =s "") then own c else firstEnv getenv names
  | None => firstEnv getenv names
  end.
Definition resolveVaultURL := configured VaultURL ["PLATFORM_VAULT_URL"; "BAO_ADDR"; "VAULT_ADDR"].
Definition resolveVaultToken := configured VaultToken ["PLATFORM_VAULT_TOKEN"; "BAO_TOKEN"; "VAULT_TOKEN"].
Definition resolveGCPProject := configured GCPProjectID ["GCP_PROJECT_ID"; "GOOGLE_CLOUD_PROJECT"].

Record OpenBaoSecretResolver := mkOpenBao {
  vaultURL : string; vaultToken : string; hostOverride : gmap string string }.
Definition NewOpenBaoSecretResolver (getenv : string -> string) (cfg : option SecretsConfig) : OpenBaoSecretResolver :=
  mkOpenBao (TrimRight (resolveVaultURL getenv cfg) isSlash) (resolveVaultToken getenv cfg)
    (match cfg with Some c => HostOverride c | None => ∅ end).

Section OpenBao.
Context {U : Type} `{GoURL U, GoQuote, UnicodeLower, GoUnmarshal, GoFormatV, GoMarshal (option (gmap string json))}
  (send : Request U -> Response + error).
Definition errNoVault : error := Errorf "openbao/vault endpoint URL is not configured" [].
(** A key-value secret answer: version 2 nests the data once more. A nil map is [None]. *)
Definition unpackEnvelope (body : list byte) : option (gmap string json) + error :=
  match Unmarshal body with
  | inr e => inr (Errorf ("failed parsing vault json: " +:+ Error e) [e])
  | inl (JObj raw) =>
      match raw !! "data" with
      | Some (JObj dataObj) => match dataObj !! "data" with Some (JObj inner) => inl (Some inner) | _ => inl (Some dataObj) end
      | _ => inl (Some raw)
      end
  | inl JNull => inl None
  | inl _ => inr (Errorf "failed parsing vault json: json: cannot unmarshal into Go value of type map[string]interface {}" [])
  end.
Definition vaultRequest (r : OpenBaoSecretResolver) (apiPath : string) : Request U + error :=
  match NewRequest "GET" (vaultURL r +:+ "/v1/" +:+ TrimPrefix apiPath "/") [] with
  | inr e => inr (Errorf ("failed creating http request: " +:+ Error e) [e])
  | inl q =>
      inl (if negb (vaultToken r =s "") then withHeader (Header_Set "X-Vault-Token" (vaultToken r) (rq_header q)) q else q)
  end.
Definition fetchSecret (r : OpenBaoSecretResolver) (apiPath : string) : option (gmap string json) + error :=
  if vaultURL r =s "" then inr errNoVault
  else match vaultRequest r apiPath with
  | inr e => inr e
  | inl q =>
      match send q with
      | inr e => inr (Errorf ("http request failed: " +:+ Error e) [e])
      | inl resp =>
          if negb (StatusCode resp =? 200) then inr (Errorf ("vault returned HTTP " +:+ FormatInt (StatusCode resp)) [])
          else match rs_body resp with
          | (_, Some e) => inr (Errorf ("failed reading response body: " +:+ Error e) [e])
          | (body, None) => unpackEnvelope body
          end
      end
  end.
Definition extractValue (r : OpenBaoSecretResolver) (payload : option (gmap string json)) (field : string) : string + error :=
  if negb (field =s "") then
    match payload ≫= (fun m => m !! field) with
    | None => inr (Errorf ("field " +:+ Quote field +:+ " not found in secret payload") [])
    | Some val => inl (sprintJSON val)
    end
  else match marshalJSON ((fun m => ApplyHostOverride m (hostOverride r)) <$> payload) with
  | inr e => inr (Errorf ("failed marshaling secret map: " +:+ Error e) [e])
  | inl b => inl (str b)
  end.
Definition OpenBao_Resolve (r : OpenBaoSecretResolver) (secretRef : string) : string + error :=
  if vaultURL r =s "" then
    inr (Errorf "openbao/vault endpoint URL is not configured (specify vault_url in secrets_config or set PLATFORM_VAULT_URL / BAO_ADDR / VAULT_ADDR)" [])
  else
    let parsed := ParseSecretRef secretRef in
    let '(normPath, wasNormalized) := NormalizeVaultPath (RefPath parsed) in
    let payload := match fetchSecret r normPath with
                   | inr e => if wasNormalized : bool then fetchSecret r (RefPath parsed) else inr e
                   | inl p => inl p
                   end in
    match payload with
    | inr e => inr (Errorf ("failed resolving openbao secret " +:+ Quote (RefPath parsed) +:+ ": " +:+ Error e) [e])
    | inl p => extractValue r p (RefField parsed)
    end.
End OpenBao.

(** ** [GCPSecretManagerResolver]: [client] gives the payload of a secret version *)
Record GCPSecretManagerResolver := mkGCP { projectID : string; gcpClient : option (string -> list byte + error) }.
Definition NormalizeResourcePath (r : GCPSecretManagerResolver) (path : string) : string + error :=
  let trimmed := TrimSpace path in
  if HasPrefix trimmed "projects/" then inl trimmed
  else if projectID r =s "" then
    inr (Errorf "gcp project id is not configured (specify gcp_project_id in secrets_config or set GCP_PROJECT_ID / GOOGLE_CLOUD_PROJECT)" [])
  else inl ("projects/" +:+ projectID r +:+ "/secrets/" +:+ trimmed +:+ "/versions/latest").
Definition ExtractGCPPayloadField `{GoQuote, GoUnmarshal, GoFormatV} (data : list byte) (field : string) : string + error :=
  let missing := inr (Errorf ("field " +:+ Quote field +:+ " not found in gcp secret payload") []) in
  let invalid e := inr (Errorf ("secret payload is not valid json for field extraction: " +:+ Error e) [e]) in
  match Unmarshal data with
  | inr e => invalid e
  | inl (JObj payload) => match payload !! field with Some val => inl (sprintJSON val) | None => missing end
  | inl JNull => missing
  | inl _ => invalid (Errorf "json: cannot unmarshal into Go value of type map[string]interface {}" [])
  end.
Definition GCP_Resolve `{UnicodeLower, GoQuote, GoUnmarshal, GoFormatV} (r : GCPSecretManagerResolver)
    (secretRef : string) : string + error :=
  let parsed := ParseSecretRef secretRef in
  match NormalizeResourcePath r (RefPath parsed) with
  | inr e => inr e
  | inl resourceName =>
      match gcpClient r with
      | None => inr (Errorf "gcp secret manager client is not initialized" [])
      | Some access =>
          match access resourceName with
          | inr e => inr (Errorf ("failed accessing gcp secret " +:+ Quote resourceName +:+ ": " +:+ Error e) [e])
          | inl data =>
              if negb (RefField parsed =s "") then ExtractGCPPayloadField data (RefField parsed) else inl (str data)
          end
      end
  end.

(** ** [CompositeSecretResolver] *)
Record CompositeSecretResolver := mkComposite {
  openbao : option SecretResolver; gcp : option SecretResolver; defaultProvider : string }.
Section Composite.
Context `{UnicodeLower, GoQuote}.
Definition NewCompositeSecretResolver (openbao gcp : option SecretResolver) (provider : string) : CompositeSecretResolver :=
  mkComposite openbao gcp (ToLower (TrimSpace provider)).
Definition openbaoNames : list string := ["vault"; "openbao"; "bao"].
Definition gcpNames : list string := ["gcp"; "gcp_sm"; "gcp_secret_manager"].
Definition dispatch (r : CompositeSecretResolver) (provider secretRef : string) : string + error :=
  if provider =s "" then
    inr (Errorf ("secret provider is not specified for ref " +:+ Quote secretRef
                 +:+ " and no default provider is configured in secrets_config") [])
  else if bool_decide (provider ∈ openbaoNames) then
    match openbao r with
    | None => inr (Errorf ("openbao secret resolver not configured for ref " +:+ Quote secretRef) [])
    | Some resolve => resolve secretRef
    end
  else if bool_decide (provider ∈ gcpNames) then
    match gcp r with
    | None => inr (Errorf ("gcp secret manager resolver not configured for ref " +:+ Quote secretRef) [])
    | Some resolve => resolve secretRef
    end
  else inr (Errorf ("unsupported secret provider " +:+ Quote provider +:+ " for ref " +:+ Quote secretRef) []).
(** A reference without a provider and without a slash is the secret itself. *)
Definition Composite_Resolve (r : CompositeSecretResolver) (secretRef : string) : string + error :=
  let provider := RefProvider (ParseSecretRef secretRef) in
  if provider =s "" then
    if negb (Contains secretRef "/") then inl secretRef else dispatch r (defaultProvider r) secretRef
  else dispatch r provider secretRef.
End Composite.

(** ** Lemmas *)
Lemma cutAt_absent c l : c ∉ l -> cutAt c l = None.
Proof.
  induction l as [|b l IH]; [done|]. intros [Hb Hl]%not_elem_of_cons. cbn [cutAt].
  rewrite bool_decide_false by congruence. by rewrite IH.
Qed.
Lemma cutAt_app c a b : c ∉ a ->
  cutAt c (a ++ b) = match cutAt c b with Some (pre, post) => Some (a ++ pre, post) | None => None end.
Proof.
  induction a as [|x a IH]; cbn [app cutAt]; [by destruct (cutAt c b) as [[? ?]|]|].
  intros [Hx Ha]%not_elem_of_cons. rewrite bool_decide_false, IH by congruence.
  by destruct (cutAt c b) as [[? ?]|].
Qed.
Lemma cutAt_here c a b : c ∉ a -> cutAt c (a ++ c :: b) = Some (a, b).
Proof. intros Ha. rewrite cutAt_app by done. cbn [cutAt]. rewrite bool_decide_true by done. by rewrite app_nil_r. Qed.

Lemma Contains_byte c s : Contains s (str [c]) = hasByte c (bytes s).
Proof.
  induction s as [|x s IH]; [done|].
  change (String.prefix (str [c]) (String x s) || Contains s (str [c]) = hasByte c (x :: bytes s)).
  rewrite IH. unfold hasByte. cbn [str String.string_of_list_ascii String.prefix].
  destruct (ascii_dec c x) as [->|Hx].
  - rewrite (bool_decide_true (x ∈ x :: bytes s)) by apply list_elem_of_here. by destruct s.
  - cbn [orb]. apply bool_decide_ext. rewrite elem_of_cons. naive_solver.
Qed.

Lemma splitOn_here sep a b : sep ∉ a -> splitOn sep (a ++ sep :: b) = a :: splitOn sep b.
Proof.
  induction a as [|x a IH]; cbn [app splitOn]; [by rewrite bool_decide_true|].
  intros [Hx Ha]%not_elem_of_cons. rewrite bool_decide_false, IH by congruence. done.
Qed.
Lemma joinWith_splitOn l : joinWith "/" (map str (splitOn slash l)) = str l.
Proof.
  induction l as [|c l IH]; [done|]. cbn [splitOn]. pose proof (splitOn_nonnil slash l) as Hn.
  destruct (decide (c = slash)) as [->|Hc].
  - rewrite bool_decide_true by done. cbn [map]. destruct (splitOn slash l) as [|s ss]; [done|].
    cbn [map joinWith] in *. rewrite IH. done.
  - rewrite bool_decide_false by done. destruct (splitOn slash l) as [|s ss]; [done|].
    cbn [map joinWith] in *. destruct ss as [|s' ss]; cbn [map joinWith] in *.
    + change (String c (str s) = String c (str l)). by rewrite IH.
    + change (String c (str s +:+ "/" +:+ joinWith "/" (str s' :: map str ss)) = String c (str l)). f_equal. exact IH.
Qed.
Lemma joinWith_splitOn_cons l : exists p ps, map str (splitOn slash l) = p :: ps /\ joinWith "/" (p :: ps) = str l.
Proof.
  pose proof (splitOn_nonnil slash l). pose proof (joinWith_splitOn l).
  destruct (splitOn slash l) as [|p ps]; [done|]. by exists (str p), (map str ps).
Qed.

(** A path of a secret in a key-value store: the mount, and a name that may have slashes. *)
Record secretPath (mount sub : string) : Prop := {
  sp_plain : forallb plain (bytes mount) = true /\ forallb plain (bytes sub) = true;
  sp_mount : mount <> "" /\ slash ∉ bytes mount /\ colon ∉ bytes mount /\ hash ∉ bytes mount;
  sp_sub : hash ∉ bytes sub /\ head (bytes sub) <> Some slash /\ last (bytes sub) <> Some slash /\ sub <> "";
  sp_data : HasPrefix sub "data/" = false /\ sub <> "data" }.
Definition logicalPath (mount sub : string) : string := mount +:+ "/" +:+ sub.
Definition apiPath (mount sub : string) : string := mount +:+ "/data/" +:+ sub.

Lemma trim1_id p l : (forall a, head l = Some a -> p a = false) -> (forall a, last l = Some a -> p a = false) ->
  trim1 p l = l.
Proof.
  intros Hh Hl. unfold trim1. rewrite (dropWhile_fix p l) by (destruct l; [done|by apply Hh]).
  rewrite dropWhile_fix; [apply rev_involutive|]. destruct (rev l) as [|a r] eqn:E; [done|].
  apply Hl. apply (f_equal (@rev _)) in E. rewrite rev_involutive in E. rewrite E. cbn [rev].
  by rewrite last_snoc.
Qed.
Lemma logicalPath_bytes mount sub : bytes (logicalPath mount sub) = bytes mount ++ slash :: bytes sub.
Proof. unfold logicalPath. by rewrite !bytes_app. Qed.
Lemma apiPath_logical mount sub : apiPath mount sub = logicalPath mount ("data/" +:+ sub).
Proof. done. Qed.
Lemma trim_path mount sub : mount <> "" -> slash ∉ bytes mount -> last (bytes sub) <> Some slash -> sub <> "" ->
  forallb plain (bytes mount) = true -> forallb plain (bytes sub) = true ->
  trim1 isSlash (trimSpaceBytes (bytes (logicalPath mount sub))) = bytes (logicalPath mount sub).
Proof.
  intros Hm Hs Hl Hsub Hp Hp'. rewrite logicalPath_bytes. rewrite trimSpaceBytes_plain.
  2:{ rewrite forallb_app. cbn [forallb]. by rewrite Hp, Hp'. }
  apply trim1_id; unfold isSlash; intros a Ha; apply bool_decide_eq_false_2; intros ->.
  - destruct (bytes mount) as [|c m] eqn:E; [by apply (f_equal str) in E; rewrite str_bytes in E|].
    injection Ha as ->. apply Hs, list_elem_of_here.
  - assert (bytes sub <> []) as Hne by (intros E; apply Hsub; rewrite <- (str_bytes sub), E; done).
    destruct (exists_last Hne) as (l & x & E). apply Hl. rewrite E in *.
    change (slash :: l ++ [x]) with ((slash :: l) ++ [x]) in Ha. rewrite app_assoc, last_snoc in Ha.
    by rewrite last_snoc.
Qed.
Lemma NormalizeVaultPath_parts mount sub : mount <> "" -> slash ∉ bytes mount -> last (bytes sub) <> Some slash ->
  sub <> "" -> forallb plain (bytes mount) = true -> forallb plain (bytes sub) = true ->
  NormalizeVaultPath (logicalPath mount sub)
  = if HasPrefix sub "data/" || (sub =s "data") then (logicalPath mount sub, false) else (apiPath mount sub, true).
Proof.
  intros. unfold NormalizeVaultPath. rewrite trim_path by done. rewrite logicalPath_bytes, splitOn_here by done.
  cbn [map]. destruct (joinWith_splitOn_cons (bytes sub)) as (p & ps & -> & ->).
  rewrite !str_bytes, <- logicalPath_bytes, str_bytes. done.
Qed.
Lemma NormalizeVaultPath_logical mount sub : secretPath mount sub ->
  NormalizeVaultPath (logicalPath mount sub) = (apiPath mount sub, true).
Proof.
  intros [[Hp Hp'] (Hm & Hs & _) (_ & _ & Hl & Hne) [Hd Hd']]. rewrite NormalizeVaultPath_parts by done.
  rewrite Hd. by destruct (String.eqb_spec sub "data").
Qed.
Lemma NormalizeVaultPath_api mount sub : secretPath mount sub ->
  NormalizeVaultPath (apiPath mount sub) = (apiPath mount sub, false).
Proof.
  intros [[Hp Hp'] (Hm & Hs & _) (_ & _ & Hl & Hne) _]. rewrite apiPath_logical, NormalizeVaultPath_parts; try done.
  - by destruct sub.
  - rewrite bytes_app. intros E. apply Hl. rewrite last_app in E. destruct (bytes sub) as [|c l] eqn:Eb.
    + by apply (f_equal str) in Eb; rewrite str_bytes in Eb.
    + destruct (last (c :: l)) as [x|] eqn:El; [done|]. by apply last_None in El.
Qed.

Section ParseLemmas.
Context `{UnicodeLower}.
(** The prefix of a reference: a provider and a colon, or nothing. *)
Definition refPrefix (provider : option string) : string :=
  match provider with Some p => p +:+ ":" | None => "" end.
Definition goodProvider (provider : option string) : Prop :=
  match provider with
  | Some p => forallb plain (bytes p) = true /\ colon ∉ bytes p /\ slash ∉ bytes p
  | None => True
  end.
Definition secretRef (provider : option string) (path field : string) : string :=
  refPrefix provider +:+ path +:+ "#" +:+ field.

Lemma ParseSecretRef_parts provider mount rest field :
  goodProvider provider -> slash ∉ bytes mount -> colon ∉ bytes mount -> hash ∉ bytes mount -> hash ∉ bytes rest ->
  forallb plain (bytes mount) = true -> forallb plain (bytes rest) = true -> forallb plain (bytes field) = true ->
  ParseSecretRef (secretRef provider (logicalPath mount rest) field)
  = mkRef (match provider with Some p => ToLower p | None => "" end) (logicalPath mount rest) field.
Proof.
  intros Hprov Hs Hc Hh Hh' Hp Hp' Hf. unfold ParseSecretRef, secretRef.
  set (tail := bytes mount ++ slash :: bytes rest ++ hash :: bytes field).
  assert (bytes (refPrefix provider +:+ logicalPath mount rest +:+ "#" +:+ field)
          = match provider with Some p => bytes p ++ colon :: tail | None => tail end) as ->.
  { unfold refPrefix, tail. rewrite !bytes_app, logicalPath_bytes.
    destruct provider as [p|]; rewrite ?bytes_app; cbn; by rewrite <- ?app_assoc. }
  assert (forallb plain tail = true) as Ht.
  { unfold tail. rewrite forallb_app. cbn [forallb]. rewrite forallb_app. cbn [forallb]. by rewrite Hp, Hp', Hf. }
  assert (cutAt hash tail = Some (bytes (logicalPath mount rest), bytes field)) as Hcut.
  { unfold tail. rewrite app_comm_cons, app_assoc, <- logicalPath_bytes. apply cutAt_here.
    rewrite logicalPath_bytes. rewrite elem_of_app, elem_of_cons. intros [?|[?|?]]; done. }
  destruct provider as [p|].
  - destruct Hprov as (Hpp & Hpc & Hps). rewrite trimSpaceBytes_plain.
    2:{ rewrite forallb_app. cbn [forallb]. by rewrite Hpp, Ht. }
    rewrite cutAt_here by done. unfold hasByte. rewrite bool_decide_false by done.
    by rewrite Hcut, !str_bytes.
  - rewrite trimSpaceBytes_plain by done.
    assert (cutAt colon tail = None \/ exists pre post, cutAt colon tail = Some (pre, post) /\ slash ∈ pre) as Hcol.
    { unfold tail. rewrite cutAt_app by done. cbn [cutAt]. rewrite bool_decide_false by done.
      destruct (cutAt colon (bytes rest ++ _)) as [[pre post]|]; [right|by left].
      exists (bytes mount ++ slash :: pre), post. split; [done|]. apply elem_of_app. right. apply list_elem_of_here. }
    destruct Hcol as [->|(pre & post & -> & Hin)]; [|unfold hasByte; rewrite bool_decide_true by done];
      by rewrite Hcut, !str_bytes.
Qed.
End ParseLemmas.

(** ** A vault that holds a secret *)
Section Vault.
Context {U : Type} `{GoURL U, GoQuote, UnicodeLower, GoUnmarshal, GoFormatV, GoMarshal (option (gmap string json))}
  (send : Request U -> Response + error) (r : OpenBaoSecretResolver).
(** The vault answers a path with a JSON object, or refuses it. *)
Definition answers (path : string) (d : gmap string json) : Prop :=
  exists q resp body, vaultRequest r path = inl q /\ send q = inl resp /\ StatusCode resp = 200
  /\ rs_body resp = (body, None) /\ Unmarshal body = inl (JObj d).
Definition refuses (path : string) : Prop :=
  exists q, vaultRequest r path = inl q
  /\ match send q with inr _ => True | inl resp => StatusCode resp <> 200 end.
(** Version 2 of the key-value store keeps the secret below [data] and wraps it twice;
    version 1 has no [data] segment and wraps it once. *)
Inductive kvHolds (mount sub : string) (m : gmap string json) : Z -> Prop :=
  | kv2 d x : answers (apiPath mount sub) d -> d !! "data" = Some (JObj x) -> x !! "data" = Some (JObj m) ->
      kvHolds mount sub m 2
  | kv1 d : refuses (apiPath mount sub) -> answers (logicalPath mount sub) d -> d !! "data" = Some (JObj m) ->
      (forall i, m !! "data" <> Some (JObj i)) -> kvHolds mount sub m 1.

Lemma fetch_answers path d : vaultURL r <> "" -> answers path d ->
  fetchSecret send r path
  = match d !! "data" with
    | Some (JObj x) => match x !! "data" with Some (JObj i) => inl (Some i) | _ => inl (Some x) end
    | _ => inl (Some d)
    end.
Proof.
  intros Hu (q & resp & body & Hq & Hs & Hc & Hb & Hj). unfold fetchSecret.
  destruct (String.eqb_spec (vaultURL r) ""); [done|]. rewrite Hq, Hs, Hc, Hb. cbn [Z.eqb negb].
  unfold unpackEnvelope. by rewrite Hj.
Qed.
Lemma fetch_refuses path : refuses path -> exists e, fetchSecret send r path = inr e.
Proof.
  intros (q & Hq & Hs). unfold fetchSecret. destruct (vaultURL r =s ""); [by eexists|]. rewrite Hq.
  destruct (send q) as [resp|e]; [|by eexists]. destruct (Z.eqb_spec (StatusCode resp) 200); [done|by eexists].
Qed.

Lemma parse_vault_ref provider mount sub field path :
  goodProvider provider -> secretPath mount sub -> forallb plain (bytes field) = true ->
  path = logicalPath mount sub \/ path = apiPath mount sub ->
  ParseSecretRef (secretRef provider path field)
  = mkRef (match provider with Some p => ToLower p | None => "" end) path field.
Proof.
  intros Hprov [[Hp Hp'] (Hm & Hs & Hc & Hh) (Hh' & _) _] Hf [->| ->]; [by apply ParseSecretRef_parts|].
  rewrite apiPath_logical. apply ParseSecretRef_parts; try done.
  rewrite bytes_app, elem_of_app. intros [Hin|Hin]; [|done].
  revert Hin. apply (bool_decide_unpack (hash ∉ bytes "data/")). vm_compute. exact I.
Qed.
(** The secret is found under its logical path, and in version 2 also under the path of
    the API. *)
Lemma OpenBao_Resolve_holds provider mount sub field m version path :
  vaultURL r <> "" -> goodProvider provider -> secretPath mount sub ->
  forallb plain (bytes field) = true -> field <> "" -> kvHolds mount sub m version ->
  path = logicalPath mount sub \/ (version = 2 /\ path = apiPath mount sub) ->
  OpenBao_Resolve send r (secretRef provider path field)
  = match m !! field with
    | Some v => inl (sprintJSON v)
    | None => inr (Errorf ("field " +:+ Quote field +:+ " not found in secret payload") [])
    end.
Proof.
  intros Hu Hprov Hsp Hf Hne Hkv Hpath.
  assert (path = logicalPath mount sub \/ path = apiPath mount sub) as Hor by tauto.
  pose proof (parse_vault_ref provider mount sub field path Hprov Hsp Hf Hor) as Hparse.
  unfold OpenBao_Resolve. destruct (String.eqb_spec (vaultURL r) ""); [done|]. rewrite Hparse.
  cbn [RefPath RefField].
  assert (extractValue r (Some m) field = match m !! field with
    | Some v => inl (sprintJSON v)
    | None => inr (Errorf ("field " +:+ Quote field +:+ " not found in secret payload") []) end) as Hx.
  { unfold extractValue. destruct (String.eqb_spec field ""); [done|]. cbn. by destruct (m !! field). }
  rewrite <- Hx. destruct Hkv as [d x Ha Hd Hx'|d Hr Ha Hd Hno].
  - assert (fetchSecret send r (apiPath mount sub) = inl (Some m)) as Hfetch.
    { rewrite (fetch_answers _ d) by done. by rewrite Hd, Hx'. }
    destruct Hpath as [->|[_ ->]]; [rewrite NormalizeVaultPath_logical|rewrite NormalizeVaultPath_api];
      try done; by rewrite Hfetch.
  - destruct Hpath as [->|[[=] _]]. rewrite NormalizeVaultPath_logical by done.
    destruct (fetch_refuses _ Hr) as (e & ->). rewrite (fetch_answers _ d), Hd by done.
    destruct (m !! "data") as [[| | | | |i]|] eqn:E; try done. by destruct (Hno i).
Qed.

(** ** Properties *)

(** C19. A reference to a field of a vault secret gives that field: through the resolver
    that routes by provider, for a provider name in any case or for none when the default
    is a vault, for a store of either version, under the logical path, and for version 2
    also under the path of the API, the result is the text of the field's value, and an
    error when the secret has no such field. *)
Theorem vault_secret_resolved (c : CompositeSecretResolver) (provider : option string)
    (mount sub field path : string) (m : gmap string json) (version : Z) :
  vaultURL r <> "" -> openbao c = Some (OpenBao_Resolve send r) ->
  goodProvider provider ->
  match provider with Some p => ToLower p | None => defaultProvider c end ∈ openbaoNames ->
  secretPath mount sub -> forallb plain (bytes field) = true -> field <> "" ->
  kvHolds mount sub m version ->
  path = logicalPath mount sub \/ (version = 2 /\ path = apiPath mount sub) ->
  Composite_Resolve c (secretRef provider path field)
  = match m !! field with
    | Some v => inl (sprintJSON v)
    | None => inr (Errorf ("field " +:+ Quote field +:+ " not found in secret payload") [])
    end.
Proof.
  intros Hu Hc Hprov Hname Hsp Hf Hne Hkv Hpath.
  assert (path = logicalPath mount sub \/ path = apiPath mount sub) as Hor by tauto.
  rewrite <- (OpenBao_Resolve_holds provider mount sub field m version path) by done.
  assert (forall n, n ∈ openbaoNames -> dispatch c n (secretRef provider path field)
            = OpenBao_Resolve send r (secretRef provider path field)) as Hdis.
  { intros n Hn. unfold dispatch. rewrite (bool_decide_true _ Hn), Hc.
    destruct (String.eqb_spec n "") as [->|]; [|done].
    revert Hn. unfold openbaoNames. rewrite !elem_of_cons, elem_of_nil. naive_solver. }
  unfold Composite_Resolve. rewrite (parse_vault_ref provider mount sub field path) by done.
  cbn [RefProvider]. destruct provider as [p|].
  - destruct (String.eqb_spec (ToLower p) "") as [E|]; [|by apply Hdis].
    rewrite E in Hname. revert Hname. unfold openbaoNames. rewrite !elem_of_cons, elem_of_nil. naive_solver.
  - change "/" with (str [slash]). rewrite Contains_byte. unfold hasByte.
    rewrite bool_decide_true; [by apply Hdis|]. unfold secretRef. cbn [refPrefix]. rewrite !bytes_app.
    rewrite elem_of_app. right. apply elem_of_app. left.
    destruct Hor as [->| ->]; rewrite ?apiPath_logical, logicalPath_bytes; apply elem_of_app; right;
      apply list_elem_of_here.
Qed.
End Vault.

(** ** Witness and findings *)
Section Samples.
#[local] Instance secretLower : UnicodeLower := fun s => s.
#[local] Instance secretQuote : GoQuote := fun s => s.
#[local] Instance secretURL : GoURL string := {| urlParse := fun s => inl (s, ""); urlString := fun u _ => u |}.
#[local] Instance secretFormat : GoFormatV := fun _ => "1".
#[local] Instance secretMarshal : GoMarshal (option (gmap string json)) := fun _ => inl [].
Definition sampleSecret : gmap string json := {["password" := JStr "s3cret"]}.
#[local] Instance secretJSON : GoUnmarshal := fun l =>
  if str l =s "kv2" then inl (JObj {["data" := JObj {["data" := JObj sampleSecret]}]}) else inr (Errorf "syntax" []).
Definition sampleVault : OpenBaoSecretResolver := mkOpenBao "http://vault:8200" "root" ∅.
Definition sampleSend (q : Request string) : Response + error :=
  if rq_url q =s "http://vault:8200/v1/secret/data/db/main" then inl (mkResponse 200 "200 OK" ∅ (bytes "kv2", None))
  else inl (mkResponse 404 "404 Not Found" ∅ ([], None)).
Definition sampleComposite : CompositeSecretResolver :=
  NewCompositeSecretResolver (Some (OpenBao_Resolve sampleSend sampleVault)) None " Vault ".

Lemma samplePath : secretPath "secret" "db/main".
Proof.
  split.
  - split; reflexivity.
  - split; [done|]. split; [|split]; apply (bool_decide_unpack _); vm_compute; exact I.
  - split; [apply (bool_decide_unpack _); vm_compute; exact I|]. repeat split; discriminate.
  - split; [reflexivity|discriminate].
Qed.
Lemma vault_secret_resolved_witness :
  Composite_Resolve sampleComposite "BAO:secret/db/main#password" = inl "s3cret"
  /\ Composite_Resolve sampleComposite "secret/data/db/main#password" = inl "s3cret".
Proof.
  assert (kvHolds sampleSend sampleVault "secret" "db/main" sampleSecret 2) as Hkv.
  { apply (kv2 _ _ _ _ _ {["data" := JObj {["data" := JObj sampleSecret]}]} {["data" := JObj sampleSecret]});
      [|reflexivity|reflexivity]. eexists _, _, _.
    split; [reflexivity|]. split; [reflexivity|]. split; [reflexivity|]. split; reflexivity. }
  split.
  - apply (vault_secret_resolved sampleSend sampleVault sampleComposite (Some "BAO") "secret" "db/main" "password"
      (logicalPath "secret" "db/main") sampleSecret 2); try done.
    + split; [reflexivity|]. split; apply (bool_decide_unpack _); vm_compute; exact I.
    + apply (bool_decide_unpack _). vm_compute. exact I.
    + exact samplePath.
    + by left.
  - apply (vault_secret_resolved sampleSend sampleVault sampleComposite None "secret" "db/main" "password"
      (apiPath "secret" "db/main") sampleSecret 2); try done.
    + apply (bool_decide_unpack _). vm_compute. exact I.
    + exact samplePath.
    + by right.
Defined.

(** A literal with a colon is taken for a reference to an unknown provider. *)
Lemma literal_with_colon_refused : exists e, Composite_Resolve sampleComposite "pa:ss" = inr e.
Proof. eexists. vm_compute. reflexivity. Qed.

(** Providers the router knows, but whose references are not resolved as connection URIs. *)
Lemma uri_provider_ignored resolve :
  ResolveConnectionURI "bao:secret/db#uri" "" (Some resolve) = inl "bao:secret/db#uri"
  /\ ResolveConnectionURI "gcp_sm:db-uri" "" (Some resolve) = inl "gcp_sm:db-uri".
Proof. split; vm_compute; reflexivity. Qed.

(** The password is put in the URI as it is: its reserved characters end the user part. *)
Lemma password_not_escaped :
  ResolveConnectionURI "postgres://u:{{password}}@db/x" "ref" (Some (fun _ => inl "p@ss/w"))
  = inl "postgres://u:p@ss/w@db/x".
Proof. vm_compute. reflexivity. Qed.

(** The overrides are applied one after the other, in an order that changes from run to
    run, and a target also matches the longer names it begins. *)
Lemma overrides_depend_on_order d : ConnectionURI d = "postgres://u@db/x" ->
  ConnectionURI (ApplyDatabaseHostOverrides d [("db", "proxy"); ("proxy", "localhost")]) = "postgres://u@localhost/x"
  /\ ConnectionURI (ApplyDatabaseHostOverrides d [("proxy", "localhost"); ("db", "proxy")]) = "postgres://u@proxy/x".
Proof. intros E. unfold ApplyDatabaseHostOverrides. rewrite E. split; vm_compute; reflexivity. Qed.
Lemma override_matches_prefix :
  fst (overrideHost ("postgres://u@db2.corp/x", "") ("db", "localhost")) = "postgres://u@localhost2.corp/x".
Proof. vm_compute. reflexivity. Qed.
End Samples.
