(* ===== verification/SqlPool.v ===== *)
(** * Readers of databases and the pools they share

    Models [internal/adapters/partitions/sql/connection_pool.go] and [init.go], the
    connection of [internal/adapters/partitions/mongo], [ports.BuildSource] and the
    life of [PartitionQuerySourceSDF]'s reader: a process caches one pool of connections
    per driver and URI, and each worker's element function opens and closes a reader on
    it. A mutex guards the cache, so operations take effect one at a time: a run is a
    sequence of them.

    [database/sql] and the MongoDB driver are given: opening, pinging, and what a pool
    runs queries against. The cache is ranged over in an order the run chooses. *)
From S2P Require Import Prelude GoStr Float64 Schema RecordModel Watermark Config Resilience SqlSource Secrets Connectors.

(** ** [sql.DB], as the program configures it *)
Record DB := mkSqlPool {
  dbDriver : string; dbURI : string; maxOpen : Z; maxIdleCount : Z; maxLifetime : Z; dbClosed : bool }.
Definition maxIdleConns (d : DB) : Z :=
  if maxIdleCount d =? 0 then 2 else if maxIdleCount d <? 0 then 0 else maxIdleCount d.
Definition withIdle (n : Z) (d : DB) : DB := mkSqlPool (dbDriver d) (dbURI d) (maxOpen d) n (maxLifetime d) (dbClosed d).
Definition SetMaxIdleConns (n : Z) (d : DB) : DB :=
  let d := withIdle (if 0 <? n then n else -1) d in
  if (0 <? maxOpen d) && (maxOpen d <? maxIdleConns d) then withIdle (maxOpen d) d else d.
Definition SetMaxOpenConns (n : Z) (d : DB) : DB :=
  let n := if n <? 0 then 0 else n in
  let d := mkSqlPool (dbDriver d) (dbURI d) n (maxIdleCount d) (maxLifetime d) (dbClosed d) in
  if (0 <? n) && (n <? maxIdleConns d) then SetMaxIdleConns n d else d.
Definition SetConnMaxLifetime (n : Z) (d : DB) : DB :=
  mkSqlPool (dbDriver d) (dbURI d) (maxOpen d) (maxIdleCount d) (if n <? 0 then 0 else n) (dbClosed d).
Definition closed (d : DB) : DB := mkSqlPool (dbDriver d) (dbURI d) (maxOpen d) (maxIdleCount d) (maxLifetime d) true.

Definition Second : Z := 1000000000.
Definition configureConnectionPool (d : DB) (poolCfg : PoolConfig) : DB :=
  let poolCfg := Pool_ApplyDefaults poolCfg in
  SetConnMaxLifetime (i64 (i64 (ConnMaxLifetime poolCfg) * Second))
    (SetMaxIdleConns (MaxIdleConns poolCfg) (SetMaxOpenConns (MaxOpenConns poolCfg) d)).

Definition driverMap : gmap string string := list_to_map [("postgres", "pgx"); ("pgx", "pgx"); ("mysql", "mysql")].
Definition driverNameOf `{UnicodeLower} (driver : string) : string :=
  let driverKey := ToLower (TrimSpace driver) in default driverKey (driverMap !! driverKey).

(** The process: the pools opened so far, by number, the cache, and the clients. *)
Record MongoClient := mkMongoClient { mc_uri : string; mc_maxPoolSize : option Z; mc_connected : bool }.
Record Process := mkProcess { pools : list DB; poolCache : gmap string nat; clients : list MongoClient }.
Definition startProcess : Process := mkProcess [] ∅ [].
Definition closePool (i : nat) (w : Process) : Process := mkProcess (alter closed i (pools w)) (poolCache w) (clients w).

Section Readers.
Context {K R : Type} `{UnicodeLower, GoQuote, GoDuration}.
(** [sql.Open], [DB.Close], [mongo.Connect] and [Ping], and what a pool is connected to. *)
Context (sqlOpen : string -> string -> option error) (dbClose : DB -> option error) (connectedTo : DB -> SqlDB K R)
  (mongoConnect : string -> option error) (ping : string -> option error)
  (ranging : gmap string nat -> list (string * nat)).

Definition GetOrCreateDB (cfg : DatabaseSourceConfig) (resolver : option SecretResolver) (w : Process)
    : (nat + error) * Process :=
  let driverName := driverNameOf (Driver cfg) in
  match ResolveConnectionURI (ConnectionURI cfg) (PasswordRef cfg) resolver with
  | inr e => (inr (Errorf ("database connection uri resolution failed: " +:+ Error e) [e]), w)
  | inl uri =>
      let cacheKey := driverName +:+ ":" +:+ uri in
      match poolCache w !! cacheKey with
      | Some db => (inl db, w)
      | None =>
          match sqlOpen driverName uri with
          | Some e => (inr (Errorf ("failed opening sql connection pool: " +:+ Error e) [e]), w)
          | None =>
              let d := configureConnectionPool (mkSqlPool driverName uri 0 0 0 false) (DbPool cfg) in
              let id := length (pools w) in
              (inl id, mkProcess (pools w ++ [d]) (<[cacheKey := id]> (poolCache w)) (clients w))
          end
      end
  end.
Definition OpenDB := GetOrCreateDB.
(** A closed pool closes again without an error. *)
Definition Close (db : nat) (w : Process) : option error * Process :=
  (d ← pools w !! db; if dbClosed d then None else dbClose d, closePool db w).
Definition CloseDB (db : option nat) (w : Process) : option error * Process :=
  match db with
  | None => (None, w)
  | Some db =>
      let cache := match list_find (fun kv => kv.2 = db) (ranging (poolCache w)) with
                   | Some (_, kv) => delete kv.1 (poolCache w)
                   | None => poolCache w
                   end in
      Close db (mkProcess (pools w) cache (clients w))
  end.
Definition CloseCachedPoolsForTesting (w : Process) : Process :=
  fold_left (fun w kv => let w := (Close kv.2 w).2 in mkProcess (pools w) (delete kv.1 (poolCache w)) (clients w))
    (ranging (poolCache w)) w.

(** ** Readers, with the number of the pool or client they hold *)
Inductive PartitionedReader :=
  | SQLReader (pool : nat) (source : GenericSQLSource K R)
  | MongoReader (client : nat) (dbName : string).
Definition missingDatabase : error := Errorf "database_source configuration is missing" [].
Definition sqlReaderFactory (t : Z) (cfg : PipelineConfig) (sec : option SecretResolver) (w : Process)
    : (PartitionedReader + error) * Process :=
  match DatabaseSource cfg with
  | None => (inr missingDatabase, w)
  | Some cfg =>
      match GetOrCreateDB cfg sec w with
      | (inr e, w) => (inr (Errorf ("failed opening database pool: " +:+ Error e) [e]), w)
      | (inl db, w) =>
          match NewSQLReader t (Driver cfg) (connectedTo <$> (pools w !! db)) with
          | Ok reader => (inl (SQLReader db reader), w)
          | Err e => (inr (Errorf ("failed creating sql reader: " +:+ Error e) [e]), (Close db w).2)
          | Panic m => (inr (Errorf m []), w)
          end
      end
  end.
Definition OpenClient (cfg : DatabaseSourceConfig) (resolver : option SecretResolver) (w : Process)
    : (nat + error) * Process :=
  match ResolveConnectionURI (ConnectionURI cfg) (PasswordRef cfg) resolver with
  | inr e => (inr (Errorf ("failed resolving mongodb connection uri: " +:+ Error e) [e]), w)
  | inl uri =>
      let size := if 0 <? MaxOpenConns (DbPool cfg) then Some (u64 (MaxOpenConns (DbPool cfg))) else None in
      match mongoConnect uri with
      | Some e => (inr (Errorf ("failed connecting to mongodb: " +:+ Error e) [e]), w)
      | None =>
          let id := length (clients w) in
          let w := mkProcess (pools w) (poolCache w) (clients w ++ [mkMongoClient uri size true]) in
          match ping uri with
          | Some e => (inr (Errorf ("failed pinging mongodb: " +:+ Error e) [e]), w)
          | None => (inl id, w)
          end
      end
  end.
Definition mongoReaderFactory (cfg : PipelineConfig) (sec : option SecretResolver) (w : Process)
    : (PartitionedReader + error) * Process :=
  match DatabaseSource cfg with
  | None => (inr missingDatabase, w)
  | Some d =>
      if bool_decide (is_Some (DbWatermark d)) then (inr (Errorf "watermark is not supported for mongodb source" []), w)
      else match OpenClient d sec w with
      | (inr e, w) => (inr (Errorf ("failed connecting to mongodb: " +:+ Error e) [e]), w)
      | (inl client, w) => (inl (MongoReader client (Database d)), w)
      end
  end.
(** [ports.BuildSource] *)
Definition BuildSource (t : Z) (driver : string) (cfg : PipelineConfig) (sec : option SecretResolver) (w : Process)
    : (PartitionedReader + error) * Process :=
  match lookupPort "source driver " driver sourceRegistry with
  | inr e => (inr e, w)
  | inl Connectors.sqlReaderFactory => sqlReaderFactory t cfg sec w
  | inl Connectors.mongoReaderFactory => mongoReaderFactory cfg sec w
  end.
Definition disconnect (c : MongoClient) : MongoClient := mkMongoClient (mc_uri c) (mc_maxPoolSize c) false.
(** [GenericSQLSource.Close] and [MongoSource.Close]. *)
Definition CloseReader (r : PartitionedReader) (w : Process) : Process :=
  match r with
  | SQLReader db source => match SqlSource.db source with Some _ => (CloseDB (Some db) w).2 | None => w end
  | MongoReader c _ => mkProcess (pools w) (poolCache w) (alter disconnect c (clients w))
  end.

(** [Setup] and [Teardown] of [PartitionQuerySourceSDF], with the process-wide provider. *)
Definition PQ_Setup (reader : option PartitionedReader)
    (provider : option (Process -> (PartitionedReader + error) * Process)) (cfg : DatabaseSourceConfig) (w : Process)
    : option error * option PartitionedReader * Process :=
  match reader, provider with
  | Some r, _ => (None, Some r, w)
  | None, None =>
      (Some (Errorf "PartitionQuerySourceSDF: globalPartitionedReaderProvider not registered — call beam.RegisterInit in an init() before beam.Init()" []), None, w)
  | None, Some provide =>
      match provide w with
      | (inr e, w) =>
          (Some (Errorf ("PartitionQuerySourceSDF.Setup: failed initializing reader for driver " +:+ Quote (Driver cfg)
                         +:+ ": " +:+ Error e) [e]), None, w)
      | (inl r, w) => (None, Some r, w)
      end
  end.
Definition PQ_Teardown (reader : option PartitionedReader) (w : Process) : Process :=
  match reader with Some r => CloseReader r w | None => w end.

(** What a process does: it builds the reader of a database source, and closes readers. *)
Inductive poolStep : Process -> Process -> Prop :=
  | step_build t cfg d sec w : DatabaseSource cfg = Some d -> poolStep w (BuildSource t (Driver d) cfg sec w).2
  | step_close r w : poolStep w (CloseReader r w)
  | step_reset w : poolStep w (CloseCachedPoolsForTesting w).

(** ** Lemmas *)
Definition keyOf (driverName uri : string) : string := driverName +:+ ":" +:+ uri.
Definition sqlNames : list string := ["pgx"; "mysql"; "cockroach"; "mariadb"].
Definition sqlSource (driver : string) : Prop := sourceRegistry !! driver = Some Connectors.sqlReaderFactory.
(** A pool the cache gives out: open, under its own key. *)
Definition poolOk (w : Process) (k : string) (i : nat) (p : DB) : Prop :=
  pools w !! i = Some p /\ dbClosed p = false /\ k = keyOf (dbDriver p) (dbURI p) /\ dbDriver p ∈ sqlNames.
Definition cacheOk (w : Process) : Prop := forall k i, poolCache w !! k = Some i -> exists p, poolOk w k i p.

Lemma keyOf_inj n u n' u' : n ∈ sqlNames -> n' ∈ sqlNames -> keyOf n u = keyOf n' u' -> n = n' /\ u = u'.
Proof.
  unfold sqlNames. rewrite !list_elem_of_In. cbn [In].
  intros [<-|[<-|[<-|[<-|[]]]]] [<-|[<-|[<-|[<-|[]]]]]; cbn; intros E; by simplify_eq.
Qed.
Lemma sqlSource_names driver : sqlSource driver ->
  driver ∈ ["postgres"; "pgx"; "cockroach"; "mysql"; "mariadb"].
Proof.
  unfold sqlSource. assert (sourceRegistry = list_to_map sourceTable) as ->.
  { unfold sourceRegistry. vm_compute (registerAll _ _ _). by vm_compute (list_to_map _). }
  unfold sourceTable. cbn [list_to_map foldr uncurry fst snd].
  rewrite !lookup_insert_Some, lookup_empty. set_solver by congruence.
Qed.
Lemma sqlSource_supported driver : sqlSource driver ->
  driverNameOf driver ∈ sqlNames
  /\ forall t (db : option (SqlDB K R)), NewSQLReader t driver db = Ok (NewGenericSQLSource t db (isDollarStyle driver)).
Proof.
  intros Hs%sqlSource_names. unfold sqlNames. rewrite !list_elem_of_In in *. cbn [In] in Hs |- *.
  destruct Hs as [<-|[<-|[<-|[<-|[<-|[]]]]]]; (split; [vm_compute; tauto|done]).
Qed.

Lemma poolOk_alter w j k i p : poolOk w k i p -> i <> j -> poolOk (closePool j w) k i p.
Proof. intros (Hp & ?) Hn. unfold poolOk, closePool. cbn. by rewrite list_lookup_alter_ne. Qed.
Lemma poolOk_inj w k k' i p p' : poolOk w k i p -> poolOk w k' i p' -> k = k'.
Proof. intros (Hp & _ & -> & _) (Hp' & _ & -> & _). by simplify_eq. Qed.

(** Opening: the pool of the key, the one cached or a new one. *)
Definition opens (w : Process) (d : DatabaseSourceConfig) (uri : string) (i : nat) (w' : Process) : Prop :=
  let key := keyOf (driverNameOf (Driver d)) uri in
  (poolCache w !! key = Some i /\ w' = w)
  \/ (poolCache w !! key = None /\ i = length (pools w)
      /\ w' = mkProcess
           (pools w ++ [configureConnectionPool (mkSqlPool (driverNameOf (Driver d)) uri 0 0 0 false) (DbPool d)])
           (<[key := i]> (poolCache w)) (clients w)).
Lemma GetOrCreateDB_opens d sec w uri : ResolveConnectionURI (ConnectionURI d) (PasswordRef d) sec = inl uri ->
  (exists i w', GetOrCreateDB d sec w = (inl i, w') /\ opens w d uri i w')
  \/ (exists e, GetOrCreateDB d sec w = (inr e, w) /\ sqlOpen (driverNameOf (Driver d)) uri <> None).
Proof.
  intros Hr. unfold GetOrCreateDB, opens. rewrite Hr. fold (keyOf (driverNameOf (Driver d)) uri).
  destruct (poolCache w !! keyOf (driverNameOf (Driver d)) uri) as [i|]; [left; eauto 6|].
  destruct (sqlOpen (driverNameOf (Driver d)) uri) as [e|]; [right; eauto|left]. eauto 8.
Qed.
Definition identity (d : DB) : string * string * bool := (dbDriver d, dbURI d, dbClosed d).
Lemma SetMaxIdleConns_identity n d : identity (SetMaxIdleConns n d) = identity d.
Proof. unfold SetMaxIdleConns. by destruct (_ && _). Qed.
Lemma SetMaxOpenConns_identity n d : identity (SetMaxOpenConns n d) = identity d.
Proof. unfold SetMaxOpenConns. destruct (_ && _); [by rewrite SetMaxIdleConns_identity|done]. Qed.
Lemma configured_pool n u cfg : exists p, configureConnectionPool (mkSqlPool n u 0 0 0 false) cfg = p
  /\ dbDriver p = n /\ dbURI p = u /\ dbClosed p = false.
Proof.
  eexists. split; [done|]. unfold configureConnectionPool.
  pose proof (SetMaxIdleConns_identity (MaxIdleConns (Pool_ApplyDefaults cfg))
                (SetMaxOpenConns (MaxOpenConns (Pool_ApplyDefaults cfg)) (mkSqlPool n u 0 0 0 false))) as E.
  rewrite SetMaxOpenConns_identity in E. unfold identity in E. by injection E.
Qed.
Lemma opens_ok w d uri i w' : cacheOk w -> driverNameOf (Driver d) ∈ sqlNames -> opens w d uri i w' ->
  cacheOk w' /\ poolCache w' !! keyOf (driverNameOf (Driver d)) uri = Some i
  /\ exists p, poolOk w' (keyOf (driverNameOf (Driver d)) uri) i p
       /\ dbDriver p = driverNameOf (Driver d) /\ dbURI p = uri.
Proof.
  intros Hc Hn [[Hk ->]|(Hk & -> & ->)].
  - split; [done|]. split; [done|]. destruct (Hc _ _ Hk) as (p & Hp). exists p. split; [done|].
    destruct Hp as (_ & _ & E & Hd). by apply keyOf_inj in E as [-> ->].
  - destruct (configured_pool (driverNameOf (Driver d)) uri (DbPool d)) as (p & -> & Hdr & Hu & Ho).
    assert (poolOk (mkProcess (pools w ++ [p]) (<[keyOf (driverNameOf (Driver d)) uri := length (pools w)]> (poolCache w))
              (clients w)) (keyOf (driverNameOf (Driver d)) uri) (length (pools w)) p) as Hnew.
    { unfold poolOk. cbn. rewrite list_lookup_middle by done. by rewrite Hdr, Hu. }
    split; [|split; [apply lookup_insert_eq|by exists p]].
    intros k j. cbn. rewrite lookup_insert_Some. intros [[<- <-]|[_ Hj]]; [by exists p|].
    destruct (Hc _ _ Hj) as (q & Hq & ?). exists q. unfold poolOk. cbn. by rewrite lookup_app_l_Some with (x := q).
Qed.

Context (Hranging : forall m, ranging m ≡ₚ map_to_list m).
(** Closing: the pool is closed, and no key of the cache leads to it. *)
Lemma CloseDB_spec w i : cacheOk w ->
  pools (CloseDB (Some i) w).2 = alter closed i (pools w)
  /\ clients (CloseDB (Some i) w).2 = clients w
  /\ (forall k, poolCache (CloseDB (Some i) w).2 !! k
       = (j ← poolCache w !! k; if decide (j = i) then None else Some j)).
Proof.
  intros Hc. unfold CloseDB, Close, closePool. cbn. split; [done|]. split; [done|]. intros k.
  destruct (list_find (fun kv => kv.2 = i) (ranging (poolCache w))) as [[n [k' j]]|] eqn:E.
  - apply list_find_Some in E as (Hn & <- & _). cbn [fst snd].
    apply list_elem_of_lookup_2 in Hn. rewrite Hranging, elem_of_map_to_list in Hn.
    destruct (decide (k = k')) as [->|Hk].
    + rewrite lookup_delete_eq, Hn. cbn. by rewrite decide_True.
    + rewrite lookup_delete_ne by done. destruct (poolCache w !! k) as [j'|] eqn:Ej; [|done]. cbn.
      destruct (decide (j' = j)) as [->|]; [|done]. destruct (Hc _ _ Ej) as [p Hp], (Hc _ _ Hn) as [p' Hp'].
      destruct Hk. by eapply poolOk_inj.
  - apply list_find_None in E. destruct (poolCache w !! k) as [j|] eqn:Ej; [|done]. cbn.
    destruct (decide (j = i)) as [->|]; [|done]. exfalso. rewrite Forall_forall in E.
    apply (E (k, i)); [|done]. by rewrite Hranging, elem_of_map_to_list.
Qed.

(** Every operation keeps the cache right. *)
Lemma cacheOk_less w w' i : cacheOk w -> pools w' = alter closed i (pools w) ->
  (forall k j, poolCache w' !! k = Some j -> poolCache w !! k = Some j /\ j <> i) -> cacheOk w'.
Proof.
  intros Hc Hp Hk k j Hj. destruct (Hk _ _ Hj) as [Hj' Hne]. destruct (Hc _ _ Hj') as [p Hok].
  exists p. apply (poolOk_alter _ i) in Hok; [|done]. destruct Hok as (? & ?). unfold poolOk. by rewrite Hp.
Qed.
Lemma CloseDB_ok w i : cacheOk w -> cacheOk (CloseDB (Some i) w).2.
Proof.
  intros Hc. destruct (CloseDB_spec w i Hc) as (Hp & _ & Hk). eapply cacheOk_less; [done..|].
  intros k j. rewrite Hk, bind_Some. intros (j' & ? & E). case_decide; by simplify_eq.
Qed.
Lemma closeAll_ok l : forall w, cacheOk w -> NoDup (map fst l) ->
  (forall kv, kv ∈ l -> poolCache w !! kv.1 = Some kv.2) ->
  cacheOk (fold_left (fun w kv => let w := (Close kv.2 w).2 in
                                  mkProcess (pools w) (delete kv.1 (poolCache w)) (clients w)) l w).
Proof.
  induction l as [|[k i] l IH]; intros w Hc Hnd Hl; [done|]. cbn [fold_left fst snd map] in *.
  apply NoDup_cons in Hnd as [Hk Hnd]. pose proof (Hl (k, i) (list_elem_of_here _ _)) as Hki. cbn in Hki. apply IH; [|done|].
  - eapply cacheOk_less; [exact Hc|done|]. cbn. intros k' j [Hne Hj]%lookup_delete_Some. split; [done|]. intros ->.
    destruct (Hc _ _ Hki) as [p Hp], (Hc _ _ Hj) as [p' Hp']. apply Hne. by eapply poolOk_inj.
  - intros [k' j] Hin. cbn. rewrite lookup_delete_ne; [apply (Hl (k', j)); by right|].
    intros ->. apply Hk. apply (list_elem_of_fmap_2 fst _ _ Hin).
Qed.
Lemma BuildSource_ok t d cfg sec w : DatabaseSource cfg = Some d -> cacheOk w ->
  cacheOk (BuildSource t (Driver d) cfg sec w).2.
Proof.
  intros Hd Hc. unfold BuildSource, lookupPort. destruct (sourceRegistry !! Driver d) as [[]|] eqn:E; [| |done].
  - destruct (sqlSource_supported _ E) as [Hn Hr]. unfold sqlReaderFactory. rewrite Hd.
    destruct (ResolveConnectionURI (ConnectionURI d) (PasswordRef d) sec) as [uri|e] eqn:Eu.
    2:{ unfold GetOrCreateDB. by rewrite Eu. }
    destruct (GetOrCreateDB_opens d sec w uri Eu) as [(i & w' & -> & Ho)|(e & -> & _)]; [|done].
    rewrite Hr. by eapply opens_ok.
  - unfold mongoReaderFactory. rewrite Hd. case_bool_decide; [done|]. unfold OpenClient.
    destruct (ResolveConnectionURI (ConnectionURI d) (PasswordRef d) sec) as [uri|]; [|done].
    by destruct (mongoConnect uri), (ping uri).
Qed.
Lemma CloseReader_ok r w : cacheOk w -> cacheOk (CloseReader r w).
Proof. intros Hc. destruct r as [i src|c n]; cbn; [|done]. destruct (SqlSource.db src); [by apply CloseDB_ok|done]. Qed.
Lemma poolSteps_ok w w' : rtc poolStep w w' -> cacheOk w -> cacheOk w'.
Proof.
  induction 1 as [|w w' w'' Hs _ IH]; [done|]. intros Hc. apply IH. destruct Hs as [t cfg d sec w Hd|r w|w].
  - by apply BuildSource_ok.
  - by apply CloseReader_ok.
  - apply closeAll_ok; [done| |].
    + rewrite Hranging. apply NoDup_fst_map_to_list.
    + intros [k i]. rewrite Hranging. by rewrite elem_of_map_to_list.
Qed.
Lemma reachable_ok w : rtc poolStep startProcess w -> cacheOk w.
Proof. intros Hs. by eapply poolSteps_ok. Qed.

(** What [BuildSource] gives for a relational source whose database can be opened. *)
Lemma BuildSource_sql t cfg d sec w uri : DatabaseSource cfg = Some d -> sqlSource (Driver d) -> cacheOk w ->
  ResolveConnectionURI (ConnectionURI d) (PasswordRef d) sec = inl uri ->
  (exists i p w', opens w d uri i w' /\ poolOk w' (keyOf (driverNameOf (Driver d)) uri) i p
     /\ dbDriver p = driverNameOf (Driver d) /\ dbURI p = uri
     /\ poolCache w' !! keyOf (driverNameOf (Driver d)) uri = Some i
     /\ BuildSource t (Driver d) cfg sec w
        = (inl (SQLReader i (NewGenericSQLSource t (Some (connectedTo p)) (isDollarStyle (Driver d)))), w'))
  \/ (exists e, BuildSource t (Driver d) cfg sec w = (inr e, w) /\ sqlOpen (driverNameOf (Driver d)) uri <> None).
Proof.
  intros Hd Hs Hc Hu. destruct (sqlSource_supported _ Hs) as [Hn Hr]. unfold BuildSource, lookupPort.
  rewrite Hs. unfold sqlReaderFactory. rewrite Hd.
  destruct (GetOrCreateDB_opens d sec w uri Hu) as [(i & w' & -> & Ho)|(e & -> & He)]; [left|right; eauto].
  destruct (opens_ok _ _ _ _ _ Hc Hn Ho) as (Hc' & Hk & p & Hp & ? & ?). exists i, p, w'.
  repeat (split; [done|]). rewrite Hr. destruct Hp as (-> & _). done.
Qed.

(** C9. A worker's reader holds an open pool, connected to the database its configuration
    names. In any state the process reaches by building and closing readers, building
    the reader of a relational source fails only when the database cannot be opened;
    otherwise it holds a pool that is open, for the driver and the resolved URI of the
    configuration, the one in the cache or else a new one, and no other pool is touched.
    Until that pool is closed, every source with the same driver and URI gets the same
    pool, so a process has one per database; closing the reader closes it, removes it
    from the cache and leaves the others, and the next reader of the database holds
    another pool, which is open. *)
Theorem pools_shared_and_open (w : Process) (t : Z) (cfg : PipelineConfig) (d : DatabaseSourceConfig)
    (sec : option SecretResolver) (uri : string) :
  rtc poolStep startProcess w -> DatabaseSource cfg = Some d -> sqlSource (Driver d) ->
  ResolveConnectionURI (ConnectionURI d) (PasswordRef d) sec = inl uri ->
  sqlOpen (driverNameOf (Driver d)) uri = None ->
  exists i p w', opens w d uri i w'
  /\ (pools w' !! i = Some p /\ dbClosed p = false /\ dbDriver p = driverNameOf (Driver d) /\ dbURI p = uri)
  /\ (forall j, (j < length (pools w))%nat -> pools w' !! j = pools w !! j)
  /\ let reader t := SQLReader i (NewGenericSQLSource t (Some (connectedTo p)) (isDollarStyle (Driver d))) in
     BuildSource t (Driver d) cfg sec w = (inl (reader t), w')
     /\ (forall t' cfg' d' sec', DatabaseSource cfg' = Some d' -> sqlSource (Driver d') ->
           driverNameOf (Driver d') = driverNameOf (Driver d) ->
           ResolveConnectionURI (ConnectionURI d') (PasswordRef d') sec' = inl uri ->
           exists src, BuildSource t' (Driver d') cfg' sec' w' = (inl (SQLReader i src), w'))
     /\ let w'' := CloseReader (reader t) w' in
        (forall j, pools w'' !! j = if decide (j = i) then Some (closed p) else pools w' !! j)
        /\ exists i2 p2 w2, i2 <> i /\ pools w2 !! i2 = Some p2 /\ dbClosed p2 = false
           /\ BuildSource t (Driver d) cfg sec w''
              = (inl (SQLReader i2 (NewGenericSQLSource t (Some (connectedTo p2)) (isDollarStyle (Driver d)))), w2).
Proof.
  intros Hw%reachable_ok Hd Hs Hu Ho.
  destruct (BuildSource_sql t cfg d sec w uri Hd Hs Hw Hu) as [(i & p & w' & Hop & Hp & Hdr & Hur & Hk & Hb)|(? & _ & ?)];
    [|done].
  destruct (opens_ok _ _ _ _ _ Hw (proj1 (sqlSource_supported _ Hs)) Hop) as [Hc' _].
  destruct (CloseDB_spec w' i Hc') as (Hp'' & _ & Hk''). pose proof Hp as (Hpi & Hopen & _).
  exists i, p, w'. split; [done|]. split; [done|]. split; [|cbn zeta; split; [done|split]].
  - intros j Hj. destruct Hop as [[_ ->]|(_ & _ & ->)]; [done|]. cbn. by rewrite lookup_app_l.
  - intros t' cfg' d' sec' Hd' Hs' Hdn Hu'.
    destruct (BuildSource_sql t' cfg' d' sec' w' uri Hd' Hs' Hc' Hu') as [(i' & p' & w2 & Hop' & _ & _ & _ & _ & ->)|(? & _ & E)];
      rewrite ?Hdn in *; [|done].
    destruct Hop' as [[Hi ->]|(Hn & _)]; rewrite ?Hdn in *; [|by rewrite Hk in Hn]. rewrite Hk in Hi. injection Hi as <-.
    eauto.
  - unfold CloseReader, NewGenericSQLSource. cbn [SqlSource.db]. split.
    + intros j. rewrite Hp''. case_decide as Hj; [subst j; by rewrite list_lookup_alter_eq, Hpi|by rewrite list_lookup_alter_ne].
    + destruct (BuildSource_sql t cfg d sec (CloseDB (Some i) w').2 uri Hd Hs (CloseDB_ok _ _ Hc') Hu)
        as [(i2 & p2 & w2 & Hop2 & (Hp2 & Ho2 & _) & _ & _ & _ & Hb2)|(? & _ & ?)]; [|done].
      exists i2, p2, w2. split; [|done]. destruct Hop2 as [[Hi2 _]|(_ & -> & _)].
      * rewrite Hk'', Hk in Hi2. cbn in Hi2. by rewrite decide_True in Hi2.
      * rewrite Hp'', length_alter. apply lookup_lt_Some in Hpi. lia.
Qed.
End Readers.

(** ** Witness and findings *)
Section Samples.
#[local] Instance poolLower : UnicodeLower := fun s => s.
#[local] Instance poolQuote : GoQuote := fun s => s.
#[local] Instance poolDuration : GoDuration := fun _ => "".
(** The drivers [connection_pool.go] links. *)
Definition linkedDrivers : list string := ["pgx"; "pgx/v5"; "mysql"].
Definition sampleOpen (driver uri : string) : option error :=
  if bool_decide (driver ∈ linkedDrivers) then None
  else Some (Errorf ("sql: unknown driver " +:+ driver +:+ " (forgotten import?)") []).
Definition sampleConn (d : DB) : SqlDB Z Z := mkDB (fun _ _ => Ok ([], None)) (fun _ => Err (Sentinel "EOF")) (fun _ _ => Err (Sentinel "EOF")).
Definition sourceOf (driver : string) (pool : PoolConfig) : DatabaseSourceConfig :=
  mkDatabase driver "postgres://db/shop" "" 0 "shop" "" "" "" "orders" "" [] false
    (mkPartition "id" 0 0) pool sampleResilience sampleSchema None.
Definition configOf (driver : string) (pool : PoolConfig) : PipelineConfig :=
  mkPipeline "p" "r" "sql" "" None None (Source sampleConfig) (Some (sourceOf driver pool)) None (Destination sampleConfig)
    (mkDLQ false "" (Float64.of_int 0)) [] (mkSecurity []).
Definition build (driver : string) (pool : PoolConfig) : Process -> (PartitionedReader + error) * Process :=
  BuildSource (K := Z) (R := Z) sampleOpen (fun _ => None) sampleConn (fun _ => None) (fun _ => Some (Sentinel "no answer"))
    0 driver (configOf driver pool) None.
Definition noPool : PoolConfig := mkPool 0 0 0.
Definition afterBuild : Process := (build "postgres" noPool startProcess).2.

Lemma pools_shared_and_open_witness :
  let d := sourceOf "pgx" noPool in
  exists i p w', opens afterBuild d "postgres://db/shop" i w' /\ pools w' !! i = Some p /\ dbClosed p = false.
Proof.
  destruct (pools_shared_and_open sampleOpen (fun _ => None) sampleConn (fun _ => None) (fun _ => None) map_to_list
              ltac:(reflexivity) afterBuild 0 (configOf "pgx" noPool) (sourceOf "pgx" noPool) None "postgres://db/shop")
    as (i & p & w' & Ho & (Hp & Hc & _) & _).
  - apply rtc_once.
    exact (step_build sampleOpen (fun _ => None) sampleConn (fun _ => None) (fun _ => None) map_to_list 0
             (configOf "postgres" noPool) (sourceOf "postgres" noPool) None startProcess eq_refl).
  - reflexivity.
  - vm_compute. reflexivity.
  - vm_compute. reflexivity.
  - vm_compute. reflexivity.
  - by exists i, p, w'.
Defined.

(** Two element functions of a worker hold one pool: the first that is torn down closes
    it under the other. *)
Lemma teardown_closes_for_others : exists r1 r2 i src w, build "postgres" noPool startProcess = (inl r1, afterBuild)
  /\ build "postgres" noPool afterBuild = (inl r2, w) /\ r2 = SQLReader i src
  /\ (dbClosed <$> pools (PQ_Teardown (fun _ => None) map_to_list (Some r1) w) !! i) = Some true.
Proof. eexists _, _, _, _, _. split; [vm_compute; reflexivity|]. split; [vm_compute; reflexivity|]. split; [reflexivity|]. vm_compute. reflexivity. Qed.
(** The pool settings of the first configuration stay. *)
Lemma later_settings_ignored : exists r i src, build "postgres" (mkPool 32 8 60) afterBuild = (inl r, afterBuild)
  /\ r = SQLReader i src /\ (maxOpen <$> pools afterBuild !! i) = Some 4.
Proof. eexists _, _, _. split; [vm_compute; reflexivity|]. split; [reflexivity|]. vm_compute. reflexivity. Qed.
(** Sources that are registered, whose driver nothing links. *)
Lemma registered_sources_without_driver : sqlSource "cockroach" /\ sqlSource "mariadb"
  /\ exists e e', build "cockroach" noPool startProcess = (inr e, startProcess)
     /\ build "mariadb" noPool startProcess = (inr e', startProcess).
Proof. split; [vm_compute; reflexivity|]. split; [vm_compute; reflexivity|]. eexists _, _. split; vm_compute; reflexivity. Qed.
(** The error path of the factory closes a pool and leaves it in the cache. *)
Lemma factory_leaves_closed_pool : exists e w,
  sqlReaderFactory sampleOpen (fun _ => None) sampleConn 0 (configOf "pgx/v5" noPool) None startProcess = (inr e, w)
  /\ (poolCache w !! "pgx/v5:postgres://db/shop") = Some 0%nat /\ (dbClosed <$> pools w !! 0%nat) = Some true.
Proof. eexists _, _. split; [vm_compute; reflexivity|]. split; vm_compute; reflexivity. Qed.
(** A MongoDB client that does not answer is not disconnected. *)
Lemma unanswered_client_stays : exists e w, build "mongodb" noPool startProcess = (inr e, w)
  /\ map mc_connected (clients w) = [true].
Proof. eexists _, _. split; [vm_compute; reflexivity|]. vm_compute. reflexivity. Qed.
End Samples.
