(* ===== verification/MetricsWriter.v ===== *)
(** * The files a run leaves

    Models [cmd/pipeline/metrics_writer.go] and [error_file.go]: after a run the program
    counts what the output directory holds and writes [metrics.json] there; a run that
    fails leaves [error.txt]. They work on the local file system of [Storage.v], whose
    calls may fail; the Parquet reader, MD5 and the JSON encoding of the metrics are given.
    What the search for the watermark reads again ([Watermark.v]) draws no fault here. *)
From S2P Require Import Prelude GoStr Float64 Schema RecordModel Metrics Watermark Config Wire ByteStream Storage FileSink Csv.

(** ** Reading a directory *)
(** The paths in [dir] start so. *)
Definition dirPrefix (dir : string) : string :=
  if dir =s "." then "" else if dir =s "/" then "/" else dir +:+ "/".
(** The entry of [dir] on the way to a file: its name, and whether it is a directory. *)
Definition childOf (dir path : string) : option (string * bool) :=
  if HasPrefix path (dirPrefix dir) then
    match map str (splitOn slash (drop (String.length (dirPrefix dir)) (bytes path))) with
    | name :: rest =>
        if (name =s "") || (name =s ".") || (name =s "..") then None
        else Some (name, match rest with [] => false | _ => true end)
    | [] => None
    end
  else None.
Definition children (dir : string) (fs : gmap string (list byte)) : gset (string * bool) :=
  list_to_set (omap (childOf dir) (elements (dom fs))).
(** [os.ReadDir] of a directory: its entries in the order of their names. *)
Definition dirEntries (dir : string) (fs : gmap string (list byte)) : list (string * bool) :=
  map (fun n => (n, bool_decide ((n, true) ∈ children dir fs)))
    (sortStrings (elements (set_map fst (children dir fs) : gset string))).
Definition os_ReadDir (dir : string) (d : Disk) : list (string * bool) * option error * Disk :=
  match nextFault d with
  | (FOk, d) => (dirEntries dir (files d), None, d)
  | (FErr k e, d) => (take k (dirEntries dir (files d)), Some e, d)
  end.
(** A file that is opened, read to its end or to an error, and closed. *)
Definition readFile (path : string) (d : Disk) : option (list byte * option error) * Disk :=
  match Local_Open path d with
  | (inr _, d) => (None, d)
  | (inl b, d) =>
      match nextFault d with
      | (FOk, d) => (Some (b, None), d)
      | (FErr k e, d) => (Some (take k b, Some e), d)
      end
  end.
Definition os_WriteFile (path : string) (data : list byte) (d : Disk) : option error * Disk :=
  match os_Create path d with
  | (Some e, d) => (Some e, d)
  | (None, d) =>
      let '((_, e), d) := file_Write path data d in
      let '(e', d) := file_Close d in
      (match e with Some _ => e | None => e' end, d)
  end.

(** ** Counting rows *)
(** [bufio.Scanner]: a line that does not fit the buffer ends the scan. *)
Definition MaxScanTokenSize : Z := 64 * 1024.
Fixpoint scanText (lines : list (list byte)) : list string :=
  match lines with
  | [] => []
  | l :: ls => if MaxScanTokenSize <=? zlen (chomp l) then [] else str (dropCR (chomp l)) :: scanText ls
  end.
Definition countLines (content : list byte) : Z :=
  zlen (List.filter (fun s => negb (TrimSpace s =s "")) (scanText (map snd (linesFrom 0 content)))).

Class GoMd5 := md5Hex : list byte -> string.
(** [parquet.OpenFile]: the number of rows, and what the search for the watermark reads. *)
Class GoParquetFile := { parquetNumRows : list byte -> Z + error; parquetRead : list byte -> pqFile }.

Record tally := mkTally { t_rows : Z; t_bytes : Z; t_files : Z; t_checksum : string }.
Definition considered (e : string * bool) : bool :=
  negb (e.2 || (e.1 =s "metrics.json") || (e.1 =s "dlq.jsonl") || HasSuffix e.1 ".jsonl").
Definition isText (name : string) : bool := HasSuffix name ".csv" || HasSuffix name ".txt".

Section Writer.
Context `{GoMd5, GoParquetFile, GoMarshal PipelineMetrics, UnicodeLower, GoQuote, GoTimeParseZ, GoParseFloat, GoFormatFloat}.
Definition textRows (includeHeader : bool) (content : list byte) : Z :=
  let lineCount := countLines content in
  if (0 <? lineCount) && includeHeader then lineCount - 1 else lineCount.
Definition fileRows (includeHeader : bool) (name path : string) (d : Disk) : Z * Disk :=
  if HasSuffix name ".parquet" then
    match readFile path d with
    | (Some (b, _), d) => (match parquetNumRows b with inl n => n | inr _ => 0 end, d)
    | (None, d) => (0, d)
    end
  else if isText name then
    match readFile path d with
    | (Some (b, _), d) => (textRows includeHeader b, d)
    | (None, d) => (0, d)
    end
  else (0, d).
Definition tallyFile (includeHeader : bool) (outDir : string) (t : tally) (e : string * bool) (d : Disk) : tally * Disk :=
  if negb (considered e) then (t, d)
  else
    let path := Join2 outDir e.1 in
    match Local_Open path d with
    | (inr _, d) => (t, d)
    | (inl b, d) =>
        let '(rows, d) := fileRows includeHeader e.1 path d in
        let '(r, d) := readFile path d in
        (mkTally (i64 (t_rows t + rows)) (i64 (t_bytes t + zlen b)) (i64 (t_files t + 1))
           (match r with Some (b, None) => md5Hex b | _ => t_checksum t end), d)
    end.
Fixpoint tallyFiles (includeHeader : bool) (outDir : string) (es : list (string * bool)) (t : tally) (d : Disk)
    : tally * Disk :=
  match es with
  | [] => (t, d)
  | e :: es' => let '(t, d) := tallyFile includeHeader outDir t e d in tallyFiles includeHeader outDir es' t d
  end.

(** ** [writeExecutionMetrics] *)
Definition metricsDir (cfg : PipelineConfig) : string :=
  if negb (OutputPath (Destination cfg) =s "") then Dir (OutputPath (Destination cfg))
  else if negb (QuarantinePath (Config.DLQ cfg) =s "") then Dir (QuarantinePath (Config.DLQ cfg))
  else "".
Definition dlqFile (cfg : PipelineConfig) (outDir : string) : string :=
  if QuarantinePath (Config.DLQ cfg) =s "" then Join2 outDir "dlq.jsonl" else QuarantinePath (Config.DLQ cfg).
Definition dlqLines (path : string) (d : Disk) : Z * Disk :=
  match readFile path d with
  | (Some (b, _), d) => (countLines b, d)
  | (None, d) => (0, d)
  end.
Definition zeroCounts (prefix : string) (s : Schema) : gmap string Z :=
  fold_left (fun m f => <[prefix +:+ Name f := 0]> m) (Fields s) ∅.
Definition executionMetrics (cfg : PipelineConfig) (t : tally) (dlqCount : Z) (wm : option WatermarkOutput)
    : PipelineMetrics :=
  mkPipelineMetrics (PipelineID cfg) (RunID cfg) (i64 (t_rows t + dlqCount)) (t_rows t) (t_rows t) dlqCount (t_bytes t)
    (t_files t) 0 (t_checksum t) 0 f0 f0 wm (Some ∅) (Some (zeroCounts "null_count_" (GetSchema cfg)))
    (Some (zeroCounts "invalid_value_count_" (GetSchema cfg))) (Some ∅).
(** The entries as the search for the watermark reads them. *)
Definition watermarkEntries (outDir : string) (d : Disk) : list (bool * pqFile) :=
  map (fun e => let f := parquetRead (default [] (files d !! Join2 outDir e.1)) in
                (e.2, mkFile e.1 (pqOpen f) (pqStat f) (pqHeader f) (pqColumns f) (pqRowGroups f)))
    (dirEntries outDir (files d)).
Definition watermarkOf (cfg : PipelineConfig) (outDir : string) (totalRead rowsWritten : Z) (d : Disk)
    : result (option WatermarkOutput) :=
  resolveWatermarkOutput (DbWatermark <$> DatabaseSource cfg)
    ((fun a => (APIWatermark a, WatermarkIsOffset (Some a))) <$> APISource cfg)
    (Ok (watermarkEntries outDir d)) outDir totalRead rowsWritten.

Definition writeExecutionMetrics (cfg : PipelineConfig) (d : Disk) : option error * Disk :=
  let outDir := metricsDir cfg in
  let fail msg e := Some (Errorf (msg +:+ ": " +:+ Error e) [e]) in
  if (outDir =s "") || HasPrefix outDir "gs://" then (None, d)
  else match os_MkdirAll d with
  | (Some e, d) => (fail "failed creating metrics directory" e, d)
  | (None, d) =>
      let '(entries, _, d) := os_ReadDir outDir d in
      let '(t, d) := tallyFiles (IncludeHeader (DstFormatOptions (Destination cfg))) outDir entries (mkTally 0 0 0 "") d in
      let '(dlqCount, d) := dlqLines (dlqFile cfg outDir) d in
      match watermarkOf cfg outDir (i64 (t_rows t + dlqCount)) (t_rows t) d with
      | Err e => (fail "failed resolving watermark output" e, d)
      | Panic m => (Some (Errorf m []), d)
      | Ok wm =>
          match marshalJSON (executionMetrics cfg t dlqCount wm) with
          | inr e => (fail "failed marshaling metrics" e, d)
          | inl data =>
              match os_WriteFile (Join2 outDir "metrics.json") data d with
              | (Some e, d) => (fail "failed writing metrics file" e, d)
              | (None, d) => (None, d)
              end
          end
      end
  end.
End Writer.

(** ** [writeErrorFile]: its own failures are only logged *)
Definition writeErrorFile (outDir : string) (cause : option error) (d : Disk) : Disk :=
  match cause with
  | None => d
  | Some cause =>
      if (outDir =s "") || isGCS outDir then d
      else match os_MkdirAll d with
      | (Some _, d) => d
      | (None, d) => (os_WriteFile (Join2 outDir "error.txt") (bytes (Error cause)) d).2
      end
  end.

(** ** Lemmas: clean paths *)
(** The elements [Clean] keeps, last first: names, above the [..] of a relative path. *)
Record cleanList (rooted : bool) (l : list string) : Prop := {
  cl_names : Forall (fun e => e <> "" /\ e <> "." /\ slash ∉ bytes e) l;
  cl_up : exists a b, l = a ++ b /\ Forall (fun e => e <> "..") a /\ Forall (fun e => e = "..") b /\ (rooted = true -> b = []) }.
Lemma cleanList_tail rooted x l : cleanList rooted (x :: l) -> cleanList rooted l.
Proof.
  intros [[_ Hn]%Forall_cons (a & b & E & Ha & Hb & Hr)]. split; [done|]. destruct a as [|y a].
  - cbn in E. subst b. apply Forall_cons in Hb as [_ Hb]. exists [], l. repeat split; try done. intros Ht. by specialize (Hr Ht).
  - injection E as -> ->. apply Forall_cons in Ha as [_ Ha]. by exists a, b.
Qed.
(** What one element makes of the list. *)
Lemma cleanElems_app rooted xs ys out : cleanElems rooted (xs ++ ys) out = cleanElems rooted ys (cleanElems rooted xs out).
Proof.
  revert out. induction xs as [|x xs IH]; intros out; [done|]. cbn [app cleanElems].
  destruct (_ || _); [apply IH|]. destruct (x =s ".."); [|apply IH].
  destruct out as [|y out]; [apply IH|]. destruct (y =s ".."); apply IH.
Qed.
Lemma cleanElems_clean rooted es : Forall (fun e => slash ∉ bytes e) es -> forall out,
  cleanList rooted out -> cleanList rooted (cleanElems rooted es out).
Proof.
  induction 1 as [|e es He _ IH]; intros out Ho; [done|]. cbn [cleanElems].
  destruct ((e =s "") || (e =s ".")) eqn:E; [by apply IH|]. apply orb_false_iff in E as [E1 E2].
  apply String.eqb_neq in E1, E2. destruct (String.eqb_spec e "..") as [->|Hup].
  - destruct out as [|x out].
    + apply IH. destruct rooted; [done|]. split.
      * by repeat constructor.
      * exists [], [".."]. by repeat constructor.
    + destruct (String.eqb_spec x "..") as [->|Hx]; [|by apply IH, (cleanList_tail _ x)]. apply IH.
      destruct Ho as [Hn (a & b & Eab & Ha & Hb & Hr)]. split.
      * by constructor.
      * destruct a as [|y a]; [|injection Eab as <- _; by apply Forall_cons in Ha as [? _]].
        cbn in Eab. subst b. exists [], (".." :: ".." :: out). repeat split; try done; [by constructor|].
        intros Ht. by specialize (Hr Ht).
  - apply IH. destruct Ho as [Hn (a & b & -> & Ha & Hb & Hr)]. split; [by constructor|].
    exists (e :: a), b. repeat split; try done. by constructor.
Qed.
Lemma cleanElems_fix rooted l : cleanList rooted l -> cleanElems rooted (rev l) [] = l.
Proof.
  induction l as [|x l IH]; intros Hl; [done|]. cbn [rev]. rewrite cleanElems_app, IH by by eapply cleanList_tail.
  destruct Hl as [[(H1 & H2 & _) _]%Forall_cons (a & b & E & Ha & Hb & Hr)]. cbn [cleanElems].
  rewrite !(proj2 (String.eqb_neq x _)) by done. cbn [orb]. destruct (String.eqb_spec x "..") as [->|]; [|done].
  destruct a as [|y a]; [|injection E as <- _; by apply Forall_cons in Ha as [? _]].
  cbn in E. subst b. apply Forall_cons in Hb as [_ Hb]. destruct l as [|y l].
  - destruct rooted; [|done]. by specialize (Hr eq_refl).
  - apply Forall_cons in Hb as [-> _]. done.
Qed.
Lemma splitOn_elem_noslash l e : e ∈ splitOn slash l -> slash ∉ e.
Proof.
  revert e. induction l as [|c l IH]; intros e; cbn [splitOn].
  - intros ->%list_elem_of_singleton. apply not_elem_of_nil.
  - case_bool_decide as Hc.
    + intros [->|He]%elem_of_cons; [apply not_elem_of_nil|by apply IH].
    + destruct (splitOn slash l) as [|s ss].
      * intros ->%list_elem_of_singleton. intros E%list_elem_of_singleton. by destruct Hc.
      * intros [->|He]%elem_of_cons; [|apply IH; by right].
        intros [E|Hs]%elem_of_cons; [done|]. by apply (IH s); [apply list_elem_of_here|].
Qed.
Lemma splitOn_pre e l : slash ∉ e -> splitOn slash (e ++ slash :: l) = e :: splitOn slash l.
Proof.
  intros He. induction e as [|x e IH]; cbn [app splitOn]; [by rewrite bool_decide_true|].
  apply not_elem_of_cons in He as [Hx He]. rewrite bool_decide_false, IH by congruence. done.
Qed.
Lemma splitOn_one e : slash ∉ e -> splitOn slash e = [e].
Proof. intros He. pose proof (splitOn_app [] e He) as E. cbn in E. by injection E. Qed.
Lemma splitOn_join es : es <> [] -> Forall (fun e => slash ∉ bytes e) es ->
  splitOn slash (bytes (joinWith "/" es)) = map bytes es.
Proof.
  intros Hne Hf. induction Hf as [|e es He Hf IH]; [done|]. destruct es as [|e' es]; [by apply splitOn_one|].
  change (joinWith "/" (e :: e' :: es)) with (e +:+ "/" +:+ joinWith "/" (e' :: es)).
  rewrite !bytes_app. change (bytes "/" ++ ?x) with (slash :: x). rewrite splitOn_pre by done. by rewrite IH.
Qed.
Lemma map_str_bytes es : map str (map bytes es) = es.
Proof. rewrite map_map. rewrite (map_ext _ id); [apply map_id|apply str_bytes]. Qed.

(** A clean path: the root or ["."], or names under one of them. *)
Definition render (rooted : bool) (es : list string) : string :=
  let res := (if rooted then "/" else "") +:+ joinWith "/" es in if res =s "" then "." else res.
Lemma Clean_render x : exists rooted l, cleanList rooted l /\ Clean x = render rooted (rev l).
Proof.
  exists (HasPrefix x "/"), (cleanElems (HasPrefix x "/") (map str (splitOn slash (bytes x))) []).
  split; [|done]. apply cleanElems_clean.
  - apply Forall_map, Forall_forall. intros e He. cbn. rewrite bytes_str. by eapply splitOn_elem_noslash.
  - split; [constructor|]. by exists [], [].
Qed.
Lemma cleanList_noslash rooted l : cleanList rooted l -> Forall (fun e => slash ∉ bytes e) (rev l).
Proof. intros [Hn _]. apply Forall_rev. eapply Forall_impl; [exact Hn|]. by intros e (_ & _ & ?). Qed.
Lemma join_nonempty rooted l : cleanList rooted l -> l <> [] ->
  exists c s, joinWith "/" (rev l) = String c s /\ c <> slash.
Proof.
  intros [Hn _] Hl. apply Forall_rev in Hn. destruct (rev l) as [|e es] eqn:E.
  { by apply (f_equal (@rev _)) in E; rewrite rev_involutive in E. }
  apply Forall_cons in Hn as [(He & _ & Hs) _]. destruct e as [|c e]; [done|].
  destruct es as [|e' es]; eexists _, _; (split; [done|]); intros ->; apply Hs, list_elem_of_here.
Qed.

Definition nameOk (n : string) : Prop := properElem n /\ slash ∉ bytes n.
Lemma Clean_under path rooted pre l n : HasPrefix path "/" = rooted ->
  map str (splitOn slash (bytes path)) = pre ++ rev l ++ [n] -> Forall (fun e => e = "" \/ e = ".") pre ->
  cleanList rooted l -> nameOk n -> Clean path = render rooted (rev l ++ [n]).
Proof.
  intros <- Hs Hpre Hl [(H1 & H2 & H3) _]. unfold Clean, render. rewrite Hs, !cleanElems_app.
  assert (cleanElems (HasPrefix path "/") pre [] = []) as ->.
  { clear Hs. induction Hpre as [|e pre [->| ->] _ IH]; done. }
  rewrite cleanElems_fix by done. cbn [cleanElems]. by rewrite !(proj2 (String.eqb_neq n _)).
Qed.
Lemma sapp_assoc a b c : (a +:+ b) +:+ c = a +:+ b +:+ c.
Proof. induction a as [|x a IH]; [done|]. change (String x ((a +:+ b) +:+ c) = String x (a +:+ b +:+ c)). by rewrite IH. Qed.
Lemma joinWith_snoc_str es n : es <> [] -> joinWith "/" (es ++ [n]) = joinWith "/" es +:+ "/" +:+ n.
Proof.
  intros He. rewrite <- (str_bytes (joinWith "/" (es ++ [n]))), joinWith_snoc.
  rewrite <- (str_bytes (joinWith "/" es +:+ "/" +:+ n)), !bytes_app. destruct es; [done|]. by rewrite <- app_assoc.
Qed.
Lemma rev_nonnil {A} (l : list A) : l <> [] -> rev l <> [].
Proof. intros Hl E. apply Hl. by rewrite <- (rev_involutive l), E. Qed.
Lemma join_not_dot rooted l : cleanList rooted l -> l <> [] -> joinWith "/" (rev l) <> ".".
Proof.
  intros Hl Hne E. pose proof (splitOn_join (rev l) (rev_nonnil _ Hne) (cleanList_noslash _ _ Hl)) as Es.
  rewrite E in Es. cbn in Es. apply (f_equal (map str)) in Es. rewrite map_str_bytes in Es. cbn in Es.
  destruct Hl as [Hn _]. apply Forall_rev in Hn. rewrite <- Es in Hn.
  by apply Forall_cons in Hn as [(_ & ? & _) _].
Qed.
(** A name joined to a clean directory. *)
Lemma Join2_Clean x n : nameOk n -> Join2 (Clean x) n = dirPrefix (Clean x) +:+ n.
Proof.
  intros Hn. destruct (Clean_render x) as (rooted & l & Hl & E). rewrite E. clear E.
  destruct (decide (l = [])) as [->|Hne].
  { destruct rooted; cbn [rev joinWith render].
    - change (Clean ("/" +:+ "/" +:+ n) = "/" +:+ n). rewrite (Clean_under _ true [""; ""] [] n); try done.
      + change (bytes ("/" +:+ "/" +:+ n)) with (([] : list byte) ++ slash :: [] ++ slash :: bytes n).
        rewrite !splitOn_pre, splitOn_one by first [apply Hn | apply not_elem_of_nil]. cbn. by rewrite str_bytes.
      + repeat constructor; by left.
    - change (Clean ("." +:+ "/" +:+ n) = n). rewrite (Clean_under _ false ["."] [] n); try done.
      + unfold render. cbn [rev app joinWith]. change ("" +:+ n) with n.
        by rewrite (proj2 (String.eqb_neq n "")) by apply Hn.
      + change (bytes ("." +:+ "/" +:+ n)) with (bytes "." ++ slash :: bytes n).
        rewrite splitOn_app by apply Hn. change (splitOn slash (bytes ".")) with [bytes "."].
        cbn [map app rev]. by rewrite !str_bytes.
      + repeat constructor; by right. }
  destruct (join_nonempty _ _ Hl Hne) as (c & s & Ej & Hc). pose proof (join_not_dot _ _ Hl Hne) as Hdot.
  pose proof (splitOn_join (rev l) (rev_nonnil _ Hne) (cleanList_noslash _ _ Hl)) as Es.
  assert (map str (splitOn slash (bytes (joinWith "/" (rev l) +:+ "/" +:+ n))) = rev l ++ [n]) as Hs.
  { rewrite !bytes_app. change (bytes "/" ++ bytes n) with (slash :: bytes n).
    rewrite splitOn_app, Es, map_app, map_str_bytes by apply Hn. cbn [map]. by rewrite str_bytes. }
  destruct rooted.
  - assert (render true (rev l) = "/" +:+ joinWith "/" (rev l)) as -> by done.
    unfold Join2, dirPrefix. rewrite !(proj2 (String.eqb_neq ("/" +:+ joinWith "/" (rev l)) _)) by (rewrite Ej; done).
    change (("/" +:+ joinWith "/" (rev l)) +:+ "/" +:+ n) with ("/" +:+ joinWith "/" (rev l) +:+ "/" +:+ n).
    rewrite (Clean_under _ true [""] l n); try done.
    + unfold render. rewrite joinWith_snoc_str by by apply rev_nonnil. rewrite (sapp_assoc _ "/" n). reflexivity.
    + unfold HasPrefix. cbn [String.append String.prefix]. destruct (ascii_dec "/" "/"); [by destruct (_ +:+ _)|done].
    + transitivity (map str ([] :: splitOn slash (bytes (joinWith "/" (rev l) +:+ "/" +:+ n)))).
      * reflexivity.
      * cbn [map]. by rewrite Hs.
    + repeat constructor; by left.
  - assert (render false (rev l) = joinWith "/" (rev l)) as -> by (unfold render; by rewrite Ej).
    unfold Join2, dirPrefix. rewrite (proj2 (String.eqb_neq _ ".")), Ej by done.
    rewrite (proj2 (String.eqb_neq (String c s) "")) by done.
    rewrite (proj2 (String.eqb_neq (String c s) "/")) by (intros [= -> _]; done).
    rewrite (Clean_under _ false [] l n); try done.
    + unfold render. rewrite joinWith_snoc_str by by apply rev_nonnil. by rewrite Ej, sapp_assoc.
    + unfold HasPrefix. change (String c s +:+ "/" +:+ n) with (String c (s +:+ "/" +:+ n)).
      cbn [String.prefix]. by destruct (ascii_dec "/" c) as [<-|].
    + by rewrite <- Ej, Hs.
Qed.

Lemma HasPrefix_iff s p : HasPrefix s p = true <-> exists rest, s = p +:+ rest.
Proof.
  revert s. induction p as [|a p IH]; intros s; unfold HasPrefix in *.
  - split; [intros _; by exists s|]. by destruct s.
  - destruct s as [|b s]; [split; [done|intros (? & ?); done]|]. cbn [String.prefix].
    destruct (ascii_dec a b) as [->|Hab].
    + rewrite IH. split; intros (r & E); exists r; [by rewrite E|by injection E].
    + split; [done|]. intros (r & E). by injection E as -> _.
Qed.
Lemma bytes_length s : length (bytes s) = String.length s.
Proof. induction s as [|c s IH]; [done|]. cbn. by f_equal. Qed.
Lemma childOf_Join2 x n : nameOk n -> childOf (Clean x) (Join2 (Clean x) n) = Some (n, false).
Proof.
  intros Hn. rewrite Join2_Clean by done. unfold childOf.
  rewrite (proj2 (HasPrefix_iff _ _)) by (by exists n).
  rewrite bytes_app, <- bytes_length, drop_app_length, splitOn_one by apply Hn. cbn [map]. rewrite str_bytes.
  destruct Hn as [(H1 & H2 & H3) _]. by rewrite !(proj2 (String.eqb_neq n _)).
Qed.
(** No clean path starts with a URI's scheme: the slashes are one. *)
Lemma Clean_no_scheme x : HasPrefix (Clean x) "gs://" = false.
Proof.
  destruct (Clean_render x) as (rooted & l & Hl & ->). destruct (HasPrefix _ _) eqn:E; [|done]. exfalso.
  apply HasPrefix_iff in E as (rest & E). unfold render in E. destruct rooted; [done|].
  destruct (decide (l = [])) as [->|Hne]; [done|].
  pose proof (splitOn_join (rev l) (rev_nonnil _ Hne) (cleanList_noslash _ _ Hl)) as Es.
  destruct (join_nonempty _ _ Hl Hne) as (c & s & Ej & _). cbv zeta in E. change ("" +:+ ?y) with y in E.
  rewrite Ej in E. cbn [String.eqb] in E. rewrite <- Ej in E. rewrite E in Es.
  change (bytes ("gs://" +:+ rest)) with (bytes "gs:" ++ slash :: [] ++ slash :: bytes rest) in Es.
  rewrite splitOn_pre in Es by (apply (bool_decide_unpack _); vm_compute; exact I).
  rewrite splitOn_pre in Es by apply not_elem_of_nil. destruct Hl as [Hn _]. apply Forall_rev in Hn.
  destruct (rev l) as [|e1 [|e2 es]]; try done. injection Es as _ E2 _.
  apply Forall_cons in Hn as [_ [(Hne2 & _) _]%Forall_cons]. apply Hne2. by destruct e2.
Qed.

(** ** Lemmas: a directory and the file written to it *)
Lemma childOf_name dir path n b : childOf dir path = Some (n, b) -> nameOk n.
Proof.
  unfold childOf. destruct (HasPrefix _ _); [|done].
  destruct (splitOn slash _) as [|e es] eqn:E; [done|]. cbn [map].
  destruct (_ || _) eqn:En; [done|]. intros [= <- _]. apply orb_false_iff in En as [En E3].
  apply orb_false_iff in En as [E1 E2]. apply String.eqb_neq in E1, E2, E3.
  split; [by split_and!|]. rewrite bytes_str. eapply splitOn_elem_noslash. rewrite E. apply list_elem_of_here.
Qed.
Lemma elem_of_children dir fs c : c ∈ children dir fs <-> exists path, is_Some (fs !! path) /\ childOf dir path = Some c.
Proof.
  unfold children. rewrite elem_of_list_to_set, list_elem_of_omap. split; intros (p & Hp & Hc); exists p.
  - by rewrite elem_of_elements, elem_of_dom in Hp.
  - by rewrite elem_of_elements, elem_of_dom.
Qed.
Lemma elem_of_dirEntries dir fs e : e ∈ dirEntries dir fs -> nameOk e.1 /\ exists b, (e.1, b) ∈ children dir fs.
Proof.
  unfold dirEntries. rewrite list_elem_of_fmap. intros (n & -> & Hn). cbn. revert Hn.
  unfold sortStrings. rewrite merge_sort_Permutation, elem_of_elements, elem_of_map.
  intros ([n' b] & -> & Hc). cbn. split; [|by exists b].
  apply elem_of_children in Hc as (p & _ & Hp). by eapply childOf_name.
Qed.
Lemma Join2_inj dir n n' : dir <> "" -> nameOk n -> nameOk n' -> Join2 dir n = Join2 dir n' -> n = n'.
Proof.
  intros Hd [Hp Hs] [Hp' Hs'] E. unfold Join2 in E. apply String.eqb_neq in Hd. rewrite Hd in E.
  rewrite <- (lastElem_Clean dir n Hp Hs), E. by apply lastElem_Clean.
Qed.

(** Writing one file of the directory adds at most its own entry. *)
Lemma children_insert dir fs p b : children dir (<[p := b]> fs)
  = match childOf dir p with Some c => {[c]} | None => ∅ end ∪ children dir fs.
Proof.
  apply set_eq. intros c. rewrite elem_of_union, !elem_of_children. split.
  - intros (q & Hq & Hc). destruct (decide (q = p)) as [->|Hne]; [left; rewrite Hc; set_solver|right].
    rewrite lookup_insert_ne in Hq by done. eauto.
  - intros [Hc|(q & Hq & Hc)].
    + exists p. rewrite lookup_insert_eq. split; [done|]. destruct (childOf dir p); set_solver.
    + exists q. split; [|done]. rewrite lookup_insert_is_Some'. by right.
Qed.
Lemma StronglySorted_lfilter {A} (R : relation A) (P : A -> bool) l :
  StronglySorted R l -> StronglySorted R (List.filter P l).
Proof.
  induction 1 as [|x l Hs IH Hx]; cbn [List.filter]; [constructor|]. destruct (P x); [|done].
  constructor; [done|]. rewrite Forall_forall in *. intros y Hy. apply Hx. rewrite list_elem_of_In in *.
  by apply filter_In in Hy as [? _].
Qed.
Lemma lfilter_perm {A} (P : A -> bool) (l k : list A) : l ≡ₚ k -> List.filter P l ≡ₚ List.filter P k.
Proof.
  induction 1 as [|x l k _ IH|x y l|l k m _ IH1 _ IH2]; cbn [List.filter].
  - done.
  - destruct (P x); by rewrite IH.
  - destruct (P x), (P y); first [apply perm_swap | done].
  - by transitivity (List.filter P k).
Qed.
Lemma lfilter_map {A B} (P : B -> bool) (f : A -> B) l : List.filter P (map f l) = map f (List.filter (fun x => P (f x)) l).
Proof. induction l as [|x l IH]; [done|]. cbn. rewrite IH. by destruct (P (f x)). Qed.
Lemma sorted_filter_unique (P : string -> bool) l k : List.filter P l ≡ₚ List.filter P k ->
  List.filter P (sortStrings l) = List.filter P (sortStrings k).
Proof.
  intros Hp. apply (StronglySorted_unique strLe).
  - apply StronglySorted_lfilter, StronglySorted_merge_sort; apply _.
  - apply StronglySorted_lfilter, StronglySorted_merge_sort; apply _.
  - rewrite (lfilter_perm P (sortStrings l) l), (lfilter_perm P (sortStrings k) k); [done| |];
      apply merge_sort_Permutation.
Qed.
Lemma lfilter_elements_add (P : string -> bool) (X : gset string) n : P n = false ->
  List.filter P (elements ({[n]} ∪ X)) ≡ₚ List.filter P (elements X).
Proof.
  intros Hn. destruct (decide (n ∈ X)) as [Hin|Hin].
  - by replace ({[n]} ∪ X) with X by set_solver.
  - rewrite (lfilter_perm P _ _ (elements_union_singleton X n Hin)). cbn [List.filter]. by rewrite Hn.
Qed.
(** The entries of other names stay. *)
Lemma dirEntries_other (P : string -> bool) dir fs p b : (forall n d, childOf dir p = Some (n, d) -> P n = false) ->
  List.filter (fun e => P e.1) (dirEntries dir (<[p := b]> fs)) = List.filter (fun e => P e.1) (dirEntries dir fs).
Proof.
  intros Hp. unfold dirEntries. rewrite !lfilter_map. cbn [fst].
  assert (List.filter P (sortStrings (elements (set_map fst (children dir (<[p := b]> fs)) : gset string)))
          = List.filter P (sortStrings (elements (set_map fst (children dir fs) : gset string)))) as Hn.
  { apply sorted_filter_unique. rewrite children_insert. destruct (childOf dir p) as [[n d]|] eqn:E.
    - rewrite set_map_union_L, set_map_singleton_L. apply lfilter_elements_add. by eapply Hp.
    - by rewrite (left_id_L ∅ (∪)). }
  change (fun x : string => P x) with P. rewrite Hn. apply map_ext_in. intros n [_ Hpn]%filter_In. f_equal. apply bool_decide_ext.
  rewrite children_insert, elem_of_union. destruct (childOf dir p) as [[n' d]|] eqn:E; [|set_solver].
  rewrite elem_of_singleton. split; [|by right]. intros [[= <- <-]|]; [|done]. by rewrite (Hp _ _ eq_refl) in Hpn.
Qed.

Section Report.
Context `{GoMd5, GoParquetFile, GoMarshal PipelineMetrics, UnicodeLower, GoQuote, GoTimeParseZ, GoParseFloat, GoFormatFloat}.

(** What a file of a directory counts for, and what a tally makes of the files. *)
Definition rowsIn (includeHeader : bool) (name : string) (content : list byte) : Z :=
  if HasSuffix name ".parquet" then match parquetNumRows content with inl n => n | inr _ => 0 end
  else if isText name then textRows includeHeader content
  else 0.
Definition addFile (includeHeader : bool) (outDir : string) (fs : gmap string (list byte)) (t : tally) (e : string * bool)
    : tally :=
  match fs !! Join2 outDir e.1 with
  | None => t
  | Some b => mkTally (i64 (t_rows t + rowsIn includeHeader e.1 b)) (i64 (t_bytes t + zlen b)) (i64 (t_files t + 1)) (md5Hex b)
  end.
Definition dataFiles (outDir : string) (fs : gmap string (list byte)) : list (string * bool) :=
  List.filter considered (dirEntries outDir fs).
Definition filesRows (includeHeader : bool) (outDir : string) (fs : gmap string (list byte)) (es : list (string * bool)) : Z :=
  foldr (fun e n => match fs !! Join2 outDir e.1 with Some b => rowsIn includeHeader e.1 b | None => 0 end + n) 0 es.

Lemma readFile_healthy path d : faults d = [] -> readFile path d = ((fun b => (b, None)) <$> files d !! path, d).
Proof.
  intros Hf. unfold readFile, Local_Open, nextFault. rewrite Hf.
  destruct (files d !! path); cbn; by rewrite ?Hf.
Qed.
Lemma fileRows_healthy h name path d b : faults d = [] -> files d !! path = Some b ->
  fileRows h name path d = (rowsIn h name b, d).
Proof.
  intros Hf Hb. unfold fileRows, rowsIn. rewrite readFile_healthy, Hb by done. cbn.
  by destruct (HasSuffix _ _), (isText name).
Qed.
Lemma tallyFiles_healthy h outDir es d : faults d = [] -> forall t,
  tallyFiles h outDir es t d = (fold_left (addFile h outDir (files d)) (List.filter considered es) t, d).
Proof.
  intros Hf. induction es as [|e es IH]; intros t; [done|]. cbn [tallyFiles List.filter].
  unfold tallyFile. destruct (considered e); cbn [negb fold_left]; [|by apply IH].
  unfold Local_Open, nextFault, addFile. rewrite Hf.
  destruct (files d !! Join2 outDir e.1) as [b|] eqn:Eb; [|by apply IH].
  rewrite (fileRows_healthy _ _ _ _ b), readFile_healthy, Eb by done. cbn. by apply IH.
Qed.
Lemma addFiles_rows h outDir fs es : forall t, t_rows t = i64 (t_rows t) ->
  t_rows (fold_left (addFile h outDir fs) es t) = i64 (t_rows t + filesRows h outDir fs es).
Proof.
  induction es as [|e es IH]; intros t Ht; cbn [fold_left filesRows foldr]; [by rewrite Z.add_0_r|].
  fold (filesRows h outDir fs es). unfold addFile at 2. destruct (fs !! Join2 outDir e.1) as [b|].
  - rewrite IH; cbn [t_rows]; [rewrite i64_add_l; f_equal; lia|].
    pose proof (i64_add_l (t_rows t + rowsIn h e.1 b) 0) as E. by rewrite !Z.add_0_r in E.
  - rewrite IH by done. f_equal.
Qed.
Lemma dlqLines_healthy path d : faults d = [] ->
  dlqLines path d = (match files d !! path with Some b => countLines b | None => 0 end, d).
Proof. intros Hf. unfold dlqLines. rewrite readFile_healthy by done. by destruct (files d !! path). Qed.
Lemma os_WriteFile_healthy path data d : faults d = [] ->
  os_WriteFile path data d = (None, withFiles d (<[path := data]> (files d))).
Proof.
  intros Hf. unfold os_WriteFile, os_Create, file_Write, file_Close, nextFault, withFiles. rewrite Hf. cbn.
  rewrite Hf. cbn. do 2 f_equal. apply map_eq. intros q.
  destruct (decide (q = path)) as [->|Hq]; [by rewrite lookup_alter_eq, !lookup_insert_eq|].
  by rewrite lookup_alter_ne, !lookup_insert_ne.
Qed.

Lemma metricsDir_clean cfg : metricsDir cfg = "" \/ exists x, metricsDir cfg = Clean x.
Proof. unfold metricsDir. repeat case_match; [right; by eexists|right; by eexists|by left]. Qed.
Lemma considered_name e : considered e = true -> considered (e.1, false) = true /\ e.2 = false.
Proof. unfold considered. cbn. by destruct e.2. Qed.

(** Writing the metrics changes nothing a report reads. *)
Section Again.
Context (dir : string) (data : list byte) (fs : gmap string (list byte)).
Let outDir := Clean dir.
Let target := Join2 outDir "metrics.json".
Lemma target_name : nameOk "metrics.json".
Proof. split; [done|]. apply (bool_decide_unpack _). vm_compute. exact I. Qed.
Lemma other_entries (P : string -> bool) : P "metrics.json" = false ->
  List.filter (fun e => P e.1) (dirEntries outDir (<[target := data]> fs)) = List.filter (fun e => P e.1) (dirEntries outDir fs).
Proof.
  intros HP. apply dirEntries_other. intros n d. unfold target, outDir. rewrite childOf_Join2 by apply target_name.
  by intros [= <- _].
Qed.
Lemma lfilter_twice {A} (P Q : A -> bool) l : List.filter P (List.filter Q l) = List.filter (fun x => Q x && P x) l.
Proof. induction l as [|x l IH]; [done|]. cbn. destruct (Q x); cbn; rewrite IH; done. Qed.
Lemma dataFiles_again : dataFiles outDir (<[target := data]> fs) = dataFiles outDir fs.
Proof.
  assert (forall fs, dataFiles outDir fs
          = List.filter considered (List.filter (fun e => negb (e.1 =s "metrics.json")) (dirEntries outDir fs))) as E.
  { intros g. unfold dataFiles. rewrite lfilter_twice. apply filter_ext. intros e. unfold considered.
    by destruct e.2, (e.1 =s "metrics.json"). }
  by rewrite !E, (other_entries (fun n => negb (n =s "metrics.json"))).
Qed.
Lemma other_path n : nameOk n -> n <> "metrics.json" -> (<[target := data]> fs) !! Join2 outDir n = fs !! Join2 outDir n.
Proof.
  intros Hn Hne. apply lookup_insert_ne. intros E. apply Hne. symmetry.
  eapply (Join2_inj outDir); [apply Clean_nonempty|apply target_name|done|done].
Qed.
Lemma dataFiles_name e : e ∈ dataFiles outDir fs -> nameOk e.1 /\ e.1 <> "metrics.json".
Proof.
  unfold dataFiles. rewrite list_elem_of_In, filter_In, <- list_elem_of_In. intros [He Hc].
  split; [by apply elem_of_dirEntries in He as [? _]|]. unfold considered in Hc. intros E. rewrite E in Hc.
  by destruct e.2.
Qed.
Lemma addFiles_again h t :
  fold_left (addFile h outDir (<[target := data]> fs)) (dataFiles outDir fs) t
  = fold_left (addFile h outDir fs) (dataFiles outDir fs) t.
Proof.
  assert (Forall (fun e => nameOk e.1 /\ e.1 <> "metrics.json") (dataFiles outDir fs)) as Hf.
  { apply Forall_forall. apply dataFiles_name. }
  revert t. induction Hf as [|e es [Hn Hne] _ IH]; intros t; [done|]. cbn [fold_left].
  unfold addFile at 2 4. rewrite other_path by done. apply IH.
Qed.
Lemma watermark_again fl fl' n n' :
  parquetFiles (watermarkEntries outDir (mkDisk (<[target := data]> fs) fl n))
  = parquetFiles (watermarkEntries outDir (mkDisk fs fl' n')).
Proof.
  unfold parquetFiles, watermarkEntries. cbn [files]. rewrite !lfilter_map. cbn [fst snd pqName].
  assert (forall g, List.filter (fun e : string * bool => negb e.2 && HasSuffix e.1 ".parquet") (dirEntries outDir g)
          = List.filter (fun e => negb e.2) (List.filter (fun e => HasSuffix e.1 ".parquet") (dirEntries outDir g))) as E.
  { intros g. rewrite lfilter_twice. apply filter_ext. intros e. apply andb_comm. }
  rewrite !E, (other_entries (fun n => HasSuffix n ".parquet")) by (vm_compute; reflexivity). rewrite !map_map. apply map_ext_in.
  intros e [He _]%filter_In. apply filter_In in He as [He Hs]. rewrite <- list_elem_of_In in He.
  apply elem_of_dirEntries in He as [Hn _]. cbn. rewrite other_path; [done|done|].
  intros E1. rewrite E1 in Hs. by vm_compute in Hs.
Qed.
End Again.

(** The report of a disk that does not fail, as one expression. *)
Definition tallyOf (cfg : PipelineConfig) (fs : gmap string (list byte)) : tally :=
  fold_left (addFile (IncludeHeader (DstFormatOptions (Destination cfg))) (metricsDir cfg) fs)
    (dataFiles (metricsDir cfg) fs) (mkTally 0 0 0 "").
Definition dlqCountOf (cfg : PipelineConfig) (fs : gmap string (list byte)) : Z :=
  match fs !! dlqFile cfg (metricsDir cfg) with Some b => countLines b | None => 0 end.
Lemma writeExecutionMetrics_healthy cfg d : faults d = [] -> metricsDir cfg <> "" ->
  let t := tallyOf cfg (files d) in let n := dlqCountOf cfg (files d) in
  writeExecutionMetrics cfg d
  = match watermarkOf cfg (metricsDir cfg) (i64 (t_rows t + n)) (t_rows t) d with
    | Err e => (Some (Errorf ("failed resolving watermark output" +:+ ": " +:+ Error e) [e]), d)
    | Panic m => (Some (Errorf m []), d)
    | Ok wm =>
        match marshalJSON (executionMetrics cfg t n wm) with
        | inr e => (Some (Errorf ("failed marshaling metrics" +:+ ": " +:+ Error e) [e]), d)
        | inl data => (None, withFiles d (<[Join2 (metricsDir cfg) "metrics.json" := data]> (files d)))
        end
    end.
Proof.
  intros Hf Hne t n. unfold writeExecutionMetrics. rewrite (proj2 (String.eqb_neq _ _) Hne).
  destruct (metricsDir_clean cfg) as [?|(x & Ex)]; [done|]. rewrite Ex, Clean_no_scheme, <- Ex. cbn [orb].
  unfold os_MkdirAll, os_ReadDir, nextFault. rewrite Hf. rewrite Hf. cbn [andb].
  rewrite tallyFiles_healthy, dlqLines_healthy by done. fold (dataFiles (metricsDir cfg) (files d)).
  fold (tallyOf cfg (files d)) (dlqCountOf cfg (files d)) t n.
  destruct (watermarkOf _ _ _ _ _) as [wm|e|m]; [|done|done].
  destruct (marshalJSON _) as [data|e]; [|done]. by rewrite os_WriteFile_healthy.
Qed.
Lemma tallyOf_again cfg data d : metricsDir cfg <> "" ->
  let d' := withFiles d (<[Join2 (metricsDir cfg) "metrics.json" := data]> (files d)) in
  tallyOf cfg (files d') = tallyOf cfg (files d)
  /\ forall a b, watermarkOf cfg (metricsDir cfg) a b d' = watermarkOf cfg (metricsDir cfg) a b d.
Proof.
  intros Hne d'. destruct (metricsDir_clean cfg) as [?|(x & Ex)]; [done|]. unfold d', withFiles. cbn [files]. split.
  - unfold tallyOf. rewrite Ex, dataFiles_again. apply addFiles_again.
  - intros a b. unfold watermarkOf, resolveWatermarkOutput. destruct (selectWatermark _ _) as [[wm|] []]; try done.
    unfold columnOutput. destruct (b =? 0); [done|]. rewrite Ex, (watermark_again x data (files d) (faults d) (faults d) (drawn d) (drawn d)).
    by destruct d.
Qed.

(** C17. The report of a run counts the files of the directory of the output. On a disk that
    does not fail, the report that [metrics.json] holds has as rows the rows of the files
    found there (Parquet rows, lines of text less their header), and as dead letters the
    lines of the quarantine file; it is always conserved, since the records read are
    defined as their sum; nothing else on the disk changes; and reporting again, with
    [metrics.json] now in the directory, gives the same report. *)
Theorem metrics_of_directory (cfg : PipelineConfig) (d d' : Disk) :
  faults d = [] -> metricsDir cfg <> "" -> writeExecutionMetrics cfg d = (None, d') ->
  let outDir := metricsDir cfg in
  let target := Join2 outDir "metrics.json" in
  exists m data, marshalJSON m = inl data
  /\ d' = withFiles d (<[target := data]> (files d))
  /\ RowsWritten m = i64 (filesRows (IncludeHeader (DstFormatOptions (Destination cfg))) outDir (files d)
                            (dataFiles outDir (files d)))
  /\ RowCount m = RowsWritten m
  /\ DeadLetterCount m = match files d !! dlqFile cfg outDir with Some b => countLines b | None => 0 end
  /\ IsStrictlyConserved m = true
  /\ (dlqFile cfg outDir <> target -> writeExecutionMetrics cfg d' = (None, d')).
Proof.
  intros Hf Hne Hw outDir target. rewrite writeExecutionMetrics_healthy in Hw by done. cbv zeta in Hw.
  destruct (watermarkOf _ _ _ _ _) as [wm|e|msg] eqn:Ew; [|done|done].
  destruct (marshalJSON _) as [data|e] eqn:Em; [|done]. injection Hw as <-. fold outDir target.
  eexists _, data. split; [exact Em|]. split; [done|]. cbn [RowsWritten RowCount DeadLetterCount executionMetrics].
  split; [|split; [done|split; [done|split]]].
  - unfold tallyOf. rewrite addFiles_rows by done. cbn [t_rows]. by rewrite Z.add_0_l.
  - unfold IsStrictlyConserved. cbn. apply Z.eqb_refl.
  - intros Hd. destruct (tallyOf_again cfg data d Hne) as [Et Ewm]. fold outDir target in Et, Ewm.
    set (d2 := withFiles d (<[target := data]> (files d))) in *.
    assert (dlqCountOf cfg (files d2) = dlqCountOf cfg (files d)) as En.
    { unfold dlqCountOf, d2, withFiles. cbn [files]. by rewrite lookup_insert_ne. }
    rewrite writeExecutionMetrics_healthy by done. cbv zeta. rewrite Et, En, Ewm. fold outDir in Ew |- *. rewrite Ew, Em.
    unfold d2, withFiles, target, outDir. cbn. by rewrite insert_insert_eq.
Qed.
End Report.

(** ** Witness and findings *)
Section Samples.
#[local] Instance mwLower : UnicodeLower := fun s => s.
#[local] Instance mwQuote : GoQuote := fun s => s.
#[local] Instance mwTime : GoTimeParseZ := fun _ _ => Err (Sentinel "time").
#[local] Instance mwFloat : GoParseFloat := fun _ => Err (Sentinel "float").
#[local] Instance mwFormat : GoFormatFloat := fun _ => "0".
#[local] Instance mwMd5 : GoMd5 := fun b => str b.
#[local] Instance mwParquet : GoParquetFile :=
  {| parquetNumRows := fun b => inl (zlen b); parquetRead := fun _ => mkFile "" (Ok tt) (Ok tt) (Ok tt) [] [] |}.
#[local] Instance mwMarshal : GoMarshal PipelineMetrics := fun m => inl (bytes (FormatInt (RowsWritten m) +:+ "/" +:+ FormatInt (DeadLetterCount m))).
Definition writing (output quarantine : string) : PipelineConfig :=
  mkPipeline "p" "r" "csv" "" None None (Source Config.sampleConfig) None None
    (mkDestination "file" "csv" "csv" output "" "" (mkEncryption "" "" "") false false
       (mkFormatOptions "," true "" "" false) (mkEndpoint "" "" "" ∅) (mkAPISink "" "" 0 "" 0 0 0)
       (mkBigQuery "" "" "" "" 0))
    (mkDLQ true quarantine (of_int 0)) [] (mkSecurity []).
Definition line (s : string) : list byte := bytes s ++ [newline].
Definition csvText : list byte := line "id" ++ line "1" ++ line "2".
Definition onDisk (fs : list (string * list byte)) : Disk := mkDisk (list_to_map fs) [] 0.
(** What [metrics.json] in a directory says of rows and dead letters after a run. *)
Definition reported (dir output quarantine : string) (fs : list (string * list byte)) : option string :=
  str <$> files (writeExecutionMetrics (writing output quarantine) (onDisk fs)).2 !! (dir +:+ "/metrics.json").

Lemma metrics_of_directory_witness :
  let d := onDisk [("/data/out.csv", csvText); ("/data/dlq.jsonl", line "{}"); ("/data/other/x.csv", csvText)] in
  exists d', writeExecutionMetrics (writing "/data/out.csv" "/data/dlq.jsonl") d = (None, d')
  /\ str <$> files d' !! "/data/metrics.json" = Some "2/1"
  /\ writeExecutionMetrics (writing "/data/out.csv" "/data/dlq.jsonl") d' = (None, d').
Proof.
  intros d. eexists. split; [vm_compute; reflexivity|]. split; [vm_compute; reflexivity|].
  destruct (metrics_of_directory (writing "/data/out.csv" "/data/dlq.jsonl") d _ eq_refl ltac:(vm_compute; discriminate)
              ltac:(vm_compute; reflexivity)) as (m & data & _ & _ & _ & _ & _ & _ & K).
  apply K. vm_compute. discriminate.
Defined.

(** A directory as the output path: the sinks write in it, the report looks beside it. *)
Lemma directory_output_not_counted : reported "/data" "/data/out" "" [("/data/out/shard-1.csv", csvText)] = Some "0/0"
  /\ reported "/data/out" "/data/out/" "" [("/data/out/shard-1.csv", csvText)] = Some "2/0".
Proof. split; vm_compute; reflexivity. Qed.
(** The dead letters of a quarantine directory, compressed text and JSON lines count for nothing. *)
Lemma quarantine_directory_not_counted :
  reported "/data" "/data/out.csv" "/data/quarantine" [("/data/quarantine/shard-1.jsonl", line "{}")] = Some "0/0".
Proof. vm_compute. reflexivity. Qed.
Lemma compressed_and_json_not_counted :
  reported "/data" "/data/out.csv.gz" "" [("/data/out.csv.gz", csvText)] = Some "0/0"
  /\ reported "/data" "/data/out.jsonl" "" [("/data/out.jsonl", line "{}")] = Some "0/0".
Proof. split; vm_compute; reflexivity. Qed.
(** The output of another run in the directory is counted, and the message of one that failed. *)
Lemma error_file_counted :
  let d := writeErrorFile "/data" (Some (Errorf ("first" +:+ str [newline] +:+ "second") [])) (onDisk []) in
  str <$> files (writeExecutionMetrics (writing "/data/out.parquet" "") d).2 !! "/data/metrics.json" = Some "1/0".
Proof. vm_compute. reflexivity. Qed.
(** The guard against writing to a bucket never holds: the path was cleaned first. *)
Lemma bucket_output_written_locally : reported "gs:/bucket/run" "gs://bucket/run/out.parquet" "" [] = Some "0/0".
Proof. vm_compute. reflexivity. Qed.
(** A line of 64 KiB ends the count: whatever follows it is not counted. *)
Lemma long_line_ends_count (long rest : list byte) : newline ∉ long -> MaxScanTokenSize <= zlen long ->
  countLines (line "a" ++ long ++ newline :: rest) = 1.
Proof.
  intros Hl Hn. unfold countLines, line. change newline with LF in *.
  change ((bytes "a" ++ [LF]) ++ ?x) with (["a"%char] ++ LF :: x).
  rewrite (linesFrom_step _ _ _ _ _ (ReadBytes_line ["a"%char] _ ltac:(set_solver by done))) by done.
  rewrite (linesFrom_step _ _ _ _ _ (ReadBytes_line long _ Hl)) by by destruct long.
  cbn [map snd scanText]. rewrite (chomp_snoc long). apply Z.leb_le in Hn as ->. reflexivity.
Qed.
End Samples.
