(* ===== verification/Main.v ===== *)
(** * The program

    Models [cmd/pipeline/main.go], the source builders of [registry.go] and the providers
    of [worker_init.go]: how the program reads its manifest, builds the parts the other
    files model, hands them to the runner and reports.

    The runner (Beam) is given: it is called once with the parts of the pipeline and what
    it does to the world is its own. Telemetry and the log are not represented. *)
From S2P Require Import Prelude GoStr Float64 Schema Wire Intern RecordModel Metrics Watermark Config UrlQuery Resilience SqlSource MongoSource Storage FileSink JsonUtils HttpClient RestSource Graph Secrets Connectors SqlPool MetricsWriter.

(** ** The manifest *)
Definition readManifestPayload (readFile : string -> list byte + error) (configPath payload payloadPath : string)
    : list byte + error :=
  if negb (configPath =s "") then readFile configPath
  else if negb (payload =s "") then inl (bytes payload)
  else if negb (payloadPath =s "") then readFile payloadPath
  else inr (Errorf "missing required configuration: pass --config, --config_payload, or --config_payload_path" []).

(** ** Storage and secrets *)
Definition initStorageResolver {B} (local : B) (newGCS : B + error) (cfg : PipelineConfig) : StorageResolver B + error :=
  if RequiresGCS (Some cfg) then
    match newGCS with
    | inr e => inr (Errorf ("failed initializing required GCS storage: " +:+ Error e) [e])
    | inl gcs => inl (mkResolver (Some local) (Some gcs))
    end
  else inl (mkResolver (Some local) None).

(** The surroundings of a process: its environment, the vault and the secret manager it
    reaches, and the order in which it ranges over the host overrides. *)
Record Surroundings (U : Type) := mkSurroundings {
  getenv : string -> string;
  vault : Request U -> Response + error;
  secretManager : (string -> list byte + error) + error;
  overrideOrder : gmap string string -> list (string * string) }.
Arguments mkSurroundings {U} _ _ _ _.
Arguments getenv {U} _.
Arguments vault {U} _.
Arguments secretManager {U} _.
Arguments overrideOrder {U} _.

Section Program.
Context {U : Type} `{GoURL U, GoQuote, UnicodeLower, GoUnmarshal, GoFormatV, GoMarshal (option (gmap string json))}.

Definition NewGCPSecretManagerResolver (env : Surroundings U) (cfg : option SecretsConfig)
    : GCPSecretManagerResolver + error :=
  match secretManager env with
  | inr e => inr (Errorf ("failed creating gcp secret manager client: " +:+ Error e) [e])
  | inl client => inl (mkGCP (resolveGCPProject (getenv env) cfg) (Some client))
  end.
Definition buildSecretResolver (env : Surroundings U) (cfg : option SecretsConfig) : SecretResolver :=
  let openbao := OpenBao_Resolve (vault env) (NewOpenBaoSecretResolver (getenv env) cfg) in
  let gcp :=
    match cfg with
    | Some c =>
        if negb (GCPProjectID c =s "") then
          match NewGCPSecretManagerResolver env cfg with
          | inl r => Some (GCP_Resolve r)
          | inr _ => None
          end
        else None
    | None => None
    end in
  Composite_Resolve (NewCompositeSecretResolver (Some openbao) gcp (match cfg with Some c => Provider c | None => "" end)).

(** ** The sources *)
Context {R W B : Type} `{HTTPWorld W U, FloatCvt, GoPow, CryptoRand, MapOrder, GoDuration, GoTimeParseZ, GoParseFloat, GoFormatFloat}.
(** The drivers of the databases ([SqlPool.v]), the ends of the ids of a collection, the
    files of a pattern, and what [Do] takes ([HttpClient.v]). *)
Context (sqlOpen : string -> string -> option error) (dbClose : DB -> option error) (connectedTo : DB -> SqlDB any R)
  (mongoConnect : string -> option error) (ping : string -> option error)
  (ranging : gmap string nat -> list (string * nat))
  (fetchMinMaxObjectIDs : string -> string -> option (Z * Z)) `{ObjectIDHex}
  (list_ : B -> string -> list string + error)
  (readFirst : bool) (carrier : gmap string string) (fuel : nat).

Definition anyBound (s : PartitionSlice string) : PartitionSlice any :=
  mkSlice (SliceIndex s) (AString <$> LowerBound s) (AString <$> UpperBound s) (IsFirst s) (IsLast s) (Metadata s).
(** [PartitionedReader.CalculatePartitions] *)
Definition CalculatePartitions (ts : callTimes) (r : PartitionedReader (K := any) (R := R)) (d : DatabaseSourceConfig)
    : result (list (PartitionSlice any)) :=
  match r with
  | SQLReader _ src => (CalculateSlices ts src d).1
  | MongoReader _ dbName => map anyBound <$> Mongo_CalculatePartitions dbName true fetchMinMaxObjectIDs d
  end.

Record PartitionedBeamSource := mkPartitioned {
  pb_Slices : list (PartitionSlice any); pb_Config : DatabaseSourceConfig; pb_Secrets : option SecretsConfig }.
Definition withDatabase (cfg : PipelineConfig) (d : DatabaseSourceConfig) : PipelineConfig :=
  mkPipeline (PipelineID cfg) (RunID cfg) (PipelineType cfg) (Runner cfg) (Config.Secrets cfg) (PcSchema cfg) (Source cfg)
    (Some d) (APISource cfg) (Destination cfg) (DLQ cfg) (QualityRules cfg) (Security cfg).
Definition overridden (env : Surroundings U) (sc : option SecretsConfig) (d : DatabaseSourceConfig) : DatabaseSourceConfig :=
  match sc with
  | Some sc => ApplyDatabaseHostOverrides d (overrideOrder env (HostOverride sc))
  | None => d
  end.
Definition BuildReader := BuildSource (K := any) (R := R) sqlOpen dbClose connectedTo mongoConnect ping.
(** The overrides are written through the pointer of the configuration. *)
Definition buildDatabaseSource (t : Z) (ts : callTimes) (env : Surroundings U) (cfg : PipelineConfig)
    (sec : option SecretResolver) (w : Process) : result PartitionedBeamSource * PipelineConfig * Process :=
  match DatabaseSource cfg with
  | None => (Err (Errorf "database_source config is required" []), cfg, w)
  | Some d =>
      let d := overridden env (Config.Secrets cfg) d in
      let cfg := withDatabase cfg d in
      match BuildReader t (Driver d) cfg sec w with
      | (inr e, w) => (Err (Errorf ("failed creating discovery reader: " +:+ Error e) [e]), cfg, w)
      | (inl reader, w) =>
          let slices := wrapErr "failed calculating partitions: " (CalculatePartitions ts reader d) in
          (s ← slices; Ok (mkPartitioned s d (Config.Secrets cfg)), cfg, CloseReader dbClose ranging reader w)
      end
  end.

Definition pagedProvider : Type := option APISourceConfig -> option RESTReader.
Record PagedAPIBeamSource := mkPaged { pa_Pages : list RestSource.PageSlice; pa_Reader : RESTReader; pa_Config : option APISourceConfig }.
(** [None]: the discovery asks again and again. [p] is the process-wide provider. *)
Definition buildAPISource (t : Z) (cfg : PipelineConfig) (sec : option SecretResolver) (p : option pagedProvider) (w : W)
    : option (result PagedAPIBeamSource * option pagedProvider * W) :=
  match restReaderFactory t (APISource cfg) sec with
  | inr e => Some (Err (Errorf ("failed resolving paged api source: " +:+ Error e) [e]), p, w)
  | inl reader =>
      option_map (fun '(pages, reader, w) =>
         (ps ← wrapErr "failed estimating API pages: " pages; Ok (mkPaged ps reader (APISource cfg)),
          Some (fun _ => Some reader), w)) (EstimatePages readFirst carrier fuel None reader w)
  end.

(** ** The run *)
Record World := mkWorld { w_disk : Disk; w_process : Process; w_api : W; w_paged : option pagedProvider }.
Definition withDisk (w : World) (d : Disk) : World := mkWorld d (w_process w) (w_api w) (w_paged w).
Inductive SourceBuilder :=
  | FromDatabase (s : PartitionedBeamSource) | FromAPI (s : PagedAPIBeamSource) | FromFiles (s : ByteStreamBeamSource).
Definition ofSum {A} (x : A + error) : result A := match x with inl a => Ok a | inr e => Err e end.
Definition List_ (storage : StorageResolver B) (pattern : string) : list string + error :=
  match selectBackend storage pattern with inl b => list_ b pattern | inr e => inr e end.
Definition buildSourceEngine (t : Z) (ts : callTimes) (env : Surroundings U) (cfg : PipelineConfig)
    (storage : StorageResolver B) (sec : option SecretResolver) (w : World)
    : option (result SourceBuilder * PipelineConfig * World) :=
  match DatabaseSource cfg, APISource cfg with
  | Some _, _ =>
      let '(s, cfg, p) := buildDatabaseSource t ts env cfg sec (w_process w) in
      Some (s ← s; Ok (FromDatabase s), cfg, mkWorld (w_disk w) p (w_api w) (w_paged w))
  | None, Some _ =>
      option_map (fun '(s, p, a) => (s ← s; Ok (FromAPI s), cfg, mkWorld (w_disk w) (w_process w) a p))
        (buildAPISource t cfg sec (w_paged w) (w_api w))
  | None, None => Some (s ← ofSum (buildByteStreamSource (List_ storage) cfg); Ok (FromFiles s), cfg, w)
  end.

(** What [BuildPipeline] and the metrics sink are given. *)
Record Parts := mkParts {
  p_source : SourceBuilder; p_sink : SinkBuilder; p_dlq : string; p_audit : option string; p_schema : Schema;
  p_quality : list QualityRule; p_security : SecurityConfig; p_metrics : MetricsSink; p_runner : string }.
Context `{GoMd5, GoParquetFile, GoMarshal PipelineMetrics}.
Context (run : Parts -> World -> option error * World).

Definition executePipeline (t : Z) (ts : callTimes) (env : Surroundings U) (local : B) (newGCS : B + error)
    (cfg : PipelineConfig) (w : World) : option (result unit * PipelineConfig * World) :=
  let cfg := ApplyDefaults cfg in
  match initStorageResolver local newGCS cfg with
  | inr e => Some (Err e, cfg, w)
  | inl storage =>
      let sec := buildSecretResolver env (Config.Secrets cfg) in
      match buildDestinationSink t cfg (mkDeps true (Some sec)) fuel with
      | None => None
      | Some (inr e) => Some (Err e, cfg, w)
      | Some (inl sink) =>
          option_map (fun '(source, cfg', w) =>
             match source with
             | Err e => (Err e, cfg', w)
             | Panic m => (Panic m, cfg', w)
             | Ok source =>
                 let parts := mkParts source sink (buildDLQSink cfg') (buildAuditSink cfg') (GetSchema cfg)
                                (QualityRules cfg') (Security cfg') (NewMetricsSink true (GetMetricsOutputDir (Some cfg')))
                                (Runner cfg') in
                 match run parts w with
                 | (Some e, w) => (Err (Errorf ("beam pipeline execution failed: " +:+ Error e) [e]), cfg', w)
                 | (None, w) =>
                     match writeExecutionMetrics cfg' (w_disk w) with
                     | (Some e, d) => (Err (Errorf ("failed writing execution metrics: " +:+ Error e) [e]), cfg', withDisk w d)
                     | (None, d) => (Ok tt, cfg', withDisk w d)
                     end
                 end
             end) (buildSourceEngine t ts env cfg storage (Some sec) w)
      end
  end.

Record Flags := mkFlags { configFlag : string; payloadFlag : string; payloadPathFlag : string; runnerFlag : option string }.
Definition withRunner (cfg : PipelineConfig) (flag : option string) : PipelineConfig :=
  match flag with
  | Some r =>
      if r =s "" then cfg
      else mkPipeline (PipelineID cfg) (RunID cfg) (PipelineType cfg) r (Config.Secrets cfg) (PcSchema cfg) (Source cfg)
             (DatabaseSource cfg) (APISource cfg) (Destination cfg) (DLQ cfg) (QualityRules cfg) (Security cfg)
  | None => cfg
  end.
(** The exit status and the world it leaves; a panic ends the program with status 2. *)
Definition main (t : Z) (ts : callTimes) (env : Surroundings U) (local : B) (newGCS : B + error)
    (readFile : string -> list byte + error) (unmarshal : list byte -> result PipelineConfig) (fs : Flags) (w : World)
    : option (Z * World) :=
  match readManifestPayload readFile (configFlag fs) (payloadFlag fs) (payloadPathFlag fs) with
  | inr _ => Some (1, w)
  | inl jsonBytes =>
      match ParsePipelineConfig unmarshal jsonBytes with
      | Err _ => Some (1, w)
      | Panic _ => Some (2, w)
      | Ok cfg =>
          option_map (fun '(r, cfg, w) =>
             match r with
             | Ok _ => (0, w)
             | Err e => (1, withDisk w (writeErrorFile (GetMetricsOutputDir (Some cfg)) (Some e) (w_disk w)))
             | Panic _ => (2, w)
             end) (executePipeline t ts env local newGCS (withRunner cfg (runnerFlag fs)) w)
      end
  end.

(** ** Workers ([worker_init.go]) *)
Definition emptySource : SourceConfig := mkSourceConfig "" "" [] "" "" "" false "" "" 0 (schemaOf []) None.
Definition emptyDestination : DestinationConfig :=
  mkDestination "" "" "" "" "" "" (mkEncryption "" "" "") false false (mkFormatOptions "" false "" "" false)
    (mkEndpoint "" "" "" ∅) (mkAPISink "" "" 0 "" 0 0 0) (mkBigQuery "" "" "" "" 0).
Definition workerDBProvider (t : Z) (env : Surroundings U) (d : DatabaseSourceConfig) (sc : option SecretsConfig) (w : Process)
    : (PartitionedReader (K := any) (R := R) + error) * Process :=
  let secretResolver := buildSecretResolver env sc in
  BuildReader t (Driver d)
    (mkPipeline "" "" "" "" sc None emptySource (Some d) None emptyDestination (mkDLQ false "" f0) [] (mkSecurity []))
    (Some secretResolver) w.
(** [Setup] of a function that was sent to a worker: its reader did not travel. *)
Definition workerSetup (t : Z) (env : Surroundings U) (s : PartitionedBeamSource) (w : Process)
    : option error * option (PartitionedReader (K := any) (R := R)) * Process :=
  PQ_Setup None (Some (workerDBProvider t env (pb_Config s) (pb_Secrets s))) (pb_Config s) w.

(** ** Lemmas *)
Context (Hranging : forall m, ranging m ≡ₚ map_to_list m).
Abbreviation processStep := (poolStep (K := any) (R := R) sqlOpen dbClose connectedTo mongoConnect ping ranging).
Lemma driver_kept env sc d : Driver (overridden env sc d) = Driver d /\ PasswordRef (overridden env sc d) = PasswordRef d.
Proof. by destruct sc. Qed.
Lemma reader_source t d sec cfg w r w' : DatabaseSource cfg = Some d -> sqlSource (Driver d) -> cacheOk w ->
  BuildReader t (Driver d) cfg sec w = (inl r, w') ->
  exists uri i p, ResolveConnectionURI (ConnectionURI d) (PasswordRef d) sec = inl uri
  /\ r = SQLReader i (NewGenericSQLSource t (Some (connectedTo p)) (isDollarStyle (Driver d)))
  /\ pools w' !! i = Some p /\ dbClosed p = false /\ dbDriver p = driverNameOf (Driver d) /\ dbURI p = uri.
Proof.
  intros Hd Hs Hc Hb. destruct (ResolveConnectionURI (ConnectionURI d) (PasswordRef d) sec) as [uri|e] eqn:Eu.
  - destruct (BuildSource_sql sqlOpen dbClose connectedTo mongoConnect ping t cfg d sec w uri Hd Hs Hc Eu)
      as [(i & p & w2 & _ & (Hp & Ho & _) & Hdr & Hur & _ & E)|(e & E & _)]; unfold BuildReader in Hb; rewrite E in Hb; [|done].
    injection Hb as <- <-. by exists uri, i, p.
  - exfalso. revert Hb. unfold BuildReader, BuildSource, lookupPort. rewrite Hs. unfold SqlPool.sqlReaderFactory. rewrite Hd.
    unfold GetOrCreateDB. by rewrite Eu.
Qed.

(** C8. Workers read the database whose key ranges the program computed. When the source
    of a pipeline is built, its slices were computed by a reader on an open pool for the
    driver and the URI of the configuration, after the host overrides and with the
    password and the secret the resolver gives; that pool is closed when the source has
    been built. A worker that is sent the source, in the same surroundings, sets up a
    reader on a pool of its own process that is open and has the same driver and URI. *)
Theorem workers_read_what_was_cut (t : Z) (ts : callTimes) (env : Surroundings U) (cfg cfg' : PipelineConfig)
    (d0 : DatabaseSourceConfig) (s : PartitionedBeamSource) (w w1 : Process) :
  rtc processStep startProcess w -> DatabaseSource cfg = Some d0 -> sqlSource (Driver d0) ->
  let sec := Some (buildSecretResolver env (Config.Secrets cfg)) in
  buildDatabaseSource t ts env cfg sec w = (Ok s, cfg', w1) ->
  let d := overridden env (Config.Secrets cfg) d0 in
  exists uri i p, ResolveConnectionURI (ConnectionURI d) (PasswordRef d) sec = inl uri
  /\ (dbDriver p = driverNameOf (Driver d0) /\ dbURI p = uri /\ dbClosed p = false)
  /\ (CalculateSlices ts (NewGenericSQLSource t (Some (connectedTo p)) (isDollarStyle (Driver d0))) d).1 = Ok (pb_Slices s)
  /\ pools w1 !! i = Some (closed p)
  /\ forall t' wk, rtc processStep startProcess wk -> sqlOpen (driverNameOf (Driver d0)) uri = None ->
       exists j q wk', workerSetup t' env s wk
           = (None, Some (SQLReader j (NewGenericSQLSource t' (Some (connectedTo q)) (isDollarStyle (Driver d0)))), wk')
       /\ pools wk' !! j = Some q /\ dbClosed q = false /\ dbDriver q = dbDriver p /\ dbURI q = dbURI p.
Proof.
  intros Hw Hd0 Hs sec Hb d. apply (reachable_ok _ _ _ _ _ _ Hranging) in Hw. unfold buildDatabaseSource in Hb.
  rewrite Hd0 in Hb. fold d in Hb. destruct (driver_kept env (Config.Secrets cfg) d0) as [Hdr Hpw]. fold d in Hdr, Hpw.
  destruct (BuildReader t (Driver d) (withDatabase cfg d) sec w) as [[r|e] w2] eqn:Er; [|done].
  assert (sqlSource (Driver d)) as Hs' by by rewrite Hdr.
  assert (cacheOk w2) as Hc2.
  { change w2 with ((inl (B := error) r, w2)).2. rewrite <- Er. by apply BuildSource_ok. }
  destruct (reader_source t d sec (withDatabase cfg d) w r w2 eq_refl Hs' Hw Er) as (uri & i & p & Hu & -> & Hp & Ho & Hpd & Hpu).
  rewrite Hdr in Hpd, Er, Hb. cbn [CalculatePartitions] in Hb. injection Hb as Hsl _ <-.
  exists uri, i, p. split; [done|]. split; [done|].
  destruct (CalculateSlices ts _ d) as [[slices|e|m] src'] eqn:Ec; cbn in Hsl; [|done|done]. injection Hsl as <-.
  split; [done|]. split.
  - destruct (CloseDB_spec dbClose ranging Hranging w2 i Hc2) as (Hcl & _).
    change (pools (CloseDB dbClose ranging (Some i) w2).2 !! i = Some (closed p)). by rewrite Hcl, list_lookup_alter_eq, Hp.
  - intros t' wk Hwk Hopen. apply (reachable_ok _ _ _ _ _ _ Hranging) in Hwk.
    unfold workerSetup, PQ_Setup, workerDBProvider, BuildReader. cbn [pb_Config pb_Secrets].
    match goal with |- context [BuildSource _ _ _ _ _ t' _ ?c _ _] =>
      destruct (BuildSource_sql sqlOpen dbClose connectedTo mongoConnect ping t' c d sec wk uri eq_refl Hs' Hwk Hu)
        as [(j & q & wk' & _ & (Hq & Hqo & _) & Hqd & Hqu & _ & E)|(e & _ & Hne)] end.
    + unfold sec in E. cbn [withDatabase Config.Secrets]. rewrite E, Hdr. exists j, q, wk'.
      rewrite Hqd, Hqu, Hpd, Hpu, Hdr. done.
    + by rewrite Hdr in Hne.
Qed.

(** What a run that ended did to the world, and how it ended: nothing ran and the disk is
    as it was; the runner failed; the report failed; or all went well. *)
Inductive ended (w : World) : result unit * PipelineConfig * World -> Prop :=
  | ended_before r cfg w2 : r <> Ok tt -> w_disk w2 = w_disk w -> ended w (r, cfg, w2)
  | ended_run parts w1 e cfg w2 : w_disk w1 = w_disk w -> run parts w1 = (Some e, w2) ->
      ended w (Err (Errorf ("beam pipeline execution failed: " +:+ Error e) [e]), cfg, w2)
  | ended_report parts w1 e cfg w2 d : w_disk w1 = w_disk w -> run parts w1 = (None, w2) ->
      writeExecutionMetrics cfg (w_disk w2) = (Some e, d) ->
      ended w (Err (Errorf ("failed writing execution metrics: " +:+ Error e) [e]), cfg, withDisk w2 d)
  | ended_well parts w1 cfg w2 d : w_disk w1 = w_disk w -> run parts w1 = (None, w2) ->
      writeExecutionMetrics cfg (w_disk w2) = (None, d) -> ended w (Ok tt, cfg, withDisk w2 d).
Lemma buildSourceEngine_disk t ts env cfg storage sec w s cfg' w' :
  buildSourceEngine t ts env cfg storage sec w = Some (s, cfg', w') -> w_disk w' = w_disk w.
Proof.
  unfold buildSourceEngine. destruct (DatabaseSource cfg) as [d|].
  - destruct (buildDatabaseSource t ts env cfg sec (w_process w)) as [[r c] p]. by intros [= _ _ <-].
  - destruct (APISource cfg) as [a|]; [|by intros [= _ _ <-]].
    destruct (buildAPISource t cfg sec (w_paged w) (w_api w)) as [[[r p] a']|]; cbn; [|done]. by intros [= _ _ <-].
Qed.
Lemma executePipeline_ended t ts env local newGCS cfg w o : executePipeline t ts env local newGCS cfg w = Some o -> ended w o.
Proof.
  unfold executePipeline. destruct (initStorageResolver _ _ _) as [storage|e]; [|intros [= <-]; by apply ended_before].
  destruct (buildDestinationSink _ _ _ _) as [[sink|e]|]; [|intros [= <-]; by apply ended_before|done].
  destruct (buildSourceEngine _ _ _ _ _ _ _) as [[[source cfg'] w1]|] eqn:Es; [|done]. cbn [option_map].
  apply buildSourceEngine_disk in Es. intros [= <-].
  destruct source as [source|e|m]; [|by apply ended_before|by apply ended_before].
  match goal with |- context [run ?p w1] => set (parts := p) end.
  destruct (run parts w1) as [[e|] w2] eqn:Er; [by eapply ended_run|].
  destruct (writeExecutionMetrics cfg' (w_disk w2)) as [[e|] d] eqn:Em; [by eapply ended_report|by eapply ended_well].
Qed.
Lemma writeErrorFile_healthy dir e d : faults d = [] -> dir <> "" -> isGCS dir = false ->
  writeErrorFile dir (Some e) d = withFiles d (<[Join2 dir "error.txt" := bytes (Error e)]> (files d)).
Proof.
  intros Hf Hd Hg. unfold writeErrorFile, os_MkdirAll, nextFault. rewrite (proj2 (String.eqb_neq _ _) Hd), Hg, Hf. cbn [orb].
  by rewrite os_WriteFile_healthy.
Qed.

(** C18. The exit status tells what happened. Status 0: the manifest was read and is valid,
    the runner ran without an error, and the report was written after it. Status 1: there
    is no valid manifest and the world is untouched; or nothing ran, the runner failed or
    the report failed, and then (the disk working, and the directory being local) the
    directory of the metrics holds the message in [error.txt], and no other file
    changed after the failure. *)
Theorem main_status (t : Z) (ts : callTimes) (env : Surroundings U) (local : B) (newGCS : B + error)
    (readFile : string -> list byte + error) (unmarshal : list byte -> result PipelineConfig) (fs : Flags)
    (w w' : World) (status : Z) :
  main t ts env local newGCS readFile unmarshal fs w = Some (status, w') ->
  (status = 0 -> exists b cfg cfg' parts w1 w2,
     readManifestPayload readFile (configFlag fs) (payloadFlag fs) (payloadPathFlag fs) = inl b
     /\ ParsePipelineConfig unmarshal b = Ok cfg
     /\ w_disk w1 = w_disk w /\ run parts w1 = (None, w2)
     /\ exists d, writeExecutionMetrics cfg' (w_disk w2) = (None, d) /\ w' = withDisk w2 d)
  /\ (status = 1 -> w' = w \/ exists e cfg' w2, ended w (Err e, cfg', w2)
       /\ let dir := GetMetricsOutputDir (Some cfg') in
          w' = withDisk w2 (writeErrorFile dir (Some e) (w_disk w2))
          /\ (faults (w_disk w2) = [] -> dir <> "" -> isGCS dir = false ->
              files (w_disk w') = <[Join2 dir "error.txt" := bytes (Error e)]> (files (w_disk w2))))
  /\ 0 <= status <= 2.
Proof.
  unfold main. destruct (readManifestPayload _ _ _ _) as [b|e] eqn:Eb.
  2:{ intros [= <- <-]. split; [done|]. split; [by left|lia]. }
  destruct (ParsePipelineConfig unmarshal b) as [cfg|e|m] eqn:Ec.
  2:{ intros [= <- <-]. split; [done|]. split; [by left|lia]. }
  2:{ intros [= <- <-]. split; [done|]. split; [done|lia]. }
  destruct (executePipeline _ _ _ _ _ _ _) as [[[r cfg'] w2]|] eqn:Ex; [|done]. apply executePipeline_ended in Ex.
  cbn [option_map]. destruct r as [[]|e|m]; intros [= <- <-].
  - split; [intros _|split; [done|lia]]. inversion Ex as [? ? ? Hn| | |parts w1 ? w3 d Hd Hr Hm]; subst; [done|].
    exists b, cfg, cfg', parts, w1, w3. repeat (split; [done|]). by exists d.
  - split; [done|]. split; [intros _; right|lia]. exists e, cfg', w2. split; [done|]. cbn zeta. split; [done|].
    intros. change (files (writeErrorFile (GetMetricsOutputDir (Some cfg')) (Some e) (w_disk w2))
      = <[Join2 (GetMetricsOutputDir (Some cfg')) "error.txt" := bytes (Error e)]> (files (w_disk w2))).
    by rewrite writeErrorFile_healthy.
  - split; [done|]. split; [done|lia].
Qed.
End Program.

(** ** Witnesses and findings *)
Section Samples.
#[local] Instance mLower : UnicodeLower := fun s => s.
#[local] Instance mQuote : GoQuote := fun s => s.
#[local] Instance mURL : GoURL string := {| urlParse := fun s => inl (s, ""); urlString := fun u _ => u |}.
#[local] Instance mUnmarshal : GoUnmarshal := fun _ => inr (Errorf "syntax" []).
#[local] Instance mFormatV : GoFormatV := fun _ => "1".
#[local] Instance mMarshalMap : GoMarshal (option (gmap string json)) := fun _ => inl [].
#[local] Instance mMarshal : GoMarshal PipelineMetrics := fun m => inl (bytes (FormatInt (RowsWritten m))).
#[local] Instance mDuration : GoDuration := fun _ => "".
#[local] Instance mTime : GoTimeParseZ := fun _ _ => Err (Sentinel "time").
#[local] Instance mFloat : GoParseFloat := fun _ => Err (Sentinel "float").
#[local] Instance mFormat : GoFormatFloat := fun _ => "0".
#[local] Instance mHex : ObjectIDHex := {| Hex := fun _ => ""; ObjectIDFromHex := fun _ => None |}.
#[local] Instance mCvt : FloatCvt := fun _ => 0.
#[local] Instance mPow : GoPow := fun _ _ => of_int 1.
#[local] Instance mRand : CryptoRand := fun _ => Some 0.
#[local] Instance mMd5 : GoMd5 := fun b => str b.
#[local] Instance mParquet : GoParquetFile :=
  {| parquetNumRows := fun b => inl (zlen b); parquetRead := fun _ => mkFile "" (Ok tt) (Ok tt) (Ok tt) [] [] |}.
#[local] Instance mWorld : HTTPWorld unit string := {|
  now := fun _ => 0; ctxErr := fun _ => None; waitFor := fun _ w => (None, w);
  roundTrip := fun _ w => (inr (Sentinel "offline"), [], w) |}.
Definition nowhere : Surroundings string :=
  mkSurroundings (fun _ => "") (fun _ => inr (Sentinel "no vault")) (inr (Sentinel "no credentials")) map_to_list.
Definition oneBucket (_ : DB) : SqlDB any Z :=
  mkDB (fun _ _ => Ok ([1], None)) (fun _ => Ok (SqlSource.mkBucket 1 (Some (AInt64 1)) (Some (AInt64 9)))) (fun _ ts => Ok ts).
Definition openAll (driver uri : string) : option error := None.
Definition noError {A} (_ : A) : option error := None.
Definition cutSource : result PartitionedBeamSource * PipelineConfig * Process :=
  buildDatabaseSource openAll noError oneBucket noError noError map_to_list (fun _ _ => None) 0 (mkTimes 0 0 0) nowhere
    (configOf "postgres" noPool) (Some (buildSecretResolver nowhere None)) startProcess.
Lemma workers_read_what_was_cut_witness : exists s cfg' w1, cutSource = (Ok s, cfg', w1)
  /\ length (pb_Slices s) = 1%nat
  /\ exists p j q wk', dbURI p = "postgres://db/shop" /\ dbURI q = dbURI p
     /\ workerSetup openAll noError oneBucket noError noError 7 nowhere s startProcess
        = (None, Some (SQLReader j (NewGenericSQLSource 7 (Some (oneBucket q)) true)), wk').
Proof.
  eexists _, _, _. split; [vm_compute; reflexivity|]. split; [vm_compute; reflexivity|].
  edestruct (workers_read_what_was_cut openAll noError oneBucket noError noError map_to_list (fun _ _ => None)
            (fun _ => reflexivity _) 0 (mkTimes 0 0 0) nowhere (configOf "postgres" noPool)
            (cutSource).1.2 (sourceOf "postgres" noPool)) as (uri & i & p & Hu & (Hp & Hpu & _) & _ & _ & Hk);
    [apply rtc_refl|reflexivity|vm_compute; reflexivity|vm_compute; reflexivity|].
  destruct (Hk 7 startProcess) as (j & q & wk' & Hs & _ & _ & _ & Hq); [apply rtc_refl|reflexivity|].
  exists p, j, q, wk'. split; [|split; [exact Hq|exact Hs]].
  rewrite Hpu. vm_compute in Hu. by injection Hu as <-.
Defined.

(** A run that copies one file. *)
Definition filesConfig (metrics : string) : PipelineConfig :=
  mkPipeline "p" "r" "csv" "" None (Some sampleSchema)
    (mkSourceConfig "file" "/in/a.csv" [] "csv" "" "" false "" "" 0 (schemaOf []) None) None None
    (mkDestination "" "" "csv" "/data/out.csv" metrics "" (mkEncryption "" "" "") true false
       (mkFormatOptions "" false "" "" false) (mkEndpoint "" "" "" ∅)
       (mkAPISink "" "" 0 "" 0 0 0) (mkBigQuery "" "" "" "" 0))
    (mkDLQ true "" (of_int 0)) [] (mkSecurity []).
Definition copying (_ : Parts) (w : World (W := unit)) : option error * World (W := unit) :=
  (None, withDisk w (withFiles (w_disk w) (<["/data/out.csv" := bytes "row"]> (files (w_disk w))))).
Definition start : World (W := unit) := mkWorld (mkDisk ∅ [] 0) startProcess tt None.
Definition mainSample (run : Parts -> World (W := unit) -> option error * World (W := unit)) : option (Z * World (W := unit)) :=
  main openAll noError oneBucket noError noError map_to_list (fun _ _ => None) (fun (_ : unit) p => inl [p]) false ∅ 3 run
    0 (mkTimes 0 0 0) nowhere tt (inr (Sentinel "no credentials")) (fun _ => inr (Sentinel "no file"))
    (fun _ => Ok (filesConfig "")) (mkFlags "" "{}" "" (Some "direct")) start.
Lemma main_status_witness :
  (exists w', mainSample copying = Some (0, w') /\ str <$> files (w_disk w') !! "/data/metrics.json" = Some "1"
     /\ exists parts w1 w2, copying parts w1 = (None, w2))
  /\ exists w', mainSample (fun _ w => (Some (Sentinel "worker lost"), w)) = Some (1, w')
       /\ str <$> files (w_disk w') !! "/data/error.txt" = Some "beam pipeline execution failed: worker lost".
Proof.
  split.
  - destruct (mainSample copying) as [[st w']|] eqn:E; [|exfalso; vm_compute in E; discriminate].
    assert (st = 0 /\ str <$> files (w_disk w') !! "/data/metrics.json" = Some "1") as [-> Hm].
    { vm_compute in E. injection E as <- <-. split; vm_compute; reflexivity. }
    exists w'. split; [reflexivity|]. split; [exact Hm|].
    unfold mainSample in E. apply main_status in E as (K & _).
    destruct (K eq_refl) as (_ & _ & _ & parts & w1 & w2 & _ & _ & _ & Hr & _). by exists parts, w1, w2.
  - eexists. split; vm_compute; reflexivity.
Defined.

(** The project of the environment is not enough to reach the secret manager. *)
Definition inProject : Surroundings string :=
  mkSurroundings (fun n => if n =s "GCP_PROJECT_ID" then "prod" else "") (fun _ => inr (Sentinel "no vault"))
    (inl (fun _ => inl (bytes "s3cret"))) map_to_list.
Lemma project_of_environment_ignored :
  (exists e, buildSecretResolver inProject (Some (mkSecrets "gcp" "" "" "" ∅)) "gcp:db-password" = inr e)
  /\ buildSecretResolver inProject (Some (mkSecrets "gcp" "" "" "prod" ∅)) "gcp:db-password" = inl "s3cret".
Proof. split; [eexists; vm_compute; reflexivity|vm_compute; reflexivity]. Qed.
(** A bucket for the metrics alone: no client is made for it, and its storage is refused. *)
Lemma metrics_bucket_refused : exists r e, initStorageResolver tt (inl tt) (filesConfig "gs://bucket/metrics") = inl r
  /\ GetMetricsOutputDir (Some (filesConfig "gs://bucket/metrics")) = "gs://bucket/metrics"
  /\ selectBackend r "gs://bucket/metrics/pipeline_metrics.json" = inr e.
Proof. eexists _, _. split; [vm_compute; reflexivity|]. split; vm_compute; reflexivity. Qed.
End Samples.
