(* ===== verification/Workers.v ===== *)
(** * Workers

    Models [cmd/pipeline/worker_init.go] and the process-wide providers of
    [internal/beam] ([reader_provider.go] of three packages, [storage_provider.go], and the
    setters beside the sinks): an element function travels to a worker without its
    unexported fields, and gets them back from what the worker's process registered.

    The wrapper of streams has no state; a resolver of storages stands for the reader it is
    given as. [B] is the type of a storage backend. *)
From S2P Require Import Prelude GoStr Float64 Schema RecordModel Trackers Config UrlQuery ByteStream Resilience SqlSource Storage FileSink Jsonl JsonUtils HttpClient RestSource ApiSink BigQuery Secrets Connectors SqlPool Main.

Section Workers.
Context {U R B : Type} `{GoURL U, GoQuote, UnicodeLower, GoUnmarshal, GoFormatV, GoMarshal (option (gmap string json)),
  GoDuration, GoFormatFloat, GoJSON, StreamCompressors}.

(** ** The providers of a process *)
Definition readerProvider : Type :=
  DatabaseSourceConfig -> option SecretsConfig -> Process -> (PartitionedReader (K := any) (R := R) + error) * Process.
Record Providers := mkWorker {
  globalPartitionedReaderProvider : option readerProvider;
  globalPagedAPIReaderProvider : option pagedProvider;
  globalStorageReaderProvider : option (string -> StorageResolver B);
  globalStreamWrapperProvider : option (SourceConfig -> unit);
  globalStreamDecoderProvider : option (SourceConfig -> option Decoder);
  globalStorageFactory : option (string -> StorageResolver B);
  recordFormatterProvider : option (string -> FormatOptions -> Schema -> option RecordFormatter);
  compressorProvider_ : option (string -> option byteCodec + error);
  streamEncryptorProvider : option (EncryptionConfig -> byteCodec + error);
  globalAPIWriterFactory : option (APIEndpointConfig -> APISinkOptions -> string -> APISink);
  globalWriterProvider : option (string -> StorageWriteAdapter + error) }.
(** At the start only the compressor is set, to one that compresses nothing. *)
Definition initialProviders : Providers :=
  mkWorker None None None None None None None (Some (fun _ => inl None)) None None None.

Definition SetPartitionedReaderProvider p (v : Providers) : Providers :=
  mkWorker p (globalPagedAPIReaderProvider v) (globalStorageReaderProvider v) (globalStreamWrapperProvider v)
    (globalStreamDecoderProvider v) (globalStorageFactory v) (recordFormatterProvider v) (compressorProvider_ v)
    (streamEncryptorProvider v) (globalAPIWriterFactory v) (globalWriterProvider v).
Definition SetPagedAPIReaderProvider p (v : Providers) : Providers :=
  mkWorker (globalPartitionedReaderProvider v) p (globalStorageReaderProvider v) (globalStreamWrapperProvider v)
    (globalStreamDecoderProvider v) (globalStorageFactory v) (recordFormatterProvider v) (compressorProvider_ v)
    (streamEncryptorProvider v) (globalAPIWriterFactory v) (globalWriterProvider v).
Definition SetStorageReaderProvider p (v : Providers) : Providers :=
  mkWorker (globalPartitionedReaderProvider v) (globalPagedAPIReaderProvider v) p (globalStreamWrapperProvider v)
    (globalStreamDecoderProvider v) (globalStorageFactory v) (recordFormatterProvider v) (compressorProvider_ v)
    (streamEncryptorProvider v) (globalAPIWriterFactory v) (globalWriterProvider v).
Definition SetStreamWrapperProvider p (v : Providers) : Providers :=
  mkWorker (globalPartitionedReaderProvider v) (globalPagedAPIReaderProvider v) (globalStorageReaderProvider v) p
    (globalStreamDecoderProvider v) (globalStorageFactory v) (recordFormatterProvider v) (compressorProvider_ v)
    (streamEncryptorProvider v) (globalAPIWriterFactory v) (globalWriterProvider v).
Definition SetStreamDecoderProvider p (v : Providers) : Providers :=
  mkWorker (globalPartitionedReaderProvider v) (globalPagedAPIReaderProvider v) (globalStorageReaderProvider v)
    (globalStreamWrapperProvider v) p (globalStorageFactory v) (recordFormatterProvider v) (compressorProvider_ v)
    (streamEncryptorProvider v) (globalAPIWriterFactory v) (globalWriterProvider v).
Definition SetStorageFactory p (v : Providers) : Providers :=
  mkWorker (globalPartitionedReaderProvider v) (globalPagedAPIReaderProvider v) (globalStorageReaderProvider v)
    (globalStreamWrapperProvider v) (globalStreamDecoderProvider v) p (recordFormatterProvider v) (compressorProvider_ v)
    (streamEncryptorProvider v) (globalAPIWriterFactory v) (globalWriterProvider v).
Definition SetRecordFormatterProvider p (v : Providers) : Providers :=
  mkWorker (globalPartitionedReaderProvider v) (globalPagedAPIReaderProvider v) (globalStorageReaderProvider v)
    (globalStreamWrapperProvider v) (globalStreamDecoderProvider v) (globalStorageFactory v) p (compressorProvider_ v)
    (streamEncryptorProvider v) (globalAPIWriterFactory v) (globalWriterProvider v).
Definition SetCompressorProvider p (v : Providers) : Providers :=
  mkWorker (globalPartitionedReaderProvider v) (globalPagedAPIReaderProvider v) (globalStorageReaderProvider v)
    (globalStreamWrapperProvider v) (globalStreamDecoderProvider v) (globalStorageFactory v) (recordFormatterProvider v) p
    (streamEncryptorProvider v) (globalAPIWriterFactory v) (globalWriterProvider v).
Definition SetGlobalBigQueryWriterProvider p (v : Providers) : Providers :=
  mkWorker (globalPartitionedReaderProvider v) (globalPagedAPIReaderProvider v) (globalStorageReaderProvider v)
    (globalStreamWrapperProvider v) (globalStreamDecoderProvider v) (globalStorageFactory v) (recordFormatterProvider v)
    (compressorProvider_ v) (streamEncryptorProvider v) (globalAPIWriterFactory v) p.

(** ** [worker_init.go], and [init] of [main.go] *)
Context (sqlOpen : string -> string -> option error) (dbClose : DB -> option error) (connectedTo : DB -> SqlDB any R)
  (mongoConnect ping : string -> option error).
Definition registerWorkerDBProviders (t : Z) (env : Surroundings U) : Providers -> Providers :=
  SetPartitionedReaderProvider (Some (workerDBProvider sqlOpen dbClose connectedTo mongoConnect ping t env)).
Definition registerWorkerStorageProviders (local : B) (newGCS : B + error) (v : Providers) : Providers :=
  let resolver := mkResolver (Some local) (match newGCS with inl gcs => Some gcs | inr _ => None end) in
  SetStorageFactory (Some (fun _ => resolver)) (SetStorageReaderProvider (Some (fun _ => resolver)) v).
Definition registerWorkerStreamProviders (v : Providers) : Providers :=
  let v := SetStreamWrapperProvider (Some (fun _ => tt)) v in
  let v := SetStreamDecoderProvider (Some (fun cfg => match BuildDecoder (Some cfg) with inl dec => Some dec | inr _ => None end)) v in
  let v := SetRecordFormatterProvider
             (Some (fun format opts _ => match BuildFormatter format opts with
                                         | inl f => Some (formatterOf f)
                                         | inr _ => None
                                         end)) v in
  SetCompressorProvider (Some WrapCompressor) v.
Definition registerWorkerProviders (t : Z) (env : Surroundings U) (local : B) (newGCS : B + error) (v : Providers) : Providers :=
  registerWorkerStreamProviders (registerWorkerStorageProviders local newGCS (registerWorkerDBProviders t env v)).
Definition registerBigQuery : Providers -> Providers :=
  SetGlobalBigQueryWriterProvider (Some (fun _ => inl NewStorageWriteAdapter)).
(** What a process has before its harness starts: both hooks ran, in some order. *)
Definition workerProcess (t : Z) (env : Surroundings U) (local : B) (newGCS : B + error) : Providers :=
  registerWorkerProviders t env local newGCS (registerBigQuery initialProviders).
(** What the sinks see of them. *)
Definition sinkProviders (v : Providers) : SinkProviders :=
  mkProviders (match globalStorageFactory v with Some _ => true | None => false end) (recordFormatterProvider v)
    (compressorProvider_ v) (streamEncryptorProvider v).

(** ** [ByteStreamSourceSDF] *)
Record ByteStreamSDF := mkByteStreamSDF {
  bf_SourceCfg : SourceConfig; bf_reader : option (StorageResolver B); bf_wrapper : option unit; bf_decoder : option Decoder }.
Definition NewByteStreamSourceSDF (reader : option (StorageResolver B)) (wrapper : option unit) (decoder : option Decoder)
    (cfg : SourceConfig) : ByteStreamSDF := mkByteStreamSDF cfg reader wrapper decoder.
(** What the encoding of the function keeps. *)
Definition travelled (fn : ByteStreamSDF) : ByteStreamSDF := mkByteStreamSDF (bf_SourceCfg fn) None None None.
Definition ensureReader (v : Providers) (fileURI : string) (fn : ByteStreamSDF) : result ByteStreamSDF :=
  let reader := match bf_reader fn, globalStorageReaderProvider v with
                | None, Some make => Some (make fileURI)
                | r, _ => r
                end in
  match reader with
  | None => Err (Errorf "storage reader is not initialized" [])
  | Some r => Ok (mkByteStreamSDF (bf_SourceCfg fn) (Some r) (bf_wrapper fn) (bf_decoder fn))
  end.
Definition ensureDecoderAndWrapper (v : Providers) (fn : ByteStreamSDF) : result ByteStreamSDF :=
  let decoder := match bf_decoder fn, globalStreamDecoderProvider v with
                 | None, Some make => make (bf_SourceCfg fn)
                 | d, _ => d
                 end in
  match decoder with
  | None => Err (Errorf "stream decoder is not initialized" [])
  | Some d =>
      Ok (mkByteStreamSDF (bf_SourceCfg fn) (bf_reader fn)
            (match bf_wrapper fn, globalStreamWrapperProvider v with
             | None, Some make => Some (make (bf_SourceCfg fn))
             | w, _ => w
             end) (Some d))
  end.
(** How [CreateInitialRestriction] and [ProcessElement] start. *)
Definition BS_CreateInitialRestriction (size : StorageResolver B -> string -> result Z) (v : Providers) (fileURI : string)
    (fn : ByteStreamSDF) : result OffsetRange :=
  fn ← ensureReader v fileURI fn;
  match bf_reader fn with
  | Some r => CreateInitialRestriction (size r) fileURI
  | None => Panic "runtime error: invalid memory address or nil pointer dereference"
  end.
Definition readyToRead (v : Providers) (fileURI : string) (fn : ByteStreamSDF) : result ByteStreamSDF :=
  fn ← ensureReader v fileURI fn; ensureDecoderAndWrapper v fn.
Definition sourceSDF (storage : StorageResolver B) (s : ByteStreamBeamSource) : ByteStreamSDF :=
  NewByteStreamSourceSDF (Some storage) (Some tt) (Some (bs_Decoder s)) (bs_Config s).

(** A worker does with a function it is sent what the submitting process would. The
    function that reads files gets, on any worker, a storage reader for local files (and
    for buckets, when the client can be made), the wrapper, and exactly the decoder the
    submitter built; the sinks get the storage, the formatter of the submitter's
    destination and the compressor. A format nobody registered stops the reader with an
    error instead. *)
Theorem workers_are_supplied (t : Z) (env : Surroundings U) (local : B) (newGCS : B + error) (list_ : string -> list string + error)
    (storage : StorageResolver B) (cfg : PipelineConfig) (fileURI : string) :
  let v := workerProcess t env local newGCS in
  let resolver := mkResolver (Some local) (match newGCS with inl gcs => Some gcs | inr _ => None end) in
  (forall s, buildByteStreamSource list_ cfg = inl s ->
     readyToRead v fileURI (travelled (sourceSDF storage s))
     = Ok (mkByteStreamSDF (Source cfg) (Some resolver) (Some tt) (Some (bs_Decoder s))))
  /\ (forall fn e, BuildDecoder (Some (bf_SourceCfg fn)) = inr e -> exists e', readyToRead v fileURI (travelled fn) = Err e')
  /\ (forall deps b storage' f dir format comp enc opts single schema, delimitedSink cfg deps = inl b ->
        b = StreamFileBeamSink storage' f dir format comp enc opts single schema ->
        exists p, formatterProvider (sinkProviders v) = Some p /\ p format opts schema = Some (formatterOf f))
  /\ storageFactory (sinkProviders v) = true /\ compressorProvider (sinkProviders v) = Some WrapCompressor.
Proof.
  intros v resolver. split; [|split; [|split; [|done]]].
  - intros s Hs. unfold buildByteStreamSource in Hs. destruct (BuildDecoder (Some (Source cfg))) as [dec|] eqn:Ed; [|done].
    destruct (sourceFiles list_ (Source cfg)) as [fs|]; [|done]. injection Hs as <-.
    unfold readyToRead, ensureReader, ensureDecoderAndWrapper. cbn. by rewrite Ed.
  - intros fn e He. unfold readyToRead, ensureReader, ensureDecoderAndWrapper. cbn. rewrite He. eauto.
  - intros deps b storage' f dir format comp enc opts single schema Hb ->. unfold delimitedSink in Hb.
    destruct (BuildFormatter _ _) as [g|] eqn:Eg; [|done]. injection Hb as <- <- _ <- _ _ <- _ _.
    eexists. split; [done|]. cbn. by rewrite Eg.
Qed.
(** Nothing gives a worker the reader of an API, or the writer of one. *)
Lemma no_api_on_workers t env local newGCS (cfg : option APISourceConfig) :
  (exists e fn, API_Setup (globalPagedAPIReaderProvider (workerProcess t env local newGCS)) (mkPagedSDF None cfg) = (Some e, fn))
  /\ globalAPIWriterFactory (workerProcess t env local newGCS) = None.
Proof. split; [|done]. eexists _, _. reflexivity. Qed.
End Workers.

Section Samples.
#[local] Instance wkLower : UnicodeLower := fun s => s.
#[local] Instance wkQuote : GoQuote := fun s => s.
#[local] Instance wkURL : GoURL string := {| urlParse := fun s => inl (s, ""); urlString := fun u _ => u |}.
#[local] Instance wkUnmarshal : GoUnmarshal := fun _ => inr (Errorf "syntax" []).
#[local] Instance wkFormatV : GoFormatV := fun _ => "1".
#[local] Instance wkMarshal : GoMarshal (option (gmap string json)) := fun _ => inl [].
#[local] Instance wkDuration : GoDuration := fun _ => "".
#[local] Instance wkFormat : GoFormatFloat := fun _ => "0".
#[local] Instance wkJSON : GoJSON := {| jsonString s := "'" +:+ s +:+ "'"; jsonBytes b := str b |}.
#[local] Instance wkCodecs : StreamCompressors := {| gzipC := sampleCodec; zstdC := sampleCodec; snappyC := sampleCodec |}.
Lemma workers_are_supplied_witness :
  let v := workerProcess (R := Z) openAll noError oneBucket noError noError 0 nowhere tt (inr (Sentinel "no credentials")) in
  exists s, buildByteStreamSource (fun p => inl [p]) (filesConfig "") = inl s
  /\ bs_URIs s = ["/in/a.csv"]
  /\ readyToRead v "/in/a.csv" (travelled (sourceSDF (mkResolver (Some tt) None) s))
     = Ok (mkByteStreamSDF (Source (filesConfig "")) (Some (mkResolver (Some tt) None)) (Some tt) (Some (bs_Decoder s))).
Proof.
  intros v. destruct (buildByteStreamSource (fun p => inl [p]) (filesConfig "")) as [s|e] eqn:E; [|exfalso; vm_compute in E; discriminate].
  exists s. split; [reflexivity|]. split; [vm_compute in E; injection E as <-; reflexivity|].
  destruct (workers_are_supplied (R := Z) openAll noError oneBucket noError noError 0 nowhere tt (inr (Sentinel "no credentials"))
              (fun p => inl [p]) (mkResolver (Some tt) None) (filesConfig "") "/in/a.csv") as (K & _).
  exact (K s E).
Defined.
End Samples.
