(* ===== verification/CodecPools.v ===== *)
(** * The pools of compressors and decompressors

    [internal/adapters/streams/codecs/compression]: [WrapDecompressor] and
    [WrapCompressor] take their readers and writers from process-wide pools and the
    wrappers they return give them back when closed. Here the pooled objects are a shared
    store, the wrappers hold indices into it, and two wrappers that hold the same object
    interfere. Connectors.v uses the two functions as if each stream had a codec of its
    own; the theorem of this file is that this is what callers see, as long as no wrapper
    is used after it was closed. Also the pool of buffers of
    [internal/adapters/streams/formatters/pool.go]. *)
From S2P Require Import Prelude GoStr Schema Config FileSink Csv Connectors.

Inductive Kind := GzipReader | ZstdReader | SnappyReader | GzipWriter | ZstdWriter | SnappyWriter.
#[export] Instance Kind_dec : EqDecision Kind.
Proof. solve_decision. Defined.

(** A call of one of the two functions, with the name of the format. *)
Inductive WrapCall := Decompress (compType : string) | Compress (compression : string).
(** What the name selects: the stream itself, a codec that is not pooled, a pooled one. *)
Inductive Selected := Plain | Unpooled | Pooled (k : Kind).
Section Select.
Context `{UnicodeLower, GoQuote}.
Definition selectReader (compType : string) : Selected + error :=
  let t := lowerTrim compType in
  if (t =s "") || (t =s "none") then inl Plain
  else if (t =s "gzip") || (t =s "gz") then inl (Pooled GzipReader)
  else if t =s "zstd" then inl (Pooled ZstdReader)
  else if (t =s "snappy") || (t =s "sz") then inl (Pooled SnappyReader)
  else if (t =s "bzip2") || (t =s "bz2") then inl Unpooled
  else inr (Errorf ("unsupported compression format: " +:+ Quote compType
                    +:+ " (supported: gzip, zstd, snappy, bzip2, none)") []).
Definition selectWriter (compression : string) : Selected + error :=
  let t := lowerTrim compression in
  if (t =s "") || (t =s "none") then inl Plain
  else if (t =s "gzip") || (t =s "gz") then inl (Pooled GzipWriter)
  else if t =s "zstd" then inl (Pooled ZstdWriter)
  else if (t =s "snappy") || (t =s "sz") then inl (Pooled SnappyWriter)
  else inr (Errorf ("unsupported output compression format: " +:+ Quote compression
                    +:+ " (supported: gzip, zstd, snappy, none)") []).
Definition select (c : WrapCall) : Selected + error :=
  match c with Decompress t => selectReader t | Compress t => selectWriter t end.
End Select.

(** The packages gzip, zstd and snappy: objects of a state [St] that are called ([Read],
    [Write], [Flush]: an [Op] with an answer [Res]) and act on the stream [W] below them. *)
Class CodecLibrary (St Op Res W : Type) := {
  lib_new : Kind -> St;
  lib_reset : Kind -> St -> W -> option error * St * W;
  lib_detach : Kind -> St -> St;
  lib_call : Kind -> St -> Op -> W -> Res * St * W;
  lib_close : Kind -> St -> W -> option error * St * W;
  nowhere : W }.
(** [Reset] makes an object equivalent to a new one on that stream. *)
Class CodecLaws (St Op Res W : Type) `{CodecLibrary St Op Res W} :=
  reset_forgets : forall k st st' w, lib_reset k st w = lib_reset k st' w.

(** ** The pools *)
Section Pools.
Context {St Op Res W : Type} `{CodecLibrary St Op Res W, UnicodeLower, GoQuote}.

(** [oBelow]: the stream the object was reset to; none for [io.Discard] and nil. *)
Record Obj := mkObj { oKind : Kind; oState : St; oBelow : option nat }.
(** The objects ever made, those put back and not yet got, the streams, and the object
    each wrapper points to. The stream of wrapper [h] is stream [h]. *)
Record Pools := mkPools { objs : list Obj; pooled : list nat; files : list W; handles : list nat }.
Definition startPools : Pools := mkPools [] [] [] [].

(** [sync.Pool.Get] gives any object of the pool, or a new one: it may have dropped what
    it held. [pos] is its choice. *)
Definition Get (k : Kind) (pos : option nat) (s : Pools) : option (nat * Pools) :=
  match pos with
  | None => Some (length (objs s), mkPools (objs s ++ [mkObj k (lib_new k) None]) (pooled s) (files s) (handles s))
  | Some p =>
      i ← pooled s !! p; o ← objs s !! i;
      if bool_decide (oKind o = k)
      then Some (i, mkPools (objs s) (delete p (pooled s)) (files s) (handles s)) else None
  end.
Definition Put (i : nat) (s : Pools) : Pools := mkPools (objs s) (i :: pooled s) (files s) (handles s).
(** An action of object [i] on the stream below it. *)
Definition act {A} (f : Kind -> St -> W -> A * St * W) (i : nat) (s : Pools) : option (A * Pools) :=
  o ← objs s !! i;
  let w := match oBelow o with Some h => default nowhere (files s !! h) | None => nowhere end in
  let '(r, st, w') := f (oKind o) (oState o) w in
  Some (r, mkPools (<[i := mkObj (oKind o) st (oBelow o)]> (objs s)) (pooled s)
             (match oBelow o with Some h => <[h := w']> (files s) | None => files s end) (handles s)).
(** [Reset(nil)] and [Reset(io.Discard)]. *)
Definition detach (i : nat) (s : Pools) : Pools :=
  mkPools (alter (fun o => mkObj (oKind o) (lib_detach (oKind o) (oState o)) None) i (objs s)) (pooled s) (files s)
    (handles s).

(** The readers of gzip and zstd can refuse a stream. *)
Definition refusal (k : Kind) (e : option error) : option error :=
  match k, e with
  | GzipReader, Some e => Some (Errorf ("failed to reset gzip reader: " +:+ Error e) [e])
  | ZstdReader, Some e => Some (Errorf ("failed to reset zstd reader: " +:+ Error e) [e])
  | _, _ => None
  end.
(** [WrapDecompressor] and [WrapCompressor] around the stream [w]: the number of the
    wrapper, if the format has one, and what [Reset] left of the stream. *)
Definition wrapPooled (k : Kind) (w : W) (pos : option nat) (s : Pools) : option ((option nat + error) * W * Pools) :=
  '(i, s) ← Get k pos s; o ← objs s !! i;
  let '(e, st, w') := lib_reset k (oState o) w in
  let put b s := mkPools (<[i := mkObj k st b]> (objs s)) (pooled s) (files s) (handles s) in
  match refusal k e with
  | Some e => Some (inr e, w', Put i (put None s))
  | None => let h := length (handles s) in
            let s := put (Some h) s in
            Some (inl (Some h), w', mkPools (objs s) (pooled s) (files s ++ [w']) (handles s ++ [i]))
  end.
Definition Wrap (c : WrapCall) (w : W) (pos : option nat) (s : Pools) : option ((option nat + error) * W * Pools) :=
  match select c with
  | inr e => Some (inr e, w, s)
  | inl (Plain | Unpooled) => Some (inl None, w, s)
  | inl (Pooled k) => wrapPooled k w pos s
  end.
(** [Close] of the six wrappers. *)
Definition closeCodec (i : nat) (s : Pools) : option (option error * Pools) :=
  o ← objs s !! i;
  match oKind o with
  | GzipReader => '(e, s) ← act lib_close i s; Some (e, Put i s)
  | ZstdReader | SnappyReader => Some (None, Put i (detach i s))
  | GzipWriter | ZstdWriter | SnappyWriter => '(e, s) ← act lib_close i s; Some (e, Put i (detach i s))
  end.

(** ** Traces of calls *)
Inductive Request := QWrap (c : WrapCall) (w : W) | QCall (h : nat) (op : Op) | QClose (h : nat).
Inductive Answer := AWrap (r : option nat + error) (w : W) | ACall (r : Res) | AClose (e : option error).
Definition served (pos : option nat) (q : Request) (s : Pools) : option (Answer * Pools) :=
  match q with
  | QWrap c w => '(r, w, s) ← Wrap c w pos s; Some (AWrap r w, s)
  | QCall h op => i ← handles s !! h; '(r, s) ← act (fun k st => lib_call k st op) i s; Some (ACall r, s)
  | QClose h => i ← handles s !! h; '(e, s) ← closeCodec i s; Some (AClose e, s)
  end.
Inductive poolRun : Pools -> list (Request * Answer) -> Pools -> Prop :=
  | pr_done s : poolRun s [] s
  | pr_step pos q a s1 s2 s3 l : served pos q s1 = Some (a, s2) -> poolRun s2 l s3 -> poolRun s1 ((q, a) :: l) s3.

(** No wrapper is used before it was made or after it was closed. *)
Definition usable (O : gset nat) (q : Request) : Prop := match q with QWrap _ _ => True | QCall h _ | QClose h => h ∈ O end.
Definition afterwards (O : gset nat) (q : Request) (a : Answer) : gset nat :=
  match q, a with
  | QWrap _ _, AWrap (inl (Some h)) _ => {[h]} ∪ O
  | QClose h, _ => O ∖ {[h]}
  | _, _ => O
  end.
Fixpoint wellUsed (O : gset nat) (l : list (Request * Answer)) : Prop :=
  match l with [] => True | (q, a) :: l => usable O q /\ wellUsed (afterwards O q a) l end.

(** ** Reference: every stream has a codec of its own, made for it *)
Record Own := mkOwn { ownFiles : list W; codecs : list (Kind * St); opened : gset nat }.
Definition startOwn : Own := mkOwn [] [] ∅.
Definition ownAct {A} (f : Kind -> St -> W -> A * St * W) (h : nat) (r : Own) : option (A * Own) :=
  if bool_decide (h ∈ opened r) then
    '(k, st) ← codecs r !! h; w ← ownFiles r !! h;
    let '(x, st, w) := f k st w in
    Some (x, mkOwn (<[h := w]> (ownFiles r)) (<[h := (k, st)]> (codecs r)) (opened r))
  else None.
(** The readers of zstd and snappy are not told that they are closed. *)
Definition ownClose (k : Kind) (st : St) (w : W) : option error * St * W :=
  match k with ZstdReader | SnappyReader => (None, st, w) | _ => lib_close k st w end.
Definition own (q : Request) (r : Own) : option (Answer * Own) :=
  match q with
  | QWrap c w =>
      match select c with
      | inr e => Some (AWrap (inr e) w, r)
      | inl (Plain | Unpooled) => Some (AWrap (inl None) w, r)
      | inl (Pooled k) =>
          let '(e, st, w) := lib_reset k (lib_new k) w in
          match refusal k e with
          | Some e => Some (AWrap (inr e) w, r)
          | None => let h := length (codecs r) in
                    Some (AWrap (inl (Some h)) w,
                          mkOwn (ownFiles r ++ [w]) (codecs r ++ [(k, st)]) ({[h]} ∪ opened r))
          end
      end
  | QCall h op => '(x, r) ← ownAct (fun k st => lib_call k st op) h r; Some (ACall x, r)
  | QClose h => '(e, r) ← ownAct ownClose h r; Some (AClose e, mkOwn (ownFiles r) (codecs r) (opened r ∖ {[h]}))
  end.
Inductive ownRun : Own -> list (Request * Answer) -> Own -> Prop :=
  | or_done r : ownRun r [] r
  | or_step q a r1 r2 r3 l : own q r1 = Some (a, r2) -> ownRun r2 l r3 -> ownRun r1 ((q, a) :: l) r3.

(** ** The simulation *)
Record matches (s : Pools) (r : Own) : Prop := {
  m_files : files s = ownFiles r;
  m_handles : length (handles s) = length (files s);
  m_codecs : length (codecs r) = length (files s);
  m_nodup : NoDup (pooled s);
  m_pooled : forall i, i ∈ pooled s -> (i < length (objs s))%nat;
  m_open : forall h, h ∈ opened r -> exists i k st, handles s !! h = Some i /\ codecs r !! h = Some (k, st)
             /\ objs s !! i = Some (mkObj k st (Some h)) /\ i ∉ pooled s }.

Lemma start_matches : matches startPools startOwn.
Proof. split; cbn; try done; try apply NoDup_nil_2; set_solver. Qed.

(** An open wrapper acts through its object as it would through its own codec. *)
Lemma act_own {A} (f : Kind -> St -> W -> A * St * W) s r h : matches s r -> h ∈ opened r ->
  exists i x s' r', handles s !! h = Some i /\ act f i s = Some (x, s') /\ ownAct f h r = Some (x, r')
  /\ matches s' r' /\ opened r' = opened r /\ handles s' = handles s.
Proof.
  intros [Hf Hh Hc Hn Hp Ho] Hin. destruct (Ho h Hin) as (i & k & st & Ei & Ek & Eo & Hi).
  assert (exists w, files s !! h = Some w) as (w & Ew).
  { apply lookup_lt_is_Some. apply lookup_lt_Some in Ek. lia. }
  destruct (f k st w) as [[x st'] w'] eqn:Ef. exists i, x. eexists _, _. split; [done|].
  unfold act, ownAct. rewrite Eo, bool_decide_true, Ek, <- Hf, Ew by done. cbn [oBelow oKind oState default mbind option_bind from_option].
  rewrite Ew. cbn [from_option]. unfold id. rewrite Ef. do 2 (split; [reflexivity|]). split; [|done]. split; cbn.
  - done.
  - by rewrite length_insert.
  - by rewrite !length_insert.
  - done.
  - intros j Hj. rewrite length_insert. by apply Hp.
  - intros h' Hin'. destruct (decide (h' = h)) as [->|Hne].
    + exists i, k, st'. rewrite !list_lookup_insert_eq; [done|..]; [by apply lookup_lt_Some in Eo|by apply lookup_lt_Some in Ek].
    + destruct (Ho h' Hin') as (i' & k' & st'' & Ei' & Ek' & Eo' & Hi'). exists i', k', st''.
      assert (i' <> i) by congruence. by rewrite !list_lookup_insert_ne.
Qed.

(** What closing does after the library's [Close], to the object alone. *)
Definition discard (k : Kind) (i : nat) (s : Pools) : Pools :=
  match k with GzipReader => s | _ => detach i s end.
Lemma closeCodec_act i s o : objs s !! i = Some o ->
  closeCodec i s = ('(e, s) ← act ownClose i s; Some (e, Put i (discard (oKind o) i s))).
Proof.
  intros Eo. unfold closeCodec. rewrite Eo. cbn [mbind option_bind].
  assert (act (fun _ st w => (@None error, st, w)) i s = Some (None, s)) as Hid.
  { unfold act. rewrite Eo. cbn [mbind option_bind]. destruct o as [k st [h|]], s as [os ps fs hs]; cbn in *; f_equal; f_equal;
      rewrite list_insert_id by done; f_equal. destruct (fs !! h) eqn:E; cbn; [by rewrite list_insert_id|].
    apply list_insert_ge. by apply lookup_ge_None. }
  assert (forall k, oKind o = k -> act ownClose i s = act (fun _ => ownClose k) i s) as Hk.
  { intros k <-. unfold act. by rewrite Eo. }
  destruct (oKind o) eqn:Ek; rewrite (Hk _ eq_refl); unfold ownClose; rewrite ?Hid; try done;
    unfold act; rewrite Eo; cbn; by rewrite Ek.
Qed.

(** A closed wrapper gives up its object, whatever is done to it. *)
Lemma release_matches s s' r h i : matches s r -> h ∈ opened r -> handles s !! h = Some i ->
  pooled s' = i :: pooled s -> files s' = files s -> handles s' = handles s -> length (objs s') = length (objs s) ->
  (forall j, j <> i -> objs s' !! j = objs s !! j) ->
  matches s' (mkOwn (ownFiles r) (codecs r) (opened r ∖ {[h]})).
Proof.
  intros [Hf Hh Hc Hn Hp Ho] Hin Ei Ep Ef Ehs El Eo.
  destruct (Ho h Hin) as (i0 & k & st & Ei0 & Ek & Eo0 & Hi). assert (i0 = i) as -> by congruence.
  split; cbn; rewrite ?Ef, ?Ehs, ?Ep, ?El; try done.
  - by constructor.
  - intros j [->|Hj]%elem_of_cons; [by apply lookup_lt_Some in Eo0|by apply Hp].
  - intros h' [Hin' Hne]%elem_of_difference. rewrite elem_of_singleton in Hne.
    destruct (Ho h' Hin') as (i' & k' & st' & Ei' & Ek' & Eo' & Hi'). exists i', k', st'.
    assert (i' <> i) by congruence. rewrite Eo by done. repeat (split; [done|]). rewrite elem_of_cons. tauto.
Qed.

(** What [Get] gives belongs to nobody. *)
Definition unheld (i : nat) (s : Pools) (r : Own) : Prop := i ∉ pooled s /\ forall h, h ∈ opened r -> handles s !! h <> Some i.
Lemma Get_matches k pos s r i s' : matches s r -> Get k pos s = Some (i, s') ->
  matches s' r /\ unheld i s' r /\ handles s' = handles s /\ files s' = files s
  /\ exists st b, objs s' !! i = Some (mkObj k st b).
Proof.
  intros [Hf Hh Hc Hn Hp Ho] Hg. destruct pos as [p|]; cbn in Hg.
  - destruct (pooled s !! p) as [j|] eqn:Ej; cbn in Hg; [|done]. destruct (objs s !! j) as [[k' st b]|] eqn:Eo; cbn in Hg; [|done].
    case_bool_decide; [|done]. injection Hg as <- <-. subst k'. pose proof (delete_Permutation _ _ _ Ej) as Hd.
    rewrite Hd in Hn. apply NoDup_cons in Hn as [Hj Hn]. split; [|split; [|split; [|split]]]; cbn; try done; [| |eauto].
    + split; cbn; try done; [intros j' Hj'; apply Hp; rewrite Hd; by right|].
      intros h Hin. destruct (Ho h Hin) as (i & k' & st' & ? & ? & ? & Hi). exists i, k', st'. repeat (split; [done|]).
      contradict Hi. rewrite Hd. by right.
    + split; cbn; [done|]. intros h Hin. destruct (Ho h Hin) as (i & k' & st' & -> & _ & _ & Hi). intros [= ->]. apply Hi. rewrite Hd. by left.
  - injection Hg as <- <-. split; [|split; [|split; [|split]]]; cbn; try done; [split; cbn; try done|split; cbn|].
    + intros j Hj. rewrite length_app. cbn. specialize (Hp j Hj). lia.
    + intros h Hin. destruct (Ho h Hin) as (i & k' & st' & ? & ? & Eo & Hi). exists i, k', st'. repeat (split; [done|]).
      split; [|done]. rewrite lookup_app_l; [done|by apply lookup_lt_Some in Eo].
    + intros Hl. specialize (Hp _ Hl). lia.
    + intros h Hin. destruct (Ho h Hin) as (i & k' & st' & -> & _ & Eo & _). apply lookup_lt_Some in Eo. intros [= ->]. lia.
    + rewrite lookup_app_r by lia. rewrite Nat.sub_diag. cbn. eauto.
Qed.

(** An object nobody holds can be set, and put back. *)
Lemma unheld_matches s r i o : matches s r -> unheld i s r -> (i < length (objs s))%nat ->
  let s' := mkPools (<[i := o]> (objs s)) (pooled s) (files s) (handles s) in
  matches s' r /\ matches (Put i s') r.
Proof.
  intros [Hf Hh Hc Hn Hp Ho] [Hi Hu] Hl s'. assert (forall h, h ∈ opened r -> exists j k st, handles s !! h = Some j
    /\ codecs r !! h = Some (k, st) /\ <[i := o]> (objs s) !! j = Some (mkObj k st (Some h)) /\ j ∉ pooled s /\ j <> i) as Ho'.
  { intros h Hin. destruct (Ho h Hin) as (j & k & st & Ej & ? & ? & ?). exists j, k, st. assert (j <> i) by (intros ->; by apply (Hu h)).
    by rewrite list_lookup_insert_ne. }
  split; split; cbn; try done.
  - intros j Hj. rewrite length_insert. by apply Hp.
  - intros h Hin. destruct (Ho' h Hin) as (j & k & st & ? & ? & ? & ? & _). by exists j, k, st.
  - by constructor.
  - intros j [->|Hj]%elem_of_cons; rewrite length_insert; [done|by apply Hp].
  - intros h Hin. destruct (Ho' h Hin) as (j & k & st & ? & ? & ? & ? & ?). exists j, k, st.
    repeat (split; [done|]). rewrite elem_of_cons. tauto.
Qed.
(** A new wrapper of an object nobody holds. *)
Lemma opens_matches s r i k st w : matches s r -> unheld i s r -> (i < length (objs s))%nat ->
  matches (mkPools (<[i := mkObj k st (Some (length (handles s)))]> (objs s)) (pooled s) (files s ++ [w]) (handles s ++ [i]))
    (mkOwn (ownFiles r ++ [w]) (codecs r ++ [(k, st)]) ({[length (codecs r)]} ∪ opened r)).
Proof.
  intros Hm Hu Hl. destruct (unheld_matches s r i (mkObj k st (Some (length (handles s)))) Hm Hu Hl) as [[Hf Hh Hc Hn Hp Ho] _].
  cbn in *. assert (length (codecs r) = length (handles s)) as El by congruence. split; cbn; rewrite ?length_app; cbn; try lia; try done; [congruence|].
  intros h [->%elem_of_singleton|Hin]%elem_of_union.
  - exists i, k, st. rewrite El. rewrite !lookup_app_r, Nat.sub_diag by lia. rewrite El, Nat.sub_diag.
    rewrite list_lookup_insert_eq by done. repeat (split; [done|]). apply Hu.
  - destruct (Ho h Hin) as (j & k' & st' & Ej & Ek & ? & ?). exists j, k', st'.
    rewrite !lookup_app_l by (by eapply lookup_lt_Some). done.
Qed.

Context `{!CodecLaws St Op Res W}.
Lemma wrapPooled_own k w pos s r x w' s' : matches s r -> wrapPooled k w pos s = Some (x, w', s') ->
  let '(e, st, w1) := lib_reset k (lib_new k) w in
  w' = w1 /\ match refusal k e with
             | Some e => x = inr e /\ matches s' r
             | None => x = inl (Some (length (codecs r)))
                 /\ matches s' (mkOwn (ownFiles r ++ [w1]) (codecs r ++ [(k, st)]) ({[length (codecs r)]} ∪ opened r))
             end.
Proof.
  intros Hm Hw. unfold wrapPooled in Hw. destruct (Get k pos s) as [[i s1]|] eqn:Eg; cbn in Hw; [|done].
  destruct (Get_matches k pos s r i s1 Hm Eg) as (Hm1 & Hu & Eh & Ef & st0 & b & Eo). rewrite Eo in Hw. cbn in Hw.
  rewrite (reset_forgets k st0 (lib_new k)) in Hw. destruct (lib_reset k (lib_new k) w) as [[e st] w1].
  pose proof (lookup_lt_Some _ _ _ Eo) as Hl.
  destruct (refusal k e) as [e'|]; injection Hw as <- <- <-; split; [done| |done|]; (split; [try done|]).
  - by apply (unheld_matches s1 r i).
  - destruct Hm1 as [_ Eh1 Ec1 _ _ _]. by rewrite Ec1, <- Eh1.
  - by apply opens_matches.
Qed.

Lemma served_own pos q s r a s' : matches s r -> usable (opened r) q -> served pos q s = Some (a, s') ->
  exists r', own q r = Some (a, r') /\ matches s' r' /\ opened r' = afterwards (opened r) q a.
Proof.
  intros Hm Hq Hs. destruct q as [c w|h op|h]; cbn in Hs, Hq.
  - unfold Wrap in Hs. unfold own. destruct (select c) as [[| |k]|e];
      try (injection Hs as <- <-; eexists; split; [done|]; by split).
    destruct (wrapPooled k w pos s) as [[[x w'] s1]|] eqn:Ew; [|done]. injection Hs as <- <-.
    pose proof (wrapPooled_own k w pos s r x w' s1 Hm Ew) as Hk.
    destruct (lib_reset k (lib_new k) w) as [[e st] w1]. destruct Hk as [-> Hk].
    destruct (refusal k e) as [e'|]; destruct Hk as [-> Hk]; eexists; split; [done| |done|]; by split.
  - destruct (act_own (fun k st => lib_call k st op) s r h Hm Hq) as (i & x & s1 & r1 & Ei & Ea & Eo & Hm1 & Ho1 & _).
    rewrite Ei in Hs. cbn in Hs. rewrite Ea in Hs. injection Hs as <- <-. exists r1. cbn. rewrite Eo. by split.
  - destruct (act_own ownClose s r h Hm Hq) as (i & x & s1 & r1 & Ei & Ea & Eo & Hm1 & Ho1 & Eh1).
    rewrite Ei in Hs. cbn [mbind option_bind] in Hs. destruct (m_open s r Hm h Hq) as (i0 & k & st & Ei0 & _ & Eob & _).
    assert (i0 = i) as -> by congruence. rewrite (closeCodec_act i s _ Eob), Ea in Hs. injection Hs as <- <-.
    eexists. cbn [own]. rewrite Eo. split; [done|]. split; [|by cbn; rewrite Ho1].
    rewrite <- Ho1 in Hq. cbn [oKind].
    apply (release_matches s1 _ r1 h i Hm1 Hq); [by rewrite Eh1|..]; unfold Put, discard; destruct k; cbn; try done;
      rewrite ?length_alter; try done; intros j Hj; by rewrite ?list_lookup_alter_ne.
Qed.
Lemma served_total q s r : matches s r -> usable (opened r) q -> exists a s', served None q s = Some (a, s').
Proof.
  intros Hm Hq. destruct q as [c w|h op|h]; cbn in Hq |- *.
  - unfold Wrap. destruct (select c) as [[| |k]|e]; try by eexists _, _.
    unfold wrapPooled. cbn. rewrite lookup_app_r, Nat.sub_diag by lia. cbn.
    destruct (lib_reset _ _ _) as [[e st] w']. destruct (refusal k e); by eexists _, _.
  - destruct (act_own (fun k st => lib_call k st op) s r h Hm Hq) as (i & x & s1 & r1 & -> & Ea & _). cbn. rewrite Ea. by eexists _, _.
  - destruct (act_own ownClose s r h Hm Hq) as (i & x & s1 & r1 & Ei & Ea & _). rewrite Ei. cbn [mbind option_bind].
    destruct (m_open s r Hm h Hq) as (i0 & k & st & Ei0 & _ & Eob & _). assert (i0 = i) as -> by congruence.
    rewrite (closeCodec_act i s _ Eob), Ea. by eexists _, _.
Qed.
Lemma own_usable q r a r' : own q r = Some (a, r') -> usable (opened r) q.
Proof.
  destruct q as [c w|h op|h]; cbn; [done|unfold ownAct..]; by case_bool_decide.
Qed.

Lemma run_own s l s' r : poolRun s l s' -> matches s r -> wellUsed (opened r) l -> exists r', ownRun r l r' /\ matches s' r'.
Proof.
  intros Hr. revert r. induction Hr as [s|pos q a s1 s2 s3 l Hs Hr IH]; intros r Hm; cbn.
  - intros _. exists r. by split; [constructor|].
  - intros [Hq Hl]. destruct (served_own pos q s1 r a s2 Hm Hq Hs) as (r' & Eo & Hm' & Ho). rewrite <- Ho in Hl.
    destruct (IH r' Hm' Hl) as (r'' & Hr'' & Hm''). exists r''. split; [by eapply or_step|done].
Qed.
Lemma own_run r l r' s : ownRun r l r' -> matches s r -> wellUsed (opened r) l /\ exists s', poolRun s l s' /\ matches s' r'.
Proof.
  intros Hr. revert s. induction Hr as [r|q a r1 r2 r3 l Eo Hr IH]; intros s Hm; cbn.
  - split; [done|]. exists s. by split; [constructor|].
  - pose proof (own_usable _ _ _ _ Eo) as Hq. destruct (served_total q s r1 Hm Hq) as (a' & s' & Hs).
    destruct (served_own None q s r1 a' s' Hm Hq Hs) as (r' & Eo' & Hm' & Ho).
    assert (a' = a /\ r' = r2) as [-> ->] by (split; congruence).
    destruct (IH s' Hm') as [Hl (s'' & Hr'' & Hm'')]. rewrite Ho in Hl. split; [by split|].
    exists s''. split; [by eapply pr_step|done].
Qed.

(** ** Properties *)

(** C16. The pools cannot be observed. Whatever objects the pools give out, whatever they
    drop, and however the calls of the streams interleave: a trace of calls in which no
    wrapper is used or closed again after it was closed gets, from the pooled
    compressors and decompressors, exactly the answers and leaves exactly the streams
    that it gets when every stream has a codec of its own, made for it and never used
    again; and every such trace can happen. *)
Theorem pools_are_transparent (l : list (Request * Answer)) (fs : list W) :
  (wellUsed ∅ l /\ exists s, poolRun startPools l s /\ files s = fs)
  <-> exists r, ownRun startOwn l r /\ ownFiles r = fs.
Proof.
  split.
  - intros [Hl (s & Hr & <-)]. destruct (run_own _ _ _ _ Hr start_matches Hl) as (r & Hr' & Hm). exists r. by rewrite (m_files _ _ Hm).
  - intros (r & Hr & <-). destruct (own_run _ _ _ _ Hr start_matches) as [Hl (s & Hr' & Hm)].
    split; [done|]. exists s. by rewrite (m_files _ _ Hm).
Qed.
End Pools.

Ltac name_case := cbn [orb]; match goal with |- context [String.eqb ?a ?b] => destruct (String.eqb a b) end.
(** The names select what [WrapDecompressor] and [WrapCompressor] of Connectors.v do. *)
Lemma selectWriter_spec `{StreamCompressors, UnicodeLower, GoQuote} compression :
  match selectWriter compression, WrapCompressor compression with
  | inr e, inr e' => e = e'
  | inl Plain, inl None => True
  | inl (Pooled GzipWriter), inl (Some c) => c = gzipC
  | inl (Pooled ZstdWriter), inl (Some c) => c = zstdC
  | inl (Pooled SnappyWriter), inl (Some c) => c = snappyC
  | _, _ => False
  end.
Proof. unfold selectWriter, WrapCompressor. by repeat name_case. Qed.
Lemma selectReader_spec `{StreamCodecs, UnicodeLower, GoQuote} compType l broken :
  match selectReader compType with
  | inr e => WrapDecompressor l broken compType = inr e
  | inl Plain => WrapDecompressor l broken compType = inl (l, broken)
  | inl Unpooled => WrapDecompressor l broken compType = inl (bunzip2 l broken)
  | inl (Pooled SnappyReader) => WrapDecompressor l broken compType = inl (unsnappy l broken)
  | inl (Pooled ZstdReader) => WrapDecompressor l broken compType
      = match unzstd l broken with
        | inl r => inl r
        | inr e => inr (default e (refusal ZstdReader (Some e)))
        end
  | inl (Pooled GzipReader) => WrapDecompressor l broken compType
      = match gunzip l broken with
        | inl r => inl r
        | inr e => inr (default e (refusal GzipReader (Some e)))
        end
  | inl (Pooled _) => False
  end.
Proof.
  unfold selectReader, WrapDecompressor. repeat name_case; try done; try (by destruct (gunzip _ _)); by destruct (unzstd _ _).
Qed.

(** ** The pool of buffers of the formatters *)
Record Buffer := mkBuffer { content : list byte; bufCap : Z }.
Definition defaultPoolBufferSize : Z := 32 * 1024.
Definition GetBuffer (pos : option nat) (pool : list Buffer) : option (Buffer * list Buffer) :=
  match pos with
  | None => Some (mkBuffer [] defaultPoolBufferSize, pool)
  | Some p => b ← pool !! p; Some (b, delete p pool)
  end.
Definition PutBuffer (buf : option Buffer) (pool : list Buffer) : list Buffer :=
  match buf with
  | None => pool
  | Some b => if 1024 * 1024 <? bufCap b then pool else mkBuffer [] (bufCap b) :: pool
  end.
(** [formatRow] with its buffer, which [csv.Writer] has grown to [cap]. *)
Definition formatRowPooled (f : CSVFormatter) (cols : list string) (pos : option nat) (cap : Z) (pool : list Buffer)
    : option ((list byte + error) * list Buffer) :=
  '(buf, pool) ← GetBuffer pos pool;
  match Write (delimiter f) cols with
  | inr e => Some (inr e, PutBuffer (Some buf) pool)
  | inl t => let b := content buf ++ t in
             Some (inl (trimNewlines b ++ bytes (lineTerminator f)), PutBuffer (Some (mkBuffer b cap)) pool)
  end.
Definition poolClean (pool : list Buffer) : Prop := Forall (fun b => content b = [] /\ bufCap b <= 1024 * 1024) pool.
Lemma PutBuffer_clean b pool : poolClean pool -> poolClean (PutBuffer b pool).
Proof.
  intros Hp. destruct b as [b|]; [|done]. cbn. destruct (Z.ltb_spec (1024 * 1024) (bufCap b)); [done|].
  constructor; [by split|done].
Qed.
(** Rows do not depend on what earlier rows left in the buffers, and the pool keeps no
    contents and no buffer of more than one mebibyte. *)
Lemma formatRowPooled_spec f cols pos cap pool r pool' : poolClean pool ->
  formatRowPooled f cols pos cap pool = Some (r, pool') -> r = formatRow f cols /\ poolClean pool'.
Proof.
  unfold formatRowPooled, formatRow. intros Hp Hf.
  assert (exists b p, GetBuffer pos pool = Some (b, p) /\ content b = [] /\ poolClean p) as (b & p & E & Hb & Hc).
  { destruct pos as [n|]; cbn in Hf |- *; [|by eexists _, _]. destruct (pool !! n) as [b|] eqn:En; [|done].
    exists b, (delete n pool). split; [done|]. split; [by apply (Forall_lookup_1 _ _ _ _ Hp En)|by apply Forall_delete]. }
  rewrite E in Hf. cbn [mbind option_bind] in Hf. rewrite Hb in Hf. destruct (Write _ _) as [t|];
    injection Hf as <- <-; (split; [done|]); [by apply (PutBuffer_clean (Some (mkBuffer t cap)))|by apply (PutBuffer_clean (Some b))].
Qed.

(** ** Witness and finding *)
(** A codec that passes bytes on and ends with a full stop. *)
#[local] Instance plainCodec : CodecLibrary unit (list byte) unit (list byte) := {
  lib_new _ := tt; lib_reset _ st w := (None, st, w); lib_detach _ st := st;
  lib_call _ st p w := (tt, st, w ++ p); lib_close _ st w := (None, st, w ++ bytes "."); nowhere := [] }.
#[local] Instance plainLaws : CodecLaws unit (list byte) unit (list byte).
Proof. by intros k [] [] w. Qed.
#[local] Instance poolLower : UnicodeLower := fun s => s.
#[local] Instance poolQuote : GoQuote := fun s => s.
Abbreviation trace := (list (Request (Op := list byte) (W := list byte) * Answer (Res := unit) (W := list byte))).
Ltac serves p := eapply (pr_step p); [vm_compute; reflexivity|].

(** Two files, one after the other, with one compressor. *)
Definition twoFiles : trace :=
  [(QWrap (Compress "gzip") [], AWrap (inl (Some 0%nat)) []); (QCall 0 (bytes "one"), ACall tt);
   (QClose 0, AClose None);
   (QWrap (Compress "gz") [], AWrap (inl (Some 1%nat)) []); (QCall 1 (bytes "two"), ACall tt); (QClose 1, AClose None)].
Lemma pools_are_transparent_witness :
  (exists s, poolRun startPools twoFiles s /\ files s = [bytes "one."; bytes "two."] /\ length (objs s) = 1%nat)
  /\ exists r, ownRun startOwn twoFiles r /\ ownFiles r = [bytes "one."; bytes "two."].
Proof.
  assert (exists s, poolRun startPools twoFiles s /\ files s = [bytes "one."; bytes "two."] /\ length (objs s) = 1%nat) as Hs.
  { eexists. split; [|split].
    - serves (@None nat). serves (@None nat). serves (@None nat). serves (Some 0%nat). serves (@None nat). serves (@None nat).
      apply pr_done.
    - reflexivity.
    - reflexivity. }
  split; [exact Hs|]. apply (proj1 (pools_are_transparent twoFiles [bytes "one."; bytes "two."])). split.
  - repeat split; apply (bool_decide_unpack _); vm_compute; exact I.
  - destruct Hs as (s & Hr & Hf & _). exists s. by split.
Defined.

(** The delimited file writer closes its compressor a second time when the storage fails
    to close. By then the object may be another stream's: it is closed and detached
    under it, and what that stream writes next goes nowhere. *)
Definition closedTwice : trace :=
  [(QWrap (Compress "gzip") [], AWrap (inl (Some 0%nat)) []); (QClose 0, AClose None);
   (QWrap (Compress "gzip") [], AWrap (inl (Some 1%nat)) []); (QClose 0, AClose None);
   (QCall 1 (bytes "two"), ACall tt); (QClose 1, AClose None)].
Lemma double_close_loses_data : exists s, poolRun startPools closedTwice s /\ files s = [bytes "."; bytes "."].
Proof.
  eexists. split.
  - serves (@None nat). serves (@None nat). serves (Some 0%nat). serves (@None nat). serves (@None nat). serves (@None nat).
    apply pr_done.
  - reflexivity.
Qed.
