(* ===== verification/Registry.v ===== *)
(** * What the packages register before [main] starts

    [internal/ports/registry.go]: the four registries of connectors, which the [init]
    functions of the adapters fill and [main] reads; a name that is taken stops the
    program. Connectors.v fixes one order of the registrations; here they come in any
    order. Also the slices of pages that travel between the stages of the pipeline
    ([encPageSlice] of [internal/beam/core/graph_builder.go]). *)
From S2P Require Import Prelude GoStr Schema Intern Config Resilience JsonUtils HttpClient RestSource ApiSink Connectors Graph.

(** ** The registries *)
Inductive PagedAPISourceFactory := restReaders.
Inductive BatchAPIWriterFactory := restWriters.
Record Registries := mkRegistries {
  sources : gmap string SourceFactory; pagedSources : gmap string PagedAPISourceFactory;
  batchWriters : gmap string BatchAPIWriterFactory; sinks : gmap string SinkFactory }.
Definition noConnectors : Registries := mkRegistries ∅ ∅ ∅ ∅.

Section Register.
Context `{GoQuote}.
Definition RegisterSource (driver : string) (factory : SourceFactory) (r : Registries) : result Registries :=
  reg ← RegisterPort "source driver " driver factory (sources r);
  Ok (mkRegistries reg (pagedSources r) (batchWriters r) (sinks r)).
Definition RegisterPagedAPISource (sourceType : string) (factory : PagedAPISourceFactory) (r : Registries) : result Registries :=
  reg ← RegisterPort "paged api source " sourceType factory (pagedSources r);
  Ok (mkRegistries (sources r) reg (batchWriters r) (sinks r)).
Definition RegisterBatchAPIWriter (targetType : string) (factory : BatchAPIWriterFactory) (r : Registries) : result Registries :=
  reg ← RegisterPort "batch api writer " targetType factory (batchWriters r);
  Ok (mkRegistries (sources r) (pagedSources r) reg (sinks r)).
Definition RegisterSink (targetType : string) (factory : SinkFactory) (r : Registries) : result Registries :=
  reg ← RegisterPort "sink target " targetType factory (sinks r);
  Ok (mkRegistries (sources r) (pagedSources r) (batchWriters r) reg).

Inductive Registration :=
  | RegSource (driver : string) (factory : SourceFactory)
  | RegPaged (sourceType : string) (factory : PagedAPISourceFactory)
  | RegWriter (targetType : string) (factory : BatchAPIWriterFactory)
  | RegSink (targetType : string) (factory : SinkFactory).
Definition register (a : Registration) (r : Registries) : result Registries :=
  match a with
  | RegSource n f => RegisterSource n f r
  | RegPaged n f => RegisterPagedAPISource n f r
  | RegWriter n f => RegisterBatchAPIWriter n f r
  | RegSink n f => RegisterSink n f r
  end.
Fixpoint runInits (l : list Registration) (r : Registries) : result Registries :=
  match l with [] => Ok r | a :: l => r ← register a r; runInits l r end.
End Register.
(** The calls of the [init] functions of the packages the program imports. *)
Definition registrations : list Registration :=
  map (uncurry RegSource) sourceTable ++ map (uncurry RegSink) sinkTable
  ++ [RegPaged "rest_api" restReaders; RegPaged "http_api" restReaders;
      RegWriter "rest_api" restWriters; RegWriter "http_api" restWriters].

Section Build.
Context `{GoQuote, GoDuration} (r : Registries) (t : Z) (cfg : PipelineConfig) (sec : option (string -> string + error)).
Definition BuildPagedAPISource (sourceType : string) : RESTReader + error :=
  match lookupPort "paged api source " sourceType (pagedSources r) with
  | inr e => inr e
  | inl restReaders => restReaderFactory t (APISource cfg) sec
  end.
Definition BuildBatchAPIWriter (targetType : string) : APISink + error :=
  match lookupPort "batch api writer " targetType (batchWriters r) with
  | inr e => inr e
  | inl restWriters => restWriterFactory t (Destination cfg) sec
  end.
End Build.

(** ** Slices of pages on the wire: [decPageSlice] of what [encPageSlice] wrote *)
(** [json.Marshal] writes the keys in order; a key that the decoder reads twice keeps its
    last value. *)
Definition keysInOrder (m : gmap string string) : list (string * string) :=
  merge_sort keyLe (map_to_list m).
Definition pageOverWire `{GoJSONText} (p : PageSlice) : PageSlice :=
  mkPage (pg_Index p) (pg_Size p) (jsonText (pg_Cursor p))
    (fold_left (fun m kv => <[jsonText kv.1 := jsonText kv.2]> m) (keysInOrder (pg_Metadata p)) ∅).
(** The slices the discovery makes carry two integers, which travel exactly (unlike the
    bounds of the slices of a table). *)
Lemma pages_travel `{GoJSONText} index size : jsonText "" = "" ->
  pageOverWire (mkPage index size "" ∅) = mkPage index size "" ∅.
Proof. intros E. unfold pageOverWire, keysInOrder. cbn. rewrite map_to_list_empty, E. reflexivity. Qed.

(** ** Registering in any order *)
(** The name a registration takes, with the registry it is for. *)
Definition slot (a : Registration) : nat * string :=
  match a with RegSource n _ => (0%nat, n) | RegPaged n _ => (1%nat, n) | RegWriter n _ => (2%nat, n) | RegSink n _ => (3%nat, n) end.

Section Order.
Context `{GoQuote}.
Lemma RegisterPort_Ok {A} what n (f : A) reg reg' : RegisterPort what n f reg = Ok reg' ->
  reg !! n = None /\ reg' = <[n := f]> reg.
Proof. unfold RegisterPort. destruct (reg !! n); [done|]. by intros [= <-]. Qed.
Lemma RegisterPort_new {A} what n (f : A) reg : reg !! n = None -> RegisterPort what n f reg = Ok (<[n := f]> reg).
Proof. unfold RegisterPort. by intros ->. Qed.
Lemma RegisterPort_swap {A} what n m (f g : A) reg reg1 reg2 :
  RegisterPort what n f reg = Ok reg1 -> RegisterPort what m g reg1 = Ok reg2 ->
  exists reg1', RegisterPort what m g reg = Ok reg1' /\ RegisterPort what n f reg1' = Ok reg2.
Proof.
  intros [Hn ->]%RegisterPort_Ok [Hm ->]%RegisterPort_Ok. apply lookup_insert_None in Hm as [Hm Hne].
  exists (<[m := g]> reg). split; [by apply RegisterPort_new|]. rewrite RegisterPort_new by by rewrite lookup_insert_ne.
  by rewrite insert_insert_ne.
Qed.
Lemma register_swap a b r r1 r2 : register a r = Ok r1 -> register b r1 = Ok r2 ->
  exists r1', register b r = Ok r1' /\ register a r1' = Ok r2.
Proof.
  destruct a as [n f|n f|n f|n f], b as [m g|m g|m g|m g]; cbn;
    unfold RegisterSource, RegisterPagedAPISource, RegisterBatchAPIWriter, RegisterSink;
    destruct (RegisterPort _ n f _) as [x|e|s] eqn:En; cbn; try done; intros [= <-]; cbn;
    destruct (RegisterPort _ m g _) as [y|e|s] eqn:Em; cbn; try done; intros [= <-];
    try (destruct (RegisterPort_swap _ _ _ _ _ _ _ _ En Em) as (z & -> & Ez); eexists; split; [done|]; cbn; by rewrite Ez);
    eexists; (split; [done|]); cbn; by rewrite En.
Qed.
Lemma register_taken a b r r1 : slot a = slot b -> register a r = Ok r1 -> exists m, register b r1 = Panic m.
Proof.
  destruct a as [n f|n f|n f|n f], b as [m g|m g|m g|m g]; try done; intros [= <-]; cbn;
    unfold RegisterSource, RegisterPagedAPISource, RegisterBatchAPIWriter, RegisterSink;
    destruct (RegisterPort _ n f _) as [x|e|s] eqn:En; cbn; try done; intros [= <-]; cbn;
    apply RegisterPort_Ok in En as [_ ->]; unfold RegisterPort; rewrite lookup_insert_eq; by eexists.
Qed.
Lemma runInits_perm l l' r r' : l ≡ₚ l' -> runInits l r = Ok r' -> runInits l' r = Ok r'.
Proof.
  intros Hp. revert r. induction Hp as [|a l l' _ IH|a b l|l1 l2 l3 _ IH1 _ IH2]; intros r; cbn; [done| | |by auto].
  - destruct (register a r); cbn; [apply IH|done..].
  - destruct (register b r) as [r1|e|m] eqn:Eb; cbn; [|done..]. destruct (register a r1) as [r2|e|m] eqn:Ea; cbn; [|done..].
    destruct (register_swap b a r r1 r2 Eb Ea) as (r1' & -> & E). cbn. by rewrite E.
Qed.
Lemma runInits_no_error l r e : runInits l r <> Err e.
Proof.
  revert r. induction l as [|a l IH]; intros r; cbn; [done|].
  destruct a; cbn; unfold RegisterSource, RegisterPagedAPISource, RegisterBatchAPIWriter, RegisterSink, RegisterPort;
    case_match; cbn; try done; apply IH.
Qed.

(** The connectors do not depend on the order in which the packages are initialized:
    in every order the registrations succeed and fill the same four registries, in which
    the relational and document sources, the sinks, the REST reader and its writer are
    found under their names. Had two packages registered one name in one registry, the program would
    stop in every order. *)
Theorem registrations_in_any_order (l : list Registration) :
  (l ≡ₚ registrations -> exists r, runInits l noConnectors = Ok r
     /\ sources r = sourceRegistry /\ sinks r = sinkRegistry
     /\ (forall `{GoDuration} t cfg sec n, n = "rest_api" \/ n = "http_api" ->
          BuildPagedAPISource r t cfg sec n = restReaderFactory t (APISource cfg) sec
          /\ BuildBatchAPIWriter r t cfg sec n = restWriterFactory t (Destination cfg) sec))
  /\ (forall a b l', slot a = slot b -> l ≡ₚ a :: b :: l' -> exists m, runInits l noConnectors = Panic m).
Proof.
  split.
  - intros Hp. assert (exists r, runInits registrations noConnectors = Ok r /\ sources r = sourceRegistry /\ sinks r = sinkRegistry
      /\ pagedSources r = {["rest_api" := restReaders; "http_api" := restReaders]}
      /\ batchWriters r = {["rest_api" := restWriters; "http_api" := restWriters]}) as (r & Er & Hso & Hsi & Hpg & Hbw).
    { eexists. split; [vm_compute; reflexivity|]. split_and!; vm_compute; reflexivity. }
    exists r. split; [by apply (runInits_perm registrations)|]. split; [done|]. split; [done|].
    intros Hgd t cfg sec n Hn. unfold BuildPagedAPISource, BuildBatchAPIWriter, lookupPort. rewrite Hpg, Hbw.
    destruct Hn as [->| ->]; [rewrite !lookup_insert_eq|rewrite !lookup_insert_ne, !lookup_singleton_eq by done]; split; reflexivity.
  - intros a b l' Hs Hp. destruct (runInits l noConnectors) as [r|e|m] eqn:E; [|by apply runInits_no_error in E|by exists m].
    exfalso. apply (runInits_perm _ _ _ _ Hp) in E. cbn in E.
    destruct (register a noConnectors) as [r1|e|m] eqn:Ea; cbn in E; [|done..].
    destruct (register_taken a b _ _ Hs Ea) as (m & Em). by rewrite Em in E.
Qed.
End Order.
